(* ===== verification/_CoqProject ===== *)
-Q . S2P
Prelude.v
Text.v
Literals.v
Json.v
Errors.v
Transaction.v
Driver.v
Slices.v
TemporalKV.v
TemporalKVLog.v
TemporalKVList.v
TemporalKVServer.v
TemporalKVServerSpec.v
TemporalKVServerTheorems.v
Watermarks.v
TxHistoryCodec.v
TxHistoryRoundtrip.v
TxHistory.v
TxHistorySpec.v
TxHistoryServer.v
TxHistoryServerSpec.v
TxHistoryServerTheorems.v
Checkpoint.v
CheckpointSave.v
CheckpointSpec.v
CheckpointPrune.v
CheckpointTheorems.v
CheckpointHistory.v
CheckpointServer.v
CheckpointServerSpec.v
CheckpointServerInv.v
CheckpointServerSteps.v
CheckpointServerRuns.v
CheckpointServerTheorems.v
CheckpointServerSolo.v
CheckpointServerDemo.v
Hex.v
Utf8.v
JsonText.v
JsonTextSpec.v
Doubles.v
ChainArchive.v
ChainArchiveStore.v
ChainArchiveSpec.v
ChainArchiveDemo.v
ChainArchiveTheorems.v
ChainArchiveBundle.v
ChainArchiveReads.v
ChainArchiveFlip.v
ChainArchiveRoles.v
SyncClients.v
CanonicalJson.v
SyncService.v
SyncServiceSpec.v
SyncServiceTheorems.v
Client.v
Rollover.v
RolloverSpec.v
RolloverTheorems.v
ReplayDecoder.v
ReplayDecoderSpec.v
DurabilityProbe.v
Migrations.v
Migrate.v
MigrateSpec.v
MigrateTheorems.v
ChainArchiveMigrations.v
ChainArchiveBootstrap.v
SaveAndAdvance.v
Envelope.v
Lease.v
LeaseSpec.v
BenchStats.v
BenchGc.v
BenchGcSpec.v
BenchKv.v
BenchWorkloads.v
BenchWorkloadsSpec.v
MutationGate.v
MutationGateSpec.v
