(* ===== verification/Prelude.v ===== *)
(** * UmbraDB: a verification library

    UmbraDB is a TypeScript storage library over PostgreSQL. Under [src/interfaces/] it declares
    the contracts of its stores (with Zod schemas at their boundaries and a hierarchy of typed
    errors), under [src/postgres/] it implements them, and under [chain-archive-sync/] it has a
    service that fills one of the stores from a blockchain node and an indexer. This library models
    that code and proves what makes it correct. (Paths are relative to the repository; [Formal/] is
    its own algebra of storage laws, which several theorems state again over the code.)

    ** How the code is modelled

    An [async] method is a function [action E S A] from a state to a result and a new state: it
    resolves ([Ok]) or rejects ([Err]) with a thrown value, an inductive type with the classes of
    [storage-errors.ts] and the driver's errors. A table is a finite map or a list of rows, and a
    statement checks its constraints and triggers in PostgreSQL's order and changes the tables or
    raises that server's error. What the code cannot decide itself is data or a parameter of the
    model: the clock and sequence values of a call (contexts such as [KvCtx]); how the steps outside
    it settle (the fault lists of [Rollover] and [Migrate], [CallEnv] of [Lease], the answers of
    node and indexer in [SyncService]); SHA-256, [hashtext], the driver's text binding, [sql.begin],
    the merge function of a history store (classes with documented laws). JavaScript strings are
    their UTF-16 code units, integers are [Z] with every bound and rounding written out, JSON values
    are the type [jsval].

    ** The parts

    - [Prelude], [Text], [Literals], [Slices]: results and actions, strings and their PostgreSQL-safe
      subset, decimal and ISO literals, buffer slices.
    - [Json]: JSON values and the boundary schema of [interfaces/temporal-kv.ts].
    - [Errors]: [interfaces/storage-errors.ts] and [translatePostgresError] of [postgres/errors.ts],
      through which every adapter reports a driver error.
    - [Transaction]: [postgres/abort.ts] and [withTransaction] of [postgres/transaction-lease.ts]:
      the handle registry the stores resolve a [tx] option in. [Driver]: the interfaces by which an
      adapter's tables sit in a larger store, so that one transaction can span several adapters.
    - [Lease], [LeaseSpec]: the lease half of [transaction-lease.ts], over the server's advisory
      locks and the connection pool.
    - [TemporalKV], [TemporalKVLog], [TemporalKVList]: [postgres/temporal-kv.ts] with the history
      trigger of migration 001; its abstract specification, a log per key; the generator [listKeys].
    - [TemporalKVServer], [TemporalKVServerSpec], [TemporalKVServerTheorems]: transactions of guarded
      puts running at the same time on a server with row locks, and their serial executions.
    - [Watermarks]: [postgres/watermarks.ts].
    - [Checkpoint] and [CheckpointSave], [CheckpointSpec], [CheckpointPrune], [CheckpointTheorems],
      [CheckpointHistory]: [postgres/checkpoint-store.ts]: the content-addressed store of payloads
      in chunks, its invariant, and save, load, history and prune.
    - [CheckpointServer]: saves and prunes running at the same time on a server with row locks, one
      step per row a statement touches. [CheckpointServerSpec]: the serial executions they are
      compared with; [CheckpointServerInv], [CheckpointServerSteps], [CheckpointServerRuns]: the
      invariant of the server, what each step keeps, and runs; [CheckpointServerTheorems],
      [CheckpointServerSolo], [CheckpointServerDemo]: the theorems, one transaction alone, and
      concrete runs.
    - [SaveAndAdvance]: [postgres/save-and-advance.ts], which composes a checkpoint and a watermark
      in one transaction: proved against interfaces that both adapters are shown to implement.
    - [TxHistoryCodec], [TxHistoryRoundtrip], [TxHistory], [TxHistorySpec]:
      [postgres/transaction-history-storage.ts]: the tagged JSON codec of entries, and the adapter
      against a map of entries. [TxHistoryServer], [TxHistoryServerSpec], [TxHistoryServerTheorems]:
      its writes running at the same time, statement by statement, under advisory and row locks;
      their serial executions; a write with nobody else writing.
    - [Hex], [Utf8], [JsonText], [JsonTextSpec]: the encodings of Node and ECMAScript that the
      following parts go through, with their laws.
    - [Envelope]: [interfaces/wallet-state-envelope.ts] and [postgres/wallet-state-envelope.ts], a
      versioned bundle kept as one checkpoint.
    - [ChainArchive], [ChainArchiveStore], [ChainArchiveSpec], [ChainArchiveDemo],
      [ChainArchiveTheorems], [ChainArchiveBundle], [ChainArchiveReads], [ChainArchiveFlip]:
      [postgres/chain-archive-store.ts] over the tables and triggers of
      [migrations/chain_archive/001_chain_archive_core.ts]. [ChainArchiveRoles]: transactions that
      insert blobs, roles and references, and that delete roles, running at the same time under the
      row locks the migration's triggers take.
    - [SyncClients], [CanonicalJson], [SyncService], [SyncServiceSpec], [SyncServiceTheorems]:
      [chain-archive-sync/]: the two clients, the canonical bytes of headers and bodies, and the
      service that writes them to the archive height by height.
    - [Client]: [createClient] of [postgres/client.ts] and the identifier check the next two share.
    - [Rollover], [RolloverSpec], [RolloverTheorems]: [postgres/chain-archive-rollover.ts], which
      turns the archive's default partitions into bounded ones, over a catalog of partitions.
    - [ReplayDecoder], [ReplayDecoderSpec]: [chain-archive-sync/tx-replay-decoder.ts], the walk over
      an archived transaction as the ledger's package deserializes it.
    - [DurabilityProbe]: [postgres/durability-probe.ts]. [Migrations]: [migrations/000] to [006].
      [Migrate], [MigrateSpec], [MigrateTheorems]: [postgres/migrate.ts], which runs the probe and
      then a lineage of migrations under an advisory lock.
    - [ChainArchiveMigrations], [ChainArchiveBootstrap]: the archive's own lineage, statement by
      statement, [chain-archive-sync/bootstrap.ts] which runs it, and the loop of [sync-cli.ts].
    - [Doubles]: arithmetic on doubles. [BenchStats]: [bench/stats.ts]. [BenchGc], [BenchGcSpec]:
      [bench/workloads/gc.ts]. [BenchKv]: [bench/workloads/temporal-kv.ts] and
      [watermarks.ts]. [BenchWorkloads], [BenchWorkloadsSpec]: the deduplication measurement of
      [bench/workloads/checkpoint-store.ts] and the smoke guard [bench/smoke.ts].
    - [MutationGate], [MutationGateSpec]: the gates of continuous integration in [scripts/]: the
      tally of a mutation report, the runner that produces and checks it, the conformance gate.

    ** What the theorems show

    - Refinement: TemporalKV implements a log per key with guarded appends, the history store a map
      of entries; a read by version agrees with the read at its own time. Concurrent saves and prunes
      leave the tables of a serial execution in commit order; so do concurrent guarded puts, and
      concurrent writes of the transaction history, first writes of a hash included.
    - Concurrency: no prune takes a chunk a concurrent save within the grace window refers to,
      sequence numbers have no gaps, a checkpoint never changes while it is stored, no committed put
      of a key is lost or overwritten unseen by another writer of that key, and no reference in the
      archive ever loses the role of its blob.
    - Round trips: a saved checkpoint, envelope or history entry is read back exactly, or two
      inputs with the same SHA-256 digest are exhibited.
    - Atomicity under faults: [withTransaction], [saveAndAdvance], a block bundle, a height of the
      sync service, a rollover and every migration are done completely or not at all; whatever
      fails, [_migrations] records exactly the migrations applied.
    - Invariants over every reachable state: one holder per lease and no leaked connection; listed
      checkpoints stay loadable; the archive's constraints and its append-only growth; no height
      missing below the sync cursor; partitions that do not overlap and hold their own rows.
    - Completion: an undisturbed rollover or migration run goes through, and repeating it is a no-op;
      no insert of [save] can violate a constraint.
    - Errors and bounds: the class every failure becomes, refusals that change nothing, cursors that
      never go back, numbers read from the node within the safe range, percentiles that are exact for
      any array although their ranks are computed with doubles, a mutation gate that exits with zero
      only on a fresh report that meets the threshold.
    - Equivalence: the replay decoder with the item-by-item decode of a transaction, the canonical
      JSON with equality up to the order of keys.

    ** Bounds and fuel

    Recursion is structural, on the data or on the lists of outcomes, but for four functions with
    fuel: the nesting-depth walk of [Json], run with the size of the value and proved to compute the
    depth at that fuel; the decimal digits of [Literals], run with a bit length and proved not to
    depend on it beyond that; the search for the shortest numeral of a double in [JsonText], run
    with more digits than a double needs; and the batches of [BenchGc], run as often as the range of
    an [integer] allows, and proved to reach any target in it. [MAX_JSON_DEPTH], chunk and batch sizes, int4 and bigint
    limits and the identifier length are the code's constants.

    ** What is not modelled

    - Interleavings of the statements of concurrent transactions outside the checkpoint store,
      TemporalKV, the transaction history and the roles of the archive's blobs: a call runs against
      the state it finds. The advisory locks of leases and migrations are modelled in [Lease] and
      [Migrate].
    - The types of columns and the text of SQL: statements are translated by what they do. Columns
      that no method reads (creation times, identity keys) are left out.
    - What is outside the repository: the server, the driver, the ledger's WASM package, Node's file
      system and environment are parameters or data. Printing is left out.
    - The benchmark workloads of leases, of the transaction history and of checkpoint timings, which
      only repeat adapter calls under a timer, the start of their container, and the tests. *)

From stdpp Require Export base tactics option list gmap sets strings sorting.
From Stdlib Require Export ZArith Lia ZifyBool.
From Stdlib Require Strings.Byte.

#[export] Set Warnings "-clear-no-such-hyp,-register-all".

(** ** Results and state-passing actions

    A JavaScript [async] method either resolves with a value or rejects with a thrown value; a
    method that touches the store does so against an explicit state. *)

Inductive result (E A : Type) : Type :=
  | Ok (a : A)
  | Err (e : E).
Arguments Ok {E A} a.
Arguments Err {E A} e.

(** [action E S A]: run against the state [S]; resolve with [A] or reject with [E]. *)
Definition action (E S A : Type) : Type := S → result E A * S.

#[export] Instance result_ret {E} : MRet (result E) := λ A a, Ok a.
#[export] Instance result_bind {E} : MBind (result E) := λ A B f m,
  match m with Ok a => f a | Err e => Err e end.

#[export] Instance action_ret {E S} : MRet (action E S) := λ A a s, (Ok a, s).
#[export] Instance action_bind {E S} : MBind (action E S) := λ A B f m s,
  match m s with
  | (Ok a, s') => f a s'
  | (Err e, s') => (Err e, s')
  end.

Declare Scope umbra_scope.
Delimit Scope umbra_scope with umbra.

Section combinators.
Context {E S : Type}.

Definition throw {A} (e : E) : action E S A := λ s, (Err e, s).

(** A pure validation step: it never touches the state. *)
Definition check {A} (r : result E A) : action E S A := λ s, (r, s).

(** A read-only statement. *)
Definition query {A} (f : S → A) : action E S A := λ s, (Ok (f s), s).

(** One SQL statement: it either fails and changes nothing, or returns rows and a new state. *)
Definition statement {A} (f : S → result E (A * S)) : action E S A := λ s,
  match f s with
  | Ok (a, s') => (Ok a, s')
  | Err e => (Err e, s)
  end.

(** [try { m } catch (err) { throw (f err) }]. *)
Definition rethrow {A} (f : E → E) (m : action E S A) : action E S A := λ s,
  match m s with
  | (Ok a, s') => (Ok a, s')
  | (Err e, s') => (Err (f e), s')
  end.

(** [for (const x of xs) await f(x)]. *)
Fixpoint for_each {A} (f : A → action E S unit) (xs : list A) : action E S unit :=
  match xs with
  | [] => mret tt
  | x :: xs' => f x ;; for_each f xs'
  end.

(** Running a bind: forwards from the first step's outcome, and backwards from success. *)
Lemma action_bind_step {A B} (m : action E S A) (f : A → action E S B) s :
  (m ≫= f) s = match m s with (Ok a, s') => f a s' | (Err e, s') => (Err e, s') end.
Proof. done. Qed.

Lemma action_bind_ok {A B} (m : action E S A) (f : A → action E S B) s a s1 :
  m s = (Ok a, s1) → (m ≫= f) s = f a s1.
Proof. intros H. unfold mbind, action_bind. by rewrite H. Qed.

Lemma action_bind_err {A B} (m : action E S A) (f : A → action E S B) s e s1 :
  m s = (Err e, s1) → (m ≫= f) s = (Err e, s1).
Proof. intros H. unfold mbind, action_bind. by rewrite H. Qed.

Lemma action_bind_inv {A B} (m : action E S A) (f : A → action E S B) s b s2 :
  (m ≫= f) s = (Ok b, s2) → ∃ a s1, m s = (Ok a, s1) ∧ f a s1 = (Ok b, s2).
Proof. unfold mbind, action_bind. destruct (m s) as [[a|e] s1]; [eauto|done]. Qed.

Lemma statement_inv {A} (f : S → result E (A * S)) s a s' :
  statement f s = (Ok a, s') → f s = Ok (a, s').
Proof. unfold statement. destruct (f s) as [[]|]; congruence. Qed.

Lemma for_each_cons_ok {A} (f : A → action E S unit) x xs s s1 :
  f x s = (Ok tt, s1) → for_each f (x :: xs) s = for_each f xs s1.
Proof. intros H. cbn. unfold mbind, action_bind. by rewrite H. Qed.

Lemma for_each_cons_inv {A} (f : A → action E S unit) x xs s s2 :
  for_each f (x :: xs) s = (Ok tt, s2) →
  ∃ s1, f x s = (Ok tt, s1) ∧ for_each f xs s1 = (Ok tt, s2).
Proof.
  cbn. unfold mbind, action_bind. destruct (f x s) as [[[]|e] s1]; [eauto|done].
Qed.
End combinators.

(** Two results agree when they return the same value or both reject. *)
Definition is_ok {E A} (r : result E A) : bool := match r with Ok _ => true | Err _ => false end.

(** ** Lists *)

Lemma list_filter_none {A} (P : A → Prop) `{∀ x, Decision (P x)} (l : list A) :
  (∀ x, x ∈ l → ¬ P x) → filter P l = [].
Proof.
  induction l as [|a l IH]; intros Hl; [done|].
  rewrite filter_cons_False by (apply Hl; set_solver). apply IH. set_solver.
Qed.

Lemma list_filter_every {A} (P : A → Prop) `{∀ x, Decision (P x)} (l : list A) :
  (∀ x, x ∈ l → P x) → filter P l = l.
Proof.
  induction l as [|a l IH]; intros Hl; [done|].
  rewrite filter_cons_True by (apply Hl; set_solver). f_equal. apply IH. set_solver.
Qed.

Lemma list_filter_ext_elem {A} (P Q : A → Prop) `{∀ x, Decision (P x), ∀ x, Decision (Q x)} (l : list A) :
  (∀ x, x ∈ l → P x ↔ Q x) → filter P l = filter Q l.
Proof.
  induction l as [|a l IH]; intros Hl; [done|].
  rewrite !filter_cons. rewrite IH by (intros; apply Hl; set_solver).
  assert (P a ↔ Q a) by (apply Hl; set_solver). repeat case_decide; tauto || done.
Qed.

Lemma StronglySorted_filter {A} (R : relation A) (P : A → Prop) `{∀ x, Decision (P x)} (l : list A) :
  StronglySorted R l → StronglySorted R (filter P l).
Proof.
  induction 1 as [|a l Hs IH Ha]; [constructor|]. rewrite filter_cons. case_decide; [|done].
  constructor; [done|]. rewrite Forall_forall in Ha |- *.
  intros x [_ Hx]%list_elem_of_filter. by apply Ha.
Qed.

Lemma StronglySorted_take {A} (R : relation A) n (l : list A) :
  StronglySorted R l → StronglySorted R (take n l).
Proof.
  intros Hs. rewrite <-(take_drop n l) in Hs. by apply StronglySorted_app_1_l in Hs.
Qed.

Lemma StronglySorted_strict {A} (R R' : relation A) (l : list A) :
  NoDup l → (∀ x y, x ∈ l → y ∈ l → x ≠ y → R x y → R' x y) →
  StronglySorted R l → StronglySorted R' l.
Proof.
  intros Hnd HR Hs. induction Hs as [|a l Hs IH Ha]; [constructor|].
  apply NoDup_cons in Hnd as [Hn Hnd]. constructor.
  - apply IH; [done|]. intros x y Hx Hy. apply HR; set_solver.
  - rewrite Forall_forall in Ha |- *. intros x Hx. apply HR; [set_solver..| |by apply Ha].
    intros ->. done.
Qed.

Lemma StronglySorted_lookup_lt {A} (R : relation A) (l : list A) i j x y :
  StronglySorted R l → l !! i = Some x → l !! j = Some y → (i < j)%nat → R x y.
Proof.
  intros Hs. revert i j. induction Hs as [|a l Hs IH Ha]; intros i j Hi Hj Hij; [done|].
  destruct j as [|j]; [lia|]. destruct i as [|i]; cbn in *; [|eapply IH; eauto; lia].
  simplify_eq. rewrite Forall_forall in Ha. apply Ha. by eapply list_elem_of_lookup_2.
Qed.

Lemma NoDup_fmap_elem_inj {A B} (f : A → B) (l : list A) x y :
  NoDup (f <$> l) → x ∈ l → y ∈ l → f x = f y → x = y.
Proof.
  intros Hnd (i & Hi)%list_elem_of_lookup (j & Hj)%list_elem_of_lookup Hf.
  assert (i = j) as ->; [|congruence].
  eapply (NoDup_lookup (f <$> l)); [exact Hnd|rewrite list_lookup_fmap, Hi|rewrite list_lookup_fmap, Hj];
    cbn; by rewrite ?Hf.
Qed.

(** Two sorted permutations are equal when the order separates their elements. *)
Lemma merge_sort_unique {A} (R : relation A) `{!RelDecision R, !Transitive R, !Total R} (l k : list A) :
  (∀ x y, x ∈ l → y ∈ l → R x y → R y x → x = y) →
  StronglySorted R k → k ≡ₚ l → merge_sort R l = k.
Proof.
  intros Hanti Hk Hp. eapply (StronglySorted_unique_strong R).
  - intros x y Hx Hy. apply Hanti; [by rewrite merge_sort_Permutation in Hx|by rewrite <-Hp].
  - by apply StronglySorted_merge_sort.
  - done.
  - by rewrite merge_sort_Permutation.
Qed.

(** ** Bytes *)

Abbreviation bytes := (list Byte.byte).

#[export] Instance byte_eq_dec : EqDecision Byte.byte := Byte.byte_eq_dec.
#[export] Program Instance byte_countable : Countable Byte.byte :=
  inj_countable Byte.to_N Byte.of_N _.
Next Obligation. apply Byte.of_to_N. Qed.

(** ** Tactics *)

(** Split every [match] or [if] on the way of the goal or of a hypothesis, keeping equations. *)
Ltac case_match_eqn :=
  match goal with
  | |- context [match ?x with _ => _ end] => let H := fresh "Heq" in destruct x eqn:H
  end.

Ltac split_match_hyp H :=
  match type of H with
  | context [match ?x with _ => _ end] => let E := fresh "Heq" in destruct x eqn:E
  end.

(** Expose the state passing of an action: binds become matches on the steps they run. *)
Ltac unfold_action :=
  unfold mbind, mret, action_bind, action_ret, result_bind, result_ret, check, throw, query,
    statement, rethrow; cbn.
Ltac unfold_action_in H :=
  unfold mbind, mret, action_bind, action_ret, result_bind, result_ret, check, throw, query,
    statement, rethrow in H; cbn in H.

(** The first bind of an enabled step: what it read, or the condition it checked. *)
Tactic Notation "enabled" hyp(H) "as" simple_intropattern(pat) := apply bind_Some in H as pat.

(** Turn boolean comparisons in the context into propositions. *)
Ltac bool_to_prop :=
  repeat match goal with
  | H : (_ && _) = true |- _ => apply andb_true_iff in H; destruct H
  | H : (_ || _) = false |- _ => apply orb_false_iff in H; destruct H
  | H : (_ && _) = false |- _ => apply andb_false_iff in H
  | H : (_ || _) = true |- _ => apply orb_true_iff in H
  | H : negb _ = true |- _ => apply negb_true_iff in H
  | H : negb _ = false |- _ => apply negb_false_iff in H
  | H : (_ <? _)%Z = true |- _ => apply Z.ltb_lt in H
  | H : (_ <? _)%Z = false |- _ => apply Z.ltb_ge in H
  | H : (_ <=? _)%Z = true |- _ => apply Z.leb_le in H
  | H : (_ <=? _)%Z = false |- _ => apply Z.leb_gt in H
  | H : (_ =? _)%Z = true |- _ => apply Z.eqb_eq in H
  | H : (_ =? _)%Z = false |- _ => apply Z.eqb_neq in H
  | H : bool_decide _ = true |- _ => apply bool_decide_eq_true in H
  | H : bool_decide _ = false |- _ => apply bool_decide_eq_false in H
  end.

Create HintDb umbra.
