(* ===== verification/Text.v ===== *)
(** * JavaScript strings, PostgreSQL-safe text and [LIKE] prefixes

    Models the text helpers of [src/interfaces/temporal-kv.ts] and [src/postgres/temporal-kv.ts]:
    a JavaScript string is the list of its UTF-16 code units, [hasPostgresUnsafeText] is the
    regular-expression check every string input goes through, and [escapeLikePrefix] quotes a
    prefix for [LIKE ... ESCAPE '\']. *)

From S2P Require Import Prelude.
From Stdlib Require Import Ascii.

Local Open Scope N_scope.

(** A JavaScript string: its UTF-16 code units. *)
Abbreviation jsstr := (list N).

(** A source-code literal as a JavaScript string. *)
Definition js (s : string) : jsstr := N_of_ascii <$> String.list_ascii_of_string s.

(** [[\uD800-\uDBFF]] and [[\uDC00-\uDFFF]]. *)
Definition is_high_surrogate (c : N) : bool := (0xD800 <=? c) && (c <=? 0xDBFF).
Definition is_low_surrogate (c : N) : bool := (0xDC00 <=? c) && (c <=? 0xDFFF).

Definition next_is_low (s : jsstr) : bool :=
  match s with c :: _ => is_low_surrogate c | [] => false end.

(** [LONE_SURROGATE_PATTERN.test(s)]: some position is a high surrogate with no low surrogate
    after it (the lookahead), or a low surrogate with no high surrogate before it (the
    lookbehind, carried in [prev_high]). *)
Fixpoint lone_surrogate_from (prev_high : bool) (s : jsstr) : bool :=
  match s with
  | [] => false
  | c :: r =>
      (is_high_surrogate c && negb (next_is_low r))
      || (is_low_surrogate c && negb prev_high)
      || lone_surrogate_from (is_high_surrogate c) r
  end.

Definition LONE_SURROGATE_PATTERN (s : jsstr) : bool := lone_surrogate_from false s.

Definition hasPostgresUnsafeText (s : jsstr) : bool :=
  existsb (N.eqb 0) s || LONE_SURROGATE_PATTERN s.

(** The UTF-16 decoding algorithm: the code points of a well-formed string. *)
Fixpoint utf16_decode (s : jsstr) : option (list N) :=
  match s with
  | [] => Some []
  | c :: r =>
      if is_high_surrogate c then
        match r with
        | d :: r' =>
            if is_low_surrogate d
            then cons (0x10000 + (c - 0xD800) * 0x400 + (d - 0xDC00)) <$> utf16_decode r'
            else None
        | [] => None
        end
      else if is_low_surrogate c then None
      else cons c <$> utf16_decode r
  end.

(** What PostgreSQL [text] and [jsonb] can store: well-formed UTF-16 without the NUL character. *)
Definition postgres_storable (s : jsstr) : Prop :=
  ∃ cps, utf16_decode s = Some cps ∧ 0 ∉ cps.

(** [prefix.replace(/[\\%_]/g, "\\$&")]. *)
Definition backslash : N := 92.
Definition percent : N := 37.
Definition underscore : N := 95.

Definition is_like_meta (c : N) : bool :=
  (c =? backslash) || (c =? percent) || (c =? underscore).

Definition escapeLikePrefix (prefix : jsstr) : jsstr :=
  prefix ≫= λ c, if is_like_meta c then [backslash; c] else [c].

(** SQL [LIKE pattern ESCAPE '\']: the pattern's tokens ([None]: it ends with the escape
    character, which PostgreSQL rejects), and matching a text against them. *)
Inductive like_token := LikeChar (c : N) | LikeAny | LikeMany.

Fixpoint like_tokens (p : jsstr) : option (list like_token) :=
  match p with
  | [] => Some []
  | c :: r =>
      if c =? backslash then
        match r with
        | d :: r' => cons (LikeChar d) <$> like_tokens r'
        | [] => None
        end
      else if c =? percent then cons LikeMany <$> like_tokens r
      else if c =? underscore then cons LikeAny <$> like_tokens r
      else cons (LikeChar c) <$> like_tokens r
  end.

Fixpoint like_match (ts : list like_token) : jsstr → bool :=
  match ts with
  | [] => λ s, match s with [] => true | _ => false end
  | LikeChar c :: ts' => λ s, match s with d :: s' => (c =? d) && like_match ts' s' | [] => false end
  | LikeAny :: ts' => λ s, match s with _ :: s' => like_match ts' s' | [] => false end
  | LikeMany :: ts' =>
      fix many (s : jsstr) : bool :=
        like_match ts' s || match s with _ :: s' => many s' | [] => false end
  end.

Definition sql_like (s pattern : jsstr) : option bool :=
  (λ ts, like_match ts s) <$> like_tokens pattern.

(** ** The surrogate check is UTF-16 well-formedness *)

Lemma high_not_low c : is_high_surrogate c = true → is_low_surrogate c = false.
Proof. unfold is_high_surrogate, is_low_surrogate. lia. Qed.

Lemma low_not_high c : is_low_surrogate c = true → is_high_surrogate c = false.
Proof. unfold is_high_surrogate, is_low_surrogate. lia. Qed.

(** Once a pair is complete, what came before it no longer matters. *)
Lemma lone_surrogate_from_not_low b s :
  next_is_low s = false → lone_surrogate_from b s = lone_surrogate_from false s.
Proof. destruct s as [|c r]; [done|]; simpl. intros ->. by rewrite !andb_false_l. Qed.

Lemma utf16_decode_wf s :
  is_Some (utf16_decode s) ↔ lone_surrogate_from false s = false.
Proof.
  induction s as [s IH] using (induction_ltof1 _ length); unfold ltof in IH.
  destruct s as [|c r]; simpl; [by split; eauto|].
  destruct (is_high_surrogate c) eqn:Hh.
  - rewrite (high_not_low c Hh); destruct r as [|d r']; simpl.
    { split; [by intros []|done]. }
    destruct (is_low_surrogate d) eqn:Hl; simpl; [|by split; [intros []|]].
    rewrite (low_not_high d Hl), fmap_is_Some; simpl. apply IH; simpl; lia.
  - destruct (is_low_surrogate c) eqn:Hl; simpl.
    { split; [by intros []|done]. }
    rewrite fmap_is_Some. apply IH; simpl; lia.
Qed.

(** Decoding neither creates nor hides a NUL character. *)
Lemma utf16_decode_nul s cps :
  utf16_decode s = Some cps → (0 ∈ cps ↔ 0 ∈ s).
Proof.
  revert cps. induction s as [s IH] using (induction_ltof1 _ length); unfold ltof in IH.
  intros cps Hd. destruct s as [|c r]; simpl in Hd; [by simplify_eq|].
  destruct (is_high_surrogate c) eqn:Hh.
  - destruct r as [|d r']; [done|]. destruct (is_low_surrogate d) eqn:Hl; [|done].
    apply fmap_Some in Hd as (cps' & Hd & ->).
    rewrite !elem_of_cons, (IH r') by (simpl; done || lia).
    assert (c ≠ 0 ∧ d ≠ 0) as [??] by (unfold is_high_surrogate, is_low_surrogate in *; lia).
    assert (0x10000 + (c - 0xD800) * 0x400 + (d - 0xDC00) ≠ 0) by lia.
    split; [intros [?|?]|intros [?|[?|?]]]; auto; congruence.
  - destruct (is_low_surrogate c); [done|].
    apply fmap_Some in Hd as (cps' & Hd & ->).
    by rewrite !elem_of_cons, (IH r) by (simpl; done || lia).
Qed.

Lemma has_nul_spec (s : jsstr) : existsb (N.eqb 0) s = true ↔ 0 ∈ s.
Proof.
  rewrite existsb_exists. setoid_rewrite N.eqb_eq. setoid_rewrite <-list_elem_of_In.
  split; [by intros (? & ? & <-)|by eauto].
Qed.

Lemma safe_text_storable (s : jsstr) :
  hasPostgresUnsafeText s = false ↔ postgres_storable s.
Proof.
  unfold hasPostgresUnsafeText, LONE_SURROGATE_PATTERN, postgres_storable.
  rewrite orb_false_iff, <-utf16_decode_wf, <-not_true_iff_false, has_nul_spec.
  split.
  - intros [Hnul [cps Hd]]. exists cps. split; [done|]. by rewrite (utf16_decode_nul s).
  - intros (cps & Hd & Hnul). split; [|by eauto]. by rewrite <-(utf16_decode_nul s cps).
Qed.

(** [hasPostgresUnsafeText] is exact: a string passes the regular-expression check if and
    only if it is well-formed UTF-16 (every surrogate is part of a pair) and has no NUL. *)
Theorem hasPostgresUnsafeText_exact (s : jsstr) :
  hasPostgresUnsafeText s = false ↔ postgres_storable s.
Proof. apply safe_text_storable. Qed.

(** ** An escaped prefix matches exactly itself *)

Lemma escapeLikePrefix_cons c p :
  escapeLikePrefix (c :: p) = (if is_like_meta c then [backslash; c] else [c]) ++ escapeLikePrefix p.
Proof. done. Qed.

Lemma like_tokens_escape p q ts :
  like_tokens q = Some ts →
  like_tokens (escapeLikePrefix p ++ q) = Some ((LikeChar <$> p) ++ ts).
Proof.
  intros Hq. induction p as [|c p IH]; [done|].
  rewrite escapeLikePrefix_cons. unfold is_like_meta.
  destruct (c =? backslash) eqn:Hb; simpl; [by rewrite IH|].
  destruct (c =? percent) eqn:Hp; simpl; [by rewrite IH|].
  destruct (c =? underscore) eqn:Hu; simpl; [by rewrite IH|].
  by rewrite Hb, Hp, Hu, IH.
Qed.

Lemma like_match_many s : like_match [LikeMany] s = true.
Proof. induction s as [|c s IH]; [done|]. simpl in *. by rewrite IH. Qed.

Lemma like_match_chars p ts s :
  like_match ((LikeChar <$> p) ++ ts) s = true ↔ ∃ s', s = p ++ s' ∧ like_match ts s' = true.
Proof.
  revert s. induction p as [|c p IH]; intros s; csimpl; [naive_solver|].
  destruct s as [|d s]; [naive_solver|].
  rewrite andb_true_iff, N.eqb_eq, IH. naive_solver.
Qed.

(** [listKeys]' pattern has no wildcard the caller controls: [escapeLikePrefix prefix + "%"]
    is always a legal [LIKE] pattern, and it matches a key exactly when the key starts with the
    caller's prefix, whatever [%], [_] or [\] the prefix contains. *)
Theorem escapeLikePrefix_literal (prefix key : jsstr) :
  ∃ b, sql_like key (escapeLikePrefix prefix ++ [percent]) = Some b ∧
       (b = true ↔ prefix `prefix_of` key).
Proof.
  unfold sql_like. rewrite (like_tokens_escape prefix [percent] [LikeMany]) by done.
  eexists; split; [done|]. rewrite like_match_chars. split.
  - intros (k' & -> & _). by exists k'.
  - intros [k' ->]. exists k'. by rewrite like_match_many.
Qed.
