(* ===== verification/Literals.v ===== *)
(** * Number and date literals

    The textual forms JavaScript gives integers and dates: [BigInt.prototype.toString], the regular
    expression for canonical integers with the integer a match denotes, and [Date.prototype.toISOString]
    with the instant an ISO string denotes. Printing then parsing is the identity. *)

From S2P Require Import Prelude Text.

Local Open Scope Z_scope.

(** ** Decimal digits *)

Definition digit (d : Z) : N := Z.to_N (48 + d).
Definition digit_value (c : N) : Z := Z.of_N c - 48.
Definition is_digit (c : N) : bool := (48 <=? c)%N && (c <=? 57)%N.

(** The digits of [n >= 0], most significant first; the fuel bounds their number. *)
Fixpoint digits (fuel : nat) (n : Z) : jsstr :=
  match fuel with
  | O => []
  | S fuel' => if n <? 10 then [digit n] else digits fuel' (n / 10) ++ [digit (n mod 10)]
  end.

Definition decimal (n : Z) : jsstr := digits (S (Z.to_nat (Z.log2 n))) n.

Definition decimal_value (s : jsstr) : Z := foldl (λ acc c, 10 * acc + digit_value c) 0 s.

Lemma is_digit_digit d : 0 ≤ d < 10 → is_digit (digit d) = true ∧ digit_value (digit d) = d.
Proof. intros Hd. unfold is_digit, digit, digit_value. lia. Qed.

Lemma decimal_value_snoc s c : decimal_value (s ++ [c]) = 10 * decimal_value s + digit_value c.
Proof. unfold decimal_value. by rewrite foldl_app. Qed.

Lemma decimal_value_nonneg s : forallb is_digit s = true → 0 ≤ decimal_value s.
Proof.
  induction s as [|c s IH] using rev_ind; [done|]. rewrite forallb_app, decimal_value_snoc. cbn.
  rewrite !andb_true_iff. intros (? & Hc & _). specialize (IH ltac:(done)).
  unfold is_digit, digit_value in *. lia.
Qed.

(** Enough fuel for every number. *)
Lemma digits_fuel fuel1 fuel2 n :
  0 ≤ n < 2 ^ Z.of_nat fuel1 → n < 2 ^ Z.of_nat fuel2 → (0 < fuel1)%nat → (0 < fuel2)%nat →
  digits fuel1 n = digits fuel2 n.
Proof.
  revert fuel2 n. induction fuel1 as [|f1 IH]; intros [|f2] n H1 H2 ? ?; [lia..|].
  rewrite Nat2Z.inj_succ, Z.pow_succ_r in H1, H2 by lia. cbn [digits].
  destruct (Z.ltb_spec n 10); [done|]. f_equal.
  assert (n / 10 ≤ n / 2) by (apply Z.div_le_compat_l; lia).
  assert (n / 2 < 2 ^ Z.of_nat f1) by (apply Z.div_lt_upper_bound; lia).
  assert (n / 2 < 2 ^ Z.of_nat f2) by (apply Z.div_lt_upper_bound; lia).
  apply IH; [split; [apply Z.div_pos; lia|lia]|lia|destruct f1; [cbn in *; lia|lia]|destruct f2; [cbn in *; lia|lia]].
Qed.

Lemma log2_fuel n : 0 ≤ n → n < 2 ^ Z.of_nat (S (Z.to_nat (Z.log2 n))).
Proof.
  intros Hn. rewrite Nat2Z.inj_succ, Z2Nat.id by apply Z.log2_nonneg.
  destruct (decide (n = 0)) as [->|]; [done|]. apply Z.log2_spec. lia.
Qed.

Lemma decimal_step n : 10 ≤ n → decimal n = decimal (n / 10) ++ [digit (n mod 10)].
Proof.
  intros Hn. unfold decimal at 1. cbn [digits]. destruct (Z.ltb_spec n 10); [lia|]. f_equal.
  assert (0 ≤ n / 10) by (apply Z.div_pos; lia).
  pose proof (log2_fuel n ltac:(lia)) as Hf.
  rewrite Nat2Z.inj_succ, Z.pow_succ_r in Hf by lia.
  assert (n / 10 ≤ n / 2) by (apply Z.div_le_compat_l; lia).
  assert (n / 2 < 2 ^ Z.of_nat (Z.to_nat (Z.log2 n))) by (apply Z.div_lt_upper_bound; lia).
  unfold decimal. apply digits_fuel; [lia|by apply log2_fuel| |lia].
  assert (3 ≤ Z.log2 n) by (apply (Z.log2_le_mono 8); lia). lia.
Qed.

Lemma decimal_small n : 0 ≤ n < 10 → decimal n = [digit n].
Proof. intros Hn. unfold decimal. cbn [digits]. destruct (Z.ltb_spec n 10); [done|lia]. Qed.

Lemma decimal_ind (P : Z → jsstr → Prop) :
  (∀ n, 0 ≤ n < 10 → P n [digit n]) →
  (∀ n, 10 ≤ n → P (n / 10) (decimal (n / 10)) →
    P n (decimal (n / 10) ++ [digit (n mod 10)])) →
  ∀ n, 0 ≤ n → P n (decimal n).
Proof.
  intros H0 Hs n Hn. induction n as [n IH] using (well_founded_induction (Z.lt_wf 0)).
  destruct (decide (n < 10)); [rewrite decimal_small by lia; apply H0; lia|].
  rewrite decimal_step by lia. apply Hs; [lia|].
  apply IH; [split; [apply Z.div_pos; lia|apply Z.div_lt; lia]|apply Z.div_pos; lia].
Qed.

Lemma decimal_digits n : 0 ≤ n → forallb is_digit (decimal n) = true.
Proof.
  apply (decimal_ind (λ _ s, forallb is_digit s = true)); clear n.
  - intros n Hn. cbn. by rewrite (proj1 (is_digit_digit n Hn)).
  - intros n Hn IH. rewrite forallb_app, IH. cbn.
    by rewrite (proj1 (is_digit_digit (n mod 10) ltac:(apply Z.mod_pos_bound; lia))).
Qed.

Lemma decimal_value_decimal n : 0 ≤ n → decimal_value (decimal n) = n.
Proof.
  apply (decimal_ind (λ n s, decimal_value s = n)); clear n.
  - intros n Hn. unfold decimal_value. cbn [foldl]. rewrite (proj2 (is_digit_digit n Hn)). lia.
  - intros n Hn IH. rewrite decimal_value_snoc, IH.
    rewrite (proj2 (is_digit_digit (n mod 10) ltac:(apply Z.mod_pos_bound; lia))).
    pose proof (Z.div_mod n 10). lia.
Qed.

(** A numeral without leading zeros: a bare zero, or a nonzero digit and more digits. *)
Definition canonical_digits (s : jsstr) : bool :=
  match s with
  | [] => false
  | c :: r => ((c =? 48)%N && bool_decide (r = [])) || ((49 <=? c)%N && (c <=? 57)%N && forallb is_digit r)
  end.

Lemma canonical_digits_head s : canonical_digits s = true →
  forallb is_digit s = true ∧ s ≠ [] ∧ (s = [48%N] ∨ ∃ c r, s = c :: r ∧ (49 ≤ c)%N).
Proof.
  destruct s as [|c r]; [done|]. cbn.
  rewrite orb_true_iff, !andb_true_iff, bool_decide_eq_true, N.eqb_eq. intros [[-> ->]|[[H1 H2] H3]].
  - split; [done|]. split; [done|]. by left.
  - rewrite H3. unfold is_digit. split; [lia|]. split; [done|]. right. exists c, r. split; [done|lia].
Qed.

(** The canonical numerals are exactly the printed ones. *)
Lemma decimal_canonical n : 0 ≤ n → canonical_digits (decimal n) = true.
Proof.
  apply (decimal_ind (λ n s, canonical_digits s = true)); clear n.
  - intros n Hn. unfold canonical_digits, digit. rewrite bool_decide_true by done. cbn [forallb]. lia.
  - intros n Hn IH. pose proof (decimal_value_decimal (n / 10)) as Hv.
    assert (1 ≤ n / 10) by (apply Z.div_le_lower_bound; lia).
    apply canonical_digits_head in IH as (Hd & Hne & Hor).
    destruct (decimal (n / 10)) as [|c r]; [done|]. destruct Hor as [E|(c' & r' & [= <- <-] & Hc)].
    { injection E as -> ->. unfold decimal_value, digit_value in Hv. cbn in Hv. lia. }
    cbn in Hd |- *. apply andb_true_iff in Hd as [Hd1 Hd2]. rewrite forallb_app, Hd2. cbn [forallb].
    rewrite (proj1 (is_digit_digit (n mod 10) ltac:(apply Z.mod_pos_bound; lia))).
    unfold is_digit in Hd1. lia.
Qed.

Lemma canonical_decimal s : canonical_digits s = true → decimal (decimal_value s) = s.
Proof.
  intros (Hd & Hne & Hor)%canonical_digits_head. revert Hd Hne Hor.
  induction s as [|c s IH] using rev_ind; [done|]. intros Hd _ Hor.
  rewrite forallb_app in Hd. cbn in Hd. rewrite !andb_true_iff in Hd. destruct Hd as (Hd & Hc & _).
  assert (0 ≤ digit_value c < 10 ∧ digit (digit_value c) = c) as [Hc1 Hc2].
  { unfold is_digit, digit_value, digit in *. lia. }
  rewrite decimal_value_snoc. destruct (decide (s = [])) as [->|Hs].
  { change (decimal_value []) with 0. rewrite Z.mul_0_r, Z.add_0_l, decimal_small by lia.
    by rewrite Hc2. }
  destruct Hor as [E|(c0 & r & E & Hc0)].
  { destruct s as [|? [|]]; done. }
  destruct s as [|c1 s']; [done|]. injection E as -> <-.
  assert (decimal (decimal_value (c0 :: s')) = c0 :: s') as IH'.
  { apply IH; [done|done|]. right. eauto. }
  assert (1 ≤ decimal_value (c0 :: s')) as Hpos.
  { pose proof (decimal_value_nonneg _ Hd). destruct (decide (decimal_value (c0 :: s') = 0)) as [E0|]; [|lia].
    rewrite E0, decimal_small in IH' by lia. injection IH' as E1 _. unfold digit in E1. lia. }
  rewrite decimal_step by lia.
  rewrite (Z.mul_comm 10), Z.div_add_l, Z.div_small, Z.add_0_r by lia.
  rewrite (Z.add_comm (_ * 10)), Z.mod_add, Z.mod_small by lia. by rewrite IH', Hc2.
Qed.

(** ** BigInt *)

Definition minus : N := 45.

(** [n.toString()]. *)
Definition bigint_toString (n : Z) : jsstr := if n <? 0 then minus :: decimal (- n) else decimal n.

(** [CANONICAL_BIGINT_RE.test(s)]: an optional minus sign and a numeral, anchored at both ends. *)
Definition CANONICAL_BIGINT_RE (s : jsstr) : bool :=
  match s with
  | c :: r => if (c =? minus)%N then canonical_digits r else canonical_digits s
  | [] => false
  end.

(** [BigInt(s)] for a [s] the expression accepts. *)
Definition bigint_of_literal (s : jsstr) : Z :=
  match s with
  | c :: r => if (c =? minus)%N then - decimal_value r else decimal_value s
  | [] => 0
  end.

Lemma decimal_not_minus n : 0 ≤ n → ∃ c r, decimal n = c :: r ∧ (c =? minus)%N = false.
Proof.
  intros Hn. pose proof (decimal_digits n Hn) as Hd. pose proof (decimal_canonical n Hn) as Hc.
  destruct (decimal n) as [|c r]; [done|]. exists c, r. split; [done|].
  cbn in Hd. apply andb_true_iff in Hd as [Hd _]. unfold is_digit, minus in *. lia.
Qed.

Lemma bigint_toString_literal n :
  CANONICAL_BIGINT_RE (bigint_toString n) = true ∧ bigint_of_literal (bigint_toString n) = n.
Proof.
  unfold bigint_toString. destruct (Z.ltb_spec n 0).
  - unfold CANONICAL_BIGINT_RE, bigint_of_literal.
    rewrite N.eqb_refl, decimal_canonical, decimal_value_decimal by lia. lia.
  - destruct (decimal_not_minus n ltac:(lia)) as (c & r & E & Hc).
    pose proof (decimal_canonical n ltac:(lia)). pose proof (decimal_value_decimal n ltac:(lia)).
    rewrite E in *. unfold CANONICAL_BIGINT_RE, bigint_of_literal. by rewrite Hc.
Qed.

Definition minus_zero : jsstr := [minus; 48%N].

(** The expression accepts what [toString] prints, and one string more. *)
Lemma CANONICAL_BIGINT_RE_exact s :
  CANONICAL_BIGINT_RE s = true ↔ s = bigint_toString (bigint_of_literal s) ∨ s = minus_zero.
Proof.
  split.
  - destruct s as [|c r]; [done|]. unfold CANONICAL_BIGINT_RE, bigint_of_literal.
    destruct (N.eqb_spec c minus) as [->|Hc].
    + intros Hr. pose proof (canonical_digits_head _ Hr) as (Hd & _ & _).
      pose proof (decimal_value_nonneg _ Hd). pose proof (canonical_decimal _ Hr) as Hp.
      unfold bigint_toString. destruct (Z.ltb_spec (- decimal_value r) 0).
      * left. rewrite Z.opp_involutive. by rewrite Hp.
      * right. replace (decimal_value r) with 0 in Hp by lia. rewrite decimal_small in Hp by lia.
        by rewrite <-Hp.
    + intros Hr. left. pose proof (canonical_digits_head _ Hr) as (Hd & _ & _).
      pose proof (decimal_value_nonneg _ Hd). unfold bigint_toString.
      destruct (Z.ltb_spec (decimal_value (c :: r)) 0); [lia|]. by rewrite canonical_decimal.
  - intros [->| ->]; [apply bigint_toString_literal|done].
Qed.

(** ** Dates *)

(** The range of a [Date]: 100 million days around the epoch. *)
Definition MAX_TIME : Z := 8640000000000000.
Definition valid_time (ms : Z) : bool := Z.abs ms <=? MAX_TIME.

(** The civil date of a day of the 400-year era that starts on 1 March: year of the era, month, day. *)
Definition civil_of_doe (doe : Z) : Z * Z * Z :=
  let yoe := (doe - doe / 1460 + doe / 36524 - doe / 146096) / 365 in
  let doy := doe - (365 * yoe + yoe / 4 - yoe / 100) in
  let mp := (5 * doy + 2) / 153 in
  (yoe, if mp <? 10 then mp + 3 else mp - 9, doy - (153 * mp + 2) / 5 + 1).

Definition doe_of_civil (yoe m d : Z) : Z :=
  yoe * 365 + yoe / 4 - yoe / 100 + (153 * (if 2 <? m then m - 3 else m + 9) + 2) / 5 + d - 1.

(** The proleptic Gregorian date of a day number counted from 1 January 1970, and back. *)
Definition civil_from_days (day : Z) : Z * Z * Z :=
  let z := day + 719468 in
  let '(yoe, m, d) := civil_of_doe (z mod 146097) in
  (yoe + z / 146097 * 400 + (if m <=? 2 then 1 else 0), m, d).

Definition days_from_civil (y m d : Z) : Z :=
  let y' := y - (if m <=? 2 then 1 else 0) in
  y' / 400 * 146097 + doe_of_civil (y' mod 400) m d - 719468.

Definition check_doe (doe : Z) : bool :=
  let '(yoe, m, d) := civil_of_doe doe in
  (0 <=? yoe) && (yoe <? 400) && (1 <=? m) && (m <=? 12) && (1 <=? d) && (d <=? 31)
  && (doe_of_civil yoe m d =? doe).

(** Every day of an era, by computation. *)
Fixpoint check_up_to (fuel : nat) (doe : Z) : bool :=
  match fuel with
  | O => true
  | S fuel' => check_doe doe && check_up_to fuel' (doe + 1)
  end.

Lemma check_up_to_spec fuel lo doe :
  check_up_to fuel lo = true → lo ≤ doe < lo + Z.of_nat fuel → check_doe doe = true.
Proof.
  revert lo. induction fuel as [|fuel IH]; intros lo; [lia|]. cbn [check_up_to].
  rewrite andb_true_iff. intros [H1 H2] Hr. destruct (decide (doe = lo)) as [->|]; [done|].
  apply (IH (lo + 1)); [done|lia].
Qed.

Lemma era_checked : check_up_to (Z.to_nat 146097) 0 = true.
Proof. vm_compute. reflexivity. Qed.

Lemma civil_of_doe_spec doe : 0 ≤ doe < 146097 →
  let '(yoe, m, d) := civil_of_doe doe in
  (0 ≤ yoe < 400 ∧ 1 ≤ m ≤ 12 ∧ 1 ≤ d ≤ 31) ∧ doe_of_civil yoe m d = doe.
Proof.
  intros Hd. pose proof (check_up_to_spec _ _ doe era_checked ltac:(lia)) as Hc. unfold check_doe in Hc.
  destruct (civil_of_doe doe) as [[yoe m] d]. rewrite !andb_true_iff in Hc.
  destruct Hc as ((((((? & ?) & ?) & ?) & ?) & ?) & ?). lia.
Qed.

Lemma civil_from_days_spec day :
  let '(y, m, d) := civil_from_days day in
  days_from_civil y m d = day ∧ 1 ≤ m ≤ 12 ∧ 1 ≤ d ≤ 31 ∧
  (day + 719468) / 146097 * 400 ≤ y ≤ (day + 719468) / 146097 * 400 + 400.
Proof.
  unfold civil_from_days. set (z := day + 719468).
  pose proof (civil_of_doe_spec (z mod 146097) ltac:(apply Z.mod_pos_bound; lia)) as Hc.
  destruct (civil_of_doe (z mod 146097)) as [[yoe m] d]. destruct Hc as ((Hy & Hm & Hd) & Hdoe).
  set (c := if m <=? 2 then 1 else 0). assert (0 ≤ c ≤ 1) by (subst c; destruct (m <=? 2); lia).
  split_and!; try lia. unfold days_from_civil. fold c.
  replace (yoe + z / 146097 * 400 + c - c) with (yoe + z / 146097 * 400) by lia.
  rewrite Z.div_add, Z.mod_add, Z.div_small, Z.mod_small, Hdoe by lia.
  pose proof (Z.div_mod z 146097). lia.
Qed.

(** Fixed-width decimal fields. *)
Fixpoint padded (k : nat) (n : Z) : jsstr :=
  match k with O => [] | S k' => padded k' (n / 10) ++ [digit (n mod 10)] end.

Lemma padded_length k n : length (padded k n) = k.
Proof. revert n. induction k as [|k IH]; intros n; cbn; [done|]. rewrite length_app, IH. cbn. lia. Qed.

Lemma padded_value k n : 0 ≤ n < 10 ^ Z.of_nat k → decimal_value (padded k n) = n.
Proof.
  revert n. induction k as [|k IH]; intros n Hn; [cbn in *; unfold decimal_value; cbn; lia|].
  rewrite Nat2Z.inj_succ, Z.pow_succ_r in Hn by lia. cbn [padded].
  rewrite decimal_value_snoc, IH.
  - rewrite (proj2 (is_digit_digit (n mod 10) ltac:(apply Z.mod_pos_bound; lia))).
    pose proof (Z.div_mod n 10). lia.
  - split; [apply Z.div_pos; lia|apply Z.div_lt_upper_bound; lia].
Qed.

Definition plus : N := 43.

Definition year_text (y : Z) : jsstr :=
  if (0 <=? y) && (y <=? 9999) then padded 4 y
  else (if y <? 0 then minus else plus) :: padded 6 (Z.abs y).

(** [YYYY-MM-DDTHH:mm:ss.sssZ], with a signed six-digit year outside 0-9999. *)
Definition iso_text (y m d h mi sec msec : Z) : jsstr :=
  year_text y ++ js "-" ++ padded 2 m ++ js "-" ++ padded 2 d ++ js "T" ++ padded 2 h
  ++ js ":" ++ padded 2 mi ++ js ":" ++ padded 2 sec ++ js "." ++ padded 3 msec ++ js "Z".

(** [d.toISOString()] for the [Date] with time value [ms]. *)
Definition toISOString (ms : Z) : jsstr :=
  let '(y, m, d) := civil_from_days (ms / 86400000) in
  let tod := ms mod 86400000 in
  iso_text y m d (tod / 3600000) (tod / 60000 mod 60) (tod / 1000 mod 60) (tod mod 1000).

(** What [new Date(s)] makes of a string: [None] is an Invalid Date. Beyond the ISO format, which
    it must read back, the outcome is up to the engine. *)
Class DateParse := {
  date_parse : jsstr → option Z;
  date_parse_iso : ∀ ms, valid_time ms = true → date_parse (toISOString ms) = Some ms;
}.

(** The instant an ISO string denotes. *)
Definition year_of_text (s : jsstr) : Z * jsstr :=
  match s with
  | c :: r =>
      if (c =? minus)%N then (- decimal_value (take 6 r), drop 6 r)
      else if (c =? plus)%N then (decimal_value (take 6 r), drop 6 r)
      else (decimal_value (take 4 s), drop 4 s)
  | [] => (0, [])
  end.

Definition field (i k : nat) (s : jsstr) : Z := decimal_value (take k (drop i s)).

Definition iso_value (s : jsstr) : option Z :=
  let '(y, r) := year_of_text s in
  Some (days_from_civil y (field 1 2 r) (field 4 2 r) * 86400000 + field 7 2 r * 3600000
        + field 10 2 r * 60000 + field 13 2 r * 1000 + field 16 3 r).

Lemma year_text_spec y r : -999999 ≤ y ≤ 999999 → year_of_text (year_text y ++ r) = (y, r).
Proof.
  intros Hy. unfold year_text. destruct ((0 <=? y) && (y <=? 9999)) eqn:E.
  - assert (0 ≤ y < 10000) as Hy' by lia. pose proof (padded_length 4 y) as Hl.
    assert (∃ c p, padded 4 y = c :: p ∧ (c =? minus)%N = false ∧ (c =? plus)%N = false) as (c & p & Ep & H1 & H2).
    { cbn [padded app]. eexists _, _. split; [done|]. unfold digit, minus, plus.
      pose proof (Z.mod_pos_bound (y / 10 / 10 / 10) 10). lia. }
    rewrite Ep in Hl |- *. cbn [year_of_text app]. rewrite H1, H2.
    change (c :: p ++ r) with ((c :: p) ++ r). rewrite take_app_length', drop_app_length' by done.
    rewrite <-Ep, padded_value by (cbn; lia). done.
  - assert (0 ≤ Z.abs y < 10 ^ Z.of_nat 6) as Hy' by (cbn; lia).
    pose proof (padded_length 6 (Z.abs y)) as Hl. cbn [app year_of_text].
    rewrite take_app_length', drop_app_length', padded_value by done.
    destruct (Z.ltb_spec y 0); cbn; f_equal; lia.
Qed.

Lemma padded2 n : 0 ≤ n < 100 → decimal_value [digit (n / 10 mod 10); digit (n mod 10)] = n.
Proof. exact (padded_value 2 n). Qed.

Lemma padded3 n : 0 ≤ n < 1000 →
  decimal_value [digit (n / 10 / 10 mod 10); digit (n / 10 mod 10); digit (n mod 10)] = n.
Proof. exact (padded_value 3 n). Qed.

Lemma time_fields day tod : 0 ≤ tod < 86400000 →
  day * 86400000 + tod / 3600000 * 3600000 + tod / 60000 mod 60 * 60000 + tod / 1000 mod 60 * 1000
  + tod mod 1000 = day * 86400000 + tod.
Proof.
  intros Ht. replace (tod / 3600000) with (tod / 60000 / 60) by (by rewrite Z.div_div by lia).
  replace (tod / 60000) with (tod / 1000 / 60) by (by rewrite Z.div_div by lia).
  pose proof (Z.div_mod tod 1000). pose proof (Z.div_mod (tod / 1000) 60).
  pose proof (Z.div_mod (tod / 1000 / 60) 60). lia.
Qed.

Lemma iso_value_text y m d h mi sec msec :
  -999999 ≤ y ≤ 999999 → 0 ≤ m < 100 → 0 ≤ d < 100 → 0 ≤ h < 100 → 0 ≤ mi < 100 → 0 ≤ sec < 100 →
  0 ≤ msec < 1000 →
  iso_value (iso_text y m d h mi sec msec) =
    Some (days_from_civil y m d * 86400000 + h * 3600000 + mi * 60000 + sec * 1000 + msec).
Proof.
  intros. unfold iso_value, iso_text. rewrite year_text_spec by done.
  unfold field. cbn [padded app js fmap list_fmap String.list_ascii_of_string take drop].
  by rewrite !padded2, padded3 by lia.
Qed.

Lemma valid_day ms : valid_time ms = true →
  -999999 ≤ (ms / 86400000 + 719468) / 146097 * 400 ∧
  (ms / 86400000 + 719468) / 146097 * 400 + 400 ≤ 999999.
Proof.
  unfold valid_time, MAX_TIME. intros Hv.
  assert (-100000000 ≤ ms / 86400000 ≤ 100000000) as Hday.
  { split; [apply Z.div_le_lower_bound; lia|apply Z.div_le_upper_bound; lia]. }
  assert (-1000 ≤ (ms / 86400000 + 719468) / 146097 ≤ 1000) as Hera; [|lia].
  split; [apply Z.div_le_lower_bound; lia|apply Z.div_le_upper_bound; lia].
Qed.

Lemma tod_fields tod : 0 ≤ tod < 86400000 →
  0 ≤ tod / 3600000 < 100 ∧ 0 ≤ tod / 60000 mod 60 < 100 ∧ 0 ≤ tod / 1000 mod 60 < 100 ∧
  0 ≤ tod mod 1000 < 1000.
Proof.
  intros Ht. pose proof (Z.mod_pos_bound (tod / 60000) 60). pose proof (Z.mod_pos_bound (tod / 1000) 60).
  pose proof (Z.mod_pos_bound tod 1000).
  assert (0 ≤ tod / 3600000 < 24) by (split; [apply Z.div_pos; lia|apply Z.div_lt_upper_bound; lia]).
  lia.
Qed.

Lemma iso_value_toISOString ms : valid_time ms = true → iso_value (toISOString ms) = Some ms.
Proof.
  intros Hv%valid_day. unfold toISOString.
  pose proof (civil_from_days_spec (ms / 86400000)) as Hc.
  destruct (civil_from_days (ms / 86400000)) as [[y m] d]. destruct Hc as (Hdays & Hm & Hd & Hy).
  cbv zeta. pose proof (Z.mod_pos_bound ms 86400000 eq_refl) as Htod.
  destruct (tod_fields _ Htod) as (H1 & H2 & H3 & H4).
  rewrite iso_value_text by lia. rewrite Hdays, (time_fields _ _ Htod). f_equal.
  rewrite (Z.div_mod ms 86400000) at 3 by done. lia.
Qed.

(** An engine that reads every string as if it were ISO. *)
Definition iso_dates : DateParse := {| date_parse := iso_value; date_parse_iso := iso_value_toISOString |}.

Example iso_example : toISOString 1709164800123 = js "2024-02-29T00:00:00.123Z".
Proof. vm_compute. reflexivity. Qed.
Example iso_negative : toISOString (-62198755200000) = js "-000001-01-01T00:00:00.000Z".
Proof. vm_compute. reflexivity. Qed.
