(* ===== verification/Json.v ===== *)
(** * JavaScript values and the JSON boundary schema

    Models the value schemas of [src/interfaces/temporal-kv.ts]: an [unknown] JavaScript value,
    the iterative nesting-depth walk [exceedsMaxDepth], the recursive text check
    [jsonValueHasUnsafeText], and [JsonValueSchema], which composes them around Zod's [z.json()].
    Zod's own combinators ([z.json], [z.string().min().max()], [z.bigint()], [z.number().int()])
    are read with their documented meaning. *)

From S2P Require Import Prelude Text.

(** A JavaScript number, as far as the schemas distinguish numbers. *)
Inductive jsnum :=
  | NumInt (z : Z)                    (** a finite number with an integer value *)
  | NumFrac (num : Z) (den : positive) (** a finite number with no integer value *)
  | NumNaN
  | NumInfinity (negative : bool).

#[export] Instance jsnum_eq_dec : EqDecision jsnum.
Proof. solve_decision. Defined.

(** A raw [unknown] value. [JDate None] is an Invalid Date; [JOpaque] is a function, a symbol or
    an instance with no own enumerable properties. *)
Inductive jsval :=
  | JUndefined
  | JNull
  | JBool (b : bool)
  | JNum (n : jsnum)
  | JBigInt (z : Z)
  | JStr (s : jsstr)
  | JDate (ms : option Z)
  | JOpaque
  | JArr (items : list jsval)
  | JObj (fields : list (jsstr * jsval)).

Section jsval_induction.
Context (P : jsval → Prop).
Context (Hleaf : ∀ v, match v with JArr _ | JObj _ => True | _ => P v end).
Context (Harr : ∀ items, Forall P items → P (JArr items)).
Context (Hobj : ∀ fields, Forall (P ∘ snd) fields → P (JObj fields)).

Fixpoint jsval_nested_ind (v : jsval) : P v :=
  match v with
  | JArr items =>
      Harr items ((fix go l : Forall P l :=
        match l with
        | [] => List.Forall_nil _
        | x :: l' => List.Forall_cons _ _ _ (jsval_nested_ind x) (go l')
        end) items)
  | JObj fields =>
      Hobj fields ((fix go l : Forall (P ∘ snd) l :=
        match l with
        | [] => List.Forall_nil _
        | x :: l' => List.Forall_cons _ _ _ (jsval_nested_ind x.2) (go l')
        end) fields)
  | v => Hleaf v
  end.
End jsval_induction.

(** ** Depth *)

(** The values one level down: array items, or [Object.values]. *)
Definition children (v : jsval) : list jsval :=
  match v with
  | JArr items => items
  | JObj fields => snd <$> fields
  | _ => []
  end.

Definition MAX_JSON_DEPTH : nat := 64.

(** The [while (stack.length > 0)] loop; the head of [stack] is its top, and pushing the children
    in order leaves the last one on top. [None]: out of fuel. *)
Fixpoint exceedsMaxDepth_loop (fuel : nat) (stack : list (jsval * nat)) (maxDepth : nat)
    : option bool :=
  match stack with
  | [] => Some false
  | (v, depth) :: rest =>
      match fuel with
      | O => None
      | S fuel' =>
          if (maxDepth <? depth)%nat then Some true
          else exceedsMaxDepth_loop fuel'
                 (reverse ((λ c, (c, S depth)) <$> children v) ++ rest) maxDepth
      end
  end.

(** Number of nodes of a value: the loop pops each of them at most once. *)
Fixpoint jsize (v : jsval) : nat :=
  match v with
  | JArr items => S (foldr (λ x n, jsize x + n)%nat O items)
  | JObj fields => S (foldr (λ x n, jsize x.2 + n)%nat O fields)
  | _ => 1
  end.

Definition exceedsMaxDepth (value : jsval) (maxDepth : nat) : bool :=
  default true (exceedsMaxDepth_loop (jsize value) [(value, O)] maxDepth).

(** The nesting depth, by recursion: the reference the iterative walk is compared with. *)
Fixpoint jdepth (v : jsval) : nat :=
  match v with
  | JArr items => foldr (λ x n, S (jdepth x) `max` n)%nat O items
  | JObj fields => foldr (λ x n, S (jdepth x.2) `max` n)%nat O fields
  | _ => O
  end.

(** ** Text *)

Fixpoint jsonValueHasUnsafeText (v : jsval) : bool :=
  match v with
  | JStr s => hasPostgresUnsafeText s
  | JArr items => existsb jsonValueHasUnsafeText items
  | JObj fields => existsb (λ kv, hasPostgresUnsafeText kv.1 || jsonValueHasUnsafeText kv.2) fields
  | _ => false
  end.

(** Every string of a value: leaves and object keys. *)
Fixpoint strings_of (v : jsval) : list jsstr :=
  match v with
  | JStr s => [s]
  | JArr items => items ≫= strings_of
  | JObj fields => fields ≫= λ kv, kv.1 :: strings_of kv.2
  | _ => []
  end.

(** ** Schemas *)

Definition z_number (n : jsnum) : bool :=
  match n with NumInt _ | NumFrac _ _ => true | _ => false end.

(** [z.json()]. *)
Fixpoint z_json (v : jsval) : bool :=
  match v with
  | JNull | JBool _ | JStr _ => true
  | JNum n => z_number n
  | JArr items => forallb z_json items
  | JObj fields => forallb (λ kv, z_json kv.2) fields
  | _ => false
  end.

Definition JsonValueInnerSchema (v : jsval) : bool := z_json v && negb (jsonValueHasUnsafeText v).

(** [z.preprocess]: the depth guard runs before the recursive schema does. *)
Definition JsonValueSchema (v : jsval) : bool :=
  if exceedsMaxDepth v MAX_JSON_DEPTH then false else JsonValueInnerSchema v.

(** [z.string().min(lo).max(hi)] with the text refinement; lengths count UTF-16 code units. *)
Definition z_text (lo : nat) (hi : option nat) (s : jsstr) : bool :=
  (lo <=? length s)%nat && (if hi is Some h then length s <=? h else true)%nat
  && negb (hasPostgresUnsafeText s).

Definition NamespaceSchema (s : jsstr) : bool := z_text 1 (Some 63) s.
Definition ScopeSchema (s : jsstr) : bool := z_text 1 (Some 63) s.
Definition KeySchema (s : jsstr) : bool := z_text 1 None s.

Definition POSTGRES_BIGINT_MAX : Z := 9223372036854775807.
Definition StoredVersionSchema (v : Z) : bool := (0 <? v)%Z && (v <=? POSTGRES_BIGINT_MAX)%Z.
Definition ExpectedVersionSchema (v : Z) : bool := (0 <=? v)%Z && (v <=? POSTGRES_BIGINT_MAX)%Z.

(** [z.number().int()] (safe integers), and the positive bounded form the options use. *)
Definition MAX_SAFE_INTEGER : Z := 9007199254740991.
Definition z_int (n : jsnum) : option Z :=
  match n with
  | NumInt z => if (Z.abs z <=? MAX_SAFE_INTEGER)%Z then Some z else None
  | _ => None
  end.
Definition z_positive_int (max : Z) (n : jsnum) : option Z :=
  z ← z_int n; if (0 <? z)%Z && (z <=? max)%Z then Some z else None.

(** ** The iterative walk computes the depth *)

Lemma jsize_children v : jsize v = S (foldr (λ c n, jsize c + n)%nat O (children v)).
Proof.
  destruct v as [| | | | | | | |items|fields]; [done..|]. simpl. by rewrite foldr_fmap.
Qed.

Lemma jdepth_children v : jdepth v = foldr (λ c n, S (jdepth c) `max` n)%nat O (children v).
Proof.
  destruct v as [| | | | | | | |items|fields]; [done..|]. simpl. by rewrite foldr_fmap.
Qed.

(** Total work left on a stack, and the deepest node it can still reach. *)
Definition stack_size (st : list (jsval * nat)) : nat := foldr (λ e n, jsize e.1 + n)%nat O st.
Definition stack_exceeds (m : nat) (st : list (jsval * nat)) : Prop :=
  ∃ v d, (v, d) ∈ st ∧ (m < d + jdepth v)%nat.

Lemma stack_size_app s1 s2 : stack_size (s1 ++ s2) = (stack_size s1 + stack_size s2)%nat.
Proof. induction s1 as [|e s1 IH]; simpl; lia. Qed.

Lemma stack_size_reverse s : stack_size (reverse s) = stack_size s.
Proof.
  induction s as [|e s IH]; [done|].
  rewrite reverse_cons, stack_size_app, IH. simpl. lia.
Qed.

Lemma stack_size_children d v :
  S (stack_size ((λ c, (c, S d)) <$> children v)) = jsize v.
Proof. rewrite jsize_children. unfold stack_size. by rewrite foldr_fmap. Qed.

Lemma lt_foldr_max {A} (f : A → nat) l k :
  (k < foldr (λ c n, f c `max` n)%nat O l)%nat ↔ ∃ c, c ∈ l ∧ (k < f c)%nat.
Proof.
  induction l as [|c l IH]; simpl.
  - split; [lia|]. by intros (? & ?%not_elem_of_nil & _).
  - rewrite Nat.max_lt_iff, IH. setoid_rewrite elem_of_cons. naive_solver.
Qed.

Lemma stack_exceeds_pop m v d rest :
  (d ≤ m)%nat →
  stack_exceeds m (reverse ((λ c, (c, S d)) <$> children v) ++ rest) ↔
  stack_exceeds m ((v, d) :: rest).
Proof.
  intros Hd. unfold stack_exceeds.
  assert ((m < d + jdepth v)%nat ↔ ∃ c, c ∈ children v ∧ (m < S d + jdepth c)%nat) as Hv.
  { rewrite jdepth_children. destruct (decide (d ≤ m)%nat); [|lia].
    transitivity (m - d < foldr (λ c n, S (jdepth c) `max` n) O (children v))%nat; [lia|].
    rewrite lt_foldr_max. split; intros (c & ? & ?); exists c; (split; [done|lia]). }
  split.
  - intros (w & e & Hin & Hlt). apply elem_of_app in Hin as [Hin|Hin].
    + rewrite elem_of_reverse, list_elem_of_fmap in Hin. destruct Hin as (c & [= -> ->] & Hc).
      exists v, d. split; [left|]. apply Hv. by exists c.
    + exists w, e. by split; [right|].
  - intros (w & e & [[= -> ->]|Hin]%elem_of_cons & Hlt).
    + apply Hv in Hlt as (c & Hc & Hlt). exists c, (S d). split; [|done].
      rewrite elem_of_app, elem_of_reverse, list_elem_of_fmap. left. by exists c.
    + exists w, e. rewrite elem_of_app. auto.
Qed.

Lemma exceedsMaxDepth_loop_spec fuel st m :
  (stack_size st ≤ fuel)%nat →
  ∃ b, exceedsMaxDepth_loop fuel st m = Some b ∧ (b = true ↔ stack_exceeds m st).
Proof.
  revert st. induction fuel as [|fuel IH]; intros [|[v d] rest] Hf; simpl in *;
    try (rewrite jsize_children in Hf; lia);
    try (exists false; split; [done|]; split; [done|]; by intros (? & ? & ?%not_elem_of_nil & _)).
  destruct (m <? d)%nat eqn:Hlt.
  - exists true. split; [done|]. split; [|done]. intros _. exists v, d.
    split; [left|]. apply Nat.ltb_lt in Hlt. lia.
  - apply Nat.ltb_ge in Hlt. setoid_rewrite <-(stack_exceeds_pop m v d rest Hlt). apply IH.
    rewrite stack_size_app, stack_size_reverse. pose proof (stack_size_children d v). lia.
Qed.

Lemma exceedsMaxDepth_walk (v : jsval) (maxDepth : nat) :
  exceedsMaxDepth_loop (jsize v) [(v, O)] maxDepth = Some (exceedsMaxDepth v maxDepth) ∧
  (exceedsMaxDepth v maxDepth = true ↔ (maxDepth < jdepth v)%nat).
Proof.
  unfold exceedsMaxDepth.
  destruct (exceedsMaxDepth_loop_spec (jsize v) [(v, O)] maxDepth) as (b & -> & Hb); [simpl; lia|].
  split; [done|]. simpl. rewrite Hb. unfold stack_exceeds. split.
  - by intros (? & ? & [= -> ->]%list_elem_of_singleton & ?).
  - intros ?. exists v, O. by rewrite list_elem_of_singleton.
Qed.

(** The iterative walk terminates on every value, with as many iterations as the value has
    nodes, and answers whether the recursive nesting depth exceeds the bound. *)
Theorem exceedsMaxDepth_depth (v : jsval) (maxDepth : nat) :
  exceedsMaxDepth_loop (jsize v) [(v, O)] maxDepth = Some (exceedsMaxDepth v maxDepth) ∧
  (exceedsMaxDepth v maxDepth = true ↔ (maxDepth < jdepth v)%nat).
Proof. apply exceedsMaxDepth_walk. Qed.

(** ** The value schema *)

Lemma jsonValueHasUnsafeText_strings v :
  jsonValueHasUnsafeText v = false ↔ Forall (λ s, hasPostgresUnsafeText s = false) (strings_of v).
Proof.
  revert v. apply jsval_nested_ind; [intros v|intros items IH|intros fields IH].
  - destruct v; try done; simpl; rewrite ?Forall_singleton; done.
  - simpl. induction IH as [|x l Hx _ IHl]; simpl; [done|].
    by rewrite orb_false_iff, Forall_app, Hx, IHl.
  - simpl. induction IH as [|[k x] l Hx _ IHl]; simpl in *; [done|].
    rewrite !orb_false_iff, Forall_cons, Forall_app, Hx, IHl. tauto.
Qed.

Lemma jsonValueHasUnsafeText_storable v :
  jsonValueHasUnsafeText v = false ↔ Forall postgres_storable (strings_of v).
Proof.
  rewrite jsonValueHasUnsafeText_strings. apply Forall_iff, safe_text_storable.
Qed.

(** [JsonValueSchema] accepts exactly the JSON values PostgreSQL can store: JSON by
    [z.json()], nested at most [MAX_JSON_DEPTH] levels, and with every string leaf and object key
    well-formed and NUL-free. *)
Theorem JsonValueSchema_exact (v : jsval) :
  JsonValueSchema v = true ↔
  z_json v = true ∧ (jdepth v ≤ MAX_JSON_DEPTH)%nat ∧ Forall postgres_storable (strings_of v).
Proof.
  unfold JsonValueSchema, JsonValueInnerSchema.
  pose proof (proj2 (exceedsMaxDepth_walk v MAX_JSON_DEPTH)) as Hd.
  rewrite <-jsonValueHasUnsafeText_storable.
  destruct (exceedsMaxDepth v MAX_JSON_DEPTH).
  - destruct Hd as [Hd _]. specialize (Hd eq_refl). split; [done|]. intros (_ & ? & _). lia.
  - rewrite andb_true_iff, negb_true_iff.
    assert (jdepth v ≤ MAX_JSON_DEPTH)%nat; [|tauto].
    destruct (decide (jdepth v ≤ MAX_JSON_DEPTH)%nat); [done|].
    assert (false = true) by (apply Hd; lia). done.
Qed.
