(* ===== verification/Errors.v ===== *)
(** * Thrown values, the [StorageError] hierarchy and the driver-error translation

    Models [src/interfaces/storage-errors.ts], the error classes of the other interface files, and
    [src/postgres/errors.ts]: what a [throw] can carry, the machine-readable [code] and
    [retryable] of every class, and [translatePostgresError]. *)

From S2P Require Import Prelude Text.

(** [Retryability]. *)
Inductive Retryability := retryable | non_retryable | conditional.

#[export] Instance Retryability_eq_dec : EqDecision Retryability.
Proof. solve_decision. Defined.

(** [AsOf] as the public API receives it: the discriminant and its payload are caller data. *)
Inductive AsOf :=
  | AsOfVersion (version : Z)
  | AsOfAt (at_ms : option Z)   (** a [Date]; [None] is an Invalid Date *)
  | AsOfAtNotDate               (** [kind: "at"] whose payload is not a [Date] *)
  | AsOfOtherKind.              (** any other discriminant *)

(** [TransactionRollbackCause]. *)
Inductive TransactionRollbackCause :=
  | CallbackRequested (reason : option string)
  | ConstraintViolation (code : string) (detail : option string).

(** [faultKind] of [TransactionFaultError] and [LeaseFaultError]. *)
Inductive TxFaultKind := TxConnectionLost | TxSerializationFailure | TxDeadlock | TxTimeout | TxUnknown.
Inductive LeaseFaultKind := LeaseConnectionLost | LeaseReserveFailed | LeaseUnknown.

(** One flattened Zod issue. *)
Record Issue := { issue_path : string; issue_message : string }.

(** The concrete [StorageError] subclasses with their own fields. Messages a constructor computes
    from these fields are not stored. *)
Inductive StorageErrorClass :=
  (* storage-errors.ts *)
  | CValidation (boundary : string) (issues : list Issue)
  | CSerializationFailed (message : string)
  | CConnection (message : string)
  (* temporal-kv.ts *)
  | CVersionConflict (expected : Z) (actual : option Z)
  | CHistoryUnavailable (requested : AsOf) (oldestAvailableAt oldestAvailableVersion : Z)
  | CTransactionKeyReuse (namespace scope key : jsstr)
  (* checkpoint-store.ts *)
  | CCheckpointNotFound (walletId networkId : jsstr) (sequence : option Z)
  | CChunkMissing (chunkHash : bytes)
  | CChunkIntegrity (chunkHash expectedHash : bytes)
  | CManifestCorrupt (manifestHash : bytes) (reason : string)
  (* transaction-lease.ts *)
  | CTransactionRolledBack (rollbackCause : TransactionRollbackCause)
  | CTransactionFault (message : string) (faultKind : TxFaultKind)
  | CLeaseTimeout (key : jsstr) (waitedMs : Z)
  | CLeaseNotHeld (key : jsstr)
  | CLeaseFault (message : string) (faultKind : LeaseFaultKind)
  | CTransactionHandleInvalid (handleId : jsstr)
  (* wallet-state-envelope.ts *)
  | CEnvelopeVersionUnsupported (foundVersion : Z)
  | CEnvelopeCorrupt (message : string)
  (* errors.ts, migrate.ts, durability-probe.ts *)
  | CExclusionViolation (message : string)
  | CClockRegression (message : string)
  | CUnrecognizedPostgres (message : string)
  | CMigrationLockTimeout (schema : jsstr) (timeoutMs : Z)
  | CDurabilityContract (violations : list (string * string))
  | CTransactionPoolerDetected
  (* chain-archive *)
  | CChainArchiveInvariant (message constraintName : string)
  | CChainArchiveCheckViolation (message constraintName : string)
  | CBlobIntegrity (expectedHash actualHash : jsstr)
  | CBlobMissing (hash : jsstr)
  | CBlockNotFound (net : jsstr) (height : Z) (blockHash : option jsstr).

(** A value thrown by JavaScript code. [TError] is any other [Error] instance: the own [code],
    [severity] and [constraint_name] properties a driver error carries are [Some] when they are
    strings. [TOther] is a thrown value that is not an [Error]. *)
Inductive thrown :=
  | TStorage (c : StorageErrorClass) (cause : option thrown)
  | TRollback (rollbackCause : TransactionRollbackCause)
  | TError (name message : string) (code severity constraint_name : option string)
  | TOther (repr : string).

Abbreviation act S A := (action thrown S A).

(** ** Constructors named like the classes *)

Definition ValidationError (boundary path message : string) : thrown :=
  TStorage (CValidation boundary [{| issue_path := path; issue_message := message |}]) None.
Definition SerializationFailedError (message : string) : thrown :=
  TStorage (CSerializationFailed message) None.
Definition ConnectionError (message : string) (cause : thrown) : thrown :=
  TStorage (CConnection message) (Some cause).
Definition VersionConflictError (expected : Z) (actual : option Z) : thrown :=
  TStorage (CVersionConflict expected actual) None.
Definition TransactionKeyReuseError (namespace scope key : jsstr) : thrown :=
  TStorage (CTransactionKeyReuse namespace scope key) None.
Definition CheckpointNotFoundError (w n : jsstr) (seq : option Z) : thrown :=
  TStorage (CCheckpointNotFound w n seq) None.
Definition ChunkMissingError (h : bytes) : thrown := TStorage (CChunkMissing h) None.
Definition ChunkIntegrityError (actual expected : bytes) : thrown :=
  TStorage (CChunkIntegrity actual expected) None.
Definition ManifestCorruptError (h : bytes) (reason : string) : thrown :=
  TStorage (CManifestCorrupt h reason) None.
Definition TransactionRolledBackError (c : TransactionRollbackCause) : thrown :=
  TStorage (CTransactionRolledBack c) None.
Definition TransactionFaultError (m : string) (k : TxFaultKind) (cause : thrown) : thrown :=
  TStorage (CTransactionFault m k) (Some cause).
Definition LeaseTimeoutError (key : jsstr) (ms : Z) : thrown := TStorage (CLeaseTimeout key ms) None.
Definition LeaseNotHeldError (key : jsstr) : thrown := TStorage (CLeaseNotHeld key) None.
Definition LeaseFaultError (m : string) (k : LeaseFaultKind) (cause : thrown) : thrown :=
  TStorage (CLeaseFault m k) (Some cause).
Definition TransactionHandleInvalidError (id : jsstr) : thrown :=
  TStorage (CTransactionHandleInvalid id) None.
Definition EnvelopeVersionUnsupportedError (v : Z) : thrown :=
  TStorage (CEnvelopeVersionUnsupported v) None.
Definition EnvelopeCorruptError (m : string) (cause : option thrown) : thrown :=
  TStorage (CEnvelopeCorrupt m) cause.
Definition ExclusionViolationError (m : string) (cause : thrown) : thrown :=
  TStorage (CExclusionViolation m) (Some cause).
Definition ClockRegressionError (m : string) (cause : thrown) : thrown :=
  TStorage (CClockRegression m) (Some cause).
Definition UnrecognizedPostgresError (m : string) (cause : thrown) : thrown :=
  TStorage (CUnrecognizedPostgres m) (Some cause).
Definition ChainArchiveInvariantError (m c : string) (cause : thrown) : thrown :=
  TStorage (CChainArchiveInvariant m c) (Some cause).
Definition ChainArchiveCheckViolationError (m c : string) (cause : thrown) : thrown :=
  TStorage (CChainArchiveCheckViolation m c) (Some cause).
Definition BlobIntegrityError (expectedHash actualHash : jsstr) : thrown :=
  TStorage (CBlobIntegrity expectedHash actualHash) None.
Definition BlobMissingError (hash : jsstr) : thrown := TStorage (CBlobMissing hash) None.
Definition BlockNotFoundError (net : jsstr) (height : Z) (blockHash : jsstr) : thrown :=
  TStorage (CBlockNotFound net height (Some blockHash)) None.

(** A PostgreSQL wire-protocol error: it always carries a [severity]. *)
Definition pg_error (sqlstate message : string) (constraint_name : option string) : thrown :=
  TError "PostgresError" message (Some sqlstate) (Some "ERROR") constraint_name.

Definition AbortError : thrown := TError "AbortError" "The operation was aborted" None None None.

(** ** The catalog *)

Definition class_code (c : StorageErrorClass) : string :=
  match c with
  | CValidation _ _ => "VALIDATION_FAILED"
  | CSerializationFailed _ => "SERIALIZATION_FAILED"
  | CConnection _ => "CONNECTION_ERROR"
  | CVersionConflict _ _ => "VERSION_CONFLICT"
  | CHistoryUnavailable _ _ _ => "HISTORY_UNAVAILABLE"
  | CTransactionKeyReuse _ _ _ => "TRANSACTION_KEY_REUSE"
  | CCheckpointNotFound _ _ _ => "NOT_FOUND"
  | CChunkMissing _ => "CHUNK_MISSING"
  | CChunkIntegrity _ _ => "CHUNK_INTEGRITY"
  | CManifestCorrupt _ _ => "MANIFEST_CORRUPT"
  | CTransactionRolledBack _ => "TRANSACTION_ROLLED_BACK"
  | CTransactionFault _ _ => "TRANSACTION_FAULT"
  | CLeaseTimeout _ _ => "LEASE_TIMEOUT"
  | CLeaseNotHeld _ => "LEASE_NOT_HELD"
  | CLeaseFault _ _ => "LEASE_FAULT"
  | CTransactionHandleInvalid _ => "TRANSACTION_HANDLE_INVALID"
  | CEnvelopeVersionUnsupported _ => "VERSION_UNSUPPORTED"
  | CEnvelopeCorrupt _ => "CORRUPT"
  | CExclusionViolation _ => "EXCLUSION_VIOLATION"
  | CClockRegression _ => "CLOCK_REGRESSION"
  | CUnrecognizedPostgres _ => "UNRECOGNIZED_POSTGRES_ERROR"
  | CMigrationLockTimeout _ _ => "MIGRATION_LOCK_TIMEOUT"
  | CDurabilityContract _ => "DURABILITY_CONTRACT_VIOLATION"
  | CTransactionPoolerDetected => "TRANSACTION_POOLER_DETECTED"
  | CChainArchiveInvariant _ _ => "CHAIN_ARCHIVE_INVARIANT_VIOLATION"
  | CChainArchiveCheckViolation _ _ => "CHAIN_ARCHIVE_CHECK_VIOLATION"
  | CBlobIntegrity _ _ => "BLOB_INTEGRITY"
  | CBlobMissing _ => "BLOB_MISSING"
  | CBlockNotFound _ _ _ => "BLOCK_NOT_FOUND"
  end.

Definition class_retryable (c : StorageErrorClass) : Retryability :=
  match c with
  | CConnection _ | CTransactionFault _ _ | CLeaseTimeout _ _ | CMigrationLockTimeout _ _ => retryable
  | CClockRegression _ => conditional
  | _ => non_retryable
  end.

Definition error_retryable (e : thrown) : option Retryability :=
  match e with TStorage c _ => Some (class_retryable c) | _ => None end.

(** ** Driver errors *)

(** [typeof err.code === "string"]: every storage error has a string [code] too. *)
Definition err_code (e : thrown) : option string :=
  match e with
  | TStorage c _ => Some (class_code c)
  | TError _ _ code _ _ => code
  | _ => None
  end.
Definition err_severity (e : thrown) : option string :=
  match e with TError _ _ _ severity _ => severity | _ => None end.
Definition err_constraint_name (e : thrown) : option string :=
  match e with TError _ _ _ _ c => c | _ => None end.
Definition err_message (e : thrown) : string :=
  match e with TError _ m _ _ _ => m | _ => "" end.

Definition CONNECTION_FAILURE_CODES : list string :=
  ["ECONNREFUSED"; "ENOTFOUND"; "ETIMEDOUT"; "ECONNRESET"; "CONNECTION_CLOSED"; "CONNECT_TIMEOUT";
   "CONNECTION_ENDED"; "CONNECTION_DESTROYED";
   "08000"; "08001"; "08003"; "08004"; "08006"; "08007"; "08P01";
   "28000"; "28P01"; "57P01"; "57P02"; "57P03"].

Definition CHAIN_ARCHIVE_INVARIANT_CONSTRAINT_NAMES : list string :=
  ["chain_blob_roles_completeness"; "blocks_finalized_monotonic"; "chain_blob_roles_removal_guard"].

Definition CHAIN_ARCHIVE_CHECK_TABLE_PREFIXES : list string :=
  ["blocks_"; "transactions_"; "bridge_observations_"; "chain_blobs_"; "chain_blob_roles_";
   "verifier_key_observations_"].

Definition set_has (x : string) (l : list string) : bool := existsb (String.eqb x) l.

Definition isChainArchiveCheckConstraintName (constraintName : string) : bool :=
  existsb (λ p, String.prefix p constraintName) CHAIN_ARCHIVE_CHECK_TABLE_PREFIXES.

Arguments set_has : simpl never.
Arguments isChainArchiveCheckConstraintName : simpl never.

Definition isPgDriverError (e : thrown) : bool :=
  match err_code e with
  | None => false
  | Some code =>
      bool_decide (is_Some (err_severity e)) || set_has code CONNECTION_FAILURE_CODES
  end.

Definition code_is (e : thrown) (code : string) : bool :=
  if err_code e is Some c then String.eqb c code else false.

Definition isConnectionFailure (e : thrown) : bool :=
  isPgDriverError e && (if err_code e is Some c then set_has c CONNECTION_FAILURE_CODES else false).
Definition isStatementTimeout (e : thrown) : bool := isPgDriverError e && code_is e "57014".
Definition isLockTimeout (e : thrown) : bool := isPgDriverError e && code_is e "55P03".

(** The [switch (err.code)] of [translatePostgresError]. *)
Definition translate_check_violation (e : thrown) : thrown :=
  match err_constraint_name e with
  | Some c =>
      if set_has c CHAIN_ARCHIVE_INVARIANT_CONSTRAINT_NAMES
      then ChainArchiveInvariantError (err_message e) c e
      else if isChainArchiveCheckConstraintName c
      then ChainArchiveCheckViolationError (err_message e) c e
      else ClockRegressionError (err_message e) e
  | None => ClockRegressionError (err_message e) e
  end.

Definition translatePostgresError (e : thrown) (keyContext : option (jsstr * jsstr * jsstr)) : thrown :=
  match e with
  | TStorage _ _ => e
  | TOther repr => TError "Error" repr None None None
  | _ =>
      if negb (isPgDriverError e) then e
      else if isConnectionFailure e then ConnectionError (err_message e) e
      else if code_is e "UB001" then
        match keyContext with
        | Some (ns, scope, key) => TransactionKeyReuseError ns scope key
        | None =>
            ExclusionViolationError
              ("transaction key reuse (UB001) with no key context: " +:+ err_message e) e
        end
      else if code_is e "23P01" then ExclusionViolationError (err_message e) e
      else if code_is e "23514" then translate_check_violation e
      else if code_is e "40001" then
        TransactionFaultError ("serialization failure: " +:+ err_message e) TxSerializationFailure e
      else if code_is e "40P01" then
        TransactionFaultError ("deadlock detected: " +:+ err_message e) TxDeadlock e
      else UnrecognizedPostgresError (err_message e) e
  end.

(** ** Theorems *)

(** The codes of the storage classes are outside the driver's code set, so no typed error is
    ever taken for a driver error. *)
Lemma storage_not_driver c cause : isPgDriverError (TStorage c cause) = false.
Proof. by destruct c. Qed.

Lemma storage_not_connection_failure c cause : isConnectionFailure (TStorage c cause) = false.
Proof. unfold isConnectionFailure. by rewrite storage_not_driver. Qed.

Lemma translate_storage c cause ctx : translatePostgresError (TStorage c cause) ctx = TStorage c cause.
Proof. done. Qed.

(** A driver error is always translated into a storage error. *)
Lemma translate_driver e ctx :
  isPgDriverError e = true → ∃ c cause, translatePostgresError e ctx = TStorage c cause.
Proof.
  intros He. destruct e as [c cause|c|n m code sev con|r]; [by eauto|done| |done].
  unfold translatePostgresError; rewrite He; simpl.
  unfold translate_check_violation, TransactionKeyReuseError.
  repeat case_match; eexists _, _; reflexivity.
Qed.

Lemma translate_no_driver e ctx : isPgDriverError (translatePostgresError e ctx) = false.
Proof.
  destruct (isPgDriverError e) eqn:He.
  - destruct (translate_driver e ctx He) as (c & cause & ->). apply storage_not_driver.
  - destruct e as [c cause|c|n m code sev con|r]; try done.
    unfold translatePostgresError. by rewrite He.
Qed.

(** No raw driver error leaves the adapter layer: whatever is caught, the translated error is
    not a driver error, and translating it again changes nothing. *)
Theorem translatePostgresError_no_raw (e : thrown) (ctx ctx' : option (jsstr * jsstr * jsstr)) :
  isPgDriverError (translatePostgresError e ctx) = false ∧
  translatePostgresError (translatePostgresError e ctx) ctx' = translatePostgresError e ctx.
Proof.
  destruct (isPgDriverError e) eqn:He.
  - destruct (translate_driver e ctx He) as (c & cause & ->). split; [apply storage_not_driver|done].
  - destruct e as [c cause|c|n m code sev con|r]; try done.
    unfold translatePostgresError. rewrite He. simpl. by rewrite He.
Qed.

(** [code] is a stable discriminant: two error instances with the same code are of the same
    class as far as a retry decision goes. *)
Theorem class_code_determines_retryable (c1 c2 : StorageErrorClass) :
  class_code c1 = class_code c2 → class_retryable c1 = class_retryable c2.
Proof. by destruct c1, c2. Qed.

Lemma class_code_determines_retryable_witness :
  class_code (CLeaseTimeout (js "a") 5) = class_code (CLeaseTimeout (js "b") 9) ∧
  class_retryable (CLeaseTimeout (js "a") 5) = class_retryable (CLeaseTimeout (js "b") 9).
Proof.
  split; [reflexivity|]. apply class_code_determines_retryable. reflexivity.
Defined.

Lemma set_has_spec x l : set_has x l = true ↔ x ∈ l.
Proof.
  unfold set_has. rewrite existsb_exists. setoid_rewrite <-list_elem_of_In.
  split; [by intros (? & ? & ->%String.eqb_eq)|]. intros. exists x. by rewrite String.eqb_refl.
Qed.

(** Close one branch of the SQLSTATE routing: the result is known, the iffs are by cases. *)
Ltac solve_routing :=
  eexists _, _; split; [reflexivity|]; simpl; rewrite ?not_elem_of_cons;
  repeat split; intros;
  repeat match goal with
  | H : ∀ n, Some _ = Some n → _ |- _ => specialize (H _ eq_refl)
  | H : Some _ = Some _ |- _ => injection H as <-
  | H : is_Some None |- _ => destruct H as [? [=]]
  | H : _ ∧ _ |- _ => destruct H
  | |- _ ∉ [] => apply not_elem_of_nil
  end;
  try solve [intuition (congruence || discriminate || eauto using not_elem_of_nil)].

(** The routing of a PostgreSQL error by its SQLSTATE: what each documented code turns into,
    for an error that is not a connection failure. *)
Theorem translatePostgresError_routing (sqlstate message : string) (con : option string) ctx :
  set_has sqlstate CONNECTION_FAILURE_CODES = false →
  ∃ c cause, translatePostgresError (pg_error sqlstate message con) ctx = TStorage c cause ∧
  (class_code c = "TRANSACTION_KEY_REUSE" ↔ sqlstate = "UB001" ∧ is_Some ctx) ∧
  (class_code c = "EXCLUSION_VIOLATION" ↔ sqlstate = "23P01" ∨ sqlstate = "UB001" ∧ ctx = None) ∧
  (class_code c = "TRANSACTION_FAULT" ↔ sqlstate = "40001" ∨ sqlstate = "40P01") ∧
  (class_code c = "CLOCK_REGRESSION" ↔ sqlstate = "23514" ∧
     (∀ n, con = Some n → (n ∉ CHAIN_ARCHIVE_INVARIANT_CONSTRAINT_NAMES) ∧
                          isChainArchiveCheckConstraintName n = false)) ∧
  (class_code c = "UNRECOGNIZED_POSTGRES_ERROR" ↔
     sqlstate ∉ ["UB001"; "23P01"; "23514"; "40001"; "40P01"]).
Proof.
  intros Hc. unfold pg_error, translatePostgresError, isConnectionFailure, isPgDriverError, code_is.
  simpl. rewrite Hc. simpl.
  destruct (String.eqb_spec sqlstate "UB001") as [->|]; [destruct ctx as [[[??]?]|]; solve_routing|].
  destruct (String.eqb_spec sqlstate "23P01") as [->|]; [solve_routing|].
  destruct (String.eqb_spec sqlstate "23514") as [->|].
  { unfold translate_check_violation; simpl. destruct con as [cn|]; [|solve_routing].
    destruct (set_has cn _) eqn:Hs; [apply set_has_spec in Hs; solve_routing|].
    destruct (isChainArchiveCheckConstraintName cn) eqn:Hp; [solve_routing|].
    rewrite <-not_true_iff_false, set_has_spec in Hs. solve_routing. }
  destruct (String.eqb_spec sqlstate "40001") as [->|]; [solve_routing|].
  destruct (String.eqb_spec sqlstate "40P01") as [->|]; solve_routing.
Qed.

Lemma translatePostgresError_routing_witness :
  set_has "23514" CONNECTION_FAILURE_CODES = false ∧
  translatePostgresError (pg_error "23514" "m" (Some "kv_history_range")) None =
    ClockRegressionError "m" (pg_error "23514" "m" (Some "kv_history_range")) ∧
  ∃ c cause,
    translatePostgresError (pg_error "23514" "m" (Some "kv_history_range")) None = TStorage c cause ∧
    class_code c = "CLOCK_REGRESSION".
Proof.
  split; [reflexivity|]. split; [reflexivity|].
  destruct (translatePostgresError_routing "23514" "m" (Some "kv_history_range") None eq_refl)
    as (c & cause & He & _ & _ & _ & Hk & _).
  exists c, cause. split; [exact He|]. apply Hk. split; [reflexivity|]. intros n [= <-].
  split; [|reflexivity]. by rewrite <-set_has_spec.
Defined.
