(* ===== verification/Transaction.v ===== *)
(** * Abort signals, transaction handles and [withTransaction]

    Models [src/postgres/abort.ts] and the transaction half of [src/postgres/transaction-lease.ts]
    against a store of any type. The driver's [sql.begin] is not in the repository: it is the
    method of the class [SqlBegin], whose laws state the atomicity PostgreSQL documents. *)

From S2P Require Import Prelude Text Json Errors.

(** ** Abort signals *)

Record AbortSignal := { aborted : bool; reason : thrown }.

(** Only a reason that already is an [AbortError] is passed through. *)
Definition abortError (signal : AbortSignal) : thrown :=
  match reason signal with
  | TError name _ _ _ _ => if String.eqb name "AbortError" then reason signal else AbortError
  | _ => AbortError
  end.

Definition is_AbortError (e : thrown) : bool :=
  match e with TError name _ _ _ _ => String.eqb name "AbortError" | _ => false end.

Definition signal_aborted (signal : option AbortSignal) : bool :=
  if signal is Some s then aborted s else false.

(** Pre-check only: [fn] is never called when the signal is already aborted. *)
Definition withAbort {S A} (fn : act S A) (signal : option AbortSignal) : act S A :=
  match signal with
  | Some s => if aborted s then throw (abortError s) else fn
  | None => fn
  end.

(** ** The world: the store, the registry of live handles, the transaction-local timeout *)

Record World (S : Type) := {
  w_db : S;
  activeTransactions : gset jsstr;
  w_statement_timeout : option Z;
}.
Arguments w_db {S} _.
Arguments activeTransactions {S} _.
Arguments w_statement_timeout {S} _.
Arguments Build_World {S} _ _ _.

Record TransactionHandle := { handle_id : jsstr }.

Section registry.
Context {S : Type}.

Definition set_active (live : gset jsstr) (w : World S) : World S :=
  Build_World (w_db w) live (w_statement_timeout w).

(** Run a store-level operation on the world. *)
Definition on_db {A} (m : act S A) : act (World S) A := λ w,
  let '(r, db') := m (w_db w) in
  (r, Build_World db' (activeTransactions w) (w_statement_timeout w)).

(** [uuid] is what [randomUUID()] returned. *)
Definition registerTransaction (uuid : jsstr) : act (World S) TransactionHandle := λ w,
  (Ok {| handle_id := uuid |}, set_active ({[uuid]} ∪ activeTransactions w) w).

Definition unregisterTransaction (h : TransactionHandle) (w : World S) : World S :=
  set_active (activeTransactions w ∖ {[handle_id h]}) w.

Definition resolveTransaction (h : TransactionHandle) : act (World S) unit := λ w,
  if decide (handle_id h ∈ activeTransactions w) then (Ok tt, w)
  else (Err (TransactionHandleInvalidError (handle_id h)), w).

(** [opts?.tx !== undefined ? resolveTransaction(opts.tx) : this.sql]. *)
Definition route (tx : option TransactionHandle) : act (World S) unit :=
  match tx with Some h => resolveTransaction h | None => mret tt end.

(** [set local statement_timeout = N]. *)
Definition set_local_statement_timeout (ms : Z) : act (World S) unit := λ w,
  (Ok tt, Build_World (w_db w) (activeTransactions w) (Some ms)).
End registry.

(** ** The driver's [begin] *)

Inductive IsolationLevel := ReadCommitted | RepeatableRead | Serializable.

#[export] Instance IsolationLevel_eq_dec : EqDecision IsolationLevel.
Proof. solve_decision. Defined.

(** A transaction commits all of the body's writes or none. When the caller sees a rejection, the
    body's writes can only be durable if the body had finished and the acknowledgement of the
    commit was lost. Handles live in the process, so a rollback does not restore them; a
    [SET LOCAL] ends with the transaction. *)
Class SqlBegin (S : Type) := {
  sql_begin : ∀ A, option IsolationLevel → act (World S) A → act (World S) A;
  sql_begin_ok : ∀ A iso (body : act (World S) A) w a w',
    sql_begin A iso body w = (Ok a, w') →
    ∃ w1, body w = (Ok a, w1) ∧ w_db w' = w_db w1 ∧ activeTransactions w' = activeTransactions w1;
  sql_begin_err : ∀ A iso (body : act (World S) A) w e w',
    sql_begin A iso body w = (Err e, w') →
    (activeTransactions w' = activeTransactions w ∧ w_db w' = w_db w) ∨
    (activeTransactions w' = activeTransactions (body w).2 ∧
      (w_db w' = w_db w ∨ (is_ok (body w).1 = true ∧ w_db w' = w_db (body w).2)));
  sql_begin_local : ∀ A iso (body : act (World S) A) w,
    w_statement_timeout (sql_begin A iso body w).2 = w_statement_timeout w;
}.
Arguments sql_begin {S _ A} iso body.

(** A connection without faults: commit on success, roll back on rejection. *)
Definition begin_no_faults {S A} (iso : option IsolationLevel) (body : act (World S) A)
    : act (World S) A := λ w,
  match body w with
  | (Ok a, w1) => (Ok a, Build_World (w_db w1) (activeTransactions w1) (w_statement_timeout w))
  | (Err e, w1) => (Err e, Build_World (w_db w) (activeTransactions w1) (w_statement_timeout w))
  end.

Definition no_faults {S} : SqlBegin S.
Proof.
  refine {| sql_begin := @begin_no_faults S |}; unfold begin_no_faults; intros.
  - destruct (body w) as [[?|?] w1]; simplify_eq; eauto.
  - destruct (body w) as [[?|?] w1]; simplify_eq; eauto.
  - by destruct (body w) as [[?|?] w1].
Defined.

(** ** [withTransaction] *)

Record TransactionOptions := {
  to_isolation : option string;
  to_timeoutMs : option jsnum;
  to_signal : option AbortSignal;
}.

Definition no_tx_options : TransactionOptions :=
  {| to_isolation := None; to_timeoutMs := None; to_signal := None |}.

Definition POSTGRES_INT4_MAX : Z := 2147483647.

Definition isolation_enum (s : string) : option IsolationLevel :=
  if String.eqb s "read committed" then Some ReadCommitted
  else if String.eqb s "repeatable read" then Some RepeatableRead
  else if String.eqb s "serializable" then Some Serializable
  else None.

(** [TransactionOptionsSchema.safeParse]: an absent field stays absent. *)
Definition validateTransactionOptions (opts : TransactionOptions)
    : result thrown (option IsolationLevel * option Z) :=
  let invalid := Err (ValidationError "PgTransactionLeaseLayer withTransaction opts" "" "") in
  match to_isolation opts, to_timeoutMs opts with
  | Some s, _ =>
      match isolation_enum s, to_timeoutMs opts with
      | Some iso, None => Ok (Some iso, None)
      | Some iso, Some n =>
          if z_positive_int POSTGRES_INT4_MAX n is Some t then Ok (Some iso, Some t) else invalid
      | None, _ => invalid
      end
  | None, None => Ok (None, None)
  | None, Some n =>
      if z_positive_int POSTGRES_INT4_MAX n is Some t then Ok (None, Some t) else invalid
  end.

(** The [catch] block of [withTransaction]. *)
Definition tx_catch (timeoutMs : option Z) (e : thrown) : thrown :=
  match e with
  | TRollback c => TransactionRolledBackError c
  | _ =>
      if isStatementTimeout e && bool_decide (is_Some timeoutMs)
      then TransactionFaultError "transaction exceeded its timeout" TxTimeout e
      else if isConnectionFailure e
      then TransactionFaultError "connection lost during transaction" TxConnectionLost e
      else translatePostgresError e None
  end.

Lemma abortError_is_AbortError signal : is_AbortError (abortError signal) = true.
Proof.
  unfold abortError. destruct (reason signal) as [| |n m c sv k|]; [done|done| |done].
  destruct (String.eqb n "AbortError") eqn:Hn; [exact Hn|done].
Qed.

Lemma tx_catch_AbortError t e :
  is_AbortError e = true → isPgDriverError e = false → tx_catch t e = e.
Proof.
  intros Ha Hd. destruct e as [| |n m c sv k|]; try done. unfold tx_catch, isStatementTimeout,
    isConnectionFailure, translatePostgresError. by rewrite Hd.
Qed.

(** An error an adapter has already translated goes through the [catch] unchanged. *)
Lemma tx_catch_storage t c cause : tx_catch t (TStorage c cause) = TStorage c cause.
Proof.
  unfold tx_catch, isStatementTimeout. by rewrite storage_not_driver, storage_not_connection_failure.
Qed.

Section withTransaction.
Context {S : Type} `{!SqlBegin S}.

(** [try { return await fn(handle); } finally { unregisterTransaction(handle); }] *)
Definition run_registered {A} (fn : TransactionHandle → act (World S) A) (uuid : jsstr)
    : act (World S) A := λ w,
  match registerTransaction uuid w with
  | (Ok h, w1) => let '(r, w2) := fn h w1 in (r, unregisterTransaction h w2)
  | (Err e, w1) => (Err e, w1)
  end.

Definition txCallback {A} (fn : TransactionHandle → act (World S) A) (uuid : jsstr)
    (timeoutMs : option Z) : act (World S) A :=
  match timeoutMs with
  | Some ms => set_local_statement_timeout ms ;; run_registered fn uuid
  | None => run_registered fn uuid
  end.

Definition withTransaction {A} (fn : TransactionHandle → act (World S) A)
    (opts : TransactionOptions) (uuid : jsstr) : act (World S) A :=
  '(isolation, timeoutMs) ← check (validateTransactionOptions opts);
  rethrow (tx_catch timeoutMs)
    (withAbort (sql_begin isolation (txCallback fn uuid timeoutMs)) (to_signal opts)).

(** ** Theorems *)

Lemma txCallback_db {A} (fn : TransactionHandle → act (World S) A) uuid t w :
  ∃ w1, w_db w1 = w_db w ∧ activeTransactions w1 = {[uuid]} ∪ activeTransactions w ∧
    (txCallback fn uuid t w).1 = (fn {| handle_id := uuid |} w1).1 ∧
    w_db (txCallback fn uuid t w).2 = w_db (fn {| handle_id := uuid |} w1).2 ∧
    activeTransactions (txCallback fn uuid t w).2 =
      activeTransactions (fn {| handle_id := uuid |} w1).2 ∖ {[uuid]}.
Proof.
  eexists (Build_World (w_db w) ({[uuid]} ∪ activeTransactions w)
    (match t with Some ms => Some ms | None => w_statement_timeout w end)).
  split; [done|]. split; [done|].
  destruct t; unfold txCallback, run_registered; unfold_action; by destruct (fn _ _) as [r w2].
Qed.

(** What a rejected or resolved [withTransaction] leaves in the store. *)
Lemma withTransaction_cases {A} (fn : TransactionHandle → act (World S) A) opts uuid w r w' :
  withTransaction fn opts uuid w = (r, w') →
  ∃ w1, w_db w1 = w_db w ∧ activeTransactions w1 = {[uuid]} ∪ activeTransactions w ∧
    let run := fn {| handle_id := uuid |} w1 in
    match r with
    | Ok a => run.1 = Ok a ∧ w_db w' = w_db run.2 ∧
              activeTransactions w' = activeTransactions run.2 ∖ {[uuid]}
    | Err _ =>
        (activeTransactions w' = activeTransactions w ∧ w_db w' = w_db w) ∨
        (activeTransactions w' = activeTransactions run.2 ∖ {[uuid]} ∧
          (w_db w' = w_db w ∨ (is_ok run.1 = true ∧ w_db w' = w_db run.2)))
    end.
Proof.
  intros H. unfold withTransaction in H; unfold_action_in H.
  destruct (validateTransactionOptions opts) as [[iso t]|e]; cbn in H.
  2:{ simplify_eq. exists (set_active ({[uuid]} ∪ activeTransactions w') w'). cbn. auto 10. }
  destruct (txCallback_db fn uuid t w) as (w1 & Hdb & Hact & Hr & Hdb' & Hact').
  exists w1. split; [done|]. split; [done|]. cbn.
  assert (∀ x, withAbort (sql_begin iso (txCallback fn uuid t)) (to_signal opts) w = x →
    x = sql_begin iso (txCallback fn uuid t) w ∨ ∃ e, x = (Err e, w)) as Hab.
  { intros x <-. unfold withAbort, throw. repeat case_match; eauto. }
  destruct (Hab _ eq_refl) as [Heq|[e Heq]]; rewrite Heq in H; [|simplify_eq; by left].
  destruct (sql_begin iso _ w) as [[a|e] w2] eqn:Hb; simplify_eq.
  - apply sql_begin_ok in Hb as (w3 & Hb & -> & ->).
    rewrite Hb in *; cbn in *. by rewrite <-Hr, Hdb', Hact'.
  - apply sql_begin_err in Hb. by rewrite Hdb', Hact', Hr in Hb.
Qed.


(** [fn] leaves the handles it did not open alone. *)
Definition registry_neutral {A} (m : act (World S) A) : Prop :=
  ∀ w, activeTransactions (m w).2 = activeTransactions w.

(** Handle lifetime: [fn] runs with its handle registered, so every operation it issues with
    [{ tx }] resolves; after [withTransaction] settles, whatever the outcome, the same handle is
    rejected with [TransactionHandleInvalidError] and the other live handles are as before. *)
Theorem withTransaction_handle_lifetime {A} (fn : TransactionHandle → act (World S) A)
    opts uuid w r w' :
  uuid ∉ activeTransactions w →
  registry_neutral (fn {| handle_id := uuid |}) →
  withTransaction fn opts uuid w = (r, w') →
  activeTransactions w' = activeTransactions w ∧
  resolveTransaction {| handle_id := uuid |} w' =
    (Err (TransactionHandleInvalidError uuid), w') ∧
  (∀ v : World S, activeTransactions v = {[uuid]} ∪ activeTransactions w →
     resolveTransaction {| handle_id := uuid |} v = (Ok tt, v)).
Proof.
  intros Hfresh Hn (w1 & _ & Hact & Hc)%withTransaction_cases. cbn in Hc.
  assert (activeTransactions w' = activeTransactions w) as Hw'.
  { rewrite Hn, Hact in Hc. destruct r; [destruct Hc as (_ & _ & ->)|destruct Hc as [[-> _]|[-> _]]];
      [|done|]; set_solver. }
  split; [done|]. split.
  - unfold resolveTransaction. rewrite decide_False; [done|]. by rewrite Hw'.
  - intros v Hv. unfold resolveTransaction. rewrite decide_True; [done|]. set_solver.
Qed.
End withTransaction.

(** An already-aborted signal rejects with an [AbortError] before anything runs: no
    transaction opens, no handle is registered, and the world is unchanged. *)
Theorem withTransaction_aborted {S} `{!SqlBegin S} {A} (fn : TransactionHandle → act (World S) A)
    opts uuid w signal iso t :
  validateTransactionOptions opts = Ok (iso, t) →
  to_signal opts = Some signal → aborted signal = true →
  isPgDriverError (abortError signal) = false →
  is_AbortError (abortError signal) = true ∧
  withTransaction fn opts uuid w = (Err (abortError signal), w).
Proof.
  intros Hv Hs Ha Hd.
  assert (is_AbortError (abortError signal) = true) as Hab by apply abortError_is_AbortError.
  split; [done|]. unfold withTransaction. unfold_action. rewrite Hv; cbn.
  unfold withAbort. rewrite Hs, Ha. cbn. by rewrite tx_catch_AbortError.
Qed.

(** What a driver error inside [fn] becomes. Thrown raw, a statement timeout or a lost
    connection is reported as a [TransactionFaultError]; but an adapter method has already
    translated it, and then [withTransaction] passes the translated error on: a timed-out
    statement surfaces as [UnrecognizedPostgresError] and a lost connection as
    [ConnectionError]. *)
Theorem tx_catch_driver_error (t : Z) (e : thrown) ctx :
  isPgDriverError e = true →
  tx_catch (Some t) (translatePostgresError e ctx) = translatePostgresError e ctx ∧
  (isStatementTimeout e = true →
     tx_catch (Some t) e = TransactionFaultError "transaction exceeded its timeout" TxTimeout e ∧
     translatePostgresError e ctx = UnrecognizedPostgresError (err_message e) e) ∧
  (isConnectionFailure e = true →
     tx_catch (Some t) e =
       TransactionFaultError "connection lost during transaction" TxConnectionLost e ∧
     translatePostgresError e ctx = ConnectionError (err_message e) e).
Proof.
  intros He. destruct (translate_driver e ctx He) as (c & cause & Htr).
  split; [rewrite Htr; apply tx_catch_storage|].
  destruct e as [c' cause'|c'|n m code sv con|r']; [by rewrite storage_not_driver in He|done| |done].
  split.
  - intros Ht. pose proof Ht as Ht'. unfold isStatementTimeout, code_is in Ht'.
    apply andb_true_iff in Ht' as [_ Hc]. destruct code as [code|]; [|done].
    apply String.eqb_eq in Hc as ->. unfold tx_catch. rewrite Ht. split; [done|].
    unfold translatePostgresError, isConnectionFailure. by rewrite He.
  - intros Hc. split.
    + unfold tx_catch. rewrite Hc. destruct (isStatementTimeout _) eqn:Ht; [|done]. exfalso.
      unfold isStatementTimeout, isConnectionFailure, code_is in Ht, Hc.
      apply andb_true_iff in Ht as [_ Ht], Hc as [_ Hc]. destruct code as [code|]; [|done].
      apply String.eqb_eq in Ht as ->. done.
    + unfold translatePostgresError. by rewrite He, Hc.
Qed.

Lemma tx_catch_driver_error_witness :
  isPgDriverError (pg_error "57014" "canceling statement due to statement timeout" None) = true ∧
  tx_catch (Some 5%Z) (translatePostgresError (pg_error "57014" "canceling" None) None) =
    UnrecognizedPostgresError "canceling" (pg_error "57014" "canceling" None).
Proof.
  split; [reflexivity|].
  destruct (tx_catch_driver_error 5%Z (pg_error "57014" "canceling" None) None eq_refl) as (H & Ht & _).
  rewrite H. apply Ht. reflexivity.
Defined.

(** ** Witnesses: a fault-free connection over a store of one number *)

Local Open Scope Z_scope.

Definition demo_world : World Z := Build_World 7 ∅ None.
Definition demo_body : TransactionHandle → act (World Z) Z := λ h,
  resolveTransaction h ;; on_db (λ n, (Ok n, n + 1)%Z).


Lemma withTransaction_handle_lifetime_witness :
  (js "u1" ∉ activeTransactions demo_world) ∧
  resolveTransaction {| handle_id := js "u1" |}
    (@withTransaction Z no_faults Z demo_body no_tx_options (js "u1") demo_world).2 =
  (Err (TransactionHandleInvalidError (js "u1")),
   (@withTransaction Z no_faults Z demo_body no_tx_options (js "u1") demo_world).2).
Proof.
  assert ((js "u1" ∉ activeTransactions demo_world)) as Hfresh by (cbn; set_solver).
  split; [exact Hfresh|].
  refine (proj1 (proj2 (@withTransaction_handle_lifetime Z no_faults Z demo_body no_tx_options
    (js "u1") demo_world _ _ Hfresh _ (surjective_pairing _)))).
  intros w. unfold demo_body, resolveTransaction. unfold_action. by case_decide.
Defined.

Definition aborted_signal : AbortSignal := {| aborted := true; reason := TOther "user" |}.

Lemma withTransaction_aborted_witness :
  is_AbortError (abortError aborted_signal) = true ∧
  @withTransaction Z no_faults Z demo_body
    {| to_isolation := None; to_timeoutMs := None; to_signal := Some aborted_signal |}
    (js "u1") demo_world = (Err (abortError aborted_signal), demo_world).
Proof.
  by apply (@withTransaction_aborted Z no_faults Z demo_body
    {| to_isolation := None; to_timeoutMs := None; to_signal := Some aborted_signal |}
    (js "u1") demo_world aborted_signal None None).
Defined.
