(* ===== verification/Driver.v ===== *)
(** * What the adapters rely on outside the repository

    Three interfaces: [Part], by which an adapter's tables sit inside a larger store, so that several
    adapters can share one transaction; [TextBinding], the driver's encoding of a string bound
    to a [text] parameter, which the repository cannot see but whose behaviour on storable text is
    documented; and [Collation], the order an [ORDER BY] over text uses. *)

From S2P Require Import Prelude Text Json Errors Transaction.

(** ** A component's tables inside a store *)

Class Part (S T : Type) := {
  part : S → T;
  set_part : T → S → S;
  part_set : ∀ t s, part (set_part t s) = t;
  set_part_part : ∀ s, set_part (part s) s = s;
  set_set_part : ∀ t1 t2 s, set_part t1 (set_part t2 s) = set_part t1 s;
}.

#[export] Program Instance part_self {T} : Part T T := {| part := id; set_part := λ t _, t |}.
Solve Obligations with done.
#[export] Program Instance part_fst {A B} : Part (A * B) A :=
  {| part := fst; set_part := λ a p, (a, p.2) |}.
Solve Obligations with by intros; repeat match goal with p : (_ * _)%type |- _ => destruct p end.
#[export] Program Instance part_snd {A B} : Part (A * B) B :=
  {| part := snd; set_part := λ b p, (p.1, b) |}.
Solve Obligations with by intros; repeat match goal with p : (_ * _)%type |- _ => destruct p end.

Section on_part.
Context {S T : Type} `{!Part S T}.

(** Run a component's statements on its tables, inside the process's world. *)
Definition on_part {A} (m : act T A) : act (World S) A := λ w,
  let '(r, t) := m (part (w_db w)) in
  (r, Build_World (set_part t (w_db w)) (activeTransactions w) (w_statement_timeout w)).

Lemma on_part_run {A} (m : act T A) w r t :
  m (part (w_db w)) = (r, t) →
  on_part m w =
    (r, Build_World (set_part t (w_db w)) (activeTransactions w) (w_statement_timeout w)).
Proof. unfold on_part. by intros ->. Qed.

Lemma on_part_unchanged {A} (m : act T A) w r :
  m (part (w_db w)) = (r, part (w_db w)) → on_part m w = (r, w).
Proof. intros H. rewrite (on_part_run _ _ _ _ H), set_part_part. by destruct w. Qed.

Lemma on_part_neutral {A} (m : act T A) : registry_neutral (on_part m).
Proof. intros w. unfold on_part. by destruct (m _). Qed.
End on_part.

Lemma registry_neutral_bind {S A B} (m : act (World S) A) (f : A → act (World S) B) :
  registry_neutral m → (∀ a, registry_neutral (f a)) → registry_neutral (m ≫= f).
Proof.
  intros Hm Hf w. specialize (Hm w). unfold_action. destruct (m w) as [[a|e] w1]; cbn in *; [|done].
  by rewrite Hf.
Qed.

Lemma registry_neutral_check {S A} (r : result thrown A) : registry_neutral (@check _ (World S) _ r).
Proof. done. Qed.

Lemma registry_neutral_withAbort {S A} (m : act (World S) A) signal :
  registry_neutral m → registry_neutral (withAbort m signal).
Proof. intros Hm w. unfold withAbort, throw. repeat case_match; done. Qed.

Lemma registry_neutral_rethrow {S A} f (m : act (World S) A) :
  registry_neutral m → registry_neutral (rethrow f m).
Proof. intros Hm w. specialize (Hm w). unfold rethrow. by destruct (m w) as [[]]. Qed.

Lemma registry_neutral_route {S} tx : registry_neutral (@route S tx).
Proof. intros w. destruct tx; [|done]. cbn. unfold resolveTransaction. by case_decide. Qed.

(** Routing never changes the world: it resolves, or rejects with an invalid handle. *)
Lemma route_cases {S} tx (w : World S) :
  route tx w = (Ok tt, w) ∨ ∃ h, route tx w = (Err (TransactionHandleInvalidError h), w).
Proof. destruct tx; [|by left]. cbn. unfold resolveTransaction. case_decide; eauto. Qed.

Lemma route_ok_inv {S} tx (w w' : World S) u : route tx w = (Ok u, w') → w' = w.
Proof. destruct (route_cases tx w) as [->|[h ->]]; by intros [=]. Qed.

Lemma registry_neutral_resolve {S} h : registry_neutral (@resolveTransaction S h).
Proof. exact (registry_neutral_route (Some h)). Qed.

#[export] Hint Resolve on_part_neutral registry_neutral_bind registry_neutral_check
  registry_neutral_withAbort registry_neutral_rethrow registry_neutral_route
  registry_neutral_resolve : umbra.

(** ** Binding a string to a [text] parameter

    For text PostgreSQL can store, the parameter is the string. For the rest the driver or the
    server decides: it may reject, or store something else. *)
Class TextBinding := {
  bind_text : jsstr → result thrown jsstr;
  bind_text_safe : ∀ s, hasPostgresUnsafeText s = false → bind_text s = Ok s;
}.

(** A server that rejects unstorable text with SQLSTATE [22021]. *)
Definition bind_or_reject (s : jsstr) : result thrown jsstr :=
  if hasPostgresUnsafeText s
  then Err (pg_error "22021" "invalid byte sequence for encoding UTF8" None) else Ok s.

Definition rejecting_binding : TextBinding.
Proof.
  refine {| bind_text := bind_or_reject |}. unfold bind_or_reject. by intros s ->.
Defined.

(** [n + 1] on a [bigint] column. *)
Definition bigint_succ (v : Z) : result thrown Z :=
  if (v <? POSTGRES_BIGINT_MAX)%Z then Ok (v + 1)%Z
  else Err (pg_error "22003" "bigint out of range" None).

(** Reading a [timestamptz] (microseconds) into a [Date] (milliseconds), and binding a [Date]. *)
Definition date_of_timestamptz (t : Z) : Z := (t / 1000)%Z.
Definition timestamptz_of_date (ms : Z) : Z := (ms * 1000)%Z.

(** A [World] with nothing live and no timeout. *)
Definition idle_world {S} (db : S) : World S := Build_World db ∅ None.

(** ** Collations *)

(** The collation an [ORDER BY] over text uses: a total order in which only equal keys tie. *)
Class Collation := {
  collate : relation jsstr;
  collate_dec : RelDecision collate;
  collate_trans : Transitive collate;
  collate_total : Total collate;
  collate_antisym : AntiSymm eq collate;
}.
#[export] Existing Instances collate_dec collate_trans collate_total collate_antisym.

(** Code-unit order, as under the [C] collation. *)
Fixpoint units_le (s t : jsstr) : bool :=
  match s, t with
  | [], _ => true
  | _ :: _, [] => false
  | c :: s', d :: t' => (c <? d)%N || ((c =? d)%N && units_le s' t')
  end.

Lemma units_le_trans s t u : units_le s t → units_le t u → units_le s u.
Proof.
  rewrite !Is_true_true. revert t u. induction s as [|c s IH]; intros [|d t] [|e u]; cbn; try done.
  rewrite !orb_true_iff, !andb_true_iff, !N.ltb_lt, !N.eqb_eq. intros [?|[-> ?]] [?|[-> ?]].
  - left; lia.
  - by left.
  - by left.
  - right. eauto.
Qed.

Lemma units_le_total s t : units_le s t ∨ units_le t s.
Proof.
  rewrite !Is_true_true. revert t. induction s as [|c s IH]; intros [|d t]; cbn; auto.
  rewrite !orb_true_iff, !andb_true_iff, !N.ltb_lt, !N.eqb_eq.
  destruct (N.lt_trichotomy c d) as [?|[->|?]]; auto. destruct (IH t); auto.
Qed.

Lemma units_le_antisym s t : units_le s t → units_le t s → s = t.
Proof.
  rewrite !Is_true_true. revert t. induction s as [|c s IH]; intros [|d t]; cbn; try done.
  rewrite !orb_true_iff, !andb_true_iff, !N.ltb_lt, !N.eqb_eq.
  intros [?|[-> ?]] [?|[? ?]]; try lia. f_equal. auto.
Qed.

Definition c_collation : Collation.
Proof.
  refine {| collate := λ s t, Is_true (units_le s t) |}.
  - intros s t. apply _.
  - exact units_le_trans.
  - exact units_le_total.
  - exact units_le_antisym.
Defined.

(** ** PostgreSQL's [hashtext], by which advisory locks are keyed *)

Class HashText := hashtext : jsstr → Z.
