(* ===== verification/Slices.v ===== *)
(** * Consecutive slices of a buffer

    The loop [for (let i = 0; i < xs.length; i += step) use(xs.slice(i, i + step))], which
    [checkpoint-store.ts] runs three times: to split a payload into chunks and to batch the rows of
    two inserts. *)

From S2P Require Import Prelude.

Local Open Scope Z_scope.

Section slices.
Context {A : Type}.
Implicit Types l : list A.

(** [xs.slice(lo, hi)] and [buf.subarray(lo, hi)] for [0 <= lo]: both clamp [hi] to the length. *)
Definition js_slice (lo hi : Z) l : list A :=
  take (Z.to_nat (Z.min hi (Z.of_nat (length l)) - lo)) (drop (Z.to_nat lo) l).

(** The loop from offset [i] on; the fuel bounds the number of iterations. *)
Fixpoint slices_from (fuel : nat) (i step : Z) l : list (list A) :=
  match fuel with
  | O => []
  | S fuel' =>
      if i <? Z.of_nat (length l)
      then js_slice i (i + step) l :: slices_from fuel' (i + step) step l
      else []
  end.

(** One iteration per element is enough whatever the positive step. *)
Definition for_slices (step : Z) l : list (list A) := slices_from (length l) 0 step l.

Lemma js_slice_take i step l :
  0 ≤ i → 0 < step → js_slice i (i + step) l = take (Z.to_nat step) (drop (Z.to_nat i) l).
Proof.
  intros Hi Hs. unfold js_slice.
  destruct (decide (i + step ≤ Z.of_nat (length l))).
  - rewrite Z.min_l by lia. f_equal. lia.
  - rewrite Z.min_r by lia.
    rewrite (take_ge (drop _ l) (Z.to_nat step)), take_ge; [done|..]; rewrite length_drop; lia.
Qed.

(** Enough fuel: more changes nothing. *)
Lemma slices_from_fuel fuel1 fuel2 i step l :
  0 ≤ i → 0 < step →
  Z.of_nat (length l) - i ≤ Z.of_nat fuel1 → Z.of_nat (length l) - i ≤ Z.of_nat fuel2 →
  slices_from fuel1 i step l = slices_from fuel2 i step l.
Proof.
  intros Hi Hs. revert fuel2 i Hi. induction fuel1 as [|f1 IH]; intros [|f2] i Hi H1 H2; cbn;
    [done|destruct (Z.ltb_spec i (Z.of_nat (length l))); [lia|done]..|].
  destruct (Z.ltb_spec i (Z.of_nat (length l))); [|done]. f_equal. apply IH; lia.
Qed.

(** The recursion the loop implements. *)
Lemma slices_from_drop fuel i step l :
  0 ≤ i → 0 < step → Z.of_nat (length l) - i ≤ Z.of_nat fuel →
  slices_from fuel i step l = for_slices step (drop (Z.to_nat i) l).
Proof.
  intros Hi Hs Hf. unfold for_slices.
  assert (∀ fuel j, 0 ≤ j →
    slices_from fuel (i + j) step l = slices_from fuel j step (drop (Z.to_nat i) l)) as Hshift.
  { intros f. induction f as [|f IH]; intros j Hj; [done|]. cbn. rewrite length_drop.
    destruct (Z.ltb_spec (i + j) (Z.of_nat (length l)));
      (destruct (Z.ltb_spec j (Z.of_nat (length l - Z.to_nat i))); [try lia|try lia]); [|done].
    rewrite !js_slice_take, drop_drop, <-Z.add_assoc, IH by lia. do 3 f_equal. lia. }
  rewrite <-(Z.add_0_r i) at 1. rewrite Hshift by lia.
  apply slices_from_fuel; rewrite ?length_drop; lia.
Qed.

Lemma for_slices_nil step : for_slices step [] = [].
Proof. done. Qed.

Lemma for_slices_cons step l :
  0 < step → l ≠ [] →
  for_slices step l = take (Z.to_nat step) l :: for_slices step (drop (Z.to_nat step) l).
Proof.
  intros Hs Hl. unfold for_slices at 1. destruct l as [|a l]; [done|].
  cbn [length slices_from]. destruct (Z.ltb_spec 0 (Z.of_nat (S (length l)))); [|lia].
  rewrite js_slice_take by lia. cbn [Z.to_nat drop]. f_equal.
  rewrite Z.add_0_l. apply slices_from_drop; cbn; lia.
Qed.

Lemma for_slices_ind step (P : list A → list (list A) → Prop) :
  0 < step → P [] [] →
  (∀ l, l ≠ [] → P (drop (Z.to_nat step) l) (for_slices step (drop (Z.to_nat step) l)) →
    P l (take (Z.to_nat step) l :: for_slices step (drop (Z.to_nat step) l))) →
  ∀ l, P l (for_slices step l).
Proof.
  intros Hs Hnil Hcons l. remember (length l) as n eqn:Hn.
  revert l Hn. induction (lt_wf n) as [n _ IH]. intros l ->.
  destruct (decide (l = [])) as [->|Hl]; [done|].
  rewrite for_slices_cons by done. apply Hcons; [done|].
  apply (IH (length (drop (Z.to_nat step) l))); [|done].
  rewrite length_drop. destruct l; [done|]. cbn [length]. lia.
Qed.

Lemma for_slices_concat step l : 0 < step → mjoin (for_slices step l) = l.
Proof.
  intros Hs. apply (for_slices_ind step (λ l ls, mjoin ls = l)); [done|done|].
  intros l' Hl' IH. change (take (Z.to_nat step) l' ++ mjoin (for_slices step (drop (Z.to_nat step) l')) = l'). rewrite IH. apply take_drop.
Qed.

Lemma for_slices_sizes step l :
  0 < step → Forall (λ c, c ≠ [] ∧ Z.of_nat (length c) ≤ step) (for_slices step l).
Proof.
  intros Hs. apply (for_slices_ind step (λ _ ls, Forall _ ls)); [done|constructor|].
  intros l' Hl' IH. constructor; [|done]. rewrite length_take. split; [|lia].
  destruct l'; [done|]. by destruct (Z.to_nat step) eqn:E; [lia|].
Qed.

(** Every slice but the last has exactly [step] elements. *)
Lemma for_slices_full step l ls c :
  0 < step → for_slices step l = ls ++ [c] → Forall (λ c, Z.of_nat (length c) = step) ls.
Proof.
  intros Hs. revert ls c.
  apply (for_slices_ind step (λ _ r, ∀ ls c, r = ls ++ [c] → Forall _ ls)); [done|by intros []|].
  intros l' Hl' IH [|c1 ls] c; [constructor|]. intros [= <- Hr]. constructor; [|by eapply IH].
  rewrite length_take. destruct (decide (drop (Z.to_nat step) l' = [])) as [Hd|Hd].
  - rewrite Hd in Hr. by destruct ls.
  - assert (length (drop (Z.to_nat step) l') ≠ 0%nat) by (by destruct (drop _ _)).
    rewrite length_drop in *. lia.
Qed.

Lemma for_slices_single step l :
  0 < step → l ≠ [] → Z.of_nat (length l) ≤ step → for_slices step l = [l].
Proof.
  intros Hs Hl Hlen. rewrite for_slices_cons by done.
  rewrite take_ge, drop_ge by lia. done.
Qed.

(** The number of iterations. *)
Lemma for_slices_length step l :
  0 < step → Z.of_nat (length (for_slices step l)) = (Z.of_nat (length l) + step - 1) / step.
Proof.
  intros Hs. apply (for_slices_ind step (λ l r,
    Z.of_nat (length r) = (Z.of_nat (length l) + step - 1) / step)); [done| |].
  - cbn. rewrite Z.div_small by lia. done.
  - intros l' Hl' IH. cbn [length]. rewrite Nat2Z.inj_succ, IH, length_drop.
    assert (0 < Z.of_nat (length l')) by (destruct l'; [done|cbn; lia]).
    destruct (decide (step ≤ Z.of_nat (length l'))).
    + replace (Z.of_nat (length l') + step - 1)
        with (Z.of_nat (length l' - Z.to_nat step) + step - 1 + 1 * step) by lia.
      rewrite Z.div_add by lia. lia.
    + replace (length l' - Z.to_nat step)%nat with 0%nat by lia.
      rewrite Z.div_small by (cbn; lia).
      replace (Z.of_nat (length l') + step - 1) with (Z.of_nat (length l') - 1 + 1 * step) by lia.
      rewrite Z.div_add, Z.div_small by lia. done.
Qed.
End slices.
