(* ===== verification/TemporalKV.v ===== *)
(** * TemporalKV: tables, history trigger and operations

    Models [src/postgres/temporal-kv.ts] against the tables and the trigger of
    [src/postgres/migrations/001_temporal_kv.ts]. Instants are microseconds, as PostgreSQL keeps
    them; a JavaScript [Date] is milliseconds. *)

From S2P Require Import Prelude Text Json Errors Transaction Driver.

Local Open Scope Z_scope.

(** ** Tables *)

Abbreviation KvKey := (jsstr * jsstr * jsstr)%type.

(** A row of [kv_current], without its primary key. *)
Record KvCurrentRow := {
  c_value : jsval;
  c_version : Z;
  c_updated_at : Z;
  c_updated_xact : Z;
}.

(** A row of [kv_history]; [validity] is generated as [tstzrange(valid_from, valid_to, '[)')]. *)
Record KvHistoryRow := {
  h_key : KvKey;
  h_value : jsval;
  h_version : Z;
  h_valid_from : Z;
  h_valid_to : Z;
}.

Record KvDb := {
  kv_current : gmap KvKey KvCurrentRow;
  kv_history : list KvHistoryRow;   (** in insertion order *)
}.

(** What the server supplies to a statement: [clock_timestamp()] and [txid_current()]. *)
Record KvCtx := { clock_timestamp : Z; txid_current : Z }.

(** [date_trunc('milliseconds', t)]. *)
Definition date_trunc_milliseconds (t : Z) : Z := t / 1000 * 1000.

(** ** The history trigger *)

(** [ns WITH =, scope WITH =, key WITH =, validity WITH &&] for half-open nonempty ranges. *)
Definition kv_history_overlaps (r1 r2 : KvHistoryRow) : bool :=
  bool_decide (h_key r1 = h_key r2)
  && (h_valid_from r1 <? h_valid_to r2) && (h_valid_from r2 <? h_valid_to r1).

(** Inserting into [kv_history]: the generated range column is computed first ([tstzrange] rejects
    a lower bound above the upper one), then [CHECK (valid_from < valid_to)], then the exclusion
    constraint. *)
Definition insert_kv_history (r : KvHistoryRow) (h : list KvHistoryRow)
    : result thrown (list KvHistoryRow) :=
  if h_valid_to r <? h_valid_from r then
    Err (pg_error "22000" "range lower bound must be less than or equal to range upper bound" None)
  else if negb (h_valid_from r <? h_valid_to r) then
    Err (pg_error "23514" "violates check constraint kv_history_range" (Some "kv_history_range"))
  else if existsb (kv_history_overlaps r) h then
    Err (pg_error "23P01" "conflicting key value violates exclusion constraint"
           (Some "kv_history_no_overlap"))
  else Ok (h ++ [r]).

(** [kv_current_history_trigger()], run [BEFORE UPDATE FOR EACH ROW]. *)
Definition kv_current_history_trigger (ctx : KvCtx) (k : KvKey) (old new : KvCurrentRow)
    (h : list KvHistoryRow) : result thrown (KvCurrentRow * list KvHistoryRow) :=
  let now_xact := txid_current ctx in
  let now_ts := date_trunc_milliseconds (clock_timestamp ctx) in
  if c_updated_xact old =? now_xact then
    Err (pg_error "UB001" "kv_current: only one write per key is allowed per transaction" None)
  else
    h' ← insert_kv_history
           {| h_key := k; h_value := c_value old; h_version := c_version old;
              h_valid_from := c_updated_at old; h_valid_to := now_ts |} h;
    Ok ({| c_value := c_value new; c_version := c_version new;
           c_updated_at := now_ts; c_updated_xact := now_xact |}, h').

(** [UPDATE kv_current SET value = .., version = version + 1] on one row. *)
Definition update_kv_current (ctx : KvCtx) (k : KvKey) (old : KvCurrentRow) (value : jsval)
    (db : KvDb) : result thrown (KvCurrentRow * KvDb) :=
  v ← bigint_succ (c_version old);
  '(row, h) ← kv_current_history_trigger ctx k old
                {| c_value := value; c_version := v; c_updated_at := c_updated_at old;
                   c_updated_xact := c_updated_xact old |} (kv_history db);
  Ok (row, {| kv_current := <[k := row]> (kv_current db); kv_history := h |}).

(** [INSERT INTO kv_current (.., version) VALUES (.., 1)]: the other columns take their defaults. *)
Definition insert_kv_current (ctx : KvCtx) (k : KvKey) (value : jsval) (db : KvDb)
    : KvCurrentRow * KvDb :=
  let row := {| c_value := value; c_version := 1;
                c_updated_at := date_trunc_milliseconds (clock_timestamp ctx);
                c_updated_xact := txid_current ctx |} in
  (row, {| kv_current := <[k := row]> (kv_current db); kv_history := kv_history db |}).

(** ** Rows as entries *)

Record VersionedEntry := {
  namespace : jsstr;
  scope : jsstr;
  key : jsstr;
  value : jsval;
  version : Z;
  writtenAt : Z;   (** a [Date], in milliseconds *)
}.

Record KvRow := { row_value : jsval; row_version : Z; row_written_at : Z }.

Definition VersionedEntrySchema (e : VersionedEntry) : bool :=
  NamespaceSchema (namespace e) && ScopeSchema (scope e) && KeySchema (key e)
  && JsonValueSchema (value e) && StoredVersionSchema (version e).

Definition toEntry (k : KvKey) (row : KvRow) : result thrown VersionedEntry :=
  let '(ns, sc, ky) := k in
  let e := {| namespace := ns; scope := sc; key := ky; value := row_value row;
              version := row_version row;
              writtenAt := date_of_timestamptz (row_written_at row) |} in
  if VersionedEntrySchema e then Ok e else Err (ValidationError "PgTemporalKV row" "" "").

Definition current_as_row (r : KvCurrentRow) : KvRow :=
  {| row_value := c_value r; row_version := c_version r; row_written_at := c_updated_at r |}.
Definition history_as_row (r : KvHistoryRow) : KvRow :=
  {| row_value := h_value r; row_version := h_version r; row_written_at := h_valid_from r |}.

(** ** Boundary validation *)

Definition validateNamespaceScope (ns sc : jsstr) : result thrown unit :=
  if negb (NamespaceSchema ns) then Err (ValidationError "PgTemporalKV namespace" "" "")
  else if negb (ScopeSchema sc) then Err (ValidationError "PgTemporalKV scope" "" "")
  else Ok tt.

Definition validateKey (k : KvKey) : result thrown unit :=
  let '(ns, sc, ky) := k in
  validateNamespaceScope ns sc ;;
  if negb (KeySchema ky) then Err (ValidationError "PgTemporalKV key" "" "") else Ok tt.

(** ** put *)

(** Case 1: [INSERT .. ON CONFLICT (ns, scope, key) DO UPDATE SET value, version = version + 1]. *)
Definition put_upsert (ctx : KvCtx) (k : KvKey) (value : jsval) : act KvDb KvCurrentRow :=
  statement (λ db,
    match kv_current db !! k with
    | None => Ok (insert_kv_current ctx k value db)
    | Some old => update_kv_current ctx k old value db
    end).

(** Case 2: [INSERT .. ON CONFLICT DO NOTHING RETURNING ..]. *)
Definition put_create (ctx : KvCtx) (k : KvKey) (value : jsval) : act KvDb (option KvCurrentRow) :=
  statement (λ db,
    match kv_current db !! k with
    | None => let '(row, db') := insert_kv_current ctx k value db in Ok (Some row, db')
    | Some _ => Ok (None, db)
    end).

(** Case 3: [UPDATE .. WHERE .. AND version = expected RETURNING ..]. *)
Definition put_cas (ctx : KvCtx) (k : KvKey) (value : jsval) (expected : Z)
    : act KvDb (option KvCurrentRow) :=
  statement (λ db,
    match kv_current db !! k with
    | Some old =>
        if c_version old =? expected
        then '(row, db') ← update_kv_current ctx k old value db; Ok (Some row, db')
        else Ok (None, db)
    | None => Ok (None, db)
    end).

(** The re-read that reports the real version: [existing[0]?.version]. *)
Definition select_version (k : KvKey) : act KvDb (option Z) :=
  query (λ db, c_version <$> kv_current db !! k).

Definition conflict {A} (k : KvKey) (expected : Z) : act KvDb A :=
  actual ← select_version k; throw (VersionConflictError expected actual).

Definition kv_catch (k : KvKey) (e : thrown) : thrown := translatePostgresError e (Some k).

Definition putImpl (ctx : KvCtx) (k : KvKey) (value : jsval) (expectedVersion : option Z)
    : act KvDb VersionedEntry :=
  rethrow (kv_catch k)
    match expectedVersion with
    | None => row ← put_upsert ctx k value; check (toEntry k (current_as_row row))
    | Some 0 =>
        created ← put_create ctx k value;
        match created with
        | Some row => check (toEntry k (current_as_row row))
        | None => conflict k 0
        end
    | Some expected =>
        updated ← put_cas ctx k value expected;
        match updated with
        | Some row => check (toEntry k (current_as_row row))
        | None => conflict k expected
        end
    end.

Definition put_validate (k : KvKey) (value : jsval) (expectedVersion : option Z)
    : result thrown unit :=
  validateKey k ;;
  if negb (JsonValueSchema value) then Err (ValidationError "PgTemporalKV value" "" "")
  else match expectedVersion with
       | Some v => if ExpectedVersionSchema v then Ok tt
                   else Err (ValidationError "PgTemporalKV expectedVersion" "" "")
       | None => Ok tt
       end.

Definition put (ctx : KvCtx) (k : KvKey) (value : jsval) (expectedVersion : option Z)
    (tx : option TransactionHandle) (signal : option AbortSignal) : act (World KvDb) VersionedEntry :=
  route tx ;;
  check (put_validate k value expectedVersion) ;;
  withAbort (on_db (putImpl ctx k value expectedVersion)) signal.

(** ** get and getAt *)

(** [rows.length > 0 ? toEntry(rows[0]) : null]. *)
Definition entry_or_null (k : KvKey) (rows : list KvRow) : result thrown (option VersionedEntry) :=
  match rows with
  | row :: _ => e ← toEntry k row; Ok (Some e)
  | [] => Ok None
  end.

Definition select_current (k : KvKey) (p : KvCurrentRow → bool) (db : KvDb) : list KvRow :=
  match kv_current db !! k with
  | Some r => if p r then [current_as_row r] else []
  | None => []
  end.

Definition select_history (k : KvKey) (p : KvHistoryRow → bool) (db : KvDb) : list KvRow :=
  history_as_row <$> filter (λ r, h_key r = k ∧ Is_true (p r)) (kv_history db).

Definition getImpl (k : KvKey) : act KvDb (option VersionedEntry) :=
  rethrow (kv_catch k)
    (rows ← query (select_current k (λ _, true)); check (entry_or_null k rows)).

Definition get (k : KvKey) (tx : option TransactionHandle) (signal : option AbortSignal)
    : act (World KvDb) (option VersionedEntry) :=
  route tx ;; check (validateKey k) ;; withAbort (on_db (getImpl k)) signal.

(** The two [UNION ALL .. ORDER BY priority LIMIT 1] queries: history rows come first. *)
Definition select_by_version (k : KvKey) (v : Z) (db : KvDb) : list KvRow :=
  take 1 (select_history k (λ r, h_version r =? v) db ++ select_current k (λ r, c_version r =? v) db).

Definition select_by_time (k : KvKey) (t : Z) (db : KvDb) : list KvRow :=
  take 1 (select_history k (λ r, (h_valid_from r <=? t) && (t <? h_valid_to r)) db
          ++ select_current k (λ r, c_updated_at r <=? t) db).

Definition validateAsOf (asOf : AsOf) : result thrown unit :=
  match asOf with
  | AsOfVersion v =>
      if StoredVersionSchema v then Ok tt
      else Err (ValidationError "PgTemporalKV getAt asOf.version" "" "")
  | AsOfAt (Some _) => Ok tt
  | AsOfAt None | AsOfAtNotDate =>
      Err (ValidationError "PgTemporalKV getAt: asOf.at must be a valid Date" "asOf.at"
             "missing, not a Date, or an invalid Date")
  | AsOfOtherKind =>
      Err (ValidationError "PgTemporalKV getAt: asOf must be {kind: 'version'} or {kind: 'at'}"
             "asOf.kind" "invalid discriminant")
  end.

Definition getAtImpl (k : KvKey) (asOf : AsOf) : act KvDb (option VersionedEntry) :=
  rethrow (kv_catch k)
    (rows ← query (λ db,
       match asOf with
       | AsOfVersion v => select_by_version k v db
       | AsOfAt (Some ms) => select_by_time k (timestamptz_of_date ms) db
       | _ => []
       end);
     check (entry_or_null k rows)).

Definition getAt (k : KvKey) (asOf : AsOf) (tx : option TransactionHandle)
    (signal : option AbortSignal) : act (World KvDb) (option VersionedEntry) :=
  route tx ;; check (validateKey k) ;; check (validateAsOf asOf) ;;
  withAbort (on_db (getAtImpl k asOf)) signal.
