(* ===== verification/TemporalKVLog.v ===== *)
(** * TemporalKV as an event log

    The abstract specification of TemporalKV and the proof that the tables and statements of
    [TemporalKV] implement it. A key is a log of accepted writes; [put] appends to the log under a
    compare-and-swap guard, [getAt] reads it by version or by time. The laws of
    [Formal/STORAGE_ALGEBRA.md] section 1 (T1 to T5) are the theorems of this file. *)

From S2P Require Import Prelude Text Json Errors Transaction Driver TemporalKV.

Local Open Scope Z_scope.

(** ** The abstract log *)

Record Event := { ev_value : jsval; ev_at : Z; ev_xact : Z }.
Abbreviation Log := (list Event).

(** What [getAt] can return: event number [v] is the row of version [v]. *)
Fixpoint log_rows (v : Z) (l : Log) : list KvRow :=
  match l with
  | [] => []
  | e :: l' => {| row_value := ev_value e; row_version := v; row_written_at := ev_at e |}
               :: log_rows (v + 1) l'
  end.

Definition log_at_version (l : Log) (v : Z) : option KvRow :=
  if decide (1 ≤ v)
  then (λ e, {| row_value := ev_value e; row_version := v; row_written_at := ev_at e |})
         <$> l !! Z.to_nat (v - 1)
  else None.
Definition log_at_time (l : Log) (t : Z) : option KvRow :=
  last (filter (λ r, row_written_at r ≤ t) (log_rows 1 l)).

Definition log_as_of (l : Log) (asOf : AsOf) : option KvRow :=
  match asOf with
  | AsOfVersion v => log_at_version l v
  | AsOfAt (Some ms) => log_at_time l (timestamptz_of_date ms)
  | _ => None
  end.

Definition log_version (l : Log) : option Z :=
  match l with [] => None | _ => Some (Z.of_nat (length l)) end.

(** The guard of Law T2: the expected version is the log's length ([0] for a key never written). *)
Definition log_guard (expected : option Z) (l : Log) : bool :=
  match expected with Some e => e =? Z.of_nat (length l) | None => true end.

Definition ctx_event (ctx : KvCtx) (v : jsval) : Event :=
  {| ev_value := v; ev_at := date_trunc_milliseconds (clock_timestamp ctx);
     ev_xact := txid_current ctx |}.

(** Why a write that passed its guard is refused after the event [prev]: the version column is
    full, the same transaction already wrote this key, or the clock did not move forward. A clock
    that stands still within the millisecond is a [ClockRegressionError]; one that moves
    backwards is reported by the range constructor instead. *)
Definition log_refusal (ctx : KvCtx) (k : KvKey) (l : Log) (prev : Event) : option thrown :=
  let now := date_trunc_milliseconds (clock_timestamp ctx) in
  if POSTGRES_BIGINT_MAX <=? Z.of_nat (length l)
  then Some (UnrecognizedPostgresError "bigint out of range"
               (pg_error "22003" "bigint out of range" None))
  else if ev_xact prev =? txid_current ctx then Some (TransactionKeyReuseError k.1.1 k.1.2 k.2)
  else if now <? ev_at prev
  then Some (UnrecognizedPostgresError
               "range lower bound must be less than or equal to range upper bound"
               (pg_error "22000" "range lower bound must be less than or equal to range upper bound"
                  None))
  else if now =? ev_at prev
  then Some (ClockRegressionError "violates check constraint kv_history_range"
               (pg_error "23514" "violates check constraint kv_history_range"
                  (Some "kv_history_range")))
  else None.

(** One write: append under the guard, or refuse. *)
Definition log_put (ctx : KvCtx) (k : KvKey) (v : jsval) (expected : option Z) (l : Log)
    : result thrown Log :=
  if negb (log_guard expected l)
  then Err (VersionConflictError (default 0 expected) (log_version l))
  else match last l with
       | None => Ok [ctx_event ctx v]
       | Some prev =>
           match log_refusal ctx k l prev with
           | Some e => Err e
           | None => Ok (l ++ [ctx_event ctx v])
           end
       end.

(** ** The representation relation *)

Fixpoint hist_rows (k : KvKey) (v : Z) (l : Log) : list KvHistoryRow :=
  match l with
  | e1 :: ((e2 :: _) as l') =>
      {| h_key := k; h_value := ev_value e1; h_version := v;
         h_valid_from := ev_at e1; h_valid_to := ev_at e2 |} :: hist_rows k (v + 1) l'
  | _ => []
  end.

Definition live_row (l : Log) : option KvCurrentRow :=
  (λ e, {| c_value := ev_value e; c_version := Z.of_nat (length l);
           c_updated_at := ev_at e; c_updated_xact := ev_xact e |}) <$> last l.

Definition represents (db : KvDb) (k : KvKey) (l : Log) : Prop :=
  filter (λ r, h_key r = k) (kv_history db) = hist_rows k 1 l ∧
  kv_current db !! k = live_row l.

Definition before (e1 e2 : Event) : Prop := ev_at e1 < ev_at e2.

(** A well-formed log: strictly increasing millisecond instants, storable values, and a length
    that fits the version column. *)
Record wf_log (l : Log) : Prop := {
  wf_sorted : StronglySorted before l;
  wf_aligned : Forall (λ e, ev_at e mod 1000 = 0) l;
  wf_values : Forall (λ e, JsonValueSchema (ev_value e) = true) l;
  wf_length : Z.of_nat (length l) ≤ POSTGRES_BIGINT_MAX;
}.

Lemma date_trunc_aligned t : date_trunc_milliseconds t mod 1000 = 0.
Proof. unfold date_trunc_milliseconds. apply Z.mod_mul. lia. Qed.

(** A [Date] read back names the stored instant exactly, because instants are truncated. *)
Lemma date_round_trip t : t mod 1000 = 0 → timestamptz_of_date (date_of_timestamptz t) = t.
Proof. unfold timestamptz_of_date, date_of_timestamptz. intros. pose proof (Z.div_mod t 1000). lia. Qed.

(** ** Rows of a log *)

Lemma hist_rows_cons k v e1 e2 l :
  hist_rows k v (e1 :: e2 :: l) =
    {| h_key := k; h_value := ev_value e1; h_version := v;
       h_valid_from := ev_at e1; h_valid_to := ev_at e2 |} :: hist_rows k (v + 1) (e2 :: l).
Proof. done. Qed.

Lemma hist_rows_snoc k v l p e :
  hist_rows k v ((l ++ [p]) ++ [e]) =
    hist_rows k v (l ++ [p]) ++
      [{| h_key := k; h_value := ev_value p; h_version := v + Z.of_nat (length l);
          h_valid_from := ev_at p; h_valid_to := ev_at e |}].
Proof.
  revert v. induction l as [|a l IH]; intros v; [cbn; by rewrite Z.add_0_r|].
  destruct l as [|b l].
  - done.
  - change (((a :: b :: l) ++ [p]) ++ [e]) with (a :: b :: ((l ++ [p]) ++ [e])).
    change ((a :: b :: l) ++ [p]) with (a :: b :: (l ++ [p])).
    rewrite !hist_rows_cons. specialize (IH (v + 1)). cbn [app] in IH. rewrite IH. cbn [app].
    do 3 f_equal. f_equal. cbn [length]. lia.
Qed.

Lemma hist_rows_key k v l r : r ∈ hist_rows k v l → h_key r = k.
Proof.
  revert v. induction l as [|a [|b l] IH]; intros v; [by intros ?%not_elem_of_nil..|].
  rewrite hist_rows_cons, elem_of_cons. intros [->|?]; [done|]. by eapply IH.
Qed.

Lemma filter_hist_rows k v l : filter (λ r, h_key r = k) (hist_rows k v l) = hist_rows k v l.
Proof.
  revert v. induction l as [|a [|b l] IH]; intros v; [done..|].
  by rewrite hist_rows_cons, filter_cons_True, IH.
Qed.

Lemma sorted_last_max l p e :
  StronglySorted before (l ++ [p]) → e ∈ l ++ [p] → ev_at e ≤ ev_at p.
Proof.
  intros Hs. rewrite elem_of_app, list_elem_of_singleton. intros [He| ->]; [|lia].
  assert (before e p) as Hb by (eapply StronglySorted_app in Hs as (Hs & _); apply Hs; [done|set_solver]).
  unfold before in Hb. lia.
Qed.

Lemma sorted_snoc l e :
  StronglySorted before l → (∀ p, last l = Some p → before p e) → StronglySorted before (l ++ [e]).
Proof.
  intros Hs Hl. induction l as [|p l IH] using rev_ind; [repeat constructor|].
  apply StronglySorted_app_2; [|done|repeat constructor].
  intros x y Hx ->%list_elem_of_singleton. specialize (Hl p). rewrite last_snoc in Hl.
  pose proof (sorted_last_max l p x Hs Hx). specialize (Hl eq_refl). unfold before in *. lia.
Qed.

(** The store as a whole: every key's rows are the rows of its log. *)
Definition kv_rep (db : KvDb) (L : KvKey → Log) : Prop :=
  ∀ k, represents db k (L k) ∧ wf_log (L k).

Definition log_update (k : KvKey) (l : Log) (L : KvKey → Log) : KvKey → Log :=
  λ k', if decide (k' = k) then l else L k'.

Lemma log_update_eq k l L : log_update k l L k = l.
Proof. unfold log_update. by case_decide. Qed.
Lemma log_update_ne k k' l L : k' ≠ k → log_update k l L k' = L k'.
Proof. unfold log_update. by case_decide. Qed.

Definition kv_empty : KvDb := {| kv_current := ∅; kv_history := [] |}.

Lemma wf_log_nil : wf_log [].
Proof. split; repeat constructor. done. Qed.

Lemma kv_rep_empty : kv_rep kv_empty (λ _, []).
Proof. intros k. split; [by split|apply wf_log_nil]. Qed.

Lemma live_row_snoc l e :
  live_row (l ++ [e]) =
    Some {| c_value := ev_value e; c_version := Z.of_nat (length l) + 1;
            c_updated_at := ev_at e; c_updated_xact := ev_xact e |}.
Proof. unfold live_row. rewrite last_snoc, length_app. cbn. do 2 f_equal. lia. Qed.

Lemma hist_rows_to k v l p r :
  StronglySorted before (l ++ [p]) → r ∈ hist_rows k v (l ++ [p]) → h_valid_to r ≤ ev_at p.
Proof.
  revert v p r. induction l as [|q l IH] using rev_ind; intros v p r Hs.
  { by intros ?%not_elem_of_nil. }
  rewrite hist_rows_snoc, elem_of_app, list_elem_of_singleton. intros [Hr| ->]; [|done].
  apply StronglySorted_app in Hs as (Hb & Hs & _).
  specialize (IH _ _ _ Hs Hr). assert (before q p) as Hqp by (apply Hb; set_solver).
  unfold before in Hqp. lia.
Qed.

(** The rows of [kv_history] of one key: the exclusion constraint cannot fire on an insert that
    starts where the live row started. *)
Lemma insert_kv_history_no_overlap k v l p val ver to h :
  StronglySorted before (l ++ [p]) →
  filter (λ r, h_key r = k) h = hist_rows k v (l ++ [p]) →
  ev_at p < to →
  insert_kv_history {| h_key := k; h_value := val; h_version := ver;
                       h_valid_from := ev_at p; h_valid_to := to |} h =
  Ok (h ++ [{| h_key := k; h_value := val; h_version := ver;
               h_valid_from := ev_at p; h_valid_to := to |}]).
Proof.
  intros Hs Hf Hlt. unfold insert_kv_history; cbn [h_valid_from h_valid_to].
  destruct (Z.ltb_spec to (ev_at p)); [lia|]. destruct (Z.ltb_spec (ev_at p) to); [|lia]. cbn.
  destruct (existsb _ h) eqn:He; [exfalso|done].
  apply existsb_exists in He as (r & Hr%list_elem_of_In & Ho). unfold kv_history_overlaps in Ho; cbn in Ho.
  bool_to_prop.
  assert (r ∈ hist_rows k v (l ++ [p])) as Hin by (rewrite <-Hf; by apply list_elem_of_filter).
  pose proof (hist_rows_to _ _ _ _ _ Hs Hin). lia.
Qed.

Definition write_error (ctx : KvCtx) (l : Log) (prev : Event) : option thrown :=
  let now := date_trunc_milliseconds (clock_timestamp ctx) in
  if POSTGRES_BIGINT_MAX <=? Z.of_nat (length l)
  then Some (pg_error "22003" "bigint out of range" None)
  else if ev_xact prev =? txid_current ctx
  then Some (pg_error "UB001" "kv_current: only one write per key is allowed per transaction" None)
  else if now <? ev_at prev
  then Some (pg_error "22000" "range lower bound must be less than or equal to range upper bound" None)
  else if now =? ev_at prev
  then Some (pg_error "23514" "violates check constraint kv_history_range" (Some "kv_history_range"))
  else None.

(** [update_kv_current] on the live row of a represented key. *)
Lemma update_kv_current_spec ctx k v db l p :
  represents db k (l ++ [p]) → wf_log (l ++ [p]) →
  let old := {| c_value := ev_value p; c_version := Z.of_nat (length l) + 1;
                c_updated_at := ev_at p; c_updated_xact := ev_xact p |} in
  update_kv_current ctx k old v db =
    match write_error ctx (l ++ [p]) p with
    | Some e => Err e
    | None =>
        let row := {| c_value := v; c_version := Z.of_nat (length l) + 2;
                      c_updated_at := ev_at (ctx_event ctx v); c_updated_xact := txid_current ctx |} in
        Ok (row, {| kv_current := <[k := row]> (kv_current db);
                    kv_history := kv_history db ++
                      [{| h_key := k; h_value := ev_value p; h_version := Z.of_nat (length l) + 1;
                          h_valid_from := ev_at p; h_valid_to := ev_at (ctx_event ctx v) |}] |})
    end.
Proof.
  intros [Hh _] Hwf old. unfold update_kv_current, bigint_succ, write_error.
  rewrite length_app; cbn [length c_version old]. unfold_action.
  destruct (Z.ltb_spec (Z.of_nat (length l) + 1) POSTGRES_BIGINT_MAX) as [Hb|Hb];
    (destruct (Z.leb_spec POSTGRES_BIGINT_MAX (Z.of_nat (length l + 1))); [try lia|try lia]); [|done].
  unfold kv_current_history_trigger; unfold_action.
  destruct (ev_xact p =? txid_current ctx); [done|].
  set (now := date_trunc_milliseconds (clock_timestamp ctx)).
  destruct (Z.ltb_spec now (ev_at p)) as [Hlt|Hge].
  { unfold insert_kv_history; cbn. by destruct (Z.ltb_spec now (ev_at p)); [|lia]. }
  destruct (Z.eqb_spec now (ev_at p)) as [Heq|Hne].
  { unfold insert_kv_history; cbn. rewrite Heq, Z.ltb_irrefl. done. }
  rewrite (insert_kv_history_no_overlap k 1 l p) by (try apply wf_sorted; done || lia). cbn.
  by replace (Z.of_nat (length l) + 1 + 1) with (Z.of_nat (length l) + 2) by lia.
Qed.

Lemma write_error_refusal ctx k l p :
  match write_error ctx l p with Some e => Some (kv_catch k e) | None => None end =
    log_refusal ctx k l p.
Proof.
  destruct k as [[ns sc] ky]. unfold write_error, log_refusal.
  repeat case_match; try done; simplify_eq; reflexivity.
Qed.

Lemma log_refusal_none ctx k l p :
  log_refusal ctx k l p = None →
  ev_at p < date_trunc_milliseconds (clock_timestamp ctx) ∧
  Z.of_nat (length l) < POSTGRES_BIGINT_MAX.
Proof. unfold log_refusal. repeat case_match; intros; simplify_eq; bool_to_prop; lia. Qed.

(** Appending an accepted event keeps the log well formed. *)
Lemma log_put_wf ctx k v expected l l' :
  wf_log l → JsonValueSchema v = true → log_put ctx k v expected l = Ok l' →
  wf_log l' ∧ l' = l ++ [ctx_event ctx v].
Proof.
  intros [Hs Ha Hv Hl] Hval. unfold log_put.
  destruct (negb _); [done|]. destruct (last l) as [p|] eqn:Hlast.
  - destruct (log_refusal ctx k l p) eqn:Hr; [done|]. intros [= <-].
    apply log_refusal_none in Hr as [Hlt Hlen]. split; [|done]. split.
    + apply sorted_snoc; [done|]. intros q Hq. rewrite Hlast in Hq. by simplify_eq.
    + apply Forall_app; split; [done|]. repeat constructor. apply date_trunc_aligned.
    + apply Forall_app; split; [done|]. by repeat constructor.
    + rewrite length_app. cbn. lia.
  - apply last_None in Hlast as ->. intros [= <-]. split; [|done]. split.
    + repeat constructor.
    + repeat constructor. apply date_trunc_aligned.
    + by repeat constructor.
    + cbn. unfold POSTGRES_BIGINT_MAX. lia.
Qed.

(** The entry an accepted put resolves with. *)
Definition log_entry (k : KvKey) (v : jsval) (l : Log) (at_ : Z) : VersionedEntry :=
  {| namespace := k.1.1; scope := k.1.2; key := k.2; value := v;
     version := Z.of_nat (length l); writtenAt := date_of_timestamptz at_ |}.

(** ** put implements the log's write *)

Lemma validateKey_ok ns sc ky :
  validateKey (ns, sc, ky) = Ok tt →
  NamespaceSchema ns = true ∧ ScopeSchema sc = true ∧ KeySchema ky = true.
Proof.
  unfold validateKey, validateNamespaceScope. unfold_action. intros H.
  by destruct (NamespaceSchema ns), (ScopeSchema sc), (KeySchema ky).
Qed.

Lemma put_validate_ok k v expected :
  put_validate k v expected = Ok tt → validateKey k = Ok tt ∧ JsonValueSchema v = true.
Proof.
  unfold put_validate. unfold_action. destruct (validateKey k) as [[]|]; [|done].
  by destruct (JsonValueSchema v).
Qed.

Lemma toEntry_ok k row :
  validateKey k = Ok tt → JsonValueSchema (row_value row) = true →
  0 < row_version row ≤ POSTGRES_BIGINT_MAX →
  toEntry k row = Ok {| namespace := k.1.1; scope := k.1.2; key := k.2; value := row_value row;
                        version := row_version row;
                        writtenAt := date_of_timestamptz (row_written_at row) |}.
Proof.
  destruct k as [[ns sc] ky]. intros (Hn & Hs & Hk)%validateKey_ok Hv Hver.
  unfold toEntry, VersionedEntrySchema, StoredVersionSchema; cbn.
  rewrite Hn, Hs, Hk, Hv; cbn.
  by destruct (Z.ltb_spec 0 (row_version row)), (Z.leb_spec (row_version row) POSTGRES_BIGINT_MAX);
    try lia.
Qed.

Lemma kv_rep_other db L k k' cur h l :
  kv_rep db L → k' ≠ k →
  filter (λ r, h_key r = k') h = filter (λ r, h_key r = k') (kv_history db) →
  represents {| kv_current := <[k := cur]> (kv_current db); kv_history := h |} k'
    (log_update k l L k') ∧ wf_log (log_update k l L k').
Proof.
  intros Hrep Hne Hh. destruct (Hrep k') as [[Hf Hc] Hwf]. rewrite log_update_ne by done.
  split; [split|done]; cbn; [by rewrite Hh|by rewrite lookup_insert_ne].
Qed.

Lemma insert_kv_current_rep ctx k v db L :
  kv_rep db L → L k = [] → JsonValueSchema v = true →
  kv_rep (insert_kv_current ctx k v db).2 (log_update k [ctx_event ctx v] L).
Proof.
  intros Hrep Hnil Hv k'. destruct (decide (k' = k)) as [->|Hne].
  - rewrite log_update_eq. destruct (Hrep k) as [[Hf Hc] Hwf]. rewrite Hnil in *. split.
    + split; cbn; [done|]. by rewrite lookup_insert_eq.
    + eapply (log_put_wf ctx k v None []); [done|done|]. done.
  - by apply kv_rep_other.
Qed.

Definition next_row (ctx : KvCtx) (v : jsval) (l : Log) : KvCurrentRow :=
  {| c_value := v; c_version := Z.of_nat (length l) + 2;
     c_updated_at := ev_at (ctx_event ctx v); c_updated_xact := txid_current ctx |}.

Lemma update_kv_current_rep ctx k v db L l p :
  kv_rep db L → L k = l ++ [p] → JsonValueSchema v = true →
  log_refusal ctx k (l ++ [p]) p = None →
  kv_rep {| kv_current := <[k := next_row ctx v l]> (kv_current db);
            kv_history := kv_history db ++
              [{| h_key := k; h_value := ev_value p; h_version := Z.of_nat (length l) + 1;
                  h_valid_from := ev_at p; h_valid_to := ev_at (ctx_event ctx v) |}] |}
         (log_update k ((l ++ [p]) ++ [ctx_event ctx v]) L).
Proof.
  intros Hrep Hl Hv Hr k'. destruct (decide (k' = k)) as [->|Hne].
  - rewrite log_update_eq. destruct (Hrep k) as [[Hf Hc] Hwf]. rewrite Hl in *. split.
    + split; cbn [kv_current kv_history].
      * rewrite filter_app, Hf, filter_cons_True, filter_nil, hist_rows_snoc by done.
        do 3 f_equal. lia.
      * rewrite lookup_insert_eq, live_row_snoc, length_app. unfold next_row. cbn.
        do 2 f_equal. lia.
    + eapply (log_put_wf ctx k v None (l ++ [p])); [done|done|]. unfold log_put; cbn.
      by rewrite last_snoc, Hr.
  - apply kv_rep_other; [done..|]. by rewrite filter_app, filter_cons_False, filter_nil, app_nil_r.
Qed.

(** What one of the three write statements does once its guard holds. *)
Definition write_outcome (ctx : KvCtx) (k : KvKey) (v : jsval) (L : KvKey → Log)
    (r : result thrown (KvCurrentRow * KvDb)) : Prop :=
  match log_put ctx k v None (L k) with
  | Err e => ∃ e0, r = Err e0 ∧ kv_catch k e0 = e
  | Ok l' => ∃ row db', r = Ok (row, db') ∧ kv_rep db' (log_update k l' L) ∧ wf_log l' ∧
      toEntry k (current_as_row row) = Ok (log_entry k v l' (ev_at (ctx_event ctx v)))
  end.

Lemma insert_outcome ctx k v db L :
  kv_rep db L → validateKey k = Ok tt → JsonValueSchema v = true → L k = [] →
  write_outcome ctx k v L (Ok (insert_kv_current ctx k v db)).
Proof.
  intros Hrep Hk Hv Hnil. unfold write_outcome. rewrite Hnil. cbn.
  eexists _, _. split; [reflexivity|]. split; [by apply insert_kv_current_rep|].
  split; [by eapply (log_put_wf ctx k v None []); [apply wf_log_nil| |]|].
  rewrite toEntry_ok; cbn; [done..|]. unfold POSTGRES_BIGINT_MAX. lia.
Qed.

Lemma update_outcome ctx k v db L l p :
  kv_rep db L → validateKey k = Ok tt → JsonValueSchema v = true → L k = l ++ [p] →
  write_outcome ctx k v L
    (update_kv_current ctx k
       {| c_value := ev_value p; c_version := Z.of_nat (length l) + 1;
          c_updated_at := ev_at p; c_updated_xact := ev_xact p |} v db).
Proof.
  intros Hrep Hk Hv Hl. destruct (Hrep k) as [Hr Hwf]. rewrite Hl in Hr, Hwf.
  rewrite (update_kv_current_spec ctx k v db l p Hr Hwf).
  unfold write_outcome, log_put; cbn [log_guard negb]. rewrite Hl, last_snoc.
  pose proof (write_error_refusal ctx k (l ++ [p]) p) as Hwe.
  destruct (write_error ctx (l ++ [p]) p) as [e|]; rewrite <-Hwe; [by eexists|].
  symmetry in Hwe. pose proof (log_refusal_none _ _ _ _ Hwe) as [Hlt Hlen].
  rewrite length_app in Hlen; cbn in Hlen.
  eexists _, _. split; [reflexivity|]. split; [by apply update_kv_current_rep|].
  split.
  - eapply (log_put_wf ctx k v None (l ++ [p])); [done|done|]. unfold log_put; cbn.
    by rewrite last_snoc, Hwe.
  - rewrite toEntry_ok; cbn; [|done|done|lia]. unfold log_entry.
    rewrite !length_app; cbn. do 2 f_equal. lia.
Qed.

(** What [putImpl] has to do on a represented store. *)
Definition put_refines (ctx : KvCtx) (k : KvKey) (v : jsval) (expected : option Z) (db : KvDb)
    (L : KvKey → Log) (res : result thrown VersionedEntry * KvDb) : Prop :=
  match log_put ctx k v expected (L k) with
  | Err e => res = (Err e, db)
  | Ok l' => ∃ db', res = (Ok (log_entry k v l' (ev_at (ctx_event ctx v))), db') ∧
      kv_rep db' (log_update k l' L) ∧ wf_log l'
  end.

(** The log is empty or has a last event, and the live row says which. *)
Lemma live_row_cases db k l :
  represents db k l →
  (l = [] ∧ kv_current db !! k = None) ∨
  (∃ l0 p, l = l0 ++ [p] ∧
     kv_current db !! k =
       Some {| c_value := ev_value p; c_version := Z.of_nat (length l0) + 1;
               c_updated_at := ev_at p; c_updated_xact := ev_xact p |}).
Proof.
  intros [_ Hc]. destruct l as [|p l0 _] using rev_ind; [by left|right].
  exists l0, p. split; [done|]. by rewrite Hc, live_row_snoc.
Qed.

Lemma log_put_guard ctx k v expected l :
  log_guard expected l = true → log_put ctx k v expected l = log_put ctx k v None l.
Proof. intros H. unfold log_put. by rewrite H. Qed.

Lemma log_put_stale ctx k v e l :
  log_guard (Some e) l = false →
  log_put ctx k v (Some e) l = Err (VersionConflictError e (log_version l)).
Proof. intros H. unfold log_put. by rewrite H. Qed.

(** A statement that writes, followed by the return of its row. *)
Lemma write_then_return {A} ctx k v L db (r : result thrown (KvCurrentRow * KvDb))
    (wrap : KvCurrentRow → A) (ret : A → act KvDb VersionedEntry) :
  write_outcome ctx k v L r →
  (∀ row, ret (wrap row) = check (toEntry k (current_as_row row))) →
  put_refines ctx k v None db L
    (rethrow (kv_catch k)
       (mbind ret (statement (λ _, match r with
                                   | Ok (row, db') => Ok (wrap row, db')
                                   | Err e => Err e
                                   end))) db).
Proof.
  intros Hw Hret. unfold write_outcome, put_refines in *.
  destruct (log_put ctx k v None (L k)) as [l'|e].
  - destruct Hw as (row & db' & -> & Hrep & Hwf & He). exists db'. split; [|done].
    unfold_action. rewrite Hret. unfold_action. by rewrite He.
  - destruct Hw as (e0 & -> & <-). by unfold_action.
Qed.

Lemma conflict_spec {A} k e db l :
  represents db k l →
  rethrow (kv_catch k) (@conflict A k e) db = (Err (VersionConflictError e (log_version l)), db).
Proof.
  intros Hr. unfold conflict, select_version. unfold_action. do 3 f_equal.
  destruct (live_row_cases _ _ _ Hr) as [[-> ->]|(l0 & p & -> & ->)]; [done|].
  unfold log_version. destruct (l0 ++ [p]) eqn:Hl; [by destruct l0|].
  rewrite <-Hl, length_app. cbn. f_equal. lia.
Qed.

Section put_refinement.
Context (ctx : KvCtx) (k : KvKey) (v : jsval) (db : KvDb) (L : KvKey → Log).
Hypothesis (Hrep : kv_rep db L) (Hk : validateKey k = Ok tt) (Hv : JsonValueSchema v = true).

Let Hr : represents db k (L k) := proj1 (Hrep k).

Lemma putImpl_upsert_refines : put_refines ctx k v None db L (putImpl ctx k v None db).
Proof using Hrep Hk Hv.
  unfold putImpl, put_upsert.
  destruct (live_row_cases _ _ _ Hr) as [[Hl Hc]|(l0 & p & Hl & Hc)].
  - pose proof (insert_outcome ctx k v db L Hrep Hk Hv Hl) as Hw.
    apply (write_then_return _ _ _ _ db _ id (λ row, check (toEntry k (current_as_row row)))) in Hw;
      [|done].
    revert Hw. unfold_action. by rewrite Hc.
  - pose proof (update_outcome ctx k v db L l0 p Hrep Hk Hv Hl) as Hw.
    apply (write_then_return _ _ _ _ db _ id (λ row, check (toEntry k (current_as_row row)))) in Hw;
      [|done].
    revert Hw. unfold_action. rewrite Hc. by destruct (update_kv_current _ _ _ _ _) as [[]|].
Qed.

(** The continuation of the two guarded statements. *)
Let return_or_conflict (e : Z) (written : option KvCurrentRow) : act KvDb VersionedEntry :=
  match written with
  | Some row => check (toEntry k (current_as_row row))
  | None => conflict k e
  end.

Lemma putImpl_guarded_refines e :
  log_guard (Some e) (L k) = true → put_refines ctx k v None db L (putImpl ctx k v (Some e) db).
Proof using Hrep Hk Hv.
  unfold log_guard. intros ->%Z.eqb_eq.
  destruct (live_row_cases _ _ _ Hr) as [[Hl Hc]|(l0 & p & Hl & Hc)]; rewrite Hl.
  - pose proof (insert_outcome ctx k v db L Hrep Hk Hv Hl) as Hw.
    apply (write_then_return _ _ _ _ db _ Some (return_or_conflict 0)) in Hw; [|done].
    cbn [length]. change (Z.of_nat 0) with 0.
    revert Hw. unfold putImpl, put_create. unfold_action. by rewrite Hc.
  - rewrite length_app. cbn [length].
    destruct (Z.of_nat (length l0 + 1)) as [|n|] eqn:Hn; [lia| |lia].
    pose proof (update_outcome ctx k v db L l0 p Hrep Hk Hv Hl) as Hw.
    apply (write_then_return _ _ _ _ db _ Some (return_or_conflict (Z.pos n))) in Hw; [|done].
    revert Hw. unfold putImpl, put_cas. unfold_action. rewrite Hc. cbn [c_version].
    destruct (Z.eqb_spec (Z.of_nat (length l0) + 1) (Z.pos n)); [|lia]. done.
Qed.

Lemma putImpl_stale e :
  log_guard (Some e) (L k) = false →
  putImpl ctx k v (Some e) db = (Err (VersionConflictError e (log_version (L k))), db).
Proof using Hrep Hk Hv.
  intros Hg. rewrite <-(conflict_spec k e db (L k) Hr). unfold log_guard in Hg.
  destruct (live_row_cases _ _ _ Hr) as [[Hl Hc]|(l0 & p & Hl & Hc)]; rewrite Hl in Hg.
  - destruct e as [|n|n]; [done|..]; unfold putImpl, put_cas; unfold_action; by rewrite Hc.
  - rewrite length_app in Hg; cbn [length] in Hg.
    destruct e as [|n|n]; unfold putImpl, put_cas, put_create; unfold_action; rewrite Hc;
      cbn [c_version]; [done|..];
      match goal with |- context [?a =? ?b] => destruct (Z.eqb_spec a b); [lia|done] end.
Qed.

Lemma putImpl_refines expected :
  put_refines ctx k v expected db L (putImpl ctx k v expected db).
Proof using Hrep Hk Hv.
  destruct expected as [e|]; [|apply putImpl_upsert_refines].
  destruct (log_guard (Some e) (L k)) eqn:Hg.
  - pose proof (putImpl_guarded_refines e Hg) as H. unfold put_refines in *.
    by rewrite (log_put_guard _ _ _ _ _ Hg).
  - unfold put_refines. rewrite (log_put_stale _ _ _ _ _ Hg). by apply putImpl_stale.
Qed.
End put_refinement.

(** ** Reading a log *)

Definition live_rows (l : Log) : list KvRow := option_list (current_as_row <$> live_row l).

Lemma log_rows_app v l1 l2 :
  log_rows v (l1 ++ l2) = log_rows v l1 ++ log_rows (v + Z.of_nat (length l1)) l2.
Proof.
  revert v. induction l1 as [|e l1 IH]; intros v; cbn [app log_rows length].
  - by rewrite Z.add_0_r.
  - rewrite IH. do 3 f_equal. lia.
Qed.

(** History rows and the live row together are the rows of the log, in order. *)
Lemma history_and_live l k : (history_as_row <$> hist_rows k 1 l) ++ live_rows l = log_rows 1 l.
Proof.
  induction l as [|p l IH] using rev_ind; [done|].
  unfold live_rows. rewrite live_row_snoc, log_rows_app. cbn [log_rows].
  destruct l as [|q l _] using rev_ind; [done|].
  rewrite hist_rows_snoc, fmap_app. unfold live_rows in IH. rewrite live_row_snoc in IH.
  cbn in IH |- *. rewrite <-IH, <-!(assoc_L (++)), !(Z.add_comm 1). done.
Qed.

Lemma select_history_log db k l p :
  represents db k l →
  select_history k p db = history_as_row <$> filter (λ r, Is_true (p r)) (hist_rows k 1 l).
Proof.
  intros [Hf _]. unfold select_history. rewrite <-Hf, list_filter_filter. f_equal.
  apply list_filter_iff. intros r. tauto.
Qed.

Lemma filter_fmap_rows {A B} (f : A → B) (P : B → bool) (l : list A) :
  f <$> filter (λ a, Is_true (P (f a))) l = filter (λ b, Is_true (P b)) (f <$> l).
Proof.
  induction l as [|a l IH]; [done|]. cbn [fmap list_fmap]. rewrite !filter_cons.
  repeat case_decide; try done. cbn. by f_equal.
Qed.

(** The rows the two [UNION ALL]s yield before [LIMIT 1]. *)
Definition rows_of_version (k : KvKey) (v : Z) (db : KvDb) : list KvRow :=
  select_history k (λ r, h_version r =? v) db ++ select_current k (λ r, c_version r =? v) db.
Definition rows_at_time (k : KvKey) (t : Z) (db : KvDb) : list KvRow :=
  select_history k (λ r, (h_valid_from r <=? t) && (t <? h_valid_to r)) db
  ++ select_current k (λ r, c_updated_at r <=? t) db.

Lemma log_rows_version_filter s l v :
  filter (λ r, Is_true (row_version r =? v)) (log_rows s l) =
  if decide (s ≤ v)
  then option_list ((λ e, {| row_value := ev_value e; row_version := v; row_written_at := ev_at e |})
                      <$> l !! Z.to_nat (v - s))
  else [].
Proof.
  revert s. induction l as [|e l IH]; intros s; cbn [log_rows].
  { by case_decide. }
  rewrite filter_cons, IH. cbn [row_version].
  destruct (Z.eqb_spec s v) as [->|Hs]; cbn [Is_true].
  - rewrite (decide_True (P := True)), decide_False, decide_True by (done || lia).
    by rewrite Z.sub_diag.
  - rewrite (decide_False (P := False)) by tauto. destruct (decide (s ≤ v)).
    + rewrite decide_True by lia. by replace (Z.to_nat (v - s)) with (S (Z.to_nat (v - (s + 1)))) by lia.
    + by rewrite decide_False by lia.
Qed.

Lemma select_current_log db k l (p : KvCurrentRow → bool) (q : KvRow → bool) :
  represents db k l → (∀ r, q (current_as_row r) = p r) →
  select_current k p db = filter (λ r, Is_true (q r)) (live_rows l).
Proof.
  intros [_ Hc] Hpq. unfold select_current, live_rows. rewrite Hc.
  destruct (live_row l) as [r|]; [|done].
  change (option_list (current_as_row <$> Some r)) with [current_as_row r].
  rewrite filter_cons, filter_nil, <-Hpq. case_decide as Hd; by destruct (q _).
Qed.

Lemma rows_of_version_log db k l v :
  represents db k l → rows_of_version k v db = option_list (log_at_version l v).
Proof.
  intros Hr. unfold rows_of_version, log_at_version. rewrite (select_history_log _ _ _ _ Hr).
  rewrite (select_current_log _ _ _ _ (λ r, row_version r =? v) Hr) by done.
  rewrite (filter_fmap_rows history_as_row (λ r, row_version r =? v)), <-filter_app,
    history_and_live, log_rows_version_filter.
  by case_decide.
Qed.

(** The rows whose validity contains [t]: at most one, the last event not after [t]. *)
Definition live_at (l : Log) (t : Z) : list KvRow :=
  filter (λ r, row_written_at r ≤ t) (live_rows l).

Definition covering (k : KvKey) (l : Log) (t : Z) : list KvHistoryRow :=
  filter (λ r, Is_true ((h_valid_from r <=? t) && (t <? h_valid_to r))) (hist_rows k 1 l).

Lemma live_rows_snoc l p :
  live_rows (l ++ [p]) =
    [{| row_value := ev_value p; row_version := 1 + Z.of_nat (length l); row_written_at := ev_at p |}].
Proof. unfold live_rows. rewrite live_row_snoc, Z.add_comm. done. Qed.

Lemma log_rows_snoc l p : log_rows 1 (l ++ [p]) = log_rows 1 l ++ live_rows (l ++ [p]).
Proof. rewrite log_rows_app, live_rows_snoc. done. Qed.

Lemma covering_log k l t :
  StronglySorted before l →
  (history_as_row <$> covering k l t) ++ live_at l t = option_list (log_at_time l t).
Proof.
  unfold log_at_time, covering, live_at.
  induction l as [|p l IH] using rev_ind; intros Hs; [done|].
  rewrite log_rows_snoc, filter_app, live_rows_snoc.
  apply StronglySorted_app in Hs as (Hb & Hs & _). specialize (IH Hs).
  rewrite (filter_cons _ _ []), filter_nil. cbn [row_written_at].
  destruct l as [|q l _] using rev_ind.
  { cbn. by case_decide. }
  rewrite hist_rows_snoc, filter_app, fmap_app. cbn [row_written_at].
  assert (ev_at q < ev_at p) as Hqp by (apply Hb; set_solver).
  rewrite (filter_cons _ _ []), filter_nil. cbn [h_valid_from h_valid_to].
  destruct (decide (ev_at p ≤ t)) as [Hpt|Hpt].
  - rewrite last_snoc, decide_False by (rewrite Is_true_true; lia).
    rewrite list_filter_none; [done|].
    intros r Hr. rewrite Is_true_true. pose proof (hist_rows_to _ _ _ _ _ Hs Hr). lia.
  - rewrite !app_nil_r, <-IH. f_equal. rewrite live_rows_snoc, (filter_cons _ _ []), filter_nil.
    cbn [row_written_at].
    destruct (decide (ev_at q ≤ t)); [rewrite decide_True|rewrite decide_False];
      rewrite ?Is_true_true; try done; lia.
Qed.

Lemma rows_at_time_log db k l t :
  represents db k l → StronglySorted before l →
  rows_at_time k t db = option_list (log_at_time l t).
Proof.
  intros Hr Hs. unfold rows_at_time. rewrite (select_history_log _ _ _ _ Hr), <-(covering_log k) by done.
  f_equal. rewrite (select_current_log _ _ _ _ (λ r, row_written_at r <=? t) Hr) by done.
  apply list_filter_iff. intros r. rewrite Is_true_true. apply Z.leb_le.
Qed.

Lemma take_1_option_list {A} (o : option A) : take 1 (option_list o) = option_list o.
Proof. by destruct o. Qed.

Lemma log_at_version_Some l v r :
  log_at_version l v = Some r →
  ∃ e, 1 ≤ v ≤ Z.of_nat (length l) ∧ l !! Z.to_nat (v - 1) = Some e ∧
       r = {| row_value := ev_value e; row_version := v; row_written_at := ev_at e |}.
Proof.
  unfold log_at_version. case_decide; [|done].
  intros (e & He & ->)%fmap_Some. exists e. apply lookup_lt_Some in He as Hlt.
  split; [lia|done].
Qed.

Lemma log_rows_elem s l r :
  r ∈ log_rows s l → ∃ e, e ∈ l ∧ s ≤ row_version r < s + Z.of_nat (length l) ∧
    r = {| row_value := ev_value e; row_version := row_version r; row_written_at := ev_at e |}.
Proof.
  revert s. induction l as [|e l IH]; intros s; [by intros ?%not_elem_of_nil|].
  cbn [log_rows length]. rewrite elem_of_cons. intros [-> |Hr].
  - exists e. cbn. split; [set_solver|]. split; [lia|done].
  - destruct (IH _ Hr) as (e' & ? & ? & ?). exists e'. split; [set_solver|]. split; [lia|done].
Qed.

(** Every row a log holds passes the schema an entry is parsed with. *)
Lemma log_as_of_row l asOf r :
  wf_log l → log_as_of l asOf = Some r →
  JsonValueSchema (row_value r) = true ∧ 0 < row_version r ≤ POSTGRES_BIGINT_MAX ∧
  row_written_at r mod 1000 = 0.
Proof.
  intros [_ Ha Hv Hlen] Hr. rewrite Forall_forall in Ha, Hv.
  assert (∃ e, e ∈ l ∧ 0 < row_version r ≤ Z.of_nat (length l) ∧ row_value r = ev_value e ∧
               row_written_at r = ev_at e) as (e & He & Hver & -> & ->).
  { destruct asOf as [v|[ms|]| |]; try done; cbn in Hr.
    - apply log_at_version_Some in Hr as (e & ? & ?%list_elem_of_lookup_2 & ->). exists e.
      cbn. split_and!; [done|lia|lia|done|done].
    - unfold log_at_time in Hr. apply last_Some_elem_of, list_elem_of_filter in Hr as [_ Hr].
      apply log_rows_elem in Hr as (e & ? & ? & ->). exists e. cbn in *.
      split_and!; [done|lia|lia|done|done]. }
  split_and!; [by apply Hv|lia|lia|by apply Ha].
Qed.

Definition row_entry (k : KvKey) (r : KvRow) : VersionedEntry :=
  {| namespace := k.1.1; scope := k.1.2; key := k.2; value := row_value r;
     version := row_version r; writtenAt := date_of_timestamptz (row_written_at r) |}.

Lemma getAtImpl_spec k asOf db L :
  kv_rep db L → validateKey k = Ok tt → validateAsOf asOf = Ok tt →
  getAtImpl k asOf db = (Ok (row_entry k <$> log_as_of (L k) asOf), db).
Proof.
  intros Hrep Hk Ha. destruct (Hrep k) as [Hr Hwf].
  assert (∃ rows, rows = option_list (log_as_of (L k) asOf) ∧
    getAtImpl k asOf db = rethrow (kv_catch k) (check (entry_or_null k rows)) db)
    as (rows & -> & ->).
  { destruct asOf as [v|[ms|]| |]; try done; (eexists; split; [|reflexivity]); cbn.
    - unfold select_by_version. fold (rows_of_version k v db).
      by rewrite (rows_of_version_log _ _ _ _ Hr), take_1_option_list.
    - unfold select_by_time. fold (rows_at_time k (timestamptz_of_date ms) db).
      by rewrite (rows_at_time_log _ _ _ _ Hr (wf_sorted _ Hwf)), take_1_option_list. }
  destruct (log_as_of (L k) asOf) as [r|] eqn:Hrow; [|done].
  destruct (log_as_of_row _ _ _ Hwf Hrow) as (? & ? & _).
  unfold entry_or_null; cbn [option_list]. unfold_action. by rewrite toEntry_ok.
Qed.

Lemma log_dual_addressing l v r :
  StronglySorted before l → log_at_version l v = Some r → log_at_time l (row_written_at r) = Some r.
Proof.
  intros Hs (e & Hv & He & ->)%log_at_version_Some. cbn [row_written_at].
  unfold log_at_time. induction l as [|p l IH] using rev_ind; [done|].
  rewrite log_rows_snoc, filter_app, live_rows_snoc. rewrite length_app in Hv; cbn in Hv.
  apply StronglySorted_app in Hs as (Hb & Hs & _).
  destruct (decide (Z.to_nat (v - 1) < length l)%nat) as [Hlt|Hge].
  - rewrite lookup_app_l in He by done.
    assert (ev_at e < ev_at p) by (apply Hb; [by eapply list_elem_of_lookup_2|set_solver]).
    rewrite filter_cons_False, filter_nil, app_nil_r by (cbn; lia). apply IH; [done|lia|done].
  - assert (v = Z.of_nat (length l) + 1) as -> by lia.
    rewrite list_lookup_middle in He by lia. simplify_eq.
    rewrite filter_cons_True, filter_nil, last_snoc by (cbn; lia). by rewrite Z.add_comm.
Qed.

(** ** Reachable stores *)

(** One accepted or refused put, by any transaction at any clock reading. A rolled-back transaction
    returns the store to a state that was already reachable. *)
Inductive kv_step : KvDb → KvDb → Prop :=
  | kv_step_put ctx k v expected db :
      put_validate k v expected = Ok tt → kv_step db (putImpl ctx k v expected db).2.

Definition kv_reachable : KvDb → Prop := rtc kv_step kv_empty.

Lemma put_refines_rep ctx k v expected db L res :
  kv_rep db L → put_refines ctx k v expected db L res →
  ∃ L', kv_rep res.2 L' ∧ ∀ k', L k' `prefix_of` L' k'.
Proof.
  intros Hrep. unfold put_refines. destruct (log_put _ _ _ _ _) as [l'|e] eqn:Hp.
  - intros (db' & -> & Hrep' & _). exists (log_update k l' L). split; [done|].
    intros k'. destruct (decide (k' = k)) as [->|]; [|by rewrite log_update_ne].
    rewrite log_update_eq. unfold log_put in Hp.
    destruct (negb _); [done|]. destruct (last (L k)) eqn:Hl.
    + destruct (log_refusal _ _ _ _); simplify_eq. by apply prefix_app_r.
    + apply last_None in Hl as ->. apply prefix_nil.
  - intros ->. by exists L.
Qed.

Lemma kv_steps_rep db db' L :
  kv_rep db L → rtc kv_step db db' → ∃ L', kv_rep db' L' ∧ ∀ k, L k `prefix_of` L' k.
Proof.
  intros Hrep Hs. revert L Hrep. induction Hs as [db|db db1 db' Hs _ IH]; intros L Hrep; [by exists L|].
  destruct Hs as [ctx k v expected db Hok].
  destruct (put_validate_ok _ _ _ Hok) as [Hk Hv].
  destruct (put_refines_rep _ _ _ _ _ _ _ Hrep (putImpl_refines ctx k v db L Hrep Hk Hv expected))
    as (L1 & Hrep1 & Hpre1).
  destruct (IH L1 Hrep1) as (L' & Hrep' & Hpre'). exists L'. split; [done|].
  intros k'. trans (L1 k'); done.
Qed.

Lemma kv_reachable_rep db : kv_reachable db → ∃ L, kv_rep db L.
Proof.
  intros H. destruct (kv_steps_rep _ _ _ kv_rep_empty H) as (L & ? & _). by exists L.
Qed.

Lemma log_at_version_prefix l l' v r :
  l `prefix_of` l' → log_at_version l v = Some r → log_at_version l' v = Some r.
Proof.
  intros [k ->] (e & Hv & He & ->)%log_at_version_Some. unfold log_at_version.
  rewrite decide_True by lia. by rewrite (lookup_app_l_Some _ _ _ _ He).
Qed.

(** ** The laws *)

(** C1. [put] refines the abstract log. On a well-formed store, an unconditional put, a
    create-only put and a compare-and-swap put all do what one guarded append does: accepted, the
    call resolves with the appended event as the key's new version and the store represents the
    longer log (every other key's log as before); refused, it rejects with the log's error
    ([VersionConflictError] with the real version, [TransactionKeyReuseError],
    [ClockRegressionError] when the clock stands still and [UnrecognizedPostgresError] when it ran
    backwards or the version column is full) and the store is unchanged. *)
Theorem put_implements_log ctx k v expected tx signal (w : World KvDb) L :
  kv_rep (w_db w) L →
  put_validate k v expected = Ok tt →
  route tx w = (Ok tt, w) → signal_aborted signal = false →
  match log_put ctx k v expected (L k) with
  | Err e => put ctx k v expected tx signal w = (Err e, w)
  | Ok l' => ∃ db',
      put ctx k v expected tx signal w =
        (Ok {| namespace := k.1.1; scope := k.1.2; key := k.2; value := v;
               version := Z.of_nat (length l');
               writtenAt := date_of_timestamptz (ev_at (ctx_event ctx v)) |},
         Build_World db' (activeTransactions w) (w_statement_timeout w)) ∧
      l' = L k ++ [ctx_event ctx v] ∧
      kv_rep db' (log_update k l' L)
  end.
Proof.
  intros Hrep Hok Htx Hsig. destruct (put_validate_ok _ _ _ Hok) as [Hk Hv].
  assert (put ctx k v expected tx signal w = on_db (putImpl ctx k v expected) w) as ->.
  { unfold put. unfold_action. rewrite Htx, Hok. unfold withAbort.
    destruct signal as [s|]; [|done]. cbn in Hsig. by rewrite Hsig. }
  pose proof (putImpl_refines ctx k v (w_db w) L Hrep Hk Hv expected) as Hp.
  unfold put_refines, on_db in *. destruct (log_put _ _ _ _ _) as [l'|e] eqn:Hl.
  - destruct Hp as (db' & -> & Hrep' & _). exists db'.
    destruct (Hrep k) as [_ Hwf]. by destruct (log_put_wf _ _ _ _ _ _ Hwf Hv Hl) as [_ ->].
  - rewrite Hp. by destruct w.
Qed.

(** A compare-and-swap can be won once: after a put with [expectedVersion = e] succeeds, every
    later put that still expects [e] is refused with [VersionConflictError], which reports a
    version above [e], and changes nothing. No lost update. *)
Theorem cas_at_most_once ctx1 ctx2 k v1 v2 e db db1 db2 entry :
  kv_reachable db →
  put_validate k v1 (Some e) = Ok tt → put_validate k v2 (Some e) = Ok tt →
  putImpl ctx1 k v1 (Some e) db = (Ok entry, db1) →
  rtc kv_step db1 db2 →
  version entry = e + 1 ∧
  ∃ actual, e < actual ∧
    putImpl ctx2 k v2 (Some e) db2 = (Err (VersionConflictError e (Some actual)), db2).
Proof.
  intros (L & Hrep)%kv_reachable_rep Hok1 Hok2 Hput Hsteps.
  destruct (put_validate_ok _ _ _ Hok1) as [Hk Hv1], (put_validate_ok _ _ _ Hok2) as [_ Hv2].
  pose proof (putImpl_refines ctx1 k v1 db L Hrep Hk Hv1 (Some e)) as Hp.
  unfold put_refines in Hp. rewrite Hput in Hp.
  destruct (log_put _ _ _ _ _) as [l1|] eqn:Hl; [|done].
  destruct Hp as (db1' & [= -> <-] & Hrep1 & _).
  destruct (Hrep k) as [_ Hwf]. destruct (log_put_wf _ _ _ _ _ _ Hwf Hv1 Hl) as [_ ->].
  assert (e = Z.of_nat (length (L k))) as He.
  { unfold log_put, log_guard in Hl. by destruct (Z.eqb_spec e (Z.of_nat (length (L k)))). }
  split; [cbn; rewrite length_app; cbn; lia|].
  destruct (kv_steps_rep _ _ _ Hrep1 Hsteps) as (L2 & Hrep2 & Hpre).
  specialize (Hpre k). rewrite log_update_eq in Hpre. destruct Hpre as [tail Htail].
  exists (Z.of_nat (length (L2 k))). rewrite Htail, !length_app; cbn [length].
  split; [lia|]. rewrite (putImpl_stale ctx2 k v2 db2 L2 Hrep2 Hk Hv2).
  - unfold log_version. rewrite Htail. destruct ((L k ++ _) ++ tail) eqn:Hne; [by destruct (L k)|].
    rewrite <-Hne, !length_app. done.
  - unfold log_guard. rewrite Htail, !length_app. cbn [length]. lia.
Qed.

(** [getAt] reads the log: by version the [v]-th event, by time the last event written at or
    before the instant, and [null] when there is none; it never fails on a valid argument and never
    changes the store. *)
Theorem getAt_reads_log k asOf db L :
  kv_rep db L → validateKey k = Ok tt → validateAsOf asOf = Ok tt →
  getAtImpl k asOf db = (Ok (row_entry k <$> log_as_of (L k) asOf), db).
Proof. apply getAtImpl_spec. Qed.

(** C18. Dual addressing (Law T4): the entry read at version [v] is the entry read at its own
    [writtenAt], even though a [Date] carries only milliseconds. *)
Theorem dual_addressing k v db e :
  kv_reachable db → validateKey k = Ok tt → StoredVersionSchema v = true →
  getAtImpl k (AsOfVersion v) db = (Ok (Some e), db) →
  getAtImpl k (AsOfAt (Some (writtenAt e))) db = (Ok (Some e), db).
Proof.
  intros (L & Hrep)%kv_reachable_rep Hk Hv.
  rewrite (getAtImpl_spec k (AsOfVersion v) db L Hrep Hk) by (cbn; by rewrite Hv).
  rewrite (getAtImpl_spec k (AsOfAt _) db L Hrep Hk) by done. cbn [log_as_of].
  destruct (Hrep k) as [_ Hwf].
  destruct (log_at_version (L k) v) as [r|] eqn:Hr; [|done]. intros [= <-]. cbn [row_entry writtenAt].
  rewrite date_round_trip by (by eapply (log_as_of_row _ (AsOfVersion v)); [exact Hwf|exact Hr]).
  by rewrite (log_dual_addressing _ _ _ (wf_sorted _ Hwf) Hr).
Qed.

(** History is immutable: a version that can be read reads the same after any further puts to
    any keys. *)
Theorem history_immutable k v db db' e :
  kv_reachable db → validateKey k = Ok tt → StoredVersionSchema v = true →
  rtc kv_step db db' →
  getAtImpl k (AsOfVersion v) db = (Ok (Some e), db) →
  getAtImpl k (AsOfVersion v) db' = (Ok (Some e), db').
Proof.
  intros (L & Hrep)%kv_reachable_rep Hk Hv Hs.
  destruct (kv_steps_rep _ _ _ Hrep Hs) as (L' & Hrep' & Hpre).
  rewrite (getAtImpl_spec k _ db L Hrep Hk), (getAtImpl_spec k _ db' L' Hrep' Hk)
    by (cbn; by rewrite Hv).
  cbn [log_as_of]. destruct (log_at_version (L k) v) as [r|] eqn:Hr; [|done].
  rewrite (log_at_version_prefix _ _ _ _ (Hpre k) Hr). by intros [= <-].
Qed.

(** The two halves of the [UNION ALL] never both match (the premise of the [LIMIT 1] in
    [getAtImpl]): in every reachable store at most one row of [kv_history] and [kv_current]
    together has a given version, at most one covers a given instant, and for every instant from
    a key's first write on exactly one does. *)
Theorem getAt_unambiguous db k :
  kv_reachable db →
  (∀ v, (length (rows_of_version k v db) ≤ 1)%nat) ∧
  (∀ t, (length (rows_at_time k t db) ≤ 1)%nat) ∧
  (∀ r t t', r ∈ rows_at_time k t db → t ≤ t' → length (rows_at_time k t' db) = 1%nat).
Proof.
  intros (L & Hrep)%kv_reachable_rep. destruct (Hrep k) as [Hr Hwf].
  pose proof (wf_sorted _ Hwf) as Hs.
  split_and!.
  - intros v. rewrite (rows_of_version_log _ _ _ _ Hr). destruct (log_at_version _ _); cbn; lia.
  - intros t. rewrite (rows_at_time_log _ _ _ _ Hr Hs). destruct (log_at_time _ _); cbn; lia.
  - intros r t t'. rewrite !(rows_at_time_log _ _ _ _ Hr Hs). intros Hin Hle.
    destruct (log_at_time (L k) t) as [r0|] eqn:Ht; [|by apply not_elem_of_nil in Hin].
    unfold log_at_time in Ht |- *. apply last_Some_elem_of, list_elem_of_filter in Ht as [Ht Hr0].
    destruct (last (filter _ (log_rows 1 (L k)))) eqn:Hl'; [done|].
    apply last_None in Hl'. exfalso. apply (not_elem_of_nil r0). rewrite <-Hl'.
    apply list_elem_of_filter. split; [lia|done].
Qed.

(** ** Witnesses: two puts to one key *)

Definition demo_key : KvKey := (js "ns", js "scope", js "key").
Definition demo_ctx1 : KvCtx := {| clock_timestamp := 1000500; txid_current := 10 |}.
Definition demo_ctx2 : KvCtx := {| clock_timestamp := 2000700; txid_current := 11 |}.
Definition demo_kv1 : KvDb := (putImpl demo_ctx1 demo_key (JStr (js "a")) (Some 0) kv_empty).2.
Definition demo_kv2 : KvDb := (putImpl demo_ctx2 demo_key (JStr (js "b")) (Some 1) demo_kv1).2.

Lemma demo_kv1_reachable : kv_reachable demo_kv1.
Proof. eapply rtc_l; [|apply rtc_refl]. by constructor. Qed.

Lemma demo_kv2_step : kv_step demo_kv1 demo_kv2.
Proof. by constructor. Qed.

Lemma demo_kv2_reachable : kv_reachable demo_kv2.
Proof. eapply rtc_r; [apply demo_kv1_reachable|apply demo_kv2_step]. Qed.

Lemma put_implements_log_witness :
  kv_rep kv_empty (λ _, []) ∧
  ∃ db', put demo_ctx1 demo_key (JStr (js "a")) (Some 0) None None (Build_World kv_empty ∅ None) =
    (Ok {| namespace := js "ns"; scope := js "scope"; key := js "key"; value := JStr (js "a");
           version := 1; writtenAt := 1000 |}, Build_World db' ∅ None).
Proof.
  split; [exact kv_rep_empty|].
  destruct (put_implements_log demo_ctx1 demo_key (JStr (js "a")) (Some 0) None None
    (Build_World kv_empty ∅ None) (λ _, []) kv_rep_empty eq_refl eq_refl eq_refl) as (db' & H & _).
  exists db'. exact H.
Defined.

Lemma cas_at_most_once_witness :
  (putImpl demo_ctx1 demo_key (JStr (js "a")) (Some 0) kv_empty).2 = demo_kv1 ∧
  ∃ actual, 0 < actual ∧
    putImpl demo_ctx2 demo_key (JStr (js "b")) (Some 0) demo_kv2 =
      (Err (VersionConflictError 0 (Some actual)), demo_kv2).
Proof.
  split; [reflexivity|].
  refine (proj2 (cas_at_most_once demo_ctx1 demo_ctx2 demo_key (JStr (js "a")) (JStr (js "b")) 0
    kv_empty demo_kv1 demo_kv2 _ (rtc_refl _ _) eq_refl eq_refl _ (rtc_once _ _ demo_kv2_step))).
  vm_compute. reflexivity.
Defined.

Lemma getAt_reads_log_witness :
  kv_rep kv_empty (λ _, []) ∧
  getAtImpl demo_key (AsOfVersion 1) kv_empty = (Ok None, kv_empty).
Proof.
  split; [exact kv_rep_empty|].
  exact (getAt_reads_log demo_key (AsOfVersion 1) kv_empty (λ _, []) kv_rep_empty eq_refl eq_refl).
Defined.

Lemma dual_addressing_witness :
  getAtImpl demo_key (AsOfAt (Some 1000)) demo_kv2 =
    (Ok (Some {| namespace := js "ns"; scope := js "scope"; key := js "key"; value := JStr (js "a");
                 version := 1; writtenAt := 1000 |}), demo_kv2).
Proof.
  refine (dual_addressing demo_key 1 demo_kv2
    {| namespace := js "ns"; scope := js "scope"; key := js "key"; value := JStr (js "a");
       version := 1; writtenAt := 1000 |} demo_kv2_reachable eq_refl eq_refl _).
  vm_compute. reflexivity.
Defined.

Lemma history_immutable_witness :
  is_ok (getAtImpl demo_key (AsOfVersion 1) demo_kv1).1 = true ∧
  getAtImpl demo_key (AsOfVersion 1) demo_kv2 =
    (Ok (Some {| namespace := js "ns"; scope := js "scope"; key := js "key"; value := JStr (js "a");
                 version := 1; writtenAt := 1000 |}), demo_kv2).
Proof.
  split; [vm_compute; reflexivity|].
  refine (history_immutable demo_key 1 demo_kv1 demo_kv2 _ demo_kv1_reachable eq_refl eq_refl
    (rtc_once _ _ demo_kv2_step) _).
  vm_compute. reflexivity.
Defined.

Lemma getAt_unambiguous_witness :
  kv_reachable demo_kv2 ∧ (length (rows_at_time demo_key 1500000 demo_kv2) ≤ 1)%nat ∧
  rows_at_time demo_key 1500000 demo_kv2 ≠ [].
Proof.
  split; [apply demo_kv2_reachable|].
  split; [apply (getAt_unambiguous demo_kv2 demo_key demo_kv2_reachable)|].
  vm_compute. discriminate.
Defined.
