(* ===== verification/TemporalKVList.v ===== *)
(** * TemporalKV: listing keys

    Models [listKeys] of [src/postgres/temporal-kv.ts]: the ordered prefix query, its cursor of
    batches, and the async generator that yields the keys one by one while each fetch races the
    abort signal. How every fetch settles, when the signal aborts and when the consumer stops are
    data; the database's collation is a parameter. *)

From S2P Require Import Prelude Text Json Errors Transaction Driver Slices TemporalKV.

Local Open Scope Z_scope.

(** How one [iterator.next()] settles against the abort: first, after it, or by failing — with
    whether the signal had aborted by then. *)
Inductive Fetch := FetchArrives | FetchAborts | FetchFails (e : thrown) (signalAborted : bool).

(** [le_abort]: the signal aborts once that many keys were yielded. [le_stop]: the consumer leaves
    its loop after that many. *)
Record ListEnv := { le_fetch : nat → Fetch; le_abort : option nat; le_stop : option nat }.

(** How the generator ends when it does not reject. *)
Inductive Ending := Exhausted | Returned.

(** [query.cursor(256)]. *)
Definition CURSOR_BATCH : Z := 256.

Definition reached (limit : option nat) (n : nat) : bool :=
  match limit with Some m => (m <=? n)%nat | None => false end.

(** [for (const row of next.value) { if (signal?.aborted) throw ..; yield row.key }]: [None] goes on
    to the next fetch. *)
Fixpoint yield_rows (signal : option AbortSignal) (env : ListEnv) (n : nat) (rows : list jsstr)
    : list jsstr * result thrown (option Ending) :=
  match rows with
  | [] => ([], Ok None)
  | row :: rows' =>
      match signal, reached (le_abort env) n with
      | Some s, true => ([], Err (abortError s))
      | _, _ =>
          if reached (le_stop env) (S n) then ([row], Ok (Some Returned))
          else let '(ks, o) := yield_rows signal env (S n) rows' in (row :: ks, o)
      end
  end.

(** The [catch] around a fetch. *)
Definition fetch_catch (signal : option AbortSignal) (signalAborted : bool) (e : thrown) : thrown :=
  if is_AbortError e then e
  else match signal with
       | Some s => if signalAborted then abortError s else translatePostgresError e None
       | None => translatePostgresError e None
       end.

(** The [while (true)] loop over the batches that are left; [i] counts fetches, [n] keys. *)
Fixpoint list_loop (signal : option AbortSignal) (env : ListEnv) (batches : list (list jsstr))
    (i n : nat) : list jsstr * result thrown Ending :=
  let arrived :=
    match batches with
    | [] => ([], Ok Exhausted)
    | batch :: batches' =>
        match yield_rows signal env n batch with
        | (ks, Ok None) =>
            let '(ks', o) := list_loop signal env batches' (S i) (n + length batch) in (ks ++ ks', o)
        | (ks, Ok (Some ending)) => (ks, Ok ending)
        | (ks, Err e) => (ks, Err e)
        end
    end in
  match le_fetch env i, signal with
  | FetchArrives, _ | FetchAborts, None => arrived
  | FetchAborts, Some s => ([], Err (abortError s))
  | FetchFails e signalAborted, _ => ([], Err (fetch_catch signal signalAborted e))
  end.

Definition listKeys_validate (ns sc prefix : jsstr) : result thrown unit :=
  validateNamespaceScope ns sc ;;
  if hasPostgresUnsafeText prefix
  then Err (ValidationError
              "PgTemporalKV listKeys: prefix must not contain a NUL byte or an unpaired UTF-16 surrogate"
              "prefix" "PostgreSQL cannot store either")
  else Ok tt.

Section listing.
Context {HC : Collation}.

(** [SELECT key .. WHERE ns = .. AND scope = .. AND key LIKE .. ESCAPE '\' ORDER BY key]. *)
Definition select_keys (ns sc pattern : jsstr) (db : KvDb) : result thrown (list jsstr) :=
  match like_tokens pattern with
  | None => Err (pg_error "22025" "LIKE pattern must not end with escape character" None)
  | Some ts =>
      Ok (merge_sort collate
            ((λ p, p.1.2) <$> filter
              (λ p : KvKey * KvCurrentRow, p.1.1.1 = ns ∧ p.1.1.2 = sc ∧ Is_true (like_match ts p.1.2))
              (map_to_list (kv_current db))))
  end.

(** What a consumer that iterates [listKeys] gets: the keys yielded, and how the iteration ended. *)
Definition listKeys (ns sc prefix : jsstr) (tx : option TransactionHandle)
    (signal : option AbortSignal) (env : ListEnv) (w : World KvDb)
    : list jsstr * result thrown Ending :=
  match (route tx ;; check (listKeys_validate ns sc prefix) ;; withAbort (mret tt) signal) w with
  | (Err e, _) => ([], Err e)
  | (Ok _, _) =>
      match select_keys ns sc (escapeLikePrefix prefix ++ [percent]) (w_db w) with
      | Ok keys => list_loop signal env (for_slices CURSOR_BATCH keys) 0 0
      | Err e => ([], Err (fetch_catch signal false e))
      end
  end.

(** ** The keys a listing ranges over *)

(** The current keys of the scope with the prefix, each once, in collation order. *)
Record lists_under (ns sc prefix : jsstr) (db : KvDb) (keys : list jsstr) : Prop := {
  lu_sorted : StronglySorted collate keys;
  lu_nodup : NoDup keys;
  lu_elem : ∀ k, k ∈ keys ↔ is_Some (kv_current db !! (ns, sc, k)) ∧ prefix `prefix_of` k;
}.

Lemma escaped_matches prefix k :
  ∃ ts, like_tokens (escapeLikePrefix prefix ++ [percent]) = Some ts ∧
    (Is_true (like_match ts k) ↔ prefix `prefix_of` k).
Proof.
  exists ((LikeChar <$> prefix) ++ [LikeMany]). split; [by apply like_tokens_escape|].
  rewrite Is_true_true, like_match_chars. split.
  - intros (k' & -> & _). by exists k'.
  - intros [k' ->]. exists k'. by rewrite like_match_many.
Qed.

Lemma select_keys_lists ns sc prefix db :
  ∃ keys, select_keys ns sc (escapeLikePrefix prefix ++ [percent]) db = Ok keys ∧
    lists_under ns sc prefix db keys.
Proof.
  unfold select_keys. destruct (like_tokens _) as [ts|] eqn:Hts.
  2: { destruct (escaped_matches prefix []) as (ts & E & _). congruence. }
  assert (∀ k, Is_true (like_match ts k) ↔ prefix `prefix_of` k) as Hm.
  { intros k. destruct (escaped_matches prefix k) as (ts' & E & Hk). by simplify_eq. }
  eexists. split; [done|]. set (l := _ <$> filter _ _). constructor.
  - apply (StronglySorted_merge_sort collate).
  - rewrite merge_sort_Permutation. subst l. apply NoDup_fmap_2_strong.
    + intros [[[n1 s1] k1] r1] [[[n2 s2] k2] r2].
      rewrite !list_elem_of_filter, !elem_of_map_to_list. cbn. naive_solver.
    + apply NoDup_filter, NoDup_map_to_list.
  - intros k. rewrite merge_sort_Permutation. subst l. rewrite list_elem_of_fmap. split.
    + intros ([[[n s] k'] r] & -> & Hin). rewrite list_elem_of_filter, elem_of_map_to_list in Hin.
      cbn in *. destruct Hin as ((-> & -> & Hk) & Hr). split; [by eauto|by apply Hm].
    + intros [[r Hr] Hk]. exists ((ns, sc, k), r). split; [done|].
      rewrite list_elem_of_filter, elem_of_map_to_list. cbn. by rewrite Hm.
Qed.

(** ** One iteration *)

(** How an iteration that yielded [ks] of the keys [todo], after [n] others, may have ended. *)
Definition ends_as (signal : option AbortSignal) (env : ListEnv) (n : nat) (todo ks : list jsstr)
    (o : result thrown Ending) : Prop :=
  match o with
  | Ok Exhausted => ks = todo
  | Ok Returned => ∃ m, le_stop env = Some m ∧ (m ≤ n + length ks)%nat
  | Err e =>
      (∃ s, signal = Some s ∧ e = abortError s) ∨
      (∃ i e' b, le_fetch env i = FetchFails e' b ∧ e = fetch_catch signal b e')
  end.

(** Nothing is yielded past the abort. *)
Definition stops_at_abort (signal : option AbortSignal) (env : ListEnv) (n : nat) (ks : list jsstr)
    : Prop :=
  ∀ m, is_Some signal → le_abort env = Some m → ks = [] ∨ (n + length ks ≤ m)%nat.

Lemma yield_rows_spec signal env n rows :
  let '(ks, o) := yield_rows signal env n rows in
  ks `prefix_of` rows ∧ stops_at_abort signal env n ks ∧
  match o with
  | Ok None => ks = rows
  | Ok (Some ending) => ending = Returned ∧ ends_as signal env n rows ks (Ok ending)
  | Err e => ends_as signal env n rows ks (Err e)
  end.
Proof.
  revert n. induction rows as [|row rows IH]; intros n; cbn.
  { split_and!; [done| |done]. intros m _ _. by left. }
  assert (∀ o : result thrown (option Ending),
    match signal, reached (le_abort env) n with Some _, true => False | _, _ => True end →
    let '(ks, o) := if reached (le_stop env) (S n) then ([row], Ok (Some Returned))
                    else let '(ks, o) := yield_rows signal env (S n) rows in (row :: ks, o) in
    ks `prefix_of` row :: rows ∧ stops_at_abort signal env n ks ∧
    match o with
    | Ok None => ks = row :: rows
    | Ok (Some ending) => ending = Returned ∧ ends_as signal env n (row :: rows) ks (Ok ending)
    | Err e => ends_as signal env n (row :: rows) ks (Err e)
    end) as Hgo.
  { intros _ Hab.
    assert (∀ m, is_Some signal → le_abort env = Some m → (n < m)%nat) as Hlt.
    { intros m [s ->] Hm. rewrite Hm in Hab. cbn in Hab. destruct (Nat.leb_spec m n); [done|lia]. }
    destruct (reached (le_stop env) (S n)) eqn:Hstop.
    - split_and!; [by apply prefix_cons, prefix_nil| |done|].
      + intros m Hs Hm. right. specialize (Hlt m Hs Hm). cbn. lia.
      + cbn. unfold reached in Hstop. destruct (le_stop env) as [m|]; [|done].
        apply Nat.leb_le in Hstop. exists m. split; [done|lia].
    - specialize (IH (S n)). destruct (yield_rows signal env (S n) rows) as [ks o].
      destruct IH as (Hpre & Habort & Ho). split_and!; [by apply prefix_cons| |].
      + intros m Hs Hm. right. cbn. specialize (Hlt m Hs Hm).
        destruct (Habort m Hs Hm) as [->|?]; cbn; lia.
      + destruct o as [[ending|]|e]; cbn in *; [|by rewrite Ho|done].
        destruct Ho as [-> (m & Hm & ?)]. split; [done|]. exists m. split; [done|lia]. }
  destruct signal as [s|]; [destruct (reached (le_abort env) n) eqn:E|].
  - split_and!; [apply prefix_nil|by left|]. left. eauto.
  - by apply (Hgo (Ok None)).
  - by apply (Hgo (Ok None)).
Qed.

Lemma list_loop_spec signal env batches i n :
  let '(ks, o) := list_loop signal env batches i n in
  ks `prefix_of` mjoin batches ∧ stops_at_abort signal env n ks ∧
  ends_as signal env n (mjoin batches) ks o.
Proof.
  revert i n. induction batches as [|batch batches IH]; intros i n; cbn [list_loop].
  { destruct (le_fetch env i) as [| |e b] eqn:Hf; [|destruct signal as [s|]|].
    all: split_and!; try apply prefix_nil; try (intros ? _ _; by left); cbn; eauto 9. }
  assert (let '(ks, o) := match yield_rows signal env n batch with
      | (ks, Ok None) =>
          let '(ks', o) := list_loop signal env batches (S i) (n + length batch) in (ks ++ ks', o)
      | (ks, Ok (Some ending)) => (ks, Ok ending)
      | (ks, Err e) => (ks, Err e)
      end in
    ks `prefix_of` mjoin (batch :: batches) ∧ stops_at_abort signal env n ks ∧
    ends_as signal env n (mjoin (batch :: batches)) ks o) as Hgo.
  { pose proof (yield_rows_spec signal env n batch) as Hy.
    destruct (yield_rows signal env n batch) as [ks [[ending|]|e]]; destruct Hy as (Hpre & Hab & Ho).
    - destruct Ho as [-> Ho]. split_and!; [by apply prefix_app_r|done|done].
    - subst ks. specialize (IH (S i) (n + length batch)%nat).
      destruct (list_loop signal env batches (S i) (n + length batch)) as [ks' o].
      destruct IH as (Hpre' & Hab' & Ho'). split_and!.
      + by apply prefix_app.
      + intros m Hs Hm. destruct (Hab' m Hs Hm) as [->|?].
        * rewrite app_nil_r. by apply Hab.
        * right. rewrite length_app. lia.
      + destruct o as [[]|e]; cbn in *; [by rewrite Ho'| |done].
        destruct Ho' as (m & ? & ?). exists m. rewrite length_app. split; [done|lia].
    - split_and!; [by apply prefix_app_r|done|done]. }
  destruct (le_fetch env i) as [| |e b] eqn:Hf; [exact Hgo|destruct signal as [s|]; [|exact Hgo]|].
  all: split_and!; try apply prefix_nil; try (intros ? _ _; by left); cbn; eauto 9.
Qed.

(** Nothing interferes: every fetch arrives, no abort, and the consumer takes everything. *)
Definition undisturbed (env : ListEnv) : Prop :=
  (∀ i, le_fetch env i = FetchArrives) ∧ le_abort env = None ∧ le_stop env = None.

Lemma yield_rows_undisturbed signal env n rows : undisturbed env →
  yield_rows signal env n rows = (rows, Ok None).
Proof.
  intros (_ & Ha & Hs). revert n. induction rows as [|row rows IH]; intros n; cbn; [done|].
  rewrite Ha, Hs, IH. cbn. by destruct signal.
Qed.

Lemma list_loop_undisturbed signal env batches i n : undisturbed env →
  list_loop signal env batches i n = (mjoin batches, Ok Exhausted).
Proof.
  intros Hu. revert i n. induction batches as [|batch batches IH]; intros i n; cbn [list_loop];
    rewrite (proj1 Hu); [done|]. by rewrite yield_rows_undisturbed, IH.
Qed.

(** C31. [listKeys] streams the keys of the scope that start with the prefix, literally, each once
    and in collation order. Whatever happens on the way — batches of 256, a fetch abandoned to the
    abort, a fetch that fails, an abort between two keys, a consumer that leaves — the keys yielded
    are an initial segment of that list; the iteration completes normally only when it has yielded
    all of it or the consumer left, so an abort is never taken for the end; nothing is yielded
    after the abort; a rejection is the abort's or a failed fetch's; and undisturbed, it yields the
    whole list. *)
Theorem listKeys_streams ns sc prefix tx signal env w :
  (route tx ;; check (listKeys_validate ns sc prefix) ;; withAbort (mret tt) signal) w = (Ok tt, w) →
  ∃ keys, lists_under ns sc prefix (w_db w) keys ∧
  let '(ks, o) := listKeys ns sc prefix tx signal env w in
  ks `prefix_of` keys ∧ stops_at_abort signal env 0 ks ∧ ends_as signal env 0 keys ks o ∧
  (undisturbed env → ks = keys ∧ o = Ok Exhausted).
Proof.
  intros Hok. destruct (select_keys_lists ns sc prefix (w_db w)) as (keys & Hsel & Hl).
  exists keys. split; [done|]. unfold listKeys. rewrite Hok, Hsel.
  assert (mjoin (for_slices CURSOR_BATCH keys) = keys) as Hj by (by apply for_slices_concat).
  pose proof (list_loop_spec signal env (for_slices CURSOR_BATCH keys) 0 0) as Hspec.
  pose proof (list_loop_undisturbed signal env (for_slices CURSOR_BATCH keys) 0 0) as Hund.
  destruct (list_loop _ _ _ _ _) as [ks o]. rewrite Hj in *.
  destruct Hspec as (? & ? & ?). split_and!; try done. intros Hu%Hund. by simplify_eq.
Qed.
End listing.

(** ** Witness *)

Definition listed_db : KvDb :=
  let row := {| c_value := JNull; c_version := 1; c_updated_at := 0; c_updated_xact := 1 |} in
  {| kv_current := <[(js "n", js "s", js "a_2") := row]> (<[(js "n", js "s", js "a_1") := row]>
       (<[(js "n", js "s", js "ab3") := row]> ∅));
     kv_history := [] |}.

(** The signal aborts after one key. *)
Definition aborting_env : ListEnv :=
  {| le_fetch := λ _, FetchArrives; le_abort := Some 1%nat; le_stop := None |}.
Definition live_signal : AbortSignal := {| aborted := false; reason := TOther "stop" |}.

Lemma listKeys_streams_witness :
  @listKeys c_collation (js "n") (js "s") (js "a_") None (Some live_signal) aborting_env
    (idle_world listed_db) = ([js "a_1"], Err AbortError) ∧
  ∃ keys, @lists_under c_collation (js "n") (js "s") (js "a_") listed_db keys ∧
    [js "a_1"] `prefix_of` keys.
Proof.
  assert (@listKeys c_collation (js "n") (js "s") (js "a_") None (Some live_signal) aborting_env
    (idle_world listed_db) = ([js "a_1"], Err AbortError)) as E by (vm_compute; reflexivity).
  split; [exact E|].
  destruct (@listKeys_streams c_collation (js "n") (js "s") (js "a_") None (Some live_signal)
    aborting_env (idle_world listed_db) ltac:(vm_compute; reflexivity)) as (keys & Hl & Hk).
  rewrite E in Hk. exists keys. split; [exact Hl|apply Hk].
Defined.
