(* ===== verification/TemporalKVServer.v ===== *)
(** * TemporalKV: several transactions writing at the same time

    [src/postgres/temporal-kv.ts] takes no lock: what two concurrent [put]s of one key do to each
    other is decided by the server. This file models it under READ COMMITTED, PostgreSQL's default
    and the level of every [put] outside [withTransaction]: the committed tables, the open
    transactions with the rows each has written, and one step per statement of [putImpl]. A
    statement sees the rows committed when it runs and its own transaction's; one that reaches a
    row or a new key another open transaction has written waits for that transaction to end and
    then looks at the row again, so a step that would have to wait is not enabled. The trigger's
    clock is read after the wait. A refused [put] re-reads the key in a statement of its own, and
    other transactions can commit in between. A [put] outside a transaction is a transaction of one
    statement. Any transaction can be rolled back at any moment. *)

From S2P Require Import Prelude Text Json Errors Transaction Driver TemporalKV.

Local Open Scope Z_scope.

(** ** The two statements of [putImpl] *)

(** The writing statement of each case: the row it returned, or none. *)
Definition put_statement (ctx : KvCtx) (k : KvKey) (value : jsval) (expectedVersion : option Z)
    : act KvDb (option KvCurrentRow) :=
  match expectedVersion with
  | None => row ← put_upsert ctx k value; mret (Some row)
  | Some 0 => put_create ctx k value
  | Some expected => put_cas ctx k value expected
  end.

(** What the caller gets when the statement returned a row. *)
Definition put_outcome (k : KvKey) (row : KvCurrentRow) : result thrown VersionedEntry :=
  match toEntry k (current_as_row row) with Ok e => Ok e | Err e => Err (kv_catch k e) end.

(** ** Transactions in progress *)

(** The arguments of a [put]. *)
Record KvPut := { kw_key : KvKey; kw_value : jsval; kw_expected : option Z }.

(** A [put] whose statement wrote a row: its arguments, clock and transaction id, and what its
    caller got. *)
Record KvDone := { kd_put : KvPut; kd_ctx : KvCtx; kd_outcome : result thrown VersionedEntry }.
Definition kd_key (d : KvDone) : KvKey := kw_key (kd_put d).

(** Between statements; inside a refused [put], before its re-read; or failed, when only a rollback
    is left. *)
Inductive KvTxState :=
  | KvRunning
  | KvRereading (k : KvKey) (expected : Z)
  | KvFailed.

Record KvTx := {
  kt_xact : Z;
  kt_state : KvTxState;
  kt_current : gmap KvKey KvCurrentRow;   (** the rows it has written: it holds their locks *)
  kt_history : list KvHistoryRow;
  kt_done : list KvDone;
}.

(** What a [put] answered. *)
Record KvAnswer := {
  ka_xact : Z;
  ka_key : KvKey;
  ka_result : result thrown VersionedEntry;
}.

(** The committed tables, the open transactions, the next transaction id, the writes of the
    committed transactions in the order of their commits, and every answer in order. *)
Record KvServer := {
  ks_db : KvDb;
  ks_active : gmap nat KvTx;
  ks_next_xact : Z;
  ks_log : list (list KvDone);
  ks_answers : list KvAnswer;
}.

Definition kv_start (db : KvDb) (xact : Z) : KvServer :=
  {| ks_db := db; ks_active := ∅; ks_next_xact := xact; ks_log := []; ks_answers := [] |}.

(** What a statement of the transaction sees. *)
Definition kv_view (t : KvTx) (db : KvDb) : KvDb :=
  {| kv_current := kt_current t ∪ kv_current db; kv_history := kv_history db ++ kt_history t |}.

Definition kt_with_state (t : KvTx) (s : KvTxState) : KvTx :=
  {| kt_xact := kt_xact t; kt_state := s; kt_current := kt_current t; kt_history := kt_history t;
     kt_done := kt_done t |}.

(** The statement wrote [row], which left the tables as [db'] over the view [db]. *)
Definition kt_wrote (t : KvTx) (p : KvPut) (ctx : KvCtx) (row : KvCurrentRow) (db db' : KvDb) : KvTx :=
  {| kt_xact := kt_xact t; kt_state := KvRunning;
     kt_current := <[kw_key p := row]> (kt_current t);
     kt_history := kt_history t ++ drop (length (kv_history db)) (kv_history db');
     kt_done := kt_done t ++
       [{| kd_put := p; kd_ctx := ctx; kd_outcome := put_outcome (kw_key p) row |}] |}.

Definition kv_with_tx (i : nat) (t : KvTx) (answers : list KvAnswer) (g : KvServer) : KvServer :=
  {| ks_db := ks_db g; ks_active := <[i := t]> (ks_active g); ks_next_xact := ks_next_xact g;
     ks_log := ks_log g; ks_answers := ks_answers g ++ answers |}.

(** ** Row locks *)

(** No transaction but [i] has written the row (or the new key) [k]. *)
Definition kv_unlocked (k : KvKey) (i : nat) (g : KvServer) : Prop :=
  map_Forall (λ j t, j = i ∨ kt_current t !! k = None) (ks_active g).
#[export] Instance kv_unlocked_dec k i g : Decision (kv_unlocked k i g).
Proof. unfold kv_unlocked. apply _. Defined.

(** Whether the statement reaches the row's lock: an [INSERT .. ON CONFLICT] always does; the
    guarded [UPDATE] only when the row it sees has the version it looks for. *)
Definition needs_lock (p : KvPut) (db : KvDb) : bool :=
  match kw_expected p with
  | None | Some 0 => true
  | Some expected =>
      match kv_current db !! kw_key p with
      | Some row => c_version row =? expected
      | None => false
      end
  end.

(** ** Steps *)

Inductive KvEvent :=
  | KvBegin (i : nat)
  | KvWrite (i : nat) (p : KvPut) (clock : Z)
  | KvReread (i : nat)
  | KvCommit (i : nat)
  | KvRollback (i : nat).

Definition kv_begin (i : nat) (g : KvServer) : option KvServer :=
  guard (ks_active g !! i = None);;
  let t := {| kt_xact := ks_next_xact g; kt_state := KvRunning; kt_current := ∅;
              kt_history := []; kt_done := [] |} in
  Some {| ks_db := ks_db g; ks_active := <[i := t]> (ks_active g);
          ks_next_xact := ks_next_xact g + 1; ks_log := ks_log g; ks_answers := ks_answers g |}.

(** Running the writing statement of a [put] past its validation. A statement that fails fails its
    transaction. *)
Definition run_put (t : KvTx) (p : KvPut) (clock : Z) (db : KvDb) : KvTx * list KvAnswer :=
  let ctx := {| clock_timestamp := clock; txid_current := kt_xact t |} in
  let answer r := {| ka_xact := kt_xact t; ka_key := kw_key p; ka_result := r |} in
  match put_statement ctx (kw_key p) (kw_value p) (kw_expected p) db with
  | (Ok (Some row), db') => (kt_wrote t p ctx row db db', [answer (put_outcome (kw_key p) row)])
  | (Ok None, _) => (kt_with_state t (KvRereading (kw_key p) (default 0 (kw_expected p))), [])
  | (Err e, _) => (kt_with_state t KvFailed, [answer (Err (kv_catch (kw_key p) e))])
  end.

Definition kv_running (t : KvTx) : bool := match kt_state t with KvRunning => true | _ => false end.

Definition kv_write (i : nat) (p : KvPut) (clock : Z) (g : KvServer) : option KvServer :=
  t ← ks_active g !! i;
  guard (kv_running t = true);;
  guard (is_ok (put_validate (kw_key p) (kw_value p) (kw_expected p)) = true);;
  let db := kv_view t (ks_db g) in
  guard (needs_lock p db = true → kv_unlocked (kw_key p) i g);;
  let '(t', answers) := run_put t p clock db in
  Some (kv_with_tx i t' answers g).

(** The re-read of a refused [put], and the error it throws. *)
Definition kv_reread (i : nat) (g : KvServer) : option KvServer :=
  t ← ks_active g !! i;
  match kt_state t with
  | KvRereading k expected =>
      let r := (rethrow (kv_catch k) (conflict k expected) (kv_view t (ks_db g))).1 in
      Some (kv_with_tx i (kt_with_state t KvRunning)
              [{| ka_xact := kt_xact t; ka_key := k; ka_result := r |}] g)
  | _ => None
  end.

Definition kv_commit (i : nat) (g : KvServer) : option KvServer :=
  t ← ks_active g !! i;
  guard (kv_running t = true);;
  Some {| ks_db := kv_view t (ks_db g); ks_active := delete i (ks_active g);
          ks_next_xact := ks_next_xact g; ks_log := ks_log g ++ [kt_done t];
          ks_answers := ks_answers g |}.

Definition kv_rollback (i : nat) (g : KvServer) : option KvServer :=
  guard (is_Some (ks_active g !! i));;
  Some {| ks_db := ks_db g; ks_active := delete i (ks_active g);
          ks_next_xact := ks_next_xact g; ks_log := ks_log g; ks_answers := ks_answers g |}.

Definition kv_event (e : KvEvent) : KvServer → option KvServer :=
  match e with
  | KvBegin i => kv_begin i
  | KvWrite i p clock => kv_write i p clock
  | KvReread i => kv_reread i
  | KvCommit i => kv_commit i
  | KvRollback i => kv_rollback i
  end.

(** A run: the events in order, each enabled when its turn comes. *)
Fixpoint kv_run (es : list KvEvent) (g : KvServer) : option KvServer :=
  match es with
  | [] => Some g
  | e :: es' => g' ← kv_event e g; kv_run es' g'
  end.

(** ** The serial specification *)

(** The [put]s one after the other on the committed tables, with no one else writing, each with the
    outcome its caller got. *)
Fixpoint serial_puts (ds : list KvDone) (db db' : KvDb) : Prop :=
  match ds with
  | [] => db' = db
  | d :: ds' => ∃ db1,
      putImpl (kd_ctx d) (kd_key d) (kw_value (kd_put d)) (kw_expected (kd_put d)) db =
        (kd_outcome d, db1) ∧
      serial_puts ds' db1 db'
  end.
