(* ===== verification/TemporalKVServerSpec.v ===== *)
(** * TemporalKV: concurrent writers, the invariant

    A [put] reads and writes the rows of its own key only, so what an open transaction has written
    does not depend on what other transactions commit to other keys; and the row locks keep the
    keys of two open transactions apart. *)

From S2P Require Import Prelude Text Json Errors Transaction Driver TemporalKV TemporalKVLog.
From S2P Require Import TemporalKVServer.

Local Open Scope Z_scope.

(** ** [putImpl] is its two statements *)

Lemma putImpl_statements ctx k v expected db :
  putImpl ctx k v expected db =
    match put_statement ctx k v expected db with
    | (Ok (Some row), db') => (put_outcome k row, db')
    | (Ok None, db') => rethrow (kv_catch k) (conflict k (default 0 expected)) db'
    | (Err e, db') => (Err (kv_catch k e), db')
    end.
Proof.
  unfold putImpl, put_statement, put_outcome, rethrow, check.
  destruct expected as [[|e|e]|]; rewrite ?action_bind_step;
    [destruct (put_create _ _ _ db) as [[[row|]|x] db']
    |destruct (put_cas _ _ _ _ db) as [[[row|]|x] db']
    |destruct (put_cas _ _ _ _ db) as [[[row|]|x] db']
    |destruct (put_upsert _ _ _ db) as [[row|x] db']]; try reflexivity;
    cbn; by destruct (toEntry k (current_as_row row)).
Qed.

(** ** A [put] stays within its key *)

Definition same_key (k : KvKey) (db1 db2 : KvDb) : Prop :=
  kv_current db1 !! k = kv_current db2 !! k ∧
  filter (λ r, h_key r = k) (kv_history db1) = filter (λ r, h_key r = k) (kv_history db2).

#[export] Instance same_key_equiv k : Equivalence (same_key k).
Proof.
  split.
  - by intros db.
  - intros db1 db2 [H1 H2]. by split.
  - intros db1 db2 db3 [H1 H2] [H3 H4]. split; [by rewrite H1|by rewrite H2].
Qed.

(** The tables with one more current row and more history rows. *)
Definition kv_add (k : KvKey) (row : KvCurrentRow) (hs : list KvHistoryRow) (db : KvDb) : KvDb :=
  {| kv_current := <[k := row]> (kv_current db); kv_history := kv_history db ++ hs |}.

Lemma overlaps_filter k r h :
  h_key r = k →
  existsb (kv_history_overlaps r) h =
    existsb (kv_history_overlaps r) (filter (λ r', h_key r' = k) h).
Proof.
  intros <-. induction h as [|r' h IH]; [done|]. rewrite filter_cons.
  case_decide as Hk; cbn; rewrite IH; [done|].
  unfold kv_history_overlaps at 1. by rewrite bool_decide_eq_false_2.
Qed.

Lemma insert_kv_history_frame r h1 h2 :
  filter (λ r', h_key r' = h_key r) h1 = filter (λ r', h_key r' = h_key r) h2 →
  insert_kv_history r h2 =
    match insert_kv_history r h1 with Ok _ => Ok (h2 ++ [r]) | Err e => Err e end.
Proof.
  intros Hf. unfold insert_kv_history.
  rewrite (overlaps_filter _ r h1 eq_refl), (overlaps_filter _ r h2 eq_refl), Hf.
  by repeat case_match.
Qed.

Lemma insert_kv_history_ok r h h' : insert_kv_history r h = Ok h' → h' = h ++ [r].
Proof. unfold insert_kv_history. repeat case_match; congruence. Qed.

Lemma update_kv_current_frame ctx k old v db1 db2 :
  same_key k db1 db2 →
  match update_kv_current ctx k old v db1 with
  | Ok (row, db1') => ∃ hs,
      db1' = kv_add k row hs db1 ∧ update_kv_current ctx k old v db2 = Ok (row, kv_add k row hs db2) ∧
      Forall (λ r, h_key r = k) hs
  | Err e => update_kv_current ctx k old v db2 = Err e
  end.
Proof.
  intros [_ Hh]. unfold update_kv_current, kv_current_history_trigger. unfold_action.
  destruct (bigint_succ _) as [ver|]; [|done]. cbn [c_updated_xact].
  destruct (c_updated_xact old =? txid_current ctx); [done|].
  set (r := {| h_key := k |}).
  pose proof (insert_kv_history_frame r (kv_history db1) (kv_history db2) Hh) as Hf.
  destruct (insert_kv_history r (kv_history db1)) as [h1|e] eqn:H1; rewrite Hf; [|done].
  apply insert_kv_history_ok in H1 as ->. exists [r]. split_and!; [done..|]. by repeat constructor.
Qed.

(** What a statement does on one store it does on every store with the same rows for its key. *)
Lemma put_statement_frame ctx k v expected db1 db2 :
  same_key k db1 db2 →
  match put_statement ctx k v expected db1 with
  | (Ok (Some row), db1') => ∃ hs,
      db1' = kv_add k row hs db1 ∧
      put_statement ctx k v expected db2 = (Ok (Some row), kv_add k row hs db2) ∧
      Forall (λ r, h_key r = k) hs
  | (Ok None, db1') => db1' = db1 ∧ put_statement ctx k v expected db2 = (Ok None, db2)
  | (Err e, db1') => db1' = db1 ∧ put_statement ctx k v expected db2 = (Err e, db2)
  end.
Proof.
  intros Hk. pose proof Hk as [Hc _].
  pose proof (λ old, update_kv_current_frame ctx k old v db1 db2 Hk) as Hu.
  destruct expected as [[|e|e]|]; unfold put_statement, put_upsert, put_create, put_cas, statement;
    unfold_action; rewrite <-Hc; destruct (kv_current db1 !! k) as [old|];
    try destruct (c_version old =? _); try done;
    try (exists []; unfold kv_add; rewrite !app_nil_r; by split_and!).
  all: specialize (Hu old); destruct (update_kv_current ctx k old v db1) as [[row' db1']|e'].
  all: first [destruct Hu as (hs & -> & -> & ?); by exists hs|by rewrite Hu].
Qed.

(** ** Serial execution *)

Lemma serial_puts_app ds1 ds2 db db' :
  serial_puts (ds1 ++ ds2) db db' ↔ ∃ m, serial_puts ds1 db m ∧ serial_puts ds2 m db'.
Proof.
  revert db. induction ds1 as [|d ds1 IH]; intros db; cbn; [naive_solver|].
  setoid_rewrite IH. naive_solver.
Qed.

(** ** What a transaction sees *)

Lemma same_key_view k t db1 db2 :
  same_key k db1 db2 → same_key k (kv_view t db1) (kv_view t db2).
Proof.
  intros [Hc Hh]. split; cbn; [by rewrite !lookup_union, Hc|]. by rewrite !filter_app, Hh.
Qed.

(** The view after a statement that added [row] and [hs]. *)
Lemma kv_view_wrote t p ctx row hs db0 db :
  kv_view (kt_wrote t p ctx row db0 (kv_add (kw_key p) row hs db0)) db =
    kv_add (kw_key p) row hs (kv_view t db).
Proof.
  unfold kv_view, kt_wrote, kv_add. cbn. rewrite drop_app_length. f_equal; [|by rewrite assoc by apply _].
  by rewrite insert_union_l.
Qed.

(** Rows a transaction has not written are the committed ones. *)
Lemma kv_view_same_key k t db :
  kt_current t !! k = None → Forall (λ r, is_Some (kt_current t !! h_key r)) (kt_history t) →
  same_key k db (kv_view t db).
Proof.
  intros Hk Hh. split; cbn.
  - by rewrite lookup_union, Hk, (left_id_L None _).
  - rewrite filter_app, (list_filter_none (λ r, h_key r = k) (kt_history t)), app_nil_r; [done|].
    intros r Hr <-. rewrite Forall_forall in Hh. apply Hh in Hr as [row Hrow]. congruence.
Qed.

(** ** The invariant *)

Definition kd_valid (d : KvDone) : Prop :=
  put_validate (kd_key d) (kw_value (kd_put d)) (kw_expected (kd_put d)) = Ok tt.

(** An open transaction's writes are what its [put]s do one after the other, on the committed
    tables and on any others that agree with them on the rows it has locked. A create it was refused
    is of a key that it still sees. *)
Record kt_ok (db : KvDb) (t : KvTx) : Prop := {
  ko_serial db' :
    (∀ k, is_Some (kt_current t !! k) → same_key k db db') →
    serial_puts (kt_done t) db' (kv_view t db');
  ko_history : Forall (λ r, is_Some (kt_current t !! h_key r)) (kt_history t);
  ko_valid : Forall kd_valid (kt_done t);
  ko_refused k : kt_state t = KvRereading k 0 → is_Some (kv_current (kv_view t db) !! k);
}.

(** A refused create reports a version. *)
Definition answer_ok (a : KvAnswer) : Prop :=
  ∀ actual, ka_result a = Err (VersionConflictError 0 actual) → is_Some actual.

(** No row is locked by two open transactions. *)
Definition kv_locks_apart (g : KvServer) : Prop :=
  ∀ i j ti tj k, i ≠ j → ks_active g !! i = Some ti → ks_active g !! j = Some tj →
    is_Some (kt_current ti !! k) → kt_current tj !! k = None.

Record ks_inv (db0 : KvDb) (g : KvServer) : Prop := {
  ki_serial : serial_puts (concat (ks_log g)) db0 (ks_db g);
  ki_valid : Forall kd_valid (concat (ks_log g));
  ki_tx : map_Forall (λ _, kt_ok (ks_db g)) (ks_active g);
  ki_apart : kv_locks_apart g;
  ki_answers : Forall answer_ok (ks_answers g);
}.

Lemma ks_inv_start db xact : ks_inv db (kv_start db xact).
Proof. split; cbn; try done. Qed.

(** ** Steps keep it *)

(** The driver's errors are never reported as a version conflict. *)
Lemma put_statement_error ctx k v expected db e db' expected' actual :
  put_statement ctx k v expected db = (Err e, db') →
  kv_catch k e ≠ VersionConflictError expected' actual.
Proof.
  assert (∀ old, match update_kv_current ctx k old v db with
                 | Ok _ => True
                 | Err x => kv_catch k x ≠ VersionConflictError expected' actual
                 end) as Hu.
  { intros old. destruct k as [[ns sc] ky].
    unfold update_kv_current, kv_current_history_trigger, bigint_succ, insert_kv_history.
    unfold_action. by repeat case_match; simplify_eq. }
  unfold put_statement, put_upsert, put_create, put_cas, statement.
  destruct expected as [[|x|x]|]; unfold_action; destruct (kv_current db !! k) as [old|];
    try destruct (c_version old =? _); try discriminate;
    specialize (Hu old); destruct (update_kv_current ctx k old v db) as [[row db1]|y];
    intros [=]; by simplify_eq.
Qed.

Lemma put_outcome_no_conflict k row expected actual :
  put_outcome k row ≠ Err (VersionConflictError expected actual).
Proof.
  destruct k as [[ns sc] ky]. unfold put_outcome, toEntry.
  by destruct (VersionedEntrySchema _).
Qed.

(** A statement that writes has reached the lock; a refused create has seen the key. *)
Lemma put_statement_locks ctx p db row db' :
  put_statement ctx (kw_key p) (kw_value p) (kw_expected p) db = (Ok (Some row), db') →
  needs_lock p db = true.
Proof.
  unfold put_statement, needs_lock, put_cas, statement.
  destruct (kw_expected p) as [[|e|e]|]; try done; unfold_action;
    destruct (kv_current db !! kw_key p) as [old|]; try done; by destruct (c_version old =? _).
Qed.

Lemma put_statement_refused ctx p k db db' :
  put_statement ctx (kw_key p) (kw_value p) (kw_expected p) db = (Ok None, db') →
  KvRereading (kw_key p) (default 0 (kw_expected p)) = KvRereading k 0 →
  is_Some (kv_current db !! k).
Proof.
  intros Hput [= <- He]. revert Hput. unfold put_statement, put_create, statement.
  destruct (kw_expected p) as [[|e|e]|]; try done; unfold_action.
  - by destruct (kv_current db !! kw_key p).
  - unfold put_upsert, statement. destruct (kv_current db !! kw_key p) as [old|]; [done|discriminate].
Qed.

(** The transaction after its statement wrote a row. *)
Lemma kt_ok_wrote t p ctx row db hs :
  kt_ok db t →
  put_validate (kw_key p) (kw_value p) (kw_expected p) = Ok tt →
  put_statement ctx (kw_key p) (kw_value p) (kw_expected p) (kv_view t db) =
    (Ok (Some row), kv_add (kw_key p) row hs (kv_view t db)) →
  Forall (λ r, h_key r = kw_key p) hs →
  kt_ok db (kt_wrote t p ctx row (kv_view t db) (kv_add (kw_key p) row hs (kv_view t db))).
Proof.
  intros [Hs Hh Hv Hr] Hval Hput Hhs. split.
  - intros db' Hag. rewrite kv_view_wrote. cbn [kt_done kt_wrote]. apply serial_puts_app.
    assert (∀ k, is_Some (kt_current t !! k) → same_key k db db') as Hag'
      by (intros k Hk; apply Hag, lookup_insert_is_Some'; by right).
    exists (kv_view t db'). split; [by apply Hs|]. eexists. split; [|reflexivity].
    rewrite putImpl_statements. unfold kd_key. cbn [kd_put kd_ctx kd_outcome].
    assert (same_key (kw_key p) (kv_view t db) (kv_view t db')) as Hk
      by (apply same_key_view, Hag, lookup_insert_is_Some'; by left).
    pose proof (put_statement_frame ctx _ (kw_value p) (kw_expected p) _ _ Hk) as Hf.
    rewrite Hput in Hf. destruct Hf as (hs' & Heq & -> & _).
    injection Heq as Heq. by apply app_inv_head in Heq as <-.
  - cbn. rewrite drop_app_length. apply Forall_app. split.
    + eapply Forall_impl; [exact Hh|]. intros r Hk. apply lookup_insert_is_Some'. by right.
    + eapply Forall_impl; [exact Hhs|]. intros r ->. apply lookup_insert_is_Some'. by left.
  - apply Forall_app. split; [done|]. by repeat constructor.
  - done.
Qed.

(** The transaction after its statement ran. *)
Lemma run_put_ok t p clock db :
  kt_ok db t →
  put_validate (kw_key p) (kw_value p) (kw_expected p) = Ok tt →
  let '(t', answers) := run_put t p clock (kv_view t db) in
  kt_ok db t' ∧ Forall answer_ok answers ∧
  (∀ k, is_Some (kt_current t' !! k) → is_Some (kt_current t !! k) ∨
        k = kw_key p ∧ needs_lock p (kv_view t db) = true).
Proof.
  intros Hok Hval. unfold run_put.
  set (ctx := {| clock_timestamp := clock |}).
  destruct (put_statement ctx _ _ _ _) as [[[row|]|e] db1] eqn:Hput.
  - pose proof (put_statement_frame ctx (kw_key p) (kw_value p) (kw_expected p) (kv_view t db)
      (kv_view t db) ltac:(done)) as Hf. rewrite Hput in Hf. destruct Hf as (hs & -> & _ & Hhs).
    split_and!; [by apply kt_ok_wrote| |].
    + repeat constructor. intros actual Ha. by apply put_outcome_no_conflict in Ha.
    + cbn [kt_current kt_wrote]. intros k [<-|Hk]%lookup_insert_is_Some'; [right|by left]. split; [done|].
      by eapply put_statement_locks.
  - split_and!; [|done|by left]. destruct Hok as [Hs Hh Hv Hr]. split; try done.
    intros k Hk. by eapply put_statement_refused.
  - destruct Hok as [Hs Hh Hv Hr]. split_and!; [by split| |by left].
    repeat constructor. intros actual [= Ha].
    by apply (put_statement_error _ _ _ _ _ _ _ _ _ Hput) in Ha.
Qed.
