(* ===== verification/TemporalKVServerTheorems.v ===== *)
(** * TemporalKV: concurrent writers are serial, and lose no update

    Every event keeps the invariant of [TemporalKVServerSpec]; the theorems about a run of the
    server follow. *)

From S2P Require Import Prelude Text Json Errors Transaction Driver TemporalKV TemporalKVLog.
From S2P Require Import TemporalKVServer TemporalKVServerSpec.

Local Open Scope Z_scope.

(** ** Events keep the invariant *)

Lemma kv_locks_apart_insert i t' g :
  kv_locks_apart g →
  (∀ j tj k, j ≠ i → ks_active g !! j = Some tj → is_Some (kt_current t' !! k) →
    kt_current tj !! k = None) →
  kv_locks_apart {| ks_db := ks_db g; ks_active := <[i := t']> (ks_active g);
                    ks_next_xact := ks_next_xact g; ks_log := ks_log g;
                    ks_answers := ks_answers g |}.
Proof.
  intros Ha Hn a b ta tb k Hne. cbn. rewrite !lookup_insert_Some.
  intros [[<- <-]|[Hia Hta]] [[Hib <-]|[Hib Htb]] Hk.
  - done.
  - by eapply Hn.
  - destruct (kt_current t' !! k) as [row|] eqn:Hrow; [|done]. subst b.
    assert (kt_current ta !! k = None) as Hnone by (eapply Hn; [done|done|by rewrite Hrow]).
    rewrite Hnone in Hk. by destruct Hk.
  - by eapply (Ha a b).
Qed.

Lemma ks_inv_with_tx db0 i t t' answers g :
  ks_inv db0 g → ks_active g !! i = Some t →
  kt_ok (ks_db g) t' → Forall answer_ok answers →
  (∀ k, is_Some (kt_current t' !! k) → is_Some (kt_current t !! k) ∨ kv_unlocked k i g) →
  ks_inv db0 (kv_with_tx i t' answers g).
Proof.
  intros [Hs Hv Ht Ha Han] Hi Hok Hans Hlock. split; cbn; try done.
  - by apply map_Forall_insert_2.
  - apply (kv_locks_apart_insert i t' g Ha). intros j tj k Hne Hj Hk.
    destruct (Hlock k Hk) as [Hown|Hfree]; [by apply (Ha i j t tj k)|].
    by destruct (Hfree j tj Hj) as [->|].
  - by apply Forall_app.
Qed.

Lemma ks_inv_end db0 i g db log :
  ks_inv db0 g →
  serial_puts (concat log) db0 db → Forall kd_valid (concat log) →
  (∀ j t, j ≠ i → ks_active g !! j = Some t → kt_ok db t) →
  ks_inv db0 {| ks_db := db; ks_active := delete i (ks_active g); ks_next_xact := ks_next_xact g;
                ks_log := log; ks_answers := ks_answers g |}.
Proof.
  intros [Hs Hv Ht Ha Han] Hs' Hv' Hok. split; cbn; try done.
  - intros j t [Hne Hj]%lookup_delete_Some. by apply (Hok j).
  - intros a b ta tb k Hne. cbn [ks_active]. intros [_ Hta]%lookup_delete_Some [_ Htb]%lookup_delete_Some.
    by apply (Ha a b).
Qed.

(** Commits of others to other keys leave an open transaction as it is. *)
Lemma kt_ok_commit db t t' :
  kt_ok db t → kt_ok db t' →
  (∀ k, is_Some (kt_current t !! k) → kt_current t' !! k = None) →
  kt_ok (kv_view t' db) t.
Proof.
  intros [Hs Hh Hv Hr] Hok' Hapart. split; try done.
  - intros db' Hag. apply Hs. intros k Hk. trans (kv_view t' db); [|by apply Hag].
    apply kv_view_same_key; [by apply Hapart|apply Hok'].
  - intros k Hk. destruct (Hr k Hk) as [row Hrow]. cbn in *. rewrite !lookup_union in *.
    destruct (kt_current t !! k), (kt_current t' !! k), (kv_current db !! k); cbn in *; by eauto.
Qed.

Lemma kt_ok_begin db xact :
  kt_ok db {| kt_xact := xact; kt_state := KvRunning; kt_current := ∅; kt_history := [];
              kt_done := [] |}.
Proof.
  split; cbn; try done. intros db' _. unfold kv_view. cbn. rewrite (left_id_L ∅ _), app_nil_r.
  by destruct db'.
Qed.

Lemma kv_write_inv db0 i p clock g g' :
  ks_inv db0 g → kv_write i p clock g = Some g' → ks_inv db0 g'.
Proof.
  intros Hg Hw. unfold kv_write in Hw. enabled Hw as (t & Hi & Hw).
  enabled Hw as (_ & _ & Hw). enabled Hw as (Hval & _ & Hw). enabled Hw as (Hlock & _ & Hw).
  assert (put_validate (kw_key p) (kw_value p) (kw_expected p) = Ok tt) as Hval'
    by (by destruct (put_validate _ _ _) as [[]|]).
  pose proof (run_put_ok t p clock (ks_db g) (ki_tx _ _ Hg i t Hi) Hval') as Hp.
  destruct (run_put _ _ _ _) as [t' answers]. destruct Hp as (Hok & Hans & Hl).
  injection Hw as <-. eapply ks_inv_with_tx; [done..|].
  intros k Hk. destruct (Hl k Hk) as [|[-> Hn]]; [by left|right]. by apply Hlock.
Qed.

Lemma kv_reread_inv db0 i g g' :
  ks_inv db0 g → kv_reread i g = Some g' → ks_inv db0 g'.
Proof.
  intros Hg Hw. unfold kv_reread in Hw. enabled Hw as (t & Hi & Hw).
  destruct (kt_state t) as [|k expected|] eqn:Hst; [done| |done]. injection Hw as <-.
  pose proof (ki_tx _ _ Hg i t Hi) as [Hs Hh Hv Hr].
  eapply ks_inv_with_tx; [done..| | |by left]; [by split|].
  constructor; [|done]. intros actual. cbn. destruct k as [[ns sc] ky].
  intros [= -> <-]. apply fmap_is_Some. by apply Hr.
Qed.

Lemma kv_commit_inv db0 i g g' :
  ks_inv db0 g → kv_commit i g = Some g' → ks_inv db0 g'.
Proof.
  intros Hg Hw. unfold kv_commit in Hw. enabled Hw as (t & Hi & Hw).
  enabled Hw as (_ & _ & Hw). injection Hw as <-.
  pose proof (ki_tx _ _ Hg i t Hi) as Hok.
  apply ks_inv_end; [done| | |].
  - rewrite concat_app. cbn. rewrite app_nil_r. apply serial_puts_app. exists (ks_db g).
    split; [apply Hg|]. by apply Hok.
  - rewrite concat_app. cbn. rewrite app_nil_r. apply Forall_app.
    split; [apply Hg|apply Hok].
  - intros j tj Hne Hj. apply kt_ok_commit; [by apply (ki_tx _ _ Hg j)|done|].
    intros k Hk. by apply (ki_apart _ _ Hg j i tj t k).
Qed.

Lemma kv_event_inv db0 e g g' : ks_inv db0 g → kv_event e g = Some g' → ks_inv db0 g'.
Proof.
  intros Hg. destruct e as [i|i p clock|i|i|i]; cbn [kv_event].
  - unfold kv_begin. intros (Hi & _ & [= <-])%bind_Some. destruct Hg as [Hs Hv Ht Ha Han].
    split; cbn; try done; [apply map_Forall_insert_2; [apply kt_ok_begin|done]|].
    apply (kv_locks_apart_insert i _ g Ha). cbn. intros j tj k _ _ [row Hk]. done.
  - apply kv_write_inv, Hg.
  - apply kv_reread_inv, Hg.
  - apply kv_commit_inv, Hg.
  - unfold kv_rollback. intros (_ & _ & [= <-])%bind_Some.
    apply ks_inv_end; [done|apply Hg..|]. intros j t _ Hj. by apply (ki_tx _ _ Hg j).
Qed.

Lemma kv_run_inv db0 es g g' : ks_inv db0 g → kv_run es g = Some g' → ks_inv db0 g'.
Proof.
  revert g. induction es as [|e es IH]; intros g Hg; cbn; [by intros [= <-]|].
  intros (g1 & He & Hrun)%bind_Some. eapply IH; [|done]. by eapply kv_event_inv.
Qed.

(** ** What an accepted statement wrote *)

(** The version of a key: [0] while it has none, as [expectedVersion] counts. *)
Definition current_version (k : KvKey) (db : KvDb) : Z :=
  default 0 (c_version <$> kv_current db !! k).

Lemma update_kv_current_row ctx k old v db row db' :
  update_kv_current ctx k old v db = Ok (row, db') →
  c_value row = v ∧ c_version row = c_version old + 1 ∧ c_version row ≤ POSTGRES_BIGINT_MAX.
Proof.
  unfold update_kv_current, bigint_succ. unfold_action.
  destruct (Z.ltb_spec (c_version old) POSTGRES_BIGINT_MAX) as [Hlt|]; [|done].
  unfold kv_current_history_trigger; cbn [c_updated_xact c_value c_version]. unfold_action.
  destruct (c_updated_xact old =? txid_current ctx); [done|].
  destruct (insert_kv_history _ _); [|done]. intros [= <- <-]. cbn. split_and!; [done..|lia].
Qed.

Lemma put_statement_row ctx k v expected db row db' :
  put_statement ctx k v expected db = (Ok (Some row), db') →
  c_value row = v ∧ c_version row = current_version k db + 1 ∧
  c_version row ≤ POSTGRES_BIGINT_MAX ∧
  (∀ e, expected = Some e → e = current_version k db).
Proof.
  intros Hput.
  assert ((∀ e, expected = Some e → e = current_version k db) ∧
    match kv_current db !! k with
    | Some old => update_kv_current ctx k old v db = Ok (row, db')
    | None => (row, db') = insert_kv_current ctx k v db
    end) as [He Hrow].
  { revert Hput. unfold put_statement, put_upsert, put_create, put_cas, statement, current_version.
    destruct expected as [[|e|e]|]; unfold_action; destruct (kv_current db !! k) as [old|];
      try (destruct (c_version old =? _) eqn:Hv; [apply Z.eqb_eq in Hv|done]); try done;
      try destruct (update_kv_current _ _ _ _ _) as [[row' db1]|]; try done; intros Hput;
      (split; [cbn; congruence|]);
      first [by injection Hput as -> ->|by injection Hput as <- <-]. }
  unfold current_version in *. destruct (kv_current db !! k) as [old|].
  - apply update_kv_current_row in Hrow as (? & ? & ?). by split_and!.
  - injection Hrow as -> ->. by split_and!.
Qed.

Lemma put_statement_lookup ctx k v expected db row db' k' :
  put_statement ctx k v expected db = (Ok (Some row), db') →
  kv_current db' !! k' = if decide (k' = k) then Some row else kv_current db !! k'.
Proof.
  intros Hput. pose proof (put_statement_frame ctx k v expected db db ltac:(done)) as Hf.
  rewrite Hput in Hf. destruct Hf as (hs & -> & _ & _). cbn.
  case_decide as Hk; [by rewrite Hk, lookup_insert_eq|by rewrite lookup_insert_ne].
Qed.

Lemma reachable_version k db : kv_reachable db → 0 ≤ current_version k db.
Proof.
  intros (L & Hrep)%kv_reachable_rep. destruct (Hrep k) as [[_ Hc] _].
  unfold current_version. rewrite Hc. unfold live_row. destruct (last (L k)); cbn; lia.
Qed.

(** On reachable tables an accepted [put] resolves. *)
Lemma put_outcome_resolves ctx k v expected db row db' :
  kv_reachable db → put_validate k v expected = Ok tt →
  put_statement ctx k v expected db = (Ok (Some row), db') →
  ∃ e, put_outcome k row = Ok e ∧ version e = c_version row.
Proof.
  intros Hdb Hval Hput. destruct (put_validate_ok _ _ _ Hval) as [Hk Hv].
  apply put_statement_row in Hput as (Hvalue & Hver & Hmax & _).
  pose proof (reachable_version k db Hdb).
  unfold put_outcome. rewrite toEntry_ok; cbn; [by eexists|done|by rewrite Hvalue|lia].
Qed.

Lemma serial_puts_reachable ds db db' :
  Forall kd_valid ds → kv_reachable db → serial_puts ds db db' → kv_reachable db'.
Proof.
  revert db. induction ds as [|d ds IH]; intros db; [by intros _ H ->|].
  intros [Hd Hds]%Forall_cons Hdb (db1 & Hput & Hs). apply (IH db1); [done| |done].
  eapply rtc_r; [exact Hdb|].
  pose proof (kv_step_put (kd_ctx d) (kd_key d) _ _ db Hd) as Hstep. by rewrite Hput in Hstep.
Qed.

(** ** Every accepted write resolved *)

Definition kd_resolved (d : KvDone) : Prop := is_ok (kd_outcome d) = true.

Definition ks_resolved (g : KvServer) : Prop :=
  Forall kd_resolved (concat (ks_log g)) ∧
  map_Forall (λ _ t, Forall kd_resolved (kt_done t)) (ks_active g).

Lemma kt_reachable db t : kt_ok db t → kv_reachable db → kv_reachable (kv_view t db).
Proof.
  intros [Hs _ Hv _] Hdb. eapply serial_puts_reachable; [exact Hv|exact Hdb|]. by apply Hs.
Qed.

Lemma run_put_resolved t p clock db :
  kv_reachable db → put_validate (kw_key p) (kw_value p) (kw_expected p) = Ok tt →
  Forall kd_resolved (kt_done t) → Forall kd_resolved (kt_done (run_put t p clock db).1).
Proof.
  intros Hdb Hval Hd. unfold run_put.
  destruct (put_statement _ _ _ _ db) as [[[row|]|e] db1] eqn:Hput; [|done..].
  apply Forall_app. split; [done|]. repeat constructor.
  destruct (put_outcome_resolves _ _ _ _ _ _ _ Hdb Hval Hput) as (e & He & _).
  unfold kd_resolved. cbn. by rewrite He.
Qed.

Lemma kv_event_resolved db0 e g g' :
  kv_reachable db0 → ks_inv db0 g → ks_resolved g → kv_event e g = Some g' → ks_resolved g'.
Proof.
  intros Hdb Hg [Hl Ha]. assert (kv_reachable (ks_db g)) as Hdbg
    by (by eapply serial_puts_reachable; [apply (ki_valid _ _ Hg)| |apply (ki_serial _ _ Hg)]).
  destruct e as [i|i p clock|i|i|i]; cbn [kv_event].
  - unfold kv_begin. intros (_ & _ & [= <-])%bind_Some. split; [done|].
    by apply map_Forall_insert_2.
  - intros Hw. unfold kv_write in Hw. enabled Hw as (t & Hi & Hw).
    enabled Hw as (_ & _ & Hw). enabled Hw as (Hval & _ & Hw). enabled Hw as (_ & _ & Hw).
    assert (put_validate (kw_key p) (kw_value p) (kw_expected p) = Ok tt) as Hval'
      by (by destruct (put_validate _ _ _) as [[]|]).
    pose proof (run_put_resolved t p clock _ (kt_reachable _ _ (ki_tx _ _ Hg i t Hi) Hdbg) Hval'
      (Ha i t Hi)) as Hr.
    destruct (run_put _ _ _ _) as [t' answers]. injection Hw as <-. split; [done|].
    by apply map_Forall_insert_2.
  - intros Hw. unfold kv_reread in Hw. enabled Hw as (t & Hi & Hw).
    destruct (kt_state t); [done| |done]. injection Hw as <-. split; [done|].
    apply map_Forall_insert_2; [|done]. apply (Ha i t Hi).
  - intros Hw. unfold kv_commit in Hw. enabled Hw as (t & Hi & Hw). enabled Hw as (_ & _ & Hw).
    injection Hw as <-. split; cbn; [|by apply map_Forall_delete].
    rewrite concat_app. cbn. rewrite app_nil_r. apply Forall_app. split; [done|]. apply (Ha i t Hi).
  - unfold kv_rollback. intros (_ & _ & [= <-])%bind_Some. split; [done|].
    by apply map_Forall_delete.
Qed.

Lemma kv_run_resolved db0 es g g' :
  kv_reachable db0 → ks_inv db0 g → ks_resolved g → kv_run es g = Some g' → ks_resolved g'.
Proof.
  intros Hdb. revert g. induction es as [|e es IH]; intros g Hg Hr; cbn; [by intros [= <-]|].
  intros (g1 & He & Hrun)%bind_Some.
  eapply IH; [by eapply kv_event_inv|by eapply kv_event_resolved|done].
Qed.

(** ** Versions in a serial execution *)

Definition kd_version (d : KvDone) : option Z :=
  match kd_outcome d with Ok e => Some (version e) | Err _ => None end.

(** The guard a [put] passed: its [expectedVersion] is the one before its own. *)
Definition kd_guarded (d : KvDone) : Prop :=
  ∀ e, kw_expected (kd_put d) = Some e → kd_version d = Some (e + 1).

Lemma serial_put_version d db db1 k :
  kd_valid d → kv_reachable db → kd_resolved d →
  putImpl (kd_ctx d) (kd_key d) (kw_value (kd_put d)) (kw_expected (kd_put d)) db =
    (kd_outcome d, db1) →
  kd_version d = Some (current_version (kd_key d) db + 1) ∧ kd_guarded d ∧
  current_version k db1 = current_version k db + (if decide (kd_key d = k) then 1 else 0).
Proof.
  unfold kd_resolved, kd_guarded, kd_version. intros Hval Hdb Hok. rewrite putImpl_statements.
  destruct (put_statement _ _ _ _ db) as [[[row|]|x] db'] eqn:Hput.
  - intros [= Hout <-]. destruct (put_outcome_resolves _ _ _ _ _ _ _ Hdb Hval Hput) as (e & He & Hv).
    rewrite <-Hout, He. pose proof (put_statement_row _ _ _ _ _ _ _ Hput) as (_ & Hver & _ & Hexp).
    split_and!.
    + by rewrite Hv, Hver.
    + intros e' He'. by rewrite Hv, Hver, (Hexp e' He').
    + unfold current_version at 1. rewrite (put_statement_lookup _ _ _ _ _ _ _ k Hput).
      do 2 case_decide; try congruence; [|by rewrite Z.add_0_r]. cbn. rewrite Hver. by subst.
  - unfold rethrow, conflict, select_version. unfold_action. intros [= Hout _].
    by rewrite <-Hout in Hok.
  - intros [= Hout _]. by rewrite <-Hout in Hok.
Qed.

Lemma serial_puts_versions ds db db' k :
  Forall kd_valid ds → Forall kd_resolved ds → kv_reachable db → serial_puts ds db db' →
  let own := filter (λ d, kd_key d = k) ds in
  kd_version <$> own = Some <$> seqZ (current_version k db + 1) (Z.of_nat (length own)) ∧
  Forall kd_guarded own ∧
  current_version k db' = current_version k db + Z.of_nat (length own).
Proof.
  revert db. induction ds as [|d ds IH]; intros db; cbv zeta; cbn [serial_puts].
  { intros _ _ _ ->. cbn. split_and!; [done..|lia]. }
  intros [Hd Hds]%Forall_cons [Hr Hrs]%Forall_cons Hdb (db1 & Hput & Hs).
  assert (kv_reachable db1) as Hdb1.
  { eapply (serial_puts_reachable [d]); [by constructor|exact Hdb|by exists db1]. }
  destruct (serial_put_version d db db1 k Hd Hdb Hr Hput) as (Hv & Hg & Hnext).
  specialize (IH db1 Hds Hrs Hdb1 Hs). cbv zeta in IH. rewrite Hnext in IH. rewrite filter_cons.
  case_decide as Hk; [|by rewrite Z.add_0_r in IH]. destruct IH as (IHv & IHg & IHn).
  subst k. split_and!.
  - cbn [length fmap list_fmap]. rewrite Nat2Z.inj_succ, seqZ_cons by lia. cbn [fmap list_fmap].
    by rewrite Hv, Z.pred_succ, IHv, Z.add_1_r.
  - by constructor.
  - cbn [length]. lia.
Qed.

(** ** The theorems *)

(** C3. Concurrent [put]s are serial. However transactions that [put] are interleaved (any number
    of them, any keys, with or without [expectedVersion], committed or rolled back), the committed
    tables are what the committed [put]s leave when they run one after the other in commit order,
    [putImpl] by [putImpl], and each caller got the outcome its [put] has in that serial execution.
    A transaction still open sees what its own [put]s leave on the committed tables. *)
Theorem concurrent_puts_serialize es db0 xact g :
  kv_run es (kv_start db0 xact) = Some g →
  serial_puts (concat (ks_log g)) db0 (ks_db g) ∧
  ∀ i t, ks_active g !! i = Some t → serial_puts (kt_done t) (ks_db g) (kv_view t (ks_db g)).
Proof.
  intros Hrun. pose proof (kv_run_inv db0 es _ g (ks_inv_start db0 xact) Hrun) as Hg.
  split; [apply Hg|]. intros i t Hi. by apply (ki_tx _ _ Hg i t Hi).
Qed.

(** C4. No lost update. Whatever the interleaving, the committed [put]s of a key resolved with
    consecutive versions, in commit order, from the one after the version the key started at; each
    compare-and-swap among them expected exactly the version before its own, so two that expected
    the same version are never both committed; and the key ends at the last of these versions, on
    tables that one client alone can reach. *)
Theorem concurrent_puts_lose_nothing es db0 xact g k :
  kv_reachable db0 → kv_run es (kv_start db0 xact) = Some g →
  let own := filter (λ d, kd_key d = k) (concat (ks_log g)) in
  kd_version <$> own = Some <$> seqZ (current_version k db0 + 1) (Z.of_nat (length own)) ∧
  Forall kd_guarded own ∧
  current_version k (ks_db g) = current_version k db0 + Z.of_nat (length own) ∧
  kv_reachable (ks_db g).
Proof.
  intros Hdb Hrun. pose proof (ks_inv_start db0 xact) as H0.
  pose proof (kv_run_inv db0 es _ g H0 Hrun) as Hg.
  assert (ks_resolved g) as [Hr _] by (eapply kv_run_resolved; [exact Hdb|exact H0| |exact Hrun]; done).
  pose proof (serial_puts_versions _ _ _ k (ki_valid _ _ Hg) Hr Hdb (ki_serial _ _ Hg)) as (?&?&?).
  split_and!; [done..|]. by eapply serial_puts_reachable; [apply Hg| |apply Hg].
Qed.

(** A create refused under concurrency reports the version of a key that exists: nothing another
    transaction does between the refused [INSERT] and the re-read makes the key disappear. *)
Theorem refused_create_reports es db0 xact g a actual :
  kv_run es (kv_start db0 xact) = Some g → a ∈ ks_answers g →
  ka_result a = Err (VersionConflictError 0 actual) → is_Some actual.
Proof.
  intros Hrun Ha. pose proof (kv_run_inv db0 es _ g (ks_inv_start db0 xact) Hrun) as Hg.
  pose proof (ki_answers _ _ Hg) as Hans. rewrite Forall_forall in Hans. by apply Hans.
Qed.

(** ** Two writers of one key *)

Module KvServerDemo.

Definition put_a (expected : option Z) (v : string) : KvPut :=
  {| kw_key := demo_key; kw_value := JStr (js v); kw_expected := expected |}.

(** Both transactions compare with version 1. The second has to wait for the first, which
    commits; it then finds version 2, re-reads and rolls back. A third writes another key all the
    while, and a fourth, unconditional write follows. *)
Definition other_key : KvKey := (js "ns", js "scope", js "other").
Definition race : list KvEvent :=
  [KvBegin 1; KvBegin 2; KvBegin 3;
   KvWrite 1 (put_a (Some 1) "b") 2000700;
   KvWrite 3 {| kw_key := other_key; kw_value := JStr (js "z"); kw_expected := Some 0 |} 2000900;
   KvCommit 1;
   KvWrite 2 (put_a (Some 1) "c") 3000000; KvReread 2; KvRollback 2;
   KvBegin 4; KvWrite 4 (put_a None "d") 4000000; KvCommit 4; KvCommit 3].

Definition race_end : KvServer := default (kv_start kv_empty 0) (kv_run race (kv_start demo_kv1 20)).

Lemma race_runs : kv_run race (kv_start demo_kv1 20) = Some race_end.
Proof. vm_compute. reflexivity. Qed.

(** The second writer cannot run while the first holds the row. *)
Example put_waits :
  kv_run [KvBegin 1; KvBegin 2; KvWrite 1 (put_a (Some 1) "b") 2000700;
          KvWrite 2 (put_a (Some 1) "c") 2000800] (kv_start demo_kv1 20) = None.
Proof. vm_compute. reflexivity. Qed.

Lemma concurrent_puts_serialize_witness :
  serial_puts (concat (ks_log race_end)) demo_kv1 (ks_db race_end) ∧
  length (concat (ks_log race_end)) = 3%nat.
Proof.
  destruct (concurrent_puts_serialize race demo_kv1 20 race_end race_runs) as [H _].
  split; [exact H|].
  vm_compute. reflexivity.
Defined.

Lemma concurrent_puts_lose_nothing_witness :
  kd_version <$> filter (λ d, kd_key d = demo_key) (concat (ks_log race_end)) = [Some 2; Some 3] ∧
  current_version demo_key (ks_db race_end) = 3.
Proof.
  destruct (concurrent_puts_lose_nothing race demo_kv1 20 race_end demo_key demo_kv1_reachable
    race_runs) as (H1 & _ & H2 & _).
  split; [rewrite H1; vm_compute; reflexivity|]. rewrite H2. vm_compute. reflexivity.
Defined.

(** The two statements of a refused [put] are not one: the expected version can be committed
    between them, and the error then says that it expected version 2 and found version 2. *)
Definition stale_reread : list KvEvent :=
  [KvBegin 1; KvWrite 1 (put_a (Some 2) "c") 2000000;
   KvBegin 2; KvWrite 2 (put_a (Some 1) "b") 2000700; KvCommit 2;
   KvReread 1].

Lemma conflict_can_report_expected :
  ka_result <$> (ks_answers <$> kv_run stale_reread (kv_start demo_kv1 20)) ≫= last =
    Some (Err (VersionConflictError 2 (Some 2))).
Proof. vm_compute. reflexivity. Qed.

End KvServerDemo.
