(* ===== verification/Watermarks.v ===== *)
(** * Watermarks: last-write-wins cursors

    Models [src/postgres/watermarks.ts] against the table of
    [src/postgres/migrations/003_watermarks.ts], inside any store that has it as a part. *)

From S2P Require Import Prelude Text Json Errors Transaction Driver.

Local Open Scope Z_scope.

(** ** The table *)

Abbreviation WatermarkId := (jsstr * jsstr)%type.   (** (kind, key) *)

Record WatermarkRow := { wm_value : jsval; wm_updated_at : Z }.

Abbreviation WatermarkTable := (gmap WatermarkId WatermarkRow).

Definition WatermarkValueSchema (v : jsval) : bool := JsonValueSchema v.

Section watermarks.
Context {S : Type} `{!Part S WatermarkTable} `{!TextBinding}.

(** [INSERT .. ON CONFLICT (kind, key) DO UPDATE SET value = EXCLUDED.value, updated_at = now()]. *)
Definition upsert_watermark (now : Z) (kind key : jsstr) (value : jsval) : act WatermarkTable unit :=
  statement (λ t,
    k ← bind_text kind; i ← bind_text key;
    Ok (tt, <[(k, i) := {| wm_value := value; wm_updated_at := now |}]> t)).

Definition setImpl (now : Z) (kind key : jsstr) (value : jsval) : act WatermarkTable unit :=
  rethrow (λ e, translatePostgresError e None) (upsert_watermark now kind key value).

(** The top-level [null] guard, then the schema. *)
Definition set_validate (value : jsval) : result thrown unit :=
  match value with
  | JNull => Err (ValidationError "PgWatermarks.set value must not be a top-level null" "value"
                    "top-level null is not representable in the value jsonb NOT NULL column")
  | _ => if WatermarkValueSchema value then Ok tt
         else Err (ValidationError "PgWatermarks.set value" "" "")
  end.

Definition set (now : Z) (kind key : jsstr) (value : jsval)
    (tx : option TransactionHandle) (signal : option AbortSignal) : act (World S) unit :=
  route tx ;; check (set_validate value) ;; withAbort (on_part (setImpl now kind key value)) signal.

Definition select_watermark (kind key : jsstr) : act WatermarkTable (option jsval) := λ t,
  match bind_text kind, bind_text key with
  | Ok k, Ok i => (Ok (wm_value <$> t !! (k, i)), t)
  | Err e, _ | _, Err e => (Err e, t)
  end.

(** [None] is [undefined]. *)
Definition getImpl (kind key : jsstr) : act WatermarkTable (option jsval) :=
  rethrow (λ e, translatePostgresError e None) (select_watermark kind key).

Definition get (kind key : jsstr) (tx : option TransactionHandle) (signal : option AbortSignal)
    : act (World S) (option jsval) :=
  route tx ;; withAbort (on_part (getImpl kind key)) signal.
End watermarks.

(** ** The abstract cursor map *)

(** A run of [set]s, each at its own [now()]; a refused one changes nothing. *)
Record SetCall := { sc_now : Z; sc_kind : jsstr; sc_key : jsstr; sc_value : jsval }.

Definition set_accepted (c : SetCall) : bool := is_ok (set_validate (sc_value c)).

Definition storable_id (kind key : jsstr) : Prop :=
  hasPostgresUnsafeText kind = false ∧ hasPostgresUnsafeText key = false.

(** The last accepted write to a cursor. *)
Fixpoint last_write (id : WatermarkId) (calls : list SetCall) (init : option jsval) : option jsval :=
  match calls with
  | [] => init
  | c :: rest =>
      last_write id rest
        (if set_accepted c && bool_decide ((sc_kind c, sc_key c) = id)
         then Some (sc_value c) else init)
  end.

Section laws.
Context {S : Type} `{!Part S WatermarkTable} `{!TextBinding}.

Definition run_set (c : SetCall) (w : World S) : World S :=
  (set (sc_now c) (sc_kind c) (sc_key c) (sc_value c) None None w).2.

Definition cursor (id : WatermarkId) (w : World S) : option jsval :=
  wm_value <$> (part (w_db w) : WatermarkTable) !! id.

Lemma setImpl_ok (now : Z) (kind key : jsstr) (value : jsval) (t : WatermarkTable) :
  storable_id kind key →
  setImpl now kind key value t =
    (Ok tt, <[(kind, key) := {| wm_value := value; wm_updated_at := now |}]> t).
Proof.
  intros [Hk Hi]. unfold setImpl, upsert_watermark. unfold_action.
  by rewrite (bind_text_safe kind Hk), (bind_text_safe key Hi).
Qed.

Lemma getImpl_ok (kind key : jsstr) (t : WatermarkTable) :
  storable_id kind key → getImpl kind key t = (Ok (wm_value <$> t !! (kind, key)), t).
Proof.
  intros [Hk Hi]. unfold getImpl, select_watermark. unfold_action.
  by rewrite (bind_text_safe kind Hk), (bind_text_safe key Hi).
Qed.

(** An accepted [set] on any valid handle, at the level of the world. *)
Lemma set_ok now kind key value tx signal (w : World S) :
  storable_id kind key → set_validate value = Ok tt →
  route tx w = (Ok tt, w) → signal_aborted signal = false →
  set now kind key value tx signal w =
    (Ok tt, Build_World
      (set_part (<[(kind, key) := {| wm_value := value; wm_updated_at := now |}]> (part (w_db w)))
         (w_db w)) (activeTransactions w) (w_statement_timeout w)).
Proof.
  intros Hid Hv Htx Hs. unfold set. unfold_action. rewrite Htx, Hv.
  assert (∀ {A} (m : act (World S) A), withAbort m signal = m) as Hab.
  { intros. unfold withAbort. destruct signal as [s|]; [|done]. cbn in Hs. by rewrite Hs. }
  rewrite Hab. by apply on_part_run, setImpl_ok.
Qed.

Lemma set_refused now kind key value tx signal (w : World S) :
  set_validate value ≠ Ok tt → (set now kind key value tx signal w).2 = w.
Proof.
  intros Hv. unfold set. unfold_action.
  destruct (route_cases tx w) as [->|[h ->]]; [|done].
  destruct (set_validate value) as [[]|]; [done|done].
Qed.

Lemma run_set_cursor c id (w : World S) :
  storable_id (sc_kind c) (sc_key c) →
  cursor id (run_set c w) =
    if set_accepted c && bool_decide ((sc_kind c, sc_key c) = id)
    then Some (sc_value c) else cursor id w.
Proof.
  intros Hid. unfold run_set, set_accepted.
  destruct (set_validate (sc_value c)) as [[]|e] eqn:Hv.
  - rewrite set_ok by done. unfold cursor; cbn. rewrite part_set. case_bool_decide as Hd.
    + by rewrite Hd, lookup_insert_eq.
    + by rewrite lookup_insert_ne.
  - rewrite set_refused by (by rewrite Hv). done.
Qed.

(** Last write wins (Law W1). After any run of [set] calls on storable identifiers, [get]
    resolves with the value of the last accepted [set] to that cursor, with the cursor's earlier
    value if there was none and [undefined] if it was never set; refused calls, calls to other
    cursors and repetitions of a call make no difference, and the rest of the store is
    untouched. *)
Theorem watermarks_last_write_wins (calls : list SetCall) kind key (w : World S) :
  Forall (λ c, storable_id (sc_kind c) (sc_key c)) calls → storable_id kind key →
  let w' := foldl (λ w c, run_set c w) w calls in
  get kind key None None w' = (Ok (last_write (kind, key) calls (cursor (kind, key) w)), w') ∧
  ∃ t, w_db w' = set_part t (w_db w).
Proof.
  intros Hc Hid. cbn zeta. revert w.
  induction Hc as [|c calls Hid' _ IH]; intros w; cbn [foldl last_write].
  - split; [|exists (part (w_db w)); by rewrite set_part_part].
    unfold get; cbn. apply on_part_unchanged. by rewrite getImpl_ok.
  - destruct (IH (run_set c w)) as [-> [t ->]]. rewrite run_set_cursor by done. split; [done|].
    unfold run_set. destruct (set_validate (sc_value c)) as [[]|] eqn:Hv.
    + rewrite set_ok by done. cbn. rewrite set_set_part. by exists t.
    + rewrite set_refused by (by rewrite Hv). by exists t.
Qed.

(** [set] fails only as documented. Whatever the identifiers, the value, the handle and the
    signal, a rejected [set] leaves the store as it was, and it never rejects with a raw driver
    error unless the binding of the identifiers or the abort signal's own reason is one. *)
Theorem watermarks_set_rejects now kind key value tx signal (w : World S) e w' :
  (if signal is Some s then isPgDriverError (abortError s) = false else True) →
  set now kind key value tx signal w = (Err e, w') →
  w' = w ∧ isPgDriverError e = false ∧
  (set_validate value = Ok tt → is_ok (route tx w).1 = true →
   signal_aborted signal = true ∨ is_ok (bind_text kind) = false ∨ is_ok (bind_text key) = false).
Proof.
  intros Hsig. unfold set. unfold_action.
  destruct (route_cases tx w) as [->|[h ->]].
  2:{ by intros [= <- <-]. }
  destruct (set_validate value) as [[]|e0] eqn:Hv.
  2:{ intros [= <- <-]. split; [done|]. split; [|done].
      unfold set_validate in Hv. destruct value; repeat case_match; by simplify_eq. }
  assert (on_part (setImpl now kind key value) w = (Err e, w') →
    w' = w ∧ isPgDriverError e = false ∧
    (is_ok (bind_text kind) = false ∨ is_ok (bind_text key) = false)) as Himpl.
  { unfold on_part, setImpl, upsert_watermark. unfold_action.
    destruct (bind_text kind) as [k|ek], (bind_text key) as [i|ei]; cbn; [done|..];
      rewrite set_part_part; destruct w; intros [= <- <-];
      (split; [done|]; split; [apply translate_no_driver|auto]). }
  unfold withAbort. destruct signal as [s|]; cbn; [|naive_solver].
  destruct (aborted s); [|naive_solver]. cbn. intros [= <- <-]. auto.
Qed.
End laws.

(** ** Witnesses *)

Definition demo_calls : list SetCall :=
  [ {| sc_now := 10; sc_kind := js "sync"; sc_key := js "net"; sc_value := JNum (NumInt 1) |};
    {| sc_now := 20; sc_kind := js "sync"; sc_key := js "net"; sc_value := JNull |};
    {| sc_now := 30; sc_kind := js "sync"; sc_key := js "other"; sc_value := JNum (NumInt 7) |} ].

Lemma watermarks_last_write_wins_witness :
  let w' := foldl (λ w c, @run_set _ part_self rejecting_binding c w)
              (idle_world (∅ : WatermarkTable)) demo_calls in
  @get _ part_self rejecting_binding (js "sync") (js "net") None None w' =
    (Ok (Some (JNum (NumInt 1))), w').
Proof.
  refine (proj1 (@watermarks_last_write_wins _ part_self rejecting_binding demo_calls
    (js "sync") (js "net") (idle_world (∅ : WatermarkTable)) _ _)).
  - repeat constructor.
  - by split.
Defined.

Lemma watermarks_set_rejects_witness :
  @set _ part_self rejecting_binding 5 [0%N] (js "k") (JBool true) None None
    (idle_world (∅ : WatermarkTable)) =
    (Err (UnrecognizedPostgresError "invalid byte sequence for encoding UTF8"
            (pg_error "22021" "invalid byte sequence for encoding UTF8" None)),
     idle_world (∅ : WatermarkTable)) ∧
  isPgDriverError (UnrecognizedPostgresError "invalid byte sequence for encoding UTF8"
            (pg_error "22021" "invalid byte sequence for encoding UTF8" None)) = false.
Proof.
  split; [reflexivity|].
  exact (proj1 (proj2 (@watermarks_set_rejects _ part_self rejecting_binding 5 [0%N] (js "k")
    (JBool true) None None (idle_world (∅ : WatermarkTable)) _ _ I eq_refl))).
Defined.
