(* ===== verification/TxHistoryCodec.v ===== *)
(** * Transaction history: entries, schemas and their stored form

    Models the boundary schemas of [src/interfaces/transaction-history-storage.ts] and the codec of
    [src/postgres/transaction-history-storage.ts]: the tagging of [bigint] and [Date] leaves inside
    JSON, the strict parsers that read them back, and the stored snapshot of an entry. *)

From S2P Require Import Prelude Text Literals Json Errors.

Local Open Scope Z_scope.

(** ** Content schemas *)

Definition THS_RESERVED_KEY_PREFIX : jsstr := js "__umbradb_ths_".

Definition SafeStringSchema (s : jsstr) : bool := negb (hasPostgresUnsafeText s).

Definition SafeObjectKeySchema (k : jsstr) : bool :=
  negb (hasPostgresUnsafeText k) && negb (bool_decide (THS_RESERVED_KEY_PREFIX `prefix_of` k)).

Fixpoint EntryContentSchema (v : jsval) : bool :=
  match v with
  | JStr s => SafeStringSchema s
  | JNum n => z_number n
  | JBool _ | JNull | JBigInt _ => true
  | JDate ms => bool_decide (is_Some ms)
  | JArr items => forallb EntryContentSchema items
  | JObj fields => forallb (λ kv, SafeObjectKeySchema kv.1 && EntryContentSchema kv.2) fields
  | JUndefined | JOpaque => false
  end.

Definition MAX_ENTRY_CONTENT_DEPTH : nat := MAX_JSON_DEPTH.

(** [z.preprocess] with the depth guard, then [z.record]. *)
Definition EntrySectionsSchema (sections : list (jsstr * jsval)) : bool :=
  if exceedsMaxDepth (JObj sections) MAX_ENTRY_CONTENT_DEPTH then false
  else EntryContentSchema (JObj sections).

(** ** Tagged encoding *)

Definition BIGINT_TAG : jsstr := THS_RESERVED_KEY_PREFIX ++ js "bigint".
Definition DATE_TAG : jsstr := THS_RESERVED_KEY_PREFIX ++ js "date".

(** [xs.map(f)] for an [f] that may throw. *)
Definition map_result {A B} (f : A → result thrown B) : list A → result thrown (list B) :=
  fix go l :=
    match l with
    | [] => Ok []
    | x :: l' => y ← f x; ys ← go l'; Ok (y :: ys)
    end.

(** [Object.fromEntries(Object.entries(v).map(([k, val]) => [k, f(val)]))]. *)
Definition map_fields (f : jsval → result thrown jsval) (fields : list (jsstr * jsval))
    : result thrown (list (jsstr * jsval)) :=
  map_result (λ kv, v ← f kv.2; Ok (kv.1, v)) fields.

(** [toISOString] of an Invalid Date throws. *)
Definition RangeError : thrown := TError "RangeError" "Invalid time value" None None None.

Fixpoint encodeContent (v : jsval) : result thrown jsval :=
  match v with
  | JBigInt z => Ok (JObj [(BIGINT_TAG, JStr (bigint_toString z))])
  | JDate (Some ms) => Ok (JObj [(DATE_TAG, JStr (toISOString ms))])
  | JDate None => Err RangeError
  | JArr items => items' ← map_result encodeContent items; Ok (JArr items')
  | JObj fields =>
      fields' ← map_result (λ kv, v ← encodeContent kv.2; Ok (kv.1, v)) fields; Ok (JObj fields')
  | _ => Ok v
  end.

(** The string under [tag] when the object has that one key and a string under it. *)
Definition isTagObject (fields : list (jsstr * jsval)) (tag : jsstr) : option jsstr :=
  match fields with
  | [(k, JStr s)] => if decide (k = tag) then Some s else None
  | _ => None
  end.

Definition corrupt {A} (what : string) : result thrown A := Err (SerializationFailedError what).

Definition parseStoredBigint (raw : jsval) : result thrown Z :=
  match raw with
  | JStr s => if CANONICAL_BIGINT_RE s then Ok (bigint_of_literal s)
              else corrupt "not a canonical bigint literal"
  | _ => corrupt "not a canonical bigint literal"
  end.

Section decoding.
Context {HD : DateParse}.

Definition parseStoredDate (raw : jsval) : result thrown Z :=
  match raw with
  | JStr s =>
      match date_parse s with
      | None => corrupt "not a valid ISO date string"
      | Some ms => if decide (toISOString ms = s) then Ok ms
                   else corrupt "not in the canonical ISO-8601 form"
      end
  | _ => corrupt "not a string"
  end.

Fixpoint decodeContent (v : jsval) : result thrown jsval :=
  match v with
  | JArr items => items' ← map_result decodeContent items; Ok (JArr items')
  | JObj fields =>
      match isTagObject fields BIGINT_TAG, isTagObject fields DATE_TAG with
      | Some s, _ => z ← parseStoredBigint (JStr s); Ok (JBigInt z)
      | None, Some s => ms ← parseStoredDate (JStr s); Ok (JDate (Some ms))
      | None, None =>
          fields' ← map_result (λ kv, v ← decodeContent kv.2; Ok (kv.1, v)) fields;
          Ok (JObj fields')
      end
  | _ => Ok v
  end.

Definition encodeSections (sections : list (jsstr * jsval)) : result thrown (list (jsstr * jsval)) :=
  map_fields encodeContent sections.
Definition decodeSections (sections : list (jsstr * jsval)) : result thrown (list (jsstr * jsval)) :=
  map_fields decodeContent sections.

(** ** Entries *)

Inductive EntryLifecycle := Pending | Finalized | Rejected.

#[export] Instance EntryLifecycle_eq_dec : EqDecision EntryLifecycle.
Proof. solve_decision. Defined.

Definition lifecycle_text (l : EntryLifecycle) : jsstr :=
  match l with Pending => js "pending" | Finalized => js "finalized" | Rejected => js "rejected" end.

(** An absent property is [None]; [e_timestamp = Some None] is an Invalid Date, [e_fees = Some None]
    the value [null]. *)
Record TransactionHistoryEntry := {
  e_hash : jsstr;
  e_identifiers : list jsstr;
  e_protocolVersion : option jsnum;
  e_status : option jsstr;
  e_timestamp : option (option Z);
  e_fees : option (option Z);
  e_lifecycle : EntryLifecycle;
  e_sections : list (jsstr * jsval);
}.

Definition HashSchema (s : jsstr) : bool := z_text 1 None s.
Definition IdentifierSchema (s : jsstr) : bool := z_text 1 None s.

Definition TransactionHistoryStatusSchema (s : jsstr) : bool :=
  bool_decide (s ∈ [js "success"; js "partialSuccess"; js "failure"]).

(** [z.number().int().nonnegative()]. *)
Definition z_nonnegative_int (n : jsnum) : bool :=
  match z_int n with Some z => 0 <=? z | None => false end.

Definition TransactionHistoryEntrySchema (e : TransactionHistoryEntry) : bool :=
  HashSchema (e_hash e) && forallb IdentifierSchema (e_identifiers e)
  && (if e_protocolVersion e is Some n then z_nonnegative_int n else true)
  && (if e_status e is Some s then TransactionHistoryStatusSchema s else true)
  && (if e_timestamp e is Some d then bool_decide (is_Some d) else true)
  && EntrySectionsSchema (e_sections e).

(** ** The stored snapshot *)

(** The row's columns; [r_entry] is whatever JSON the [entry] column holds. *)
Record TxHistoryRow := {
  r_entry : jsval;
  r_identifiers : list jsstr;
  r_lifecycle : jsstr;
  r_updated_at : Z;
}.

Definition optional_field (k : string) (v : option jsval) : list (jsstr * jsval) :=
  match v with Some v => [(js k, v)] | None => [] end.

Definition encode_timestamp (t : option (option Z)) : result thrown (option jsval) :=
  match t with
  | None => Ok None
  | Some (Some ms) => Ok (Some (JStr (toISOString ms)))
  | Some None => Err RangeError
  end.

Definition encodeStoredEntry (e : TransactionHistoryEntry) : result thrown jsval :=
  timestamp ← encode_timestamp (e_timestamp e);
  sections ← encodeSections (e_sections e);
  Ok (JObj ([(js "hash", JStr (e_hash e)); (js "identifiers", JArr (JStr <$> e_identifiers e))]
    ++ optional_field "protocolVersion" (JNum <$> e_protocolVersion e)
    ++ optional_field "status" (JStr <$> e_status e)
    ++ optional_field "timestamp" timestamp
    ++ optional_field "fees" ((λ f, match f with Some z => JStr (bigint_toString z) | None => JNull end)
                                <$> e_fees e)
    ++ [(js "lifecycle", JObj [(js "status", JStr (lifecycle_text (e_lifecycle e)))]);
        (js "sections", JObj sections)])).

(** [stored.k]: [None] is [undefined]. *)
Fixpoint property (k : jsstr) (fields : list (jsstr * jsval)) : option jsval :=
  match fields with
  | [] => None
  | (k', v) :: rest => if decide (k' = k) then Some v else property k rest
  end.

(** The entry's fields and its [sections] when both are JSON objects. *)
Definition assertStoredEntryShape (entry : jsval)
    : result thrown (list (jsstr * jsval) * list (jsstr * jsval)) :=
  match entry with
  | JObj stored =>
      match property (js "sections") stored with
      | Some (JObj sections) => Ok (stored, sections)
      | _ => corrupt "stored entry.sections is not a JSON object"
      end
  | _ => corrupt "stored entry is not a JSON object"
  end.

(** Reading back the fields [TransactionHistoryEntrySchema] checks on the candidate. *)
Definition parse_protocolVersion (v : option jsval) : option (option jsnum) :=
  match v with
  | None => Some None
  | Some (JNum n) => Some (Some n)
  | Some _ => None
  end.
Definition parse_status (v : option jsval) : option (option jsstr) :=
  match v with
  | None => Some None
  | Some (JStr s) => Some (Some s)
  | Some _ => None
  end.
(** [EntryLifecycleSchema]; unknown properties are dropped. *)
Definition EntryLifecycleSchema (v : option jsval) : option EntryLifecycle :=
  match v with
  | Some (JObj fields) =>
      match property (js "status") fields with
      | Some (JStr s) =>
          if decide (s = js "pending") then Some Pending
          else if decide (s = js "finalized") then Some Finalized
          else if decide (s = js "rejected") then Some Rejected
          else None
      | _ => None
      end
  | _ => None
  end.

Definition decode_timestamp (v : option jsval) : result thrown (option (option Z)) :=
  match v with
  | None => Ok None
  | Some raw => ms ← parseStoredDate raw; Ok (Some (Some ms))
  end.
Definition decode_fees (v : option jsval) : result thrown (option (option Z)) :=
  match v with
  | None => Ok None
  | Some JNull => Ok (Some None)
  | Some raw => z ← parseStoredBigint raw; Ok (Some (Some z))
  end.

Definition decodeRow (tx_hash : jsstr) (row : TxHistoryRow) : result thrown TransactionHistoryEntry :=
  '(stored, sections) ← assertStoredEntryShape (r_entry row);
  timestamp ← decode_timestamp (property (js "timestamp") stored);
  fees ← decode_fees (property (js "fees") stored);
  sections' ← decodeSections sections;
  let invalid := Err (ValidationError "PgTransactionHistoryStorage row" "" "") in
  match parse_protocolVersion (property (js "protocolVersion") stored),
        parse_status (property (js "status") stored),
        EntryLifecycleSchema (property (js "lifecycle") stored) with
  | Some pv, Some status, Some lifecycle =>
      let candidate :=
        {| e_hash := tx_hash; e_identifiers := r_identifiers row; e_protocolVersion := pv;
           e_status := status; e_timestamp := timestamp; e_fees := fees; e_lifecycle := lifecycle;
           e_sections := sections' |} in
      if TransactionHistoryEntrySchema candidate then Ok candidate else invalid
  | _, _, _ => invalid
  end.

(** A raw error of [decodeRow] is wrapped, a [StorageError] passes. *)
Definition rowToEntry (tx_hash : jsstr) (row : TxHistoryRow) : result thrown TransactionHistoryEntry :=
  match decodeRow tx_hash row with
  | Err (TStorage c cause) => Err (TStorage c cause)
  | Err _ => corrupt "stored row is corrupted and could not be decoded"
  | Ok e => Ok e
  end.
End decoding.
