(* ===== verification/TxHistoryRoundtrip.v ===== *)
(** * Transaction history: what is stored reads back

    The codec of [TxHistoryCodec] is lossless on what its schemas accept, its strict parsers accept
    exactly the printed literals, and a stored entry never collides with the tags. *)

From S2P Require Import Prelude Text Literals Json Errors TxHistoryCodec.

Local Open Scope Z_scope.

(** Every [Date] inside a value holds a time value in range, as every JavaScript [Date] does. *)
Fixpoint dates_valid (v : jsval) : bool :=
  match v with
  | JDate (Some ms) => valid_time ms
  | JArr items => forallb dates_valid items
  | JObj fields => forallb (λ kv, dates_valid kv.2) fields
  | _ => true
  end.

Section roundtrip.
Context {HD : DateParse}.

(** Running [map_result] on a list whose elements all succeed, and undoing it. *)
Lemma map_result_roundtrip {A B} (f : A → result thrown B) (g : B → result thrown A) (l : list A) :
  Forall (λ x, ∃ y, f x = Ok y ∧ g y = Ok x) l →
  ∃ l', map_result f l = Ok l' ∧ map_result g l' = Ok l ∧ Forall2 (λ x y, f x = Ok y) l l'.
Proof.
  induction 1 as [|x l (y & Hf & Hg) _ (l' & Hl & Hl' & H2)].
  - exists []. by split_and!.
  - exists (y :: l'). unfold mbind, result_bind in *. cbn. rewrite Hf, Hl, Hg, Hl'.
    split_and!; [done|done|]. by constructor.
Qed.

Lemma parse_bigint_printed z : parseStoredBigint (JStr (bigint_toString z)) = Ok z.
Proof.
  destruct (bigint_toString_literal z) as [H1 H2]. unfold parseStoredBigint. by rewrite H1, H2.
Qed.

Lemma parse_date_printed ms : valid_time ms = true → parseStoredDate (JStr (toISOString ms)) = Ok ms.
Proof.
  intros Hv. unfold parseStoredDate. rewrite (date_parse_iso ms Hv). by rewrite decide_True.
Qed.

(** A safe key is no tag. *)
Lemma safe_key_no_tag k tag :
  SafeObjectKeySchema k = true → THS_RESERVED_KEY_PREFIX `prefix_of` tag → k ≠ tag.
Proof.
  unfold SafeObjectKeySchema. rewrite andb_true_iff, !negb_true_iff, bool_decide_eq_false.
  by intros [_ Hk] Ht ->.
Qed.

Lemma prefix_BIGINT_TAG : THS_RESERVED_KEY_PREFIX `prefix_of` BIGINT_TAG.
Proof. by eexists. Qed.
Lemma prefix_DATE_TAG : THS_RESERVED_KEY_PREFIX `prefix_of` DATE_TAG.
Proof. by eexists. Qed.

Lemma isTagObject_safe fields tag :
  forallb (λ kv, SafeObjectKeySchema kv.1) fields = true → THS_RESERVED_KEY_PREFIX `prefix_of` tag →
  isTagObject fields tag = None.
Proof.
  intros Hs Ht. unfold isTagObject. destruct fields as [|[k v] [|? ?]]; [done| |by destruct v].
  destruct v; try done. cbn in Hs. rewrite andb_true_r in Hs.
  by rewrite decide_False by by apply safe_key_no_tag.
Qed.

(** Encoding keeps the keys. *)
Definition encode_field (kv : jsstr * jsval) : result thrown (jsstr * jsval) :=
  v ← encodeContent kv.2; Ok (kv.1, v).
Definition decode_field (kv : jsstr * jsval) : result thrown (jsstr * jsval) :=
  v ← decodeContent kv.2; Ok (kv.1, v).

Lemma encode_fields_keys fields fields' :
  Forall2 (λ x y, encode_field x = Ok y) fields fields' → fields'.*1 = fields.*1.
Proof.
  induction 1 as [|[k v] [k' v'] l l' Hf _ IH]; [done|]. csimpl. rewrite IH. f_equal.
  unfold encode_field, mbind, result_bind in Hf. cbn in Hf. destruct (encodeContent v); by simplify_eq.
Qed.

Lemma safe_keys_fst fields fields' : fields'.*1 = fields.*1 →
  forallb (λ kv : jsstr * jsval, SafeObjectKeySchema kv.1) fields = true →
  forallb (λ kv : jsstr * jsval, SafeObjectKeySchema kv.1) fields' = true.
Proof.
  revert fields. induction fields' as [|[k v] l IH]; intros [|[k' v'] l'] E; try done.
  injection E as -> E. cbn. rewrite !andb_true_iff. naive_solver.
Qed.

(** The lossless core: content that satisfies the schema encodes, and decodes to itself. *)
Definition lossless (v : jsval) : Prop :=
  ∃ e, encodeContent v = Ok e ∧ decodeContent e = Ok v.

Lemma fields_lossless fields :
  Forall (λ kv, EntryContentSchema kv.2 = true → dates_valid kv.2 = true → lossless kv.2) fields →
  forallb (λ kv, SafeObjectKeySchema kv.1 && EntryContentSchema kv.2) fields = true →
  forallb (λ kv, dates_valid kv.2) fields = true →
  ∃ fields', map_result encode_field fields = Ok fields' ∧
    map_result decode_field fields' = Ok fields ∧
    forallb (λ kv : jsstr * jsval, SafeObjectKeySchema kv.1) fields' = true.
Proof.
  intros IH Hs Hd.
  destruct (map_result_roundtrip encode_field decode_field fields) as (fields' & H1 & H2 & H3).
  - rewrite forallb_forall in Hs, Hd. rewrite Forall_forall in IH |- *.
    intros [k v] Hin. specialize (IH _ Hin). apply list_elem_of_In in Hin.
    specialize (Hs _ Hin). specialize (Hd _ Hin). cbn in *. apply andb_true_iff in Hs as [_ Hs].
    destruct (IH Hs Hd) as (e & He & Hde). exists (k, e).
    unfold encode_field, decode_field, mbind, result_bind. cbn. by rewrite He, Hde.
  - exists fields'. split_and!; [done|done|]. apply (safe_keys_fst fields); [by apply encode_fields_keys|].
    rewrite forallb_forall in Hs |- *. intros x Hx. specialize (Hs x Hx).
    by apply andb_true_iff in Hs as [? _].
Qed.

Lemma decode_safe_object fields fields' :
  forallb (λ kv : jsstr * jsval, SafeObjectKeySchema kv.1) fields' = true →
  map_result decode_field fields' = Ok fields → decodeContent (JObj fields') = Ok (JObj fields).
Proof.
  intros Hs Hm. cbn. rewrite !isTagObject_safe by (done || apply prefix_BIGINT_TAG || apply prefix_DATE_TAG).
  change (map_result _ fields') with (map_result decode_field fields'). by rewrite Hm.
Qed.

Lemma content_lossless v :
  EntryContentSchema v = true → dates_valid v = true → lossless v.
Proof.
  revert v. apply (jsval_nested_ind (λ v, EntryContentSchema v = true → dates_valid v = true → lossless v));
    [intros v|intros items IH|intros fields IH].
  - destruct v as [| | | | | |ms| | |]; try done; intros Hs Hd; try by eexists.
    + eexists. split; [done|]. cbn [decodeContent isTagObject]. rewrite decide_True by done.
      unfold mbind, result_bind. by rewrite parse_bigint_printed.
    + destruct ms as [ms|]; [|done]. eexists. split; [done|].
      cbn [decodeContent isTagObject]. rewrite decide_False by done. rewrite decide_True by done.
      unfold mbind, result_bind. by rewrite parse_date_printed.
  - intros Hs Hd. cbn in Hs, Hd.
    destruct (map_result_roundtrip encodeContent decodeContent items) as (items' & H1 & H2 & _).
    + rewrite forallb_forall in Hs, Hd. rewrite Forall_forall in IH |- *.
      intros v Hin. apply IH; [done|apply Hs|apply Hd]; by apply list_elem_of_In.
    + exists (JArr items'). cbn. unfold mbind, result_bind. by rewrite H1, H2.
  - intros Hs Hd. destruct (fields_lossless fields IH Hs Hd) as (fields' & H1 & H2 & H3).
    exists (JObj fields'). split; [|by apply decode_safe_object].
    cbn. change (map_result _ fields) with (map_result encode_field fields). by rewrite H1.
Qed.

Lemma sections_lossless fields :
  EntryContentSchema (JObj fields) = true → dates_valid (JObj fields) = true →
  ∃ fields', encodeSections fields = Ok fields' ∧ decodeSections fields' = Ok fields.
Proof.
  intros Hs Hd. destruct (fields_lossless fields) as (fields' & H1 & H2 & _); [|done|done|eauto].
  apply Forall_forall. intros kv _. apply content_lossless.
Qed.

(** ** Whole entries *)

Definition entry_dates_valid (e : TransactionHistoryEntry) : bool :=
  (if e_timestamp e is Some (Some ms) then valid_time ms else true) && dates_valid (JObj (e_sections e)).

(** The row [writeRows] stores for an entry. *)
Definition row_stores (e : TransactionHistoryEntry) (row : TxHistoryRow) : Prop :=
  encodeStoredEntry e = Ok (r_entry row) ∧ r_identifiers row = e_identifiers e ∧
  r_lifecycle row = lifecycle_text (e_lifecycle e).

Lemma stored_properties (h ids lc secs : jsval) (pv status ts fees : option jsval) :
  let stored := [(js "hash", h); (js "identifiers", ids)] ++ optional_field "protocolVersion" pv
    ++ optional_field "status" status ++ optional_field "timestamp" ts ++ optional_field "fees" fees
    ++ [(js "lifecycle", lc); (js "sections", secs)] in
  property (js "sections") stored = Some secs ∧ property (js "lifecycle") stored = Some lc ∧
  property (js "protocolVersion") stored = pv ∧ property (js "status") stored = status ∧
  property (js "timestamp") stored = ts ∧ property (js "fees") stored = fees.
Proof. destruct pv, status, ts, fees; vm_compute; by split_and!. Qed.

Lemma lifecycle_roundtrip l :
  EntryLifecycleSchema (Some (JObj [(js "status", JStr (lifecycle_text l))])) = Some l.
Proof. by destruct l. Qed.

Lemma fees_roundtrip (f : option (option Z)) :
  decode_fees ((λ f, match f with Some z => JStr (bigint_toString z) | None => JNull end) <$> f) = Ok f.
Proof.
  destruct f as [[z|]|]; [|done|done]. cbn [fmap option_fmap option_map decode_fees].
  by rewrite parse_bigint_printed.
Qed.

Lemma timestamp_roundtrip (t : option (option Z)) :
  (if t is Some d then bool_decide (is_Some d) else true) = true →
  (if t is Some (Some ms) then valid_time ms else true) = true →
  ∃ v, encode_timestamp t = Ok v ∧ decode_timestamp v = Ok t.
Proof.
  destruct t as [[ms|]|]; [|done|by exists None]. intros _ Hv. eexists. split; [done|].
  cbn [decode_timestamp]. by rewrite parse_date_printed.
Qed.

Lemma entry_lossless e now :
  TransactionHistoryEntrySchema e = true → entry_dates_valid e = true →
  ∃ stored, encodeStoredEntry e = Ok stored ∧
    decodeRow (e_hash e) {| r_entry := stored; r_identifiers := e_identifiers e;
      r_lifecycle := lifecycle_text (e_lifecycle e); r_updated_at := now |} = Ok e.
Proof.
  intros Hs Hd. pose proof Hs as Hs0. unfold TransactionHistoryEntrySchema, EntrySectionsSchema in Hs.
  unfold entry_dates_valid in Hd. apply andb_true_iff in Hd as [Hd1 Hd2].
  apply andb_true_iff in Hs as [[_ Ht]%andb_true_iff Hsec].
  destruct (exceedsMaxDepth _ _) eqn:Edepth; [done|].
  destruct (timestamp_roundtrip _ Ht Hd1) as (ts & Hts & Hts').
  destruct (sections_lossless _ Hsec Hd2) as (secs & Hse & Hse').
  unfold encodeStoredEntry, mbind, result_bind. rewrite Hts, Hse. eexists. split; [done|].
  unfold decodeRow, assertStoredEntryShape. cbn [r_entry r_identifiers].
  destruct (stored_properties (JStr (e_hash e)) (JArr (JStr <$> e_identifiers e))
    (JObj [(js "status", JStr (lifecycle_text (e_lifecycle e)))]) (JObj secs)
    (JNum <$> e_protocolVersion e) (JStr <$> e_status e) ts
    ((λ f, match f with Some z => JStr (bigint_toString z) | None => JNull end) <$> e_fees e))
    as (P1 & P2 & P3 & P4 & P5 & P6).
  rewrite P1. unfold mbind, result_bind. cbv beta iota. rewrite P2, P3, P4, P5, P6.
  rewrite Hts', fees_roundtrip, Hse', lifecycle_roundtrip.
  assert (parse_protocolVersion (JNum <$> e_protocolVersion e) = Some (e_protocolVersion e)) as ->
    by by destruct (e_protocolVersion e).
  assert (parse_status (JStr <$> e_status e) = Some (e_status e)) as -> by by destruct (e_status e).
  destruct e; cbn in *. by rewrite Hs0.
Qed.

Lemma rowToEntry_lossless e row :
  TransactionHistoryEntrySchema e = true → entry_dates_valid e = true → row_stores e row →
  rowToEntry (e_hash e) row = Ok e.
Proof.
  intros Hs Hd (He & Hi & Hl). destruct (entry_lossless e (r_updated_at row) Hs Hd) as (st & Est & Hdec).
  assert (st = r_entry row) as -> by congruence.
  unfold rowToEntry. destruct row as [en ids lc now]. cbn in *. subst. by rewrite Hdec.
Qed.

(** C26. What is stored reads back: for an entry its schema accepts, whatever [bigint]s and [Date]s
    are nested in its sections, encoding succeeds and [rowToEntry] on the stored row returns that
    very entry — no caller data is ever taken for a tag — so two accepted entries of one hash with
    the same row are equal. And whatever a row holds, reading it either succeeds with an entry the
    schema accepts or rejects with a [StorageError]. *)
Theorem entry_roundtrip :
  (∀ e now, TransactionHistoryEntrySchema e = true → entry_dates_valid e = true →
    ∃ stored, encodeStoredEntry e = Ok stored ∧
      rowToEntry (e_hash e) {| r_entry := stored; r_identifiers := e_identifiers e;
        r_lifecycle := lifecycle_text (e_lifecycle e); r_updated_at := now |} = Ok e) ∧
  (∀ e1 e2 row, TransactionHistoryEntrySchema e1 = true → TransactionHistoryEntrySchema e2 = true →
    entry_dates_valid e1 = true → entry_dates_valid e2 = true → e_hash e1 = e_hash e2 →
    row_stores e1 row → row_stores e2 row → e1 = e2) ∧
  (∀ hash row, match rowToEntry hash row with
    | Ok e => TransactionHistoryEntrySchema e = true ∧ e_hash e = hash
    | Err err => ∃ c cause, err = TStorage c cause
    end).
Proof.
  split_and!.
  - intros e now Hs Hd. destruct (entry_lossless e now Hs Hd) as (stored & He & Hdec).
    exists stored. split; [done|]. unfold rowToEntry. by rewrite Hdec.
  - intros e1 e2 row Hs1 Hs2 Hd1 Hd2 Hh H1 H2.
    pose proof (rowToEntry_lossless e1 row Hs1 Hd1 H1) as E1.
    pose proof (rowToEntry_lossless e2 row Hs2 Hd2 H2) as E2. congruence.
  - intros hash row. unfold rowToEntry. destruct (decodeRow hash row) as [e|[]] eqn:E.
    2-5: by eexists _, _.
    unfold decodeRow, mbind, result_bind in E.
    destruct (assertStoredEntryShape _) as [[stored secs]|]; [|done].
    destruct (decode_timestamp _); [|done]. destruct (decode_fees _); [|done].
    destruct (decodeSections _); [|done].
    destruct (parse_protocolVersion _); [|done]. destruct (parse_status _); [|done].
    destruct (EntryLifecycleSchema _); [|done].
    destruct (TransactionHistoryEntrySchema _) eqn:Hs; [|done]. injection E as <-. split; [exact Hs|done].
Qed.

(** The strict parsers accept the encoder's literals only. A stored bigint is read iff it is the
    string [toString] prints for the value read, or ["-0"], which no bigint prints and which reads
    as zero; a stored date is read only from the string [toISOString] prints for the instant read,
    and every such string is read, so a date normalised by the engine's lenient parsing (a 30th of
    February, an offset, missing milliseconds) never is. *)
Theorem parseStored_exact :
  (∀ raw z, parseStoredBigint raw = Ok z ↔
    raw = JStr (bigint_toString z) ∨ (raw = JStr minus_zero ∧ z = 0)) ∧
  (∀ raw ms, parseStoredDate raw = Ok ms → raw = JStr (toISOString ms)) ∧
  (∀ ms, valid_time ms = true → parseStoredDate (JStr (toISOString ms)) = Ok ms).
Proof.
  split_and!; [| |apply parse_date_printed].
  - intros raw z. split.
    + unfold parseStoredBigint. destruct raw as [| | | | |s| | | |]; try done.
      destruct (CANONICAL_BIGINT_RE s) eqn:E; [|done]. intros [= <-].
      apply CANONICAL_BIGINT_RE_exact in E as [E| ->]; [left; congruence|by right].
    + intros [->|[-> ->]]; [apply parse_bigint_printed|done].
  - intros raw ms. unfold parseStoredDate. destruct raw as [| | | | |s| | | |]; try done.
    destruct (date_parse s) as [ms'|]; [|done]. destruct (decide _); [|done]. intros [= <-]. congruence.
Qed.
End roundtrip.

(** ** Witnesses *)

Definition sample_entry : TransactionHistoryEntry :=
  {| e_hash := js "0xabc"; e_identifiers := [js "id1"]; e_protocolVersion := Some (NumInt 3);
     e_status := Some (js "success"); e_timestamp := Some (Some 1709164800123); e_fees := Some (Some (-42));
     e_lifecycle := Finalized;
     e_sections := [(js "shielded", JArr [JBigInt 12345678901234567890; JDate (Some 0); JNull]);
                    (js "dust", JObj [(js "bigint", JStr (js "7"))])] |}.

Lemma entry_roundtrip_witness :
  ∃ stored, encodeStoredEntry sample_entry = Ok stored ∧
    @rowToEntry iso_dates (js "0xabc") {| r_entry := stored; r_identifiers := [js "id1"];
      r_lifecycle := js "finalized"; r_updated_at := 7 |} = Ok sample_entry.
Proof.
  apply (proj1 (@entry_roundtrip iso_dates) sample_entry 7); vm_compute; reflexivity.
Defined.

Lemma parseStored_exact_witness :
  parseStoredBigint (JStr (js "-42")) = Ok (-42) ∧ parseStoredBigint (JStr (js "-0")) = Ok 0 ∧
  @parseStoredDate iso_dates (JStr (js "2024-02-29T00:00:00.123Z")) = Ok 1709164800123.
Proof.
  split; [|split].
  - apply (proj2 (proj1 (@parseStored_exact iso_dates) (JStr (js "-42")) (-42))).
    left. vm_compute. reflexivity.
  - apply (proj2 (proj1 (@parseStored_exact iso_dates) (JStr (js "-0")) 0)).
    right. split; reflexivity.
  - rewrite <-iso_example. apply (proj2 (proj2 (@parseStored_exact iso_dates))).
    vm_compute. reflexivity.
Defined.
