(* ===== verification/TxHistory.v ===== *)
(** * Transaction history: reads, merges and pending-clearing

    Models [PgTransactionHistoryStorage] of [src/postgres/transaction-history-storage.ts] against
    the table of [src/postgres/migrations/004_transaction_history.ts]. A JSON text built from a
    value is represented by the value. *)

From S2P Require Import Prelude Text Literals Json Errors Transaction Driver.
From S2P Require Import TxHistoryCodec TxHistoryRoundtrip.

Local Open Scope Z_scope.

(** The table, by its primary key [(wallet_id, tx_hash)]. *)
Abbreviation TxHistoryTable := (gmap (jsstr * jsstr) TxHistoryRow).

Abbreviation MergeEntriesFn :=
  (TransactionHistoryEntry → TransactionHistoryEntry → result thrown TransactionHistoryEntry).

(** What the constructor binds. *)
Record Storage := { walletId : jsstr; mergeFn : MergeEntriesFn }.

Definition construct (wallet : jsstr) (merge : MergeEntriesFn) : result thrown Storage :=
  match wallet with
  | [] => Err (ValidationError "PgTransactionHistoryStorage: walletId must be a non-empty string"
                 "walletId" "")
  | _ => Ok {| walletId := wallet; mergeFn := merge |}
  end.

Definition th_catch (e : thrown) : thrown := translatePostgresError e None.

Section adapter.
Context {S : Type} `{!Part S TxHistoryTable} `{!TextBinding} `{!Collation} `{!DateParse}.
Context `{!SqlBegin S}.
Implicit Types st : Storage.

(** ** Reads *)

Definition by_hash (a b : jsstr * TxHistoryRow) : Prop := collate a.1 b.1.

#[export] Instance by_hash_dec : RelDecision by_hash.
Proof. intros a b. unfold by_hash. apply _. Defined.
#[export] Instance by_hash_trans : Transitive by_hash.
Proof. intros a b c. unfold by_hash. apply transitivity. Qed.
#[export] Instance by_hash_total : Total by_hash.
Proof. intros a b. unfold by_hash. apply total. apply _. Qed.

(** [SELECT .. WHERE wallet_id = .. ORDER BY tx_hash]. *)
Definition select_wallet st : act TxHistoryTable (list (jsstr * TxHistoryRow)) := λ t,
  match bind_text (walletId st) with
  | Ok w => (Ok (merge_sort by_hash
                   ((λ p, (p.1.2, p.2)) <$> filter (λ p, p.1.1 = w) (map_to_list t))), t)
  | Err e => (Err e, t)
  end.

(** [SELECT .. WHERE wallet_id = .. AND tx_hash = ..], with or without [FOR UPDATE]. *)
Definition select_row st (hash : jsstr) : act TxHistoryTable (option TxHistoryRow) := λ t,
  match bind_text (walletId st), bind_text hash with
  | Ok w, Ok h => (Ok (t !! (w, h)), t)
  | Err e, _ | _, Err e => (Err e, t)
  end.

Definition getAllImpl st : act TxHistoryTable (list TransactionHistoryEntry) :=
  rethrow th_catch
    (rows ← select_wallet st; check (map_result (λ p, rowToEntry p.1 p.2) rows)).

Definition getAll st (tx : option TransactionHandle) (signal : option AbortSignal)
    : act (World S) (list TransactionHistoryEntry) :=
  route tx ;; withAbort (on_part (getAllImpl st)) signal.

Definition entry_or_undefined (hash : jsstr) (row : option TxHistoryRow)
    : result thrown (option TransactionHistoryEntry) :=
  match row with
  | Some row => e ← rowToEntry hash row; Ok (Some e)
  | None => Ok None
  end.

Definition getImpl st (hash : jsstr) : act TxHistoryTable (option TransactionHistoryEntry) :=
  rethrow th_catch (row ← select_row st hash; check (entry_or_undefined hash row)).

Definition get st (hash : jsstr) (tx : option TransactionHandle) (signal : option AbortSignal)
    : act (World S) (option TransactionHistoryEntry) :=
  route tx ;;
  check (if hasPostgresUnsafeText hash
         then Err (ValidationError "PgTransactionHistoryStorage.get hash must not contain a NUL byte or an unpaired UTF-16 surrogate" "hash" "PostgreSQL cannot store either")
         else Ok tt) ;;
  withAbort (on_part (getImpl st hash)) signal.

(** [JSON.stringify(all.map(encodeStoredEntry))], as the array it prints. *)
Definition serialize st (tx : option TransactionHandle) (signal : option AbortSignal)
    : act (World S) jsval :=
  all ← getAll st tx signal;
  items ← check (map_result encodeStoredEntry all);
  mret (JArr items).

(** ** Writes *)

(** [pg_advisory_xact_lock(4, hashtext(walletId || ':' || hash))]: it orders concurrent
    transactions and changes no row. *)
Definition advisory_xact_lock st (hash : jsstr) : act TxHistoryTable unit :=
  check (bind_text (walletId st) ;; bind_text hash ;; Ok tt).

(** The existing row and the incoming entry give the entry to store. *)
Definition merge_with st (entry : TransactionHistoryEntry) (existing : option TransactionHistoryEntry)
    : result thrown TransactionHistoryEntry :=
  match existing with
  | None => Ok entry
  | Some ex =>
      merged ← mergeFn st ex entry;
      if decide (e_hash merged = e_hash entry)
      then if TransactionHistoryEntrySchema merged then Ok merged
           else Err (ValidationError "PgTransactionHistoryStorage merge function result" "" "")
      else Err (ValidationError "PgTransactionHistoryStorage: merge function must not change the entry's hash" "hash" "")
  end.

(** [INSERT .. ON CONFLICT (wallet_id, tx_hash) DO UPDATE]. *)
Definition upsert_entry st (now : Z) (e : TransactionHistoryEntry) : act TxHistoryTable unit :=
  statement (λ t,
    stored ← encodeStoredEntry e;
    w ← bind_text (walletId st); h ← bind_text (e_hash e);
    Ok (tt, <[(w, h) := {| r_entry := stored; r_identifiers := e_identifiers e;
                           r_lifecycle := lifecycle_text (e_lifecycle e); r_updated_at := now |}]> t)).

(** The [WHERE] of the pending-clear: another pending row of the wallet whose identifiers, at least
    one, are among [ids]. *)
Definition clears (w hash : jsstr) (ids : list jsstr) (k : jsstr * jsstr) (row : TxHistoryRow) : bool :=
  bool_decide (k.1 = w) && negb (bool_decide (k.2 = hash))
  && bool_decide (r_lifecycle row = js "pending")
  && negb (bool_decide (r_identifiers row = [])) && bool_decide (r_identifiers row ⊆ ids).

Definition clear_pending st (e : TransactionHistoryEntry) : act TxHistoryTable unit :=
  statement (λ t,
    w ← bind_text (walletId st); h ← bind_text (e_hash e);
    Ok (tt, filter (λ p : (jsstr * jsstr) * TxHistoryRow,
                      clears w h (e_identifiers e) p.1 p.2 = false) t)).

Definition terminal (l : EntryLifecycle) : bool := negb (bool_decide (l = Pending)).

Definition writeRows st (now : Z) (entry : TransactionHistoryEntry) : act TxHistoryTable unit :=
  rethrow th_catch
    (advisory_xact_lock st (e_hash entry) ;;
     row ← select_row st (e_hash entry);
     existing ← check (entry_or_undefined (e_hash entry) row);
     result ← check (merge_with st entry existing);
     upsert_entry st now result ;;
     if terminal (e_lifecycle result) && negb (bool_decide (e_identifiers result = []))
     then clear_pending st result else mret tt).

Definition writeOwnTransaction st (now : Z) (entry : TransactionHistoryEntry) : act (World S) unit :=
  rethrow th_catch (sql_begin None (on_part (writeRows st now entry))).

(** The boundary of [ValidationError.fromZod]. *)
Definition got_name (l : EntryLifecycle) : string :=
  match l with
  | Pending => "PgTransactionHistoryStorage.gotPending"
  | Finalized => "PgTransactionHistoryStorage.gotFinalized"
  | Rejected => "PgTransactionHistoryStorage.gotRejected"
  end.

Definition write st (now : Z) (entry : TransactionHistoryEntry) (tx : option TransactionHandle)
    (signal : option AbortSignal) : act (World S) unit :=
  route tx ;;
  check (if TransactionHistoryEntrySchema entry then Ok tt
         else Err (ValidationError (got_name (e_lifecycle entry)) "" "")) ;;
  withAbort (match tx with
             | Some _ => on_part (writeRows st now entry)
             | None => writeOwnTransaction st now entry
             end) signal.

(** [{ ...entry, lifecycle: { status } }]. *)
Definition with_lifecycle (l : EntryLifecycle) (e : TransactionHistoryEntry)
    : TransactionHistoryEntry :=
  {| e_hash := e_hash e; e_identifiers := e_identifiers e; e_protocolVersion := e_protocolVersion e;
     e_status := e_status e; e_timestamp := e_timestamp e; e_fees := e_fees e; e_lifecycle := l;
     e_sections := e_sections e |}.

Definition gotPending st now e := write st now (with_lifecycle Pending e).
Definition gotFinalized st now e := write st now (with_lifecycle Finalized e).
Definition gotRejected st now e := write st now (with_lifecycle Rejected e).
End adapter.
