(* ===== verification/TxHistorySpec.v ===== *)
(** * Transaction history: the adapter implements a map of entries

    The abstract store of one wallet is a finite map from hashes to entries; a write merges into it
    and, when it settles the entry, clears the pending entries it supersedes. Every method of
    [TxHistory] refines it. *)

From S2P Require Import Prelude Text Literals Json Errors Transaction Driver.
From S2P Require Import TxHistoryCodec TxHistoryRoundtrip TxHistory.

Local Open Scope Z_scope.

(** ** The abstract store *)

Abbreviation EntryMap := (gmap jsstr TransactionHistoryEntry).

Definition valid_entry (e : TransactionHistoryEntry) : Prop :=
  TransactionHistoryEntrySchema e = true ∧ entry_dates_valid e = true.

(** [e], under hash [h], is pending and superseded by [r]. *)
Definition superseded (r : TransactionHistoryEntry) (h : jsstr) (e : TransactionHistoryEntry) : bool :=
  negb (bool_decide (h = e_hash r)) && bool_decide (e_lifecycle e = Pending)
  && negb (bool_decide (e_identifiers e = [])) && bool_decide (e_identifiers e ⊆ e_identifiers r).

Definition settles (r : TransactionHistoryEntry) : bool :=
  terminal (e_lifecycle r) && negb (bool_decide (e_identifiers r = [])).

(** Store [r] and clear what it supersedes. *)
Definition spec_store (r : TransactionHistoryEntry) (m : EntryMap) : EntryMap :=
  let m' := <[e_hash r := r]> m in
  if settles r then filter (λ p : jsstr * TransactionHistoryEntry, superseded r p.1 p.2 = false) m'
  else m'.

(** ** Representation *)

Record represents (wallet : jsstr) (t : TxHistoryTable) (m : EntryMap) : Prop := {
  rep_rows : ∀ h row, t !! (wallet, h) = Some row → ∃ e, m !! h = Some e ∧ row_stores e row;
  rep_entries : ∀ h e, m !! h = Some e →
    e_hash e = h ∧ valid_entry e ∧ is_Some (t !! (wallet, h));
}.

Definition same_others (wallet : jsstr) (t t' : TxHistoryTable) : Prop :=
  ∀ w h, w ≠ wallet → t' !! (w, h) = t !! (w, h).

(** JavaScript [Date]s are always in range: what a merge builds from entries is no exception. *)
Definition merge_keeps_dates (merge : MergeEntriesFn) : Prop :=
  ∀ a b r, entry_dates_valid a = true → entry_dates_valid b = true → merge a b = Ok r →
    entry_dates_valid r = true.

Lemma lifecycle_text_pending l : lifecycle_text l = js "pending" ↔ l = Pending.
Proof. destruct l; [done|..]; split; try done; vm_compute; done. Qed.

Lemma hash_storable e : TransactionHistoryEntrySchema e = true → hasPostgresUnsafeText (e_hash e) = false.
Proof.
  unfold TransactionHistoryEntrySchema, HashSchema, z_text. rewrite !andb_true_iff, negb_true_iff. tauto.
Qed.

Section refinement.
Context {S : Type} `{!Part S TxHistoryTable} `{!TextBinding} `{!Collation} `{!DateParse}.
Context `{!SqlBegin S}.
Context (st : Storage).
Context (Hwallet : hasPostgresUnsafeText (walletId st) = false).
Context (Hdates : merge_keeps_dates (mergeFn st)).
Implicit Types t : TxHistoryTable.
Implicit Types m : EntryMap.

Lemma represents_lookup t m h : represents (walletId st) t m →
  (entry_or_undefined h (t !! (walletId st, h)) : result thrown _) = Ok (m !! h).
Proof.
  intros [Hr He]. destruct (t !! (walletId st, h)) as [row|] eqn:E.
  - destruct (Hr _ _ E) as (e & Hm & Hst). rewrite Hm. destruct (He _ _ Hm) as (<- & [Hs Hd] & _).
    unfold entry_or_undefined, mbind, result_bind. by rewrite (rowToEntry_lossless e row).
  - destruct (m !! h) as [e|] eqn:Hm; [|done]. destruct (He _ _ Hm) as (_ & _ & [row Hrow]). congruence.
Qed.

Lemma upsert_represents t m r row : represents (walletId st) t m → valid_entry r → row_stores r row →
  represents (walletId st) (<[(walletId st, e_hash r) := row]> t) (<[e_hash r := r]> m).
Proof.
  intros [Hr He] Hv Hst. constructor.
  - intros h row' [[[= <-] <-]|[Hne Hl]]%lookup_insert_Some; [rewrite lookup_insert_eq; eauto|].
    destruct (Hr _ _ Hl) as (e & Hm & ?). exists e. rewrite lookup_insert_ne by congruence. done.
  - intros h e [[<- <-]|[Hne Hm]]%lookup_insert_Some.
    + split_and!; [done|done|by rewrite lookup_insert_eq].
    + destruct (He _ _ Hm) as (? & ? & ?). split_and!; [done|done|].
      by rewrite lookup_insert_ne by congruence.
Qed.

Lemma clears_superseded r h e row : row_stores e row →
  clears (walletId st) (e_hash r) (e_identifiers r) (walletId st, h) row = superseded r h e.
Proof.
  intros (_ & Hi & Hl). unfold clears, superseded. cbn. rewrite bool_decide_true by done. cbn.
  rewrite Hi, Hl. do 3 f_equal. apply bool_decide_ext, lifecycle_text_pending.
Qed.

Lemma clear_represents t m r : represents (walletId st) t m →
  represents (walletId st)
    (filter (λ p : (jsstr * jsstr) * TxHistoryRow,
               clears (walletId st) (e_hash r) (e_identifiers r) p.1 p.2 = false) t)
    (filter (λ p : jsstr * TransactionHistoryEntry, superseded r p.1 p.2 = false) m).
Proof.
  intros [Hr He]. constructor.
  - intros h row [Hl Hc]%map_lookup_filter_Some. destruct (Hr _ _ Hl) as (e & Hm & Hst).
    exists e. split; [|done]. apply map_lookup_filter_Some. split; [done|]. cbn in *.
    by rewrite <-(clears_superseded r h e row Hst).
  - intros h e [Hm Hc]%map_lookup_filter_Some. destruct (He _ _ Hm) as (? & ? & [row Hrow]).
    split_and!; [done|done|]. exists row. apply map_lookup_filter_Some. split; [done|]. cbn in *.
    destruct (Hr _ _ Hrow) as (e' & Hm' & Hst). simplify_eq. by rewrite (clears_superseded r _ e row Hst).
Qed.

Lemma clear_same_others t h ids : same_others (walletId st) t
  (filter (λ p : (jsstr * jsstr) * TxHistoryRow, clears (walletId st) h ids p.1 p.2 = false) t).
Proof.
  intros w h' Hne. destruct (t !! (w, h')) as [row|] eqn:E.
  - apply map_lookup_filter_Some. split; [done|]. unfold clears. cbn. by rewrite bool_decide_false.
  - apply map_lookup_filter_None. by left.
Qed.

(** The statements of a write whose merged result is [r]. *)
Lemma store_result t m r now : represents (walletId st) t m → valid_entry r →
  ∃ t', (upsert_entry st now r ;;
         if terminal (e_lifecycle r) && negb (bool_decide (e_identifiers r = []))
         then clear_pending st r else mret tt) t = (Ok tt, t') ∧
    represents (walletId st) t' (spec_store r m) ∧ same_others (walletId st) t t'.
Proof.
  intros Hrep Hv. destruct Hv as [Hs Hd].
  destruct (entry_lossless r now Hs Hd) as (stored & Henc & _).
  pose proof (hash_storable _ Hs) as Hh.
  set (row := {| r_entry := stored; r_identifiers := e_identifiers r;
    r_lifecycle := lifecycle_text (e_lifecycle r); r_updated_at := now |}).
  set (t1 := <[(walletId st, e_hash r) := row]> t).
  assert (upsert_entry st now r t = (Ok tt, t1)) as Hup.
  { unfold upsert_entry, statement, mbind, result_bind.
    by rewrite Henc, (bind_text_safe _ Hwallet), (bind_text_safe _ Hh). }
  assert (represents (walletId st) t1 (<[e_hash r := r]> m)) as Hrep1 by by apply upsert_represents.
  assert (same_others (walletId st) t t1) as Ho1.
  { intros w h Hne. unfold t1. rewrite lookup_insert_ne; [done|]. congruence. }
  rewrite (action_bind_ok _ _ _ _ _ Hup). unfold spec_store. fold (settles r).
  destruct (settles r); [|eauto].
  eexists. split.
  { unfold clear_pending, statement, mbind, result_bind.
    rewrite (bind_text_safe _ Hwallet), (bind_text_safe _ Hh). reflexivity. }
  split; [by apply clear_represents|].
  intros w h Hne. rewrite (clear_same_others t1 _ _ w h Hne). by apply Ho1.
Qed.

Lemma merge_valid e ex r : valid_entry e →
  (∀ x, ex = Some x → valid_entry x) → merge_with st e ex = Ok r →
  valid_entry r ∧ e_hash r = e_hash e.
Proof.
  intros He Hex. destruct ex as [x|]; [|intros [= <-]; done]. cbn. unfold mbind, result_bind.
  destruct (mergeFn st x e) as [r'|] eqn:E; [|done].
  destruct (decide _); [|done]. destruct (TransactionHistoryEntrySchema r') eqn:Hs; [|done].
  intros [= <-]. split; [|done]. split; [done|].
  eapply Hdates; [| |exact E]; [apply (Hex x eq_refl)|apply He].
Qed.

(** One write at the level of the table, on every branch. *)
Lemma writeRows_spec t m e now : represents (walletId st) t m → valid_entry e →
  match merge_with st e (m !! e_hash e) with
  | Ok r => ∃ t', writeRows st now e t = (Ok tt, t') ∧
      represents (walletId st) t' (spec_store r m) ∧ same_others (walletId st) t t'
  | Err err => writeRows st now e t = (Err (th_catch err), t)
  end.
Proof.
  intros Hrep Hv. pose proof (hash_storable _ (proj1 Hv)) as Hh.
  assert (∀ {A} (k : option TransactionHistoryEntry → act TxHistoryTable A),
    (advisory_xact_lock st (e_hash e) ;; row ← select_row st (e_hash e);
     existing ← check (entry_or_undefined (e_hash e) row); k existing) t = k (m !! e_hash e) t) as Hpre.
  { intros A k. unfold advisory_xact_lock, select_row, check. unfold mbind, action_bind, result_bind.
    rewrite (bind_text_safe _ Hwallet), (bind_text_safe _ Hh).
    by rewrite (represents_lookup t m _ Hrep). }
  unfold writeRows, rethrow. rewrite Hpre. unfold check at 1. unfold mbind at 1, action_bind at 1.
  destruct (merge_with st e (m !! e_hash e)) as [r|err] eqn:Em; [|done].
  assert (∀ x, m !! e_hash e = Some x → valid_entry x) as Hex.
  { intros x Hx. by destruct (rep_entries _ _ _ Hrep _ _ Hx) as (_ & ? & _). }
  destruct (merge_valid e (m !! e_hash e) r Hv Hex Em) as [Hvr _].
  destruct (store_result t m r now Hrep Hvr) as (t' & Hrun & Hrep' & Ho).
  exists t'. rewrite Hrun. done.
Qed.

(** ** Reads *)

Lemma select_wallet_rows t :
  ∃ rows, select_wallet st t = (Ok rows, t) ∧ StronglySorted by_hash rows ∧
    NoDup (rows.*1) ∧ ∀ h row, (h, row) ∈ rows ↔ t !! (walletId st, h) = Some row.
Proof.
  unfold select_wallet. rewrite (bind_text_safe _ Hwallet). eexists. split; [done|].
  set (l := _ <$> filter _ _).
  assert (∀ h row, (h, row) ∈ l ↔ t !! (walletId st, h) = Some row) as Hl.
  { intros h row. subst l. rewrite list_elem_of_fmap. setoid_rewrite list_elem_of_filter. split.
    - intros ([[w h'] row'] & [= -> ->] & <- & Hin). by apply elem_of_map_to_list in Hin.
    - intros Hin. exists ((walletId st, h), row). by rewrite elem_of_map_to_list. }
  split_and!.
  - apply (StronglySorted_merge_sort by_hash).
  - rewrite merge_sort_Permutation. subst l. rewrite <-list_fmap_compose.
    apply NoDup_fmap_2_strong; [|apply NoDup_filter, NoDup_map_to_list].
    intros [[w1 h1] r1] [[w2 h2] r2]. rewrite !list_elem_of_filter, !elem_of_map_to_list. cbn.
    intros [-> ?] [-> ?] ->. congruence.
  - intros h row. rewrite merge_sort_Permutation. apply Hl.
Qed.

(** Decoding the rows one by one gives the map's entries in the rows' order. *)
Lemma decode_rows t m (rows : list (jsstr * TxHistoryRow)) : represents (walletId st) t m →
  (∀ h row, (h, row) ∈ rows → t !! (walletId st, h) = Some row) →
  ∃ es, map_result (λ p, rowToEntry p.1 p.2) rows = Ok es ∧
    Forall2 (λ p e, m !! p.1 = Some e) rows es.
Proof.
  intros Hrep. induction rows as [|[h row] rows IH]; intros Hin; [by exists []|].
  destruct IH as (es & Hes & H2); [intros; apply Hin; by right|].
  destruct (rep_rows _ _ _ Hrep h row) as (e & Hm & Hst); [apply Hin; by left|].
  destruct (rep_entries _ _ _ Hrep _ _ Hm) as (Hh & [Hs Hd] & _).
  exists (e :: es). unfold mbind, result_bind in *. cbn [map_result fst snd].
  rewrite <-Hh at 1. rewrite (rowToEntry_lossless e row Hs Hd Hst), Hes. by repeat constructor.
Qed.

Lemma entries_hashes m (rows : list (jsstr * TxHistoryRow)) es :
  (∀ h e, m !! h = Some e → e_hash e = h) →
  Forall2 (λ p e, m !! p.1 = Some e) rows es → e_hash <$> es = rows.*1.
Proof.
  intros Hh. induction 1 as [|p e rows es Hm _ IH]; [done|]. csimpl. rewrite IH. f_equal. by apply Hh.
Qed.

Definition entries_by_hash (a b : TransactionHistoryEntry) : Prop := collate (e_hash a) (e_hash b).

Lemma sorted_entries (rows : list (jsstr * TxHistoryRow)) es :
  e_hash <$> es = rows.*1 → StronglySorted by_hash rows → StronglySorted entries_by_hash es.
Proof.
  intros E Hs. revert es E. induction Hs as [|p rows _ IH Hp]; intros [|e es] E; try done.
  - constructor.
  - injection E as Eh E. change (e_hash <$> es = rows.*1) in E. constructor; [by apply IH|]. apply Forall_forall. rewrite Forall_forall in Hp.
    intros e' He'. unfold entries_by_hash. rewrite Eh.
    assert (e_hash e' ∈ rows.*1) as Hin by (rewrite <-E; by apply list_elem_of_fmap_2).
    apply list_elem_of_fmap in Hin as (p' & -> & Hp'). by apply Hp.
Qed.

Lemma getAllImpl_spec t m : represents (walletId st) t m →
  ∃ es, getAllImpl st t = (Ok es, t) ∧ StronglySorted entries_by_hash es ∧ es ≡ₚ (map_to_list m).*2.
Proof.
  intros Hrep. destruct (select_wallet_rows t) as (rows & Hsel & Hsort & Hnd & Hin).
  destruct (decode_rows t m rows Hrep) as (es & Hes & H2); [intros h row; apply Hin|].
  assert (∀ h e, m !! h = Some e → e_hash e = h) as Hh by (intros; by eapply rep_entries).
  pose proof (entries_hashes m rows es Hh H2) as E.
  exists es. split; [|split].
  - unfold getAllImpl, rethrow, mbind, action_bind, check. by rewrite Hsel, Hes.
  - by eapply sorted_entries.
  - apply NoDup_Permutation.
    + rewrite <-E in Hnd. by apply NoDup_fmap_1 in Hnd.
    + apply NoDup_fmap_2_strong; [|apply NoDup_map_to_list].
      intros [h1 e1] [h2 e2]. rewrite !elem_of_map_to_list. cbn. intros H1' H2' ->.
      apply Hh in H1', H2'. congruence.
    + intros e. rewrite list_elem_of_fmap. split.
      * intros He. apply list_elem_of_lookup in He as (i & Hi).
        destruct (Forall2_lookup_r _ _ _ _ _ H2 Hi) as ([h row] & _ & Hm). exists (h, e).
        by rewrite elem_of_map_to_list.
      * intros ([h e'] & -> & Hm%elem_of_map_to_list). cbn.
        destruct (rep_entries _ _ _ Hrep _ _ Hm) as (_ & _ & [row Hrow]). apply Hin in Hrow.
        apply list_elem_of_lookup in Hrow as (i & Hi).
        destruct (Forall2_lookup_l _ _ _ _ _ H2 Hi) as (e'' & Hi' & Hm'). cbn in Hm'. simplify_eq.
        by eapply list_elem_of_lookup_2.
Qed.

Lemma getImpl_spec t m hash : represents (walletId st) t m → hasPostgresUnsafeText hash = false →
  getImpl st hash t = (Ok (m !! hash), t).
Proof.
  intros Hrep Hh. unfold getImpl, select_row, rethrow, mbind, action_bind, check.
  by rewrite (bind_text_safe _ Hwallet), (bind_text_safe _ Hh), (represents_lookup t m _ Hrep).
Qed.

(** ** The public methods *)

Definition table (w : World S) : TxHistoryTable := part (w_db w).

(** A store holds [m], or [m] with one entry stored into it, whole. *)
Definition stored_or_not (e : TransactionHistoryEntry) (m : EntryMap) (t : TxHistoryTable) : Prop :=
  represents (walletId st) t m ∨
  ∃ r, merge_with st e (m !! e_hash e) = Ok r ∧ represents (walletId st) t (spec_store r m).

Lemma on_part_writeRows w m e now : represents (walletId st) (table w) m → valid_entry e →
  let '(r, w') := on_part (writeRows st now e) w in
  same_others (walletId st) (table w) (table w') ∧
  match r with
  | Ok _ => ∃ r, merge_with st e (m !! e_hash e) = Ok r ∧ represents (walletId st) (table w') (spec_store r m)
  | Err _ => represents (walletId st) (table w') m
  end.
Proof.
  intros Hrep Hv. pose proof (writeRows_spec (table w) m e now Hrep Hv) as Hw.
  destruct (merge_with st e (m !! e_hash e)) as [r|err] eqn:Em.
  - destruct Hw as (t' & Hrun & Hrep' & Ho). rewrite (on_part_run _ _ _ _ Hrun). unfold table in *. cbn.
    rewrite part_set. eauto.
  - rewrite (on_part_run _ _ _ _ Hw). unfold table in *. cbn. by rewrite part_set.
Qed.

Lemma writeOwnTransaction_spec w m e now : represents (walletId st) (table w) m → valid_entry e →
  let '(r, w') := writeOwnTransaction st now e w in
  same_others (walletId st) (table w) (table w') ∧
  match r with
  | Ok _ => ∃ r, merge_with st e (m !! e_hash e) = Ok r ∧ represents (walletId st) (table w') (spec_store r m)
  | Err _ => stored_or_not e m (table w')
  end.
Proof.
  intros Hrep Hv. unfold writeOwnTransaction, rethrow.
  pose proof (on_part_writeRows w m e now Hrep Hv) as Hb.
  destruct (sql_begin None (on_part (writeRows st now e)) w) as [[[]|err] w'] eqn:Hrun.
  - apply sql_begin_ok in Hrun as (w1 & Hbody & Hdb & _). rewrite Hbody in Hb.
    unfold table in *. by rewrite Hdb.
  - apply sql_begin_err in Hrun.
    assert (w_db w' = w_db w ∨ (is_ok (on_part (writeRows st now e) w).1 = true ∧
      w_db w' = w_db (on_part (writeRows st now e) w).2)) as [Hdb|[Hok Hdb]] by naive_solver.
    + unfold stored_or_not, table in *. rewrite Hdb. split; [done|by left].
    + destruct (on_part (writeRows st now e) w) as [[?|?] w1]; [|done]. cbn in Hdb.
      unfold stored_or_not, table in *. rewrite Hdb. destruct Hb as [? ?]. split; [done|by right].
Qed.

(** How a public write may leave things. *)
Definition write_outcome (e : TransactionHistoryEntry) (m : EntryMap) (w : World S)
    (o : result thrown unit * World S) : Prop :=
  same_others (walletId st) (table w) (table o.2) ∧
  match o.1 with
  | Ok _ => TransactionHistoryEntrySchema e = true ∧ ∃ r,
      merge_with st e (m !! e_hash e) = Ok r ∧ represents (walletId st) (table o.2) (spec_store r m)
  | Err _ => stored_or_not e m (table o.2)
  end.

Lemma write_spec w m e now tx signal : represents (walletId st) (table w) m →
  entry_dates_valid e = true → write_outcome e m w (write st now e tx signal w).
Proof.
  intros Hrep Hd.
  assert (∀ err, write_outcome e m w (Err err, w)) as Hsame.
  { intros err. split; [done|]. cbn. by left. }
  unfold write, mbind, action_bind, check.
  destruct (route_cases tx w) as [->|[h ->]]; [|done].
  destruct (TransactionHistoryEntrySchema e) eqn:Hs; [|done].
  assert (valid_entry e) as Hv by done.
  assert (∀ body : act (World S) unit, write_outcome e m w (body w) →
    write_outcome e m w (withAbort body signal w)) as Hab.
  { intros body Hb. unfold withAbort. destruct signal as [s|]; [|done]. destruct (aborted s); [apply Hsame|done]. }
  apply Hab. unfold write_outcome. destruct tx as [h|].
  - pose proof (on_part_writeRows w m e now Hrep Hv) as Hb.
    destruct (on_part _ w) as [[[]|err] w']; destruct Hb as [Ho Hb]; split; try done. by left.
  - pose proof (writeOwnTransaction_spec w m e now Hrep Hv) as Hb.
    destruct (writeOwnTransaction _ _ _ w) as [[[]|err] w']; destruct Hb as [Ho Hb]; by split.
Qed.

Lemma reads_spec w m hash tx signal : represents (walletId st) (table w) m →
  route tx w = (Ok tt, w) → signal_aborted signal = false →
  (hasPostgresUnsafeText hash = false → get st hash tx signal w = (Ok (m !! hash), w)) ∧
  ∃ es, getAll st tx signal w = (Ok es, w) ∧ StronglySorted entries_by_hash es ∧
    es ≡ₚ (map_to_list m).*2.
Proof.
  intros Hrep Htx Hsig.
  assert (∀ {A} (body : act (World S) A), withAbort body signal = body) as Hab.
  { intros. unfold withAbort. destruct signal as [s|]; [|done]. cbn in Hsig. by rewrite Hsig. }
  destruct (getAllImpl_spec (table w) m Hrep) as (es & Hes & Hsort & Hperm). split.
  - intros Hh. unfold get, mbind, action_bind, check. rewrite Htx, Hh, Hab.
    apply on_part_unchanged. by apply getImpl_spec.
  - exists es. unfold getAll, mbind, action_bind. rewrite Htx, Hab.
    split; [by apply on_part_unchanged|done].
Qed.

(** C20. The adapter implements a map from hashes to entries, one per wallet. From a store that
    represents a map: a [gotPending], [gotFinalized] or [gotRejected] that resolves had a valid
    entry and leaves the map with the merged entry — the entry itself on a first write — stored,
    minus the other pending entries whose identifiers are among its own if it settles them; one
    that rejects leaves the map as it was, or that same map when only the acknowledgement was lost,
    never the merge without the clearing; no other wallet's rows change; [get] returns what the map
    has; and [getAll] returns its entries, each once, in hash order. *)
Theorem txHistory_implements_map w m : represents (walletId st) (table w) m →
  (∀ now e tx signal, entry_dates_valid e = true →
    write_outcome e m w (write st now e tx signal w)) ∧
  (∀ hash tx signal, route tx w = (Ok tt, w) → signal_aborted signal = false →
    (hasPostgresUnsafeText hash = false → get st hash tx signal w = (Ok (m !! hash), w)) ∧
    ∃ es, getAll st tx signal w = (Ok es, w) ∧ StronglySorted entries_by_hash es ∧
      es ≡ₚ (map_to_list m).*2).
Proof. intros Hrep. split; intros; [by apply write_spec|by apply reads_spec]. Qed.
End refinement.

(** ** Witness: a finalized entry clears the pending one it supersedes *)

Definition incoming_wins : Storage := {| walletId := js "w"; mergeFn := λ _ b, Ok b |}.

Lemma incoming_wins_dates : merge_keeps_dates (mergeFn incoming_wins).
Proof. by intros a b r _ Hb [= <-]. Qed.

Definition history_entry (hash : jsstr) (ids : list jsstr) (l : EntryLifecycle)
    : TransactionHistoryEntry :=
  {| e_hash := hash; e_identifiers := ids; e_protocolVersion := None; e_status := None;
     e_timestamp := None; e_fees := None; e_lifecycle := l; e_sections := [] |}.

Definition pending_one := history_entry (js "h1") [js "a"] Pending.
Definition settled_two := history_entry (js "h2") [js "a"; js "b"] Finalized.

Definition pending_table : TxHistoryTable :=
  {[ (js "w", js "h1") :=
       {| r_entry := match encodeStoredEntry pending_one with Ok s => s | Err _ => JNull end;
          r_identifiers := [js "a"]; r_lifecycle := js "pending"; r_updated_at := 1 |} ]}.

Lemma pending_represented : represents (js "w") pending_table {[ js "h1" := pending_one ]}.
Proof.
  unfold pending_table. constructor.
  - intros h row [[= <-] <-]%lookup_singleton_Some. exists pending_one.
    split; [by rewrite lookup_singleton_eq|]. by split_and!.
  - intros h e [<- <-]%lookup_singleton_Some. split_and!; [done|done|].
    rewrite lookup_singleton_eq. eauto.
Qed.

Lemma txHistory_implements_map_witness :
  @write_outcome TxHistoryTable part_self incoming_wins settled_two {[ js "h1" := pending_one ]}
    (idle_world pending_table)
    (@write TxHistoryTable part_self rejecting_binding iso_dates no_faults incoming_wins 2 settled_two
       None None (idle_world pending_table)) ∧
  spec_store settled_two {[ js "h1" := pending_one ]} = {[ js "h2" := settled_two ]}.
Proof.
  split; [|vm_compute; reflexivity].
  apply (proj1 (@txHistory_implements_map TxHistoryTable part_self rejecting_binding c_collation
    iso_dates no_faults incoming_wins eq_refl incoming_wins_dates
    (idle_world pending_table) {[ js "h1" := pending_one ]} pending_represented)).
  reflexivity.
Defined.
