(* ===== verification/TxHistoryServer.v ===== *)
(** * Transaction history: several transactions writing at the same time

    [writeRows] of [src/postgres/transaction-history-storage.ts] takes an advisory lock on the
    wallet and hash, reads the row [FOR UPDATE], merges in JavaScript, stores the result and then
    clears the pending rows it supersedes. This file runs any number of such writes at once on a
    server at READ COMMITTED, PostgreSQL's default: the committed table, the open transactions with
    the locks each holds and the rows each has written, and one step per statement; the clearing
    [DELETE] takes one step for the snapshot it scans and one per row it found.

    A statement sees the rows committed when it runs and its own transaction's. One that has to lock
    a row or an advisory key another open transaction holds waits for that transaction to end, so
    its step is not enabled until then; the row is then looked at again. A write in its own
    transaction is a transaction of one write; with [opts.tx] a transaction may hold several. A
    refusal by the merge function or by a schema changes nothing on the server; an error of the
    server leaves its transaction only a rollback. Any transaction can be rolled back at any moment:
    its caller failed, its connection was lost, or it was the victim of a deadlock. *)

From S2P Require Import Prelude Text Literals Json Errors Transaction Driver.
From S2P Require Import TxHistoryCodec TxHistory.

Local Open Scope Z_scope.

(** The primary key of a row: [(wallet_id, tx_hash)]. *)
Abbreviation RowKey := (jsstr * jsstr)%type.

(** A committed write: the arguments, what was stored, and the rows it cleared. *)
Record HistWrite := {
  hw_storage : Storage;
  hw_entry : TransactionHistoryEntry;
  hw_result : TransactionHistoryEntry;
  hw_cleared : list RowKey;
}.

(** Where the transaction is in [writeRows], with the key of the row being written: between writes;
    holding the advisory lock; having read the row and merged; having stored the result, before the
    clearing [DELETE]; inside it, with the rows found and not yet visited and those deleted; or
    failed. *)
Inductive HistState :=
  | HRunning
  | HLocked (st : Storage) (entry : TransactionHistoryEntry) (k : RowKey)
  | HRead (st : Storage) (entry : TransactionHistoryEntry) (k : RowKey) (res : TransactionHistoryEntry)
  | HStored (st : Storage) (entry : TransactionHistoryEntry) (k : RowKey) (res : TransactionHistoryEntry)
  | HClearing (st : Storage) (entry : TransactionHistoryEntry) (k : RowKey)
      (res : TransactionHistoryEntry) (found cleared : list RowKey)
  | HFailed.

Record HistTx := {
  ht_now : Z;                                  (** [now()]: when the transaction started *)
  ht_state : HistState;
  ht_advisory : gset Z;                        (** the advisory locks it holds *)
  ht_locked : gset RowKey;                     (** the rows it has read [FOR UPDATE] *)
  ht_rows : gmap RowKey (option TxHistoryRow); (** the rows it has written; [None]: deleted *)
  ht_dead : gset RowKey;                       (** those whose stored version it has deleted *)
  ht_done : list HistWrite;
}.

(** The committed table, the open transactions, and the writes of the committed ones, with their
    times, in the order of their commits. *)
Record HistServer := {
  hs_table : TxHistoryTable;
  hs_active : gmap nat HistTx;
  hs_log : list (Z * list HistWrite);
}.

Definition hist_start (t : TxHistoryTable) : HistServer :=
  {| hs_table := t; hs_active := ∅; hs_log := [] |}.

(** What a statement of the transaction sees. *)
Definition hist_view (t : HistTx) (tbl : TxHistoryTable) : TxHistoryTable :=
  merge (λ own stored, match own with Some o => o | None => stored end) (ht_rows t) tbl.
Arguments hist_view : simpl never.

Definition ht_with_state (t : HistTx) (s : HistState) : HistTx :=
  {| ht_now := ht_now t; ht_state := s; ht_advisory := ht_advisory t; ht_locked := ht_locked t;
     ht_rows := ht_rows t; ht_dead := ht_dead t; ht_done := ht_done t |}.

Definition ht_finish (t : HistTx) (w : HistWrite) : HistTx :=
  {| ht_now := ht_now t; ht_state := HRunning; ht_advisory := ht_advisory t;
     ht_locked := ht_locked t; ht_rows := ht_rows t; ht_dead := ht_dead t;
     ht_done := ht_done t ++ [w] |}.

Definition hist_with_tx (i : nat) (t : HistTx) (g : HistServer) : HistServer :=
  {| hs_table := hs_table g; hs_active := <[i := t]> (hs_active g); hs_log := hs_log g |}.

(** ** Locks *)

(** The rows a transaction has locked: those it has read for update and those it has written. *)
Definition holds (t : HistTx) (k : RowKey) : Prop := k ∈ ht_locked t ∨ is_Some (ht_rows t !! k).
#[export] Instance holds_dec t k : Decision (holds t k).
Proof. unfold holds. apply _. Defined.

(** No other transaction than [i] has locked the row. *)
Definition row_unlocked (k : RowKey) (i : nat) (g : HistServer) : Prop :=
  map_Forall (λ j t, j = i ∨ ¬ holds t k) (hs_active g).
#[export] Instance row_unlocked_dec k i g : Decision (row_unlocked k i g).
Proof. unfold row_unlocked. apply _. Defined.

(** No transaction but [i] holds the advisory lock. *)
Definition advisory_free (l : Z) (i : nat) (g : HistServer) : Prop :=
  map_Forall (λ j t, j = i ∨ l ∉ ht_advisory t) (hs_active g).
#[export] Instance advisory_free_dec l i g : Decision (advisory_free l i g).
Proof. unfold advisory_free. apply _. Defined.

Section server.
Context `{!TextBinding} `{!DateParse} `{!HashText}.

(** The parameters of [writeRows]'s statements that name the row. *)
Definition bound_key (st : Storage) (hash : jsstr) : result thrown RowKey :=
  w ← bind_text (walletId st); h ← bind_text hash; Ok (w, h).

(** [hashtext(walletId || ':' || hash)], of lock class 4. *)
Definition advisory_key (k : RowKey) : Z := hashtext (k.1 ++ js ":" ++ k.2).

(** ** Steps *)

Inductive HistEvent :=
  | HistBegin (i : nat) (now : Z)
  | HistLock (i : nat) (st : Storage) (entry : TransactionHistoryEntry)
  | HistSelect (i : nat)
  | HistUpsert (i : nat)
  | HistScan (i : nat) (found : list RowKey)
  | HistClear (i : nat)
  | HistCommit (i : nat)
  | HistRollback (i : nat).

Definition hist_begin (i : nat) (now : Z) (g : HistServer) : option HistServer :=
  guard (hs_active g !! i = None);;
  Some (hist_with_tx i {| ht_now := now; ht_state := HRunning; ht_advisory := ∅; ht_locked := ∅;
                          ht_rows := ∅; ht_dead := ∅; ht_done := [] |} g).

Definition hist_running (t : HistTx) : bool := match ht_state t with HRunning => true | _ => false end.

(** [write] has validated the entry; the advisory lock is granted, for the transaction. *)
Definition hist_lock (i : nat) (st : Storage) (entry : TransactionHistoryEntry) (g : HistServer)
    : option HistServer :=
  t ← hs_active g !! i;
  guard (hist_running t = true);;
  guard (TransactionHistoryEntrySchema entry = true);;
  match bound_key st (e_hash entry) with
  | Ok k =>
      guard (advisory_free (advisory_key k) i g);;
      Some (hist_with_tx i
        {| ht_now := ht_now t; ht_state := HLocked st entry k;
           ht_advisory := {[ advisory_key k ]} ∪ ht_advisory t; ht_locked := ht_locked t;
           ht_rows := ht_rows t; ht_dead := ht_dead t; ht_done := ht_done t |} g)
  | Err _ => Some (hist_with_tx i (ht_with_state t HFailed) g)
  end.

(** [SELECT .. FOR UPDATE] locks the row if there is one; then the existing entry, if any, and the
    incoming one are merged. *)
Definition hist_select (i : nat) (g : HistServer) : option HistServer :=
  t ← hs_active g !! i;
  match ht_state t with
  | HLocked st entry k =>
      let row := hist_view t (hs_table g) !! k in
      guard (is_Some row → row_unlocked k i g);;
      let s :=
        match (ex ← entry_or_undefined (e_hash entry) row; merge_with st entry ex) with
        | Ok res => HRead st entry k res
        | Err _ => HRunning
        end in
      Some (hist_with_tx i
        {| ht_now := ht_now t; ht_state := s; ht_advisory := ht_advisory t;
           ht_locked := match row with Some _ => {[ k ]} ∪ ht_locked t | None => ht_locked t end;
           ht_rows := ht_rows t; ht_dead := ht_dead t; ht_done := ht_done t |} g)
  | _ => None
  end.

(** Whether the [DELETE] of superseded pending rows is sent. *)
Definition clearing (res : TransactionHistoryEntry) : bool :=
  terminal (e_lifecycle res) && negb (bool_decide (e_identifiers res = [])).

(** [INSERT .. ON CONFLICT DO UPDATE]; encoding the entry can throw before it is sent. *)
Definition hist_upsert (i : nat) (g : HistServer) : option HistServer :=
  t ← hs_active g !! i;
  match ht_state t with
  | HRead st entry k res =>
      match encodeStoredEntry res with
      | Err _ => Some (hist_with_tx i (ht_with_state t HRunning) g)
      | Ok _ =>
          guard (row_unlocked k i g);;
          match upsert_entry st (ht_now t) res (hist_view t (hs_table g)) with
          | (Err _, _) => Some (hist_with_tx i (ht_with_state t HFailed) g)
          | (Ok _, tbl) =>
              let t' := {| ht_now := ht_now t; ht_state := HStored st entry k res;
                           ht_advisory := ht_advisory t; ht_locked := ht_locked t;
                           ht_rows := <[k := tbl !! k]> (ht_rows t); ht_dead := ht_dead t;
                           ht_done := ht_done t |} in
              Some (hist_with_tx i
                (if clearing res then t'
                 else ht_finish t' {| hw_storage := st; hw_entry := entry; hw_result := res;
                                      hw_cleared := [] |}) g)
          end
      end
  | _ => None
  end.

(** The rows the [DELETE] finds in what it sees. *)
Definition superseded_rows (k : RowKey) (res : TransactionHistoryEntry) (tbl : TxHistoryTable)
    : TxHistoryTable :=
  filter (λ p : RowKey * TxHistoryRow, clears k.1 k.2 (e_identifiers res) p.1 p.2 = true) tbl.

(** The [DELETE] starts: it finds its rows, in whatever order the server scans the table. *)
Definition hist_scan (i : nat) (found : list RowKey) (g : HistServer) : option HistServer :=
  t ← hs_active g !! i;
  match ht_state t with
  | HStored st entry k res =>
      guard (clearing res = true);;
      guard (NoDup found);;
      guard (list_to_set found = dom (superseded_rows k res (hist_view t (hs_table g))));;
      Some (hist_with_tx i (ht_with_state t (HClearing st entry k res found [])) g)
  | _ => None
  end.

(** It locks the next row, looks at it again and deletes it if it still qualifies; after the last
    one the write is done. *)
Definition hist_clear (i : nat) (g : HistServer) : option HistServer :=
  t ← hs_active g !! i;
  match ht_state t with
  | HClearing st entry k res [] cleared =>
      Some (hist_with_tx i (ht_finish t {| hw_storage := st; hw_entry := entry; hw_result := res;
                                           hw_cleared := cleared |}) g)
  | HClearing st entry k res (r :: found) cleared =>
      guard (row_unlocked r i g);;
      match superseded_rows k res (hist_view t (hs_table g)) !! r with
      | None => Some (hist_with_tx i (ht_with_state t (HClearing st entry k res found cleared)) g)
      | Some _ =>
          Some (hist_with_tx i
            {| ht_now := ht_now t; ht_state := HClearing st entry k res found (cleared ++ [r]);
               ht_advisory := ht_advisory t; ht_locked := ht_locked t;
               ht_rows := <[r := None]> (ht_rows t); ht_dead := {[ r ]} ∪ ht_dead t;
               ht_done := ht_done t |} g)
      end
  | _ => None
  end.

(** A row version that a scan found and that is now deleted for good is not looked at again, even
    if its key has a new row. *)
Definition forget_dead (dead : gset RowKey) (t : HistTx) : HistTx :=
  match ht_state t with
  | HClearing st entry k res found cleared =>
      ht_with_state t (HClearing st entry k res (filter (λ r, r ∉ dead) found) cleared)
  | _ => t
  end.

Definition hist_commit (i : nat) (g : HistServer) : option HistServer :=
  t ← hs_active g !! i;
  guard (hist_running t = true);;
  Some {| hs_table := hist_view t (hs_table g);
          hs_active := forget_dead (ht_dead t) <$> delete i (hs_active g);
          hs_log := hs_log g ++ [(ht_now t, ht_done t)] |}.

Definition hist_rollback (i : nat) (g : HistServer) : option HistServer :=
  guard (is_Some (hs_active g !! i));;
  Some {| hs_table := hs_table g; hs_active := delete i (hs_active g); hs_log := hs_log g |}.

Definition hist_event (e : HistEvent) : HistServer → option HistServer :=
  match e with
  | HistBegin i now => hist_begin i now
  | HistLock i st entry => hist_lock i st entry
  | HistSelect i => hist_select i
  | HistUpsert i => hist_upsert i
  | HistScan i found => hist_scan i found
  | HistClear i => hist_clear i
  | HistCommit i => hist_commit i
  | HistRollback i => hist_rollback i
  end.

(** A run: the events in order, each enabled when its turn comes. *)
Fixpoint hist_run (es : list HistEvent) (g : HistServer) : option HistServer :=
  match es with
  | [] => Some g
  | e :: es' => g' ← hist_event e g; hist_run es' g'
  end.

(** ** The serial specification *)

(** [writeRows] up to the stored entry: the row as it is, merged with the incoming entry. *)
Definition merge_row (st : Storage) (now : Z) (entry : TransactionHistoryEntry)
    : act TxHistoryTable TransactionHistoryEntry :=
  rethrow th_catch
    (advisory_xact_lock st (e_hash entry) ;;
     row ← select_row st (e_hash entry);
     existing ← check (entry_or_undefined (e_hash entry) row);
     res ← check (merge_with st entry existing);
     upsert_entry st now res ;;
     mret res).

(** Deleting rows one by one, each a row that [res], stored under [k], supersedes. *)
Fixpoint serial_clear (k : RowKey) (res : TransactionHistoryEntry) (rs : list RowKey)
    (tbl tbl' : TxHistoryTable) : Prop :=
  match rs with
  | [] => tbl' = tbl
  | r :: rs' =>
      is_Some (superseded_rows k res tbl !! r) ∧ serial_clear k res rs' (delete r tbl) tbl'
  end.

(** A write with nobody else writing: it merges into the row it finds, and clears rows that are
    superseded by then, none unless it settles its entry. *)
Definition serial_write (now : Z) (w : HistWrite) (tbl tbl' : TxHistoryTable) : Prop :=
  TransactionHistoryEntrySchema (hw_entry w) = true ∧
  ∃ k tbl1,
    bound_key (hw_storage w) (e_hash (hw_entry w)) = Ok k ∧
    merge_row (hw_storage w) now (hw_entry w) tbl = (Ok (hw_result w), tbl1) ∧
    (clearing (hw_result w) = false → hw_cleared w = []) ∧
    serial_clear k (hw_result w) (hw_cleared w) tbl1 tbl'.

Fixpoint serial_writes (now : Z) (ws : list HistWrite) (tbl tbl' : TxHistoryTable) : Prop :=
  match ws with
  | [] => tbl' = tbl
  | w :: ws' => ∃ tbl1, serial_write now w tbl tbl1 ∧ serial_writes now ws' tbl1 tbl'
  end.

(** Transactions one after the other. *)
Fixpoint serial_history (log : list (Z * list HistWrite)) (tbl tbl' : TxHistoryTable) : Prop :=
  match log with
  | [] => tbl' = tbl
  | (now, ws) :: log' => ∃ tbl1, serial_writes now ws tbl tbl1 ∧ serial_history log' tbl1 tbl'
  end.

End server.
