(* ===== verification/TxHistoryServerSpec.v ===== *)
(** * Transaction history: concurrent writers, the invariant

    A write reads and stores one row and deletes others; what an open transaction has written does
    not depend on rows that it has not touched. Two open transactions never touch the same row: a
    row that exists is locked when it is read, and the first write of a hash is ordered by the
    advisory lock, since there is no row to lock yet. *)

From S2P Require Import Prelude Text Literals Json Errors Transaction Driver.
From S2P Require Import TxHistoryCodec TxHistory TxHistoryServer.

Local Open Scope Z_scope.

(** ** What a transaction sees *)

Lemma hist_view_lookup t tbl k :
  hist_view t tbl !! k = match ht_rows t !! k with Some o => o | None => tbl !! k end.
Proof.
  unfold hist_view. rewrite lookup_merge. by destruct (ht_rows t !! k) as [[]|], (tbl !! k).
Qed.

Lemma hist_view_untouched t tbl k : ¬ holds t k → hist_view t tbl !! k = tbl !! k.
Proof.
  intros Hk. rewrite hist_view_lookup. destruct (ht_rows t !! k) eqn:E; [|done].
  destruct Hk. right. by rewrite E.
Qed.

(** The view of a transaction with one more row written. *)
Lemma hist_view_write t t' k o tbl :
  ht_rows t' = <[k := o]> (ht_rows t) →
  hist_view t' tbl = partial_alter (λ _, o) k (hist_view t tbl).
Proof.
  intros Hr. apply map_eq. intros k'. rewrite hist_view_lookup, Hr.
  destruct (decide (k' = k)) as [->|Hne].
  - by rewrite lookup_insert_eq, lookup_partial_alter_eq.
  - by rewrite lookup_insert_ne, lookup_partial_alter_ne, hist_view_lookup by done.
Qed.

Lemma hist_view_same t t' tbl : ht_rows t' = ht_rows t → hist_view t' tbl = hist_view t tbl.
Proof. unfold hist_view. by intros ->. Qed.

Lemma superseded_rows_lookup k res tbl tbl' r :
  tbl !! r = tbl' !! r → superseded_rows k res tbl !! r = superseded_rows k res tbl' !! r.
Proof. intros E. unfold superseded_rows. by rewrite !map_lookup_filter, E. Qed.

Section invariant.
Context `{!TextBinding} `{!DateParse} `{!HashText}.

(** ** Serial execution *)

Lemma serial_writes_app now ws1 ws2 tbl tbl' :
  serial_writes now (ws1 ++ ws2) tbl tbl' ↔
    ∃ m, serial_writes now ws1 tbl m ∧ serial_writes now ws2 m tbl'.
Proof.
  revert tbl. induction ws1 as [|w ws1 IH]; intros tbl; cbn; [naive_solver|].
  setoid_rewrite IH. naive_solver.
Qed.

Lemma serial_writes_snoc now ws w tbl tbl' :
  serial_writes now (ws ++ [w]) tbl tbl' ↔
    ∃ m, serial_writes now ws tbl m ∧ serial_write now w m tbl'.
Proof. rewrite serial_writes_app. cbn. naive_solver. Qed.

Lemma serial_history_snoc log now ws tbl tbl1 tbl2 :
  serial_history log tbl tbl1 → serial_writes now ws tbl1 tbl2 →
  serial_history (log ++ [(now, ws)]) tbl tbl2.
Proof.
  revert tbl. induction log as [|[n vs] log IH]; intros tbl; cbn; [|naive_solver].
  intros -> Hs. by exists tbl2.
Qed.

Lemma serial_clear_snoc k res rs r tbl tbl' :
  serial_clear k res rs tbl tbl' → is_Some (superseded_rows k res tbl' !! r) →
  serial_clear k res (rs ++ [r]) tbl (delete r tbl').
Proof.
  revert tbl. induction rs as [|r' rs IH]; intros tbl; cbn; [by intros ->|naive_solver].
Qed.

Lemma bound_key_ok st hash k :
  bound_key st hash = Ok k → bind_text (walletId st) = Ok k.1 ∧ bind_text hash = Ok k.2.
Proof.
  unfold bound_key. unfold_action. destruct (bind_text (walletId st)), (bind_text hash); try done.
  by intros [= <-].
Qed.

Lemma merge_with_hash st entry ex res :
  merge_with st entry ex = Ok res → e_hash res = e_hash entry.
Proof.
  destruct ex as [ex|]; cbn; [|by intros [= <-]].
  destruct (mergeFn st ex entry) as [m|]; cbn; [|done].
  destruct (decide _); [|done]. destruct (TransactionHistoryEntrySchema m); [|done]. by intros [= <-].
Qed.

(** What [merge_row] does once its row is decoded and merged. *)
Lemma merge_row_run st now entry k res stored tbl :
  bound_key st (e_hash entry) = Ok k →
  (ex ← entry_or_undefined (e_hash entry) (tbl !! k); merge_with st entry ex) = Ok res →
  encodeStoredEntry res = Ok stored →
  let row := {| r_entry := stored; r_identifiers := e_identifiers res;
                r_lifecycle := lifecycle_text (e_lifecycle res); r_updated_at := now |} in
  upsert_entry st now res tbl = (Ok tt, <[k := row]> tbl) ∧
  merge_row st now entry tbl = (Ok res, <[k := row]> tbl).
Proof.
  intros [Hw Hh]%bound_key_ok Hm He row. destruct k as [w h]. cbn in Hw, Hh.
  destruct (entry_or_undefined (e_hash entry) (tbl !! (w, h))) as [ex|] eqn:Hex; cbn in Hm; [|done].
  pose proof (merge_with_hash _ _ _ _ Hm) as Hhash.
  assert (upsert_entry st now res tbl = (Ok tt, <[(w, h) := row]> tbl)) as Hup.
  { unfold upsert_entry, statement, mbind, result_bind. by rewrite He, Hhash, Hw, Hh. }
  split; [done|].
  unfold merge_row, rethrow, advisory_xact_lock, select_row, check, mbind, action_bind, result_bind.
  by rewrite Hw, Hh, Hex, Hm, Hup.
Qed.

(** ** Where a transaction is *)

(** The write it is in, with the key it holds the advisory lock of. *)
Definition writing (s : HistState) : option (Storage * TransactionHistoryEntry * RowKey) :=
  match s with
  | HLocked st entry k | HRead st entry k _ | HStored st entry k _ | HClearing st entry k _ _ _ =>
      Some (st, entry, k)
  | HRunning | HFailed => None
  end.

(** The row it has read and will store. *)
Definition reading (s : HistState) : option RowKey :=
  match s with HRead _ _ k _ => Some k | _ => None end.

(** The write it has stored and not finished. *)
Definition in_flight (s : HistState) : list HistWrite :=
  match s with
  | HStored st entry k res =>
      [{| hw_storage := st; hw_entry := entry; hw_result := res; hw_cleared := [] |}]
  | HClearing st entry k res _ cleared =>
      [{| hw_storage := st; hw_entry := entry; hw_result := res; hw_cleared := cleared |}]
  | _ => []
  end.

(** The result it stored, when it clears what that supersedes. *)
Definition settling (s : HistState) : option TransactionHistoryEntry :=
  match s with HStored _ _ _ res | HClearing _ _ _ res _ _ => Some res | _ => None end.

Definition touches (t : HistTx) (k : RowKey) : Prop := holds t k ∨ reading (ht_state t) = Some k.

Definition agree (t : HistTx) (tbl tbl' : TxHistoryTable) : Prop :=
  ∀ k, holds t k → tbl' !! k = tbl !! k.

(** ** The invariant *)

(** A write in progress holds its advisory lock. A row the transaction has locked exists, or is one
    whose advisory lock it holds. What it read and merged is still there. Its writes are what they do
    one after the other, on the committed table and on any other that agrees with it on the rows the
    transaction has locked. *)
Record ht_ok (tbl : TxHistoryTable) (t : HistTx) : Prop := {
  to_writing st entry k : writing (ht_state t) = Some (st, entry, k) →
    advisory_key k ∈ ht_advisory t ∧ bound_key st (e_hash entry) = Ok k ∧
    TransactionHistoryEntrySchema entry = true;
  to_holds k : holds t k → advisory_key k ∈ ht_advisory t ∨ is_Some (tbl !! k);
  to_read st entry k res : ht_state t = HRead st entry k res →
    (holds t k ∨ tbl !! k = None) ∧
    (ex ← entry_or_undefined (e_hash entry) (hist_view t tbl !! k); merge_with st entry ex) = Ok res;
  to_settling res : settling (ht_state t) = Some res → clearing res = true;
  to_serial tbl' : agree t tbl tbl' →
    serial_writes (ht_now t) (ht_done t ++ in_flight (ht_state t)) tbl' (hist_view t tbl');
}.

Definition rows_apart (g : HistServer) : Prop :=
  ∀ i j ti tj k, i ≠ j → hs_active g !! i = Some ti → hs_active g !! j = Some tj →
    touches ti k → ¬ touches tj k.

Definition advisory_apart (g : HistServer) : Prop :=
  ∀ i j ti tj l, i ≠ j → hs_active g !! i = Some ti → hs_active g !! j = Some tj →
    l ∈ ht_advisory ti → l ∉ ht_advisory tj.

Record hs_inv (tbl0 : TxHistoryTable) (g : HistServer) : Prop := {
  hi_serial : serial_history (hs_log g) tbl0 (hs_table g);
  hi_tx : map_Forall (λ _, ht_ok (hs_table g)) (hs_active g);
  hi_rows : rows_apart g;
  hi_advisory : advisory_apart g;
}.

Lemma hs_inv_start tbl : hs_inv tbl (hist_start tbl).
Proof. split; cbn; try done. Qed.

(** ** What a step of one transaction has to show *)

Lemma hs_inv_with_tx tbl0 i t t' g :
  hs_inv tbl0 g → hs_active g !! i = Some t → ht_ok (hs_table g) t' →
  (∀ j tj k, j ≠ i → hs_active g !! j = Some tj → touches t' k → touches t k ∨ ¬ touches tj k) →
  (∀ l, l ∈ ht_advisory t' → l ∈ ht_advisory t ∨ advisory_free l i g) →
  hs_inv tbl0 (hist_with_tx i t' g).
Proof.
  intros [Hs Ht Hr Ha] Hi Hok Htouch Hadv. split; cbn; [done|by apply map_Forall_insert_2|..].
  - assert (∀ j tj k, j ≠ i → hs_active g !! j = Some tj → touches t' k → ¬ touches tj k) as Hnew.
    { intros j tj k Hne Hj Hk. destruct (Htouch j tj k Hne Hj Hk) as [Hold|]; [|done].
      by eapply (Hr i j). }
    intros a b ta tb k Hne. cbn. rewrite !lookup_insert_Some.
    intros [[<- <-]|[Hia Hta]] [[Hib <-]|[Hib Htb]] Hk; [done|by eapply Hnew| |by eapply (Hr a b)].
    subst b. intros Hk'. by eapply (Hnew a ta k).
  - assert (∀ j tj l, j ≠ i → hs_active g !! j = Some tj → l ∈ ht_advisory t' → l ∉ ht_advisory tj)
      as Hnew.
    { intros j tj l Hne Hj Hl. destruct (Hadv l Hl) as [Hold|Hfree]; [by eapply (Ha i j)|].
      by destruct (Hfree j tj Hj) as [->|]. }
    intros a b ta tb l Hne. cbn. rewrite !lookup_insert_Some.
    intros [[<- <-]|[Hia Hta]] [[Hib <-]|[Hib Htb]] Hl; [done|by eapply Hnew| |by eapply (Ha a b)].
    subst b. intros Hl'. by eapply (Hnew a ta l).
Qed.

(** The holder of the advisory lock of a row is alone with it, if it has locked the row or there is
    none. *)
Lemma advisory_alone tbl0 i t g k j tj :
  hs_inv tbl0 g → hs_active g !! i = Some t → advisory_key k ∈ ht_advisory t →
  (is_Some (hist_view t (hs_table g) !! k) → row_unlocked k i g) →
  j ≠ i → hs_active g !! j = Some tj → touches t k ∨ ¬ touches tj k.
Proof.
  intros Hg Hi Hk Hfree Hne Hj. destruct (decide (holds t k)) as [Hh|Hh]; [by left; left|right].
  assert (advisory_key k ∉ ht_advisory tj) as Hna by (eapply (hi_advisory _ _ Hg i j); eauto).
  pose proof (hi_tx _ _ Hg j tj Hj) as Hokj. intros [Hhj|Hrj].
  - rewrite (hist_view_untouched t _ k Hh) in Hfree.
    destruct (to_holds _ _ Hokj k Hhj) as [|Hsome]; [done|].
    destruct (Hfree Hsome j tj Hj) as [->|]; done.
  - destruct (ht_state tj) eqn:Hst; try done. injection Hrj as ->.
    destruct (to_writing _ _ Hokj st entry k) as [? _]; [by rewrite Hst|done].
Qed.

(** Who locks a row it sees is alone with it. *)
Lemma locked_alone tbl0 i t g k j tj :
  hs_inv tbl0 g → hs_active g !! i = Some t → is_Some (hist_view t (hs_table g) !! k) →
  row_unlocked k i g → j ≠ i → hs_active g !! j = Some tj → touches t k ∨ ¬ touches tj k.
Proof.
  intros Hg Hi Hk Hfree Hne Hj. destruct (decide (holds t k)) as [Hh|Hh]; [by left; left|right].
  rewrite (hist_view_untouched t _ k Hh) in Hk. pose proof (hi_tx _ _ Hg j tj Hj) as Hokj.
  assert (¬ holds tj k) as Hnh by (destruct (Hfree j tj Hj) as [->|]; done).
  intros [|Hrj]; [done|]. destruct (ht_state tj) eqn:Hst; try done. injection Hrj as ->.
  destruct (to_read _ _ Hokj st entry k res Hst) as [[?|Hnone] _]; [done|].
  rewrite Hnone in Hk. by destruct Hk.
Qed.

(** ** Committed changes elsewhere do not matter *)

Lemma ht_ok_agree t tbl tbl' :
  (∀ k, touches t k → tbl' !! k = tbl !! k) → ht_ok tbl t → ht_ok tbl' t.
Proof.
  intros Ha [Hw Hh Hr Hse Hs]. split; [done| | |done|].
  - intros k Hk. rewrite (Ha k) by (by left). by apply Hh.
  - intros st entry k res Hst. assert (touches t k) as Hk by (right; by rewrite Hst).
    rewrite hist_view_lookup, (Ha k Hk), <-hist_view_lookup. by eapply Hr.
  - intros tbl2 Ha2. apply Hs. intros k Hk. rewrite (Ha2 k Hk). apply Ha. by left.
Qed.

Lemma forget_dead_same dead t :
  ht_now (forget_dead dead t) = ht_now t ∧ ht_advisory (forget_dead dead t) = ht_advisory t ∧
  ht_locked (forget_dead dead t) = ht_locked t ∧ ht_rows (forget_dead dead t) = ht_rows t ∧
  ht_done (forget_dead dead t) = ht_done t ∧
  writing (ht_state (forget_dead dead t)) = writing (ht_state t) ∧
  reading (ht_state (forget_dead dead t)) = reading (ht_state t) ∧
  settling (ht_state (forget_dead dead t)) = settling (ht_state t) ∧
  in_flight (ht_state (forget_dead dead t)) = in_flight (ht_state t) ∧
  (∀ st entry k res, ht_state (forget_dead dead t) = HRead st entry k res →
     ht_state t = HRead st entry k res).
Proof. unfold forget_dead. destruct (ht_state t) eqn:E; by rewrite ?E; cbn. Qed.

Lemma holds_forget dead t k : holds (forget_dead dead t) k ↔ holds t k.
Proof. unfold holds. by destruct (forget_dead_same dead t) as (_ & _ & -> & -> & _). Qed.

Lemma touches_forget dead t k : touches (forget_dead dead t) k ↔ touches t k.
Proof.
  unfold touches. rewrite holds_forget.
  by destruct (forget_dead_same dead t) as (_ & _ & _ & _ & _ & _ & -> & _).
Qed.

Lemma ht_ok_forget dead tbl t : ht_ok tbl t → ht_ok tbl (forget_dead dead t).
Proof.
  intros [Hw Hh Hr Hse Hs].
  destruct (forget_dead_same dead t) as (En & Ea & _ & Er & Ed & Ew & _ & Ese & Ef & Est).
  split.
  - rewrite Ew, Ea. apply Hw.
  - intros k. rewrite holds_forget, Ea. apply Hh.
  - intros st entry k res Hst. rewrite holds_forget, (hist_view_same t) by done.
    by apply (Hr st entry k res), Est.
  - by rewrite Ese.
  - intros tbl' Ha. rewrite En, Ed, Ef, (hist_view_same t) by done. apply Hs.
    intros k Hk. apply Ha. by rewrite holds_forget.
Qed.

End invariant.
