(* ===== verification/TxHistoryServerTheorems.v ===== *)
(** * Transaction history: concurrent writers are serial

    Every event keeps the invariant of [TxHistoryServerSpec]; the theorem about a run of the server
    follows, then a write that runs alone, which does what [writeRows] does, and a concrete race. *)

From S2P Require Import Prelude Text Literals Json Errors Transaction Driver.
From S2P Require Import TxHistoryCodec TxHistory TxHistorySpec TxHistoryServer TxHistoryServerSpec.

Local Open Scope Z_scope.

Section theorems.
Context `{!TextBinding} `{!DateParse} `{!HashText}.

(** ** Steps of one transaction *)

Lemma ht_ok_begin tbl now :
  ht_ok tbl {| ht_now := now; ht_state := HRunning; ht_advisory := ∅; ht_locked := ∅;
               ht_rows := ∅; ht_dead := ∅; ht_done := [] |}.
Proof.
  split; cbn; try done.
  - intros k [Hk|[o Ho]]; [set_solver|done].
  - intros tbl' _. apply map_eq. intros k. by rewrite hist_view_lookup.
Qed.

(** Giving up a write before it has stored anything. *)
Lemma ht_ok_give_up tbl t s :
  in_flight (ht_state t) = [] → s = HRunning ∨ s = HFailed → ht_ok tbl t →
  ht_ok tbl (ht_with_state t s).
Proof.
  intros Hf Hs [Hw Hh Hr Hse Hser]. rewrite Hf in Hser.
  split; cbn; by destruct Hs as [->| ->].
Qed.

(** Taking the advisory lock. *)
Lemma ht_ok_locked tbl t st entry k :
  ht_state t = HRunning → bound_key st (e_hash entry) = Ok k →
  TransactionHistoryEntrySchema entry = true → ht_ok tbl t →
  ht_ok tbl {| ht_now := ht_now t; ht_state := HLocked st entry k;
               ht_advisory := {[ advisory_key k ]} ∪ ht_advisory t; ht_locked := ht_locked t;
               ht_rows := ht_rows t; ht_dead := ht_dead t; ht_done := ht_done t |}.
Proof.
  intros Hst Hk Hv [Hw Hh Hr Hse Hser]. split; cbn; try done.
  - intros st' entry' k' [= <- <- <-]. split_and!; [set_solver|done..].
  - intros k' Hk'. destruct (Hh k' Hk'); [left; set_solver|by right].
  - intros tbl' Ha. rewrite Hst in Hser. rewrite (hist_view_same t) by done. by apply Hser.
Qed.

(** Reading the row. *)
Lemma ht_ok_selected tbl t st entry k s locked :
  ht_state t = HLocked st entry k →
  s = match (ex ← entry_or_undefined (e_hash entry) (hist_view t tbl !! k); merge_with st entry ex) with
      | Ok res => HRead st entry k res
      | Err _ => HRunning
      end →
  locked = match hist_view t tbl !! k with Some _ => {[ k ]} ∪ ht_locked t | None => ht_locked t end →
  ht_ok tbl t →
  ht_ok tbl {| ht_now := ht_now t; ht_state := s; ht_advisory := ht_advisory t; ht_locked := locked;
               ht_rows := ht_rows t; ht_dead := ht_dead t; ht_done := ht_done t |}.
Proof.
  intros Hst Hs Hl [Hw Hh Hr Hse Hser]. rewrite Hst in Hw, Hser.
  destruct (Hw st entry k eq_refl) as (Hadv & Hb & Hv).
  set (t' := {| ht_locked := locked |}).
  assert (∀ k', holds t k' → holds t' k') as Hmore.
  { intros k' [Hk'|Hk']; [left|by right]. cbn. subst locked. destruct (hist_view t tbl !! k); set_solver. }
  assert (∀ k', holds t' k' → holds t k' ∨ k' = k) as Honly.
  { intros k' [Hk'|Hk']; [|by left; right]. cbn in Hk'. unfold holds. subst locked.
    destruct (hist_view t tbl !! k); set_solver. }
  assert (in_flight s = [] ∧ settling s = None ∧
    ∀ st' e' k' res, s = HRead st' e' k' res → st' = st ∧ e' = entry ∧ k' = k) as (Hf & Hset & Hrd).
  { by subst s; destruct (mbind _ _); split_and!; try intros ?? ? ? [= <- <- <-]. }
  split.
  - intros st' e' k'. subst s. cbn. destruct (mbind _ _); cbn; [by intros [= <- <- <-]|done].
  - intros k' [Hk'| ->]%Honly; [by apply Hh|by left].
  - intros st' e' k' res' Hs'. cbn in Hs'. pose proof (Hrd _ _ _ _ Hs') as (-> & -> & ->). split.
    + destruct (decide (holds t k)) as [Hk|Hk]; [by left; apply Hmore|].
      rewrite hist_view_untouched in Hl by done. destruct (tbl !! k) eqn:Hrow; [|by right].
      left. left. cbn. subst locked. set_solver.
    + change (hist_view t' tbl) with (hist_view t tbl). rewrite Hs in Hs'.
      destruct (mbind _ _); [by injection Hs' as ->|done].
  - cbn. by rewrite Hset.
  - intros tbl' Ha. cbn. rewrite Hf. apply Hser. intros k' Hk'. by apply Ha, Hmore.
Qed.

Definition stored_write (st : Storage) (entry res : TransactionHistoryEntry) : HistWrite :=
  {| hw_storage := st; hw_entry := entry; hw_result := res; hw_cleared := [] |}.

(** Storing the row. *)
Lemma ht_ok_stored tbl t st entry k res stored t' tbl1 :
  ht_state t = HRead st entry k res → encodeStoredEntry res = Ok stored →
  upsert_entry st (ht_now t) res (hist_view t tbl) = (Ok tt, tbl1) →
  ht_now t' = ht_now t → ht_advisory t' = ht_advisory t → ht_locked t' = ht_locked t →
  ht_rows t' = <[k := tbl1 !! k]> (ht_rows t) →
  ht_state t' = (if clearing res then HStored st entry k res else HRunning) →
  ht_done t' = ht_done t ++ (if clearing res then [] else [stored_write st entry res]) →
  ht_ok tbl t → ht_ok tbl t'.
Proof.
  intros Hst He Hup Hn Had Hlk Hrows Hst' Hd [Hw Hh Hr Hse Hser]. rewrite Hst in Hw, Hser.
  destruct (Hw st entry k eq_refl) as (Hadv & Hb & Hv).
  destruct (Hr st entry k res Hst) as [_ Hm].
  assert (∀ k', holds t' k' ↔ holds t k' ∨ k' = k) as Hholds.
  { intros k'. unfold holds. rewrite Hlk, Hrows, lookup_insert_is_Some'. naive_solver. }
  split.
  - rewrite Hst', Had. destruct (clearing res); cbn; [|done]. by intros st' entry' k' [= <- <- <-].
  - intros k'. rewrite Hholds, Had. intros [Hk| ->]; [by apply Hh|by left].
  - rewrite Hst'. by destruct (clearing res).
  - rewrite Hst'. destruct (clearing res) eqn:Hc; cbn; [|done]. by intros res' [= <-].
  - intros tbl' Ha.
    assert (hist_view t tbl' !! k = hist_view t tbl !! k) as Hk.
    { rewrite !hist_view_lookup. destruct (ht_rows t !! k); [done|]. apply Ha, Hholds. by right. }
    pose proof (merge_row_run st (ht_now t) entry k res stored (hist_view t tbl) Hb Hm He) as [Hup' _].
    rewrite Hup' in Hup. injection Hup as <-. rewrite lookup_insert_eq in Hrows.
    rewrite (hist_view_write t t' k _ tbl' Hrows), Hn.
    replace (ht_done t' ++ in_flight (ht_state t')) with (ht_done t ++ [stored_write st entry res])
      by (rewrite Hd, Hst'; by destruct (clearing res); rewrite <-?app_assoc).
    apply serial_writes_snoc. exists (hist_view t tbl'). split.
    { rewrite app_nil_r in Hser. apply Hser. intros k' Hk'. apply Ha, Hholds. by left. }
    split; [done|]. exists k. eexists. split_and!; [done| |done|reflexivity].
    cbn [hw_storage hw_entry hw_result stored_write]. rewrite <-Hk in Hm.
    by apply (merge_row_run st (ht_now t) entry k res stored (hist_view t tbl')).
Qed.
(** Starting the [DELETE], and finding that a row no longer qualifies, change no row. *)
Lemma ht_ok_same_flight tbl t s :
  writing s = writing (ht_state t) → in_flight s = in_flight (ht_state t) →
  settling s = settling (ht_state t) → reading s = None → ht_ok tbl t → ht_ok tbl (ht_with_state t s).
Proof.
  intros Ew Ef Es Er [Hw Hh Hr Hse Hser]. split; cbn; rewrite ?Ew, ?Ef, ?Es; try done.
  intros st entry k res ->. done.
Qed.

(** Deleting a superseded row. *)
Lemma ht_ok_cleared tbl t st entry k res r found cleared :
  ht_state t = HClearing st entry k res (r :: found) cleared →
  is_Some (superseded_rows k res (hist_view t tbl) !! r) → ht_ok tbl t →
  ht_ok tbl {| ht_now := ht_now t; ht_state := HClearing st entry k res found (cleared ++ [r]);
               ht_advisory := ht_advisory t; ht_locked := ht_locked t;
               ht_rows := <[r := None]> (ht_rows t); ht_dead := {[ r ]} ∪ ht_dead t;
               ht_done := ht_done t |}.
Proof.
  intros Hst Hsup [Hw Hh Hr Hse Hser]. rewrite Hst in Hw, Hse, Hser.
  set (t' := {| ht_rows := <[r := None]> (ht_rows t) |}).
  destruct (Hw st entry k eq_refl) as (Hadv & Hb & Hv).
  assert (∀ k', holds t' k' ↔ holds t k' ∨ k' = r) as Hholds.
  { intros k'. unfold holds. cbn. rewrite lookup_insert_is_Some'. naive_solver. }
  split; cbn; try done.
  - intros k'. rewrite Hholds. intros [Hk| ->]; [by apply Hh|].
    destruct (decide (holds t r)) as [Hk|Hk]; [by apply Hh|right]. destruct Hsup as [row Hrow].
    rewrite <-(hist_view_untouched t tbl r Hk). unfold superseded_rows in Hrow.
    apply map_lookup_filter_Some in Hrow as [Hrow _]. by rewrite Hrow.
  - intros tbl' Ha. rewrite (hist_view_write t t' r None tbl' eq_refl).
    apply serial_writes_snoc.
    assert (agree t tbl tbl') as Ha' by (intros k' Hk'; apply Ha, Hholds; by left).
    apply Hser, serial_writes_snoc in Ha' as (m & Hs & (_ & k0 & m1 & Hb0 & Hm & Hc & Hcl)).
    cbn in Hb0, Hm, Hcl. rewrite Hb in Hb0. injection Hb0 as <-.
    exists m. split; [done|]. split; [done|]. exists k, m1. split_and!; [done|done| |].
    + cbn. by rewrite (Hse res eq_refl).
    + apply serial_clear_snoc; [done|]. erewrite superseded_rows_lookup; [exact Hsup|].
      rewrite !hist_view_lookup. destruct (ht_rows t !! r); [done|]. apply Ha, Hholds. by right.
Qed.

Lemma ht_ok_finish tbl t st entry k res cleared :
  ht_state t = HClearing st entry k res [] cleared → ht_ok tbl t →
  ht_ok tbl (ht_finish t {| hw_storage := st; hw_entry := entry; hw_result := res;
                            hw_cleared := cleared |}).
Proof.
  intros Hst [Hw Hh Hr Hse Hser]. rewrite Hst in Hser. split; cbn; try done.
  intros tbl' Ha. rewrite app_nil_r, (hist_view_same t) by done. by apply Hser.
Qed.

(** ** Events keep the invariant *)

Lemma step_without_locks tbl0 i t t' g :
  hs_inv tbl0 g → hs_active g !! i = Some t → ht_ok (hs_table g) t' →
  (∀ k, touches t' k → touches t k) → ht_advisory t' = ht_advisory t →
  hs_inv tbl0 (hist_with_tx i t' g).
Proof.
  intros Hg Hi Hok Ht Ha. apply (hs_inv_with_tx tbl0 i t); try done.
  - intros j tj k _ _ Hk. left. by apply Ht.
  - rewrite Ha. by left.
Qed.

Lemma hist_begin_inv tbl0 i now g g' : hs_inv tbl0 g → hist_begin i now g = Some g' → hs_inv tbl0 g'.
Proof.
  unfold hist_begin. intros [Hs Ht Hr Ha] (Hi & _ & [= <-])%bind_Some.
  pose proof (ht_ok_begin (hs_table g) now) as Hok. set (t0 := {| ht_now := now |}) in *.
  assert (∀ k, ¬ touches t0 k) as Hnone by (intros k [[Hk|[o Ho]]|Hk]; [set_solver|done|done]).
  assert (∀ l, l ∉ ht_advisory t0) as Hfree by (cbn; set_solver).
  split; cbn; [done|by apply map_Forall_insert_2|..];
    intros a b ta tb x Hne; cbn; rewrite !lookup_insert_Some;
    intros [[<- <-]|[_ Hta]] [[Hib <-]|[_ Htb]] Hx Hx';
    first [done|by apply Hnone in Hx|by apply Hnone in Hx'|by apply Hfree in Hx
          |by apply Hfree in Hx'|by eapply Hr|by eapply Ha].
Qed.

Lemma hist_lock_inv tbl0 i st entry g g' :
  hs_inv tbl0 g → hist_lock i st entry g = Some g' → hs_inv tbl0 g'.
Proof.
  intros Hg He. unfold hist_lock in He. enabled He as (t & Hi & He).
  enabled He as (Hrun & _ & He). enabled He as (Hv & _ & He).
  assert (ht_state t = HRunning) as Hst by (unfold hist_running in Hrun; by destruct (ht_state t)).
  pose proof (hi_tx _ _ Hg i t Hi) as Hok.
  destruct (bound_key st (e_hash entry)) as [k|x] eqn:Hb.
  - enabled He as (Hfree & _ & He). injection He as <-.
    apply (hs_inv_with_tx tbl0 i t); try done; [by apply ht_ok_locked|..].
    + intros j tj k' _ _ Hk'. left. destruct Hk' as [Hk'|Hk']; [by left|done].
    + cbn. intros l [->%elem_of_singleton|Hl]%elem_of_union; [by right|by left].
  - injection He as <-. apply (step_without_locks tbl0 i t); try done.
    + apply ht_ok_give_up; [by rewrite Hst|by right|done].
    + intros k [Hk|Hk]; [by left|done].
Qed.

Lemma hist_select_inv tbl0 i g g' : hs_inv tbl0 g → hist_select i g = Some g' → hs_inv tbl0 g'.
Proof.
  intros Hg He. unfold hist_select in He. enabled He as (t & Hi & He).
  pose proof (hi_tx _ _ Hg i t Hi) as Hok. destruct (ht_state t) as [|st entry k| | | |] eqn:Hst; try done.
  enabled He as (Hfree & _ & He). injection He as <-.
  destruct (to_writing _ _ Hok st entry k) as (Hadv & Hb & Hv); [by rewrite Hst|].
  apply (hs_inv_with_tx tbl0 i t); try done; [by eapply ht_ok_selected| |by left].
  intros j tj k' Hne Hj Hk'.
  destruct (decide (k' = k)) as [->|Hk]; [by eapply advisory_alone|]. left.
  destruct Hk' as [[Hk'|Hk']|Hk']; cbn in Hk'.
  - left. left. destruct (hist_view t (hs_table g) !! k); set_solver.
  - left. by right.
  - destruct (mbind _ _); cbn in Hk'; congruence.
Qed.

Lemma hist_upsert_inv tbl0 i g g' : hs_inv tbl0 g → hist_upsert i g = Some g' → hs_inv tbl0 g'.
Proof.
  intros Hg He. unfold hist_upsert in He. enabled He as (t & Hi & He).
  pose proof (hi_tx _ _ Hg i t Hi) as Hok. destruct (ht_state t) as [| |st entry k res| | |] eqn:Hst; try done.
  assert (∀ s, s = HRunning ∨ s = HFailed → hs_inv tbl0 (hist_with_tx i (ht_with_state t s) g)) as Hgive.
  { intros s Hs. apply (step_without_locks tbl0 i t); try done.
    - apply ht_ok_give_up; [by rewrite Hst|done|done].
    - intros k' [Hk'|Hk']; [by left|by destruct Hs as [->| ->]]. }
  destruct (encodeStoredEntry res) as [stored|x] eqn:Henc; [|injection He as <-; apply Hgive; by left].
  enabled He as (_ & _ & He).
  destruct (upsert_entry st (ht_now t) res (hist_view t (hs_table g))) as [[[]|x] tbl1] eqn:Hup;
    injection He as <-; [|apply Hgive; by right].
  apply (step_without_locks tbl0 i t); try done; [| |by destruct (clearing res)].
  - eapply (ht_ok_stored _ t st entry k res stored); try done; destruct (clearing res); try done.
    by rewrite app_nil_r.
  - intros k' Hk'.
    assert (k' ∈ ht_locked t ∨ is_Some (<[k := tbl1 !! k]> (ht_rows t) !! k')) as [Hl|Hl]
      by (by destruct (clearing res), Hk' as [Hk'|Hk']); [by left; left|].
    apply lookup_insert_is_Some' in Hl as [<-|Hl]; [right; by rewrite Hst|left; by right].
Qed.

Lemma hist_scan_inv tbl0 i found g g' : hs_inv tbl0 g → hist_scan i found g = Some g' → hs_inv tbl0 g'.
Proof.
  intros Hg He. unfold hist_scan in He. enabled He as (t & Hi & He).
  pose proof (hi_tx _ _ Hg i t Hi) as Hok. destruct (ht_state t) eqn:Hst; try done.
  enabled He as (_ & _ & He). enabled He as (_ & _ & He). enabled He as (_ & _ & He). injection He as <-.
  apply (step_without_locks tbl0 i t); try done.
  - apply ht_ok_same_flight; by rewrite ?Hst.
  - intros k' [Hk'|Hk']; [by left|done].
Qed.

Lemma hist_clear_inv tbl0 i g g' : hs_inv tbl0 g → hist_clear i g = Some g' → hs_inv tbl0 g'.
Proof.
  intros Hg He. unfold hist_clear in He. enabled He as (t & Hi & He).
  pose proof (hi_tx _ _ Hg i t Hi) as Hok. destruct (ht_state t) as [| | | |st entry k res [|r found] cleared|] eqn:Hst; try done.
  - injection He as <-. apply (step_without_locks tbl0 i t); try done; [by eapply ht_ok_finish|].
    intros k' [Hk'|Hk']; [by left|done].
  - enabled He as (Hfree & _ & He).
    destruct (superseded_rows k res (hist_view t (hs_table g)) !! r) as [row|] eqn:Hsup; injection He as <-.
    + apply (hs_inv_with_tx tbl0 i t); try done; [eapply ht_ok_cleared; eauto| |by left].
      intros j tj k' Hne Hj [[Hk'|Hk']|Hk']; [by left; left; left| |done].
      cbn in Hk'. apply lookup_insert_is_Some' in Hk' as [<-|Hk']; [|by left; left; right].
      eapply locked_alone; eauto. apply map_lookup_filter_Some in Hsup as [Hrow _]. by rewrite Hrow.
    + apply (step_without_locks tbl0 i t); try done.
      * apply ht_ok_same_flight; by rewrite ?Hst.
      * intros k' [Hk'|Hk']; [by left|done].
Qed.

Lemma hist_commit_inv tbl0 i g g' : hs_inv tbl0 g → hist_commit i g = Some g' → hs_inv tbl0 g'.
Proof.
  intros Hg He. unfold hist_commit in He. enabled He as (t & Hi & He). enabled He as (Hrun & _ & He).
  injection He as <-. pose proof (hi_tx _ _ Hg i t Hi) as Hok.
  assert (ht_state t = HRunning) as Hst by (unfold hist_running in Hrun; by destruct (ht_state t)).
  assert (∀ j tj, (forget_dead (ht_dead t) <$> delete i (hs_active g)) !! j = Some tj →
    ∃ tj0, j ≠ i ∧ hs_active g !! j = Some tj0 ∧ tj = forget_dead (ht_dead t) tj0) as Hact.
  { intros j tj. rewrite lookup_fmap_Some. setoid_rewrite lookup_delete_Some. naive_solver. }
  destruct Hg as [Hs Ht Hr Ha]. split; cbn.
  - eapply serial_history_snoc; [exact Hs|].
    pose proof (to_serial _ _ Hok (hs_table g) ltac:(done)) as Hser.
    by rewrite Hst, app_nil_r in Hser.
  - intros j tj (tj0 & Hne & Hj & ->)%Hact. apply ht_ok_forget.
    eapply ht_ok_agree; [|by eapply Ht]. intros k Hk. apply hist_view_untouched.
    intros Hh. by eapply (Hr j i); [exact Hne|exact Hj|exact Hi|exact Hk|left].
  - intros a b ta tb k Hne (ta0 & _ & Hta & ->)%Hact (tb0 & _ & Htb & ->)%Hact.
    rewrite !touches_forget. by eapply Hr.
  - intros a b ta tb l Hne (ta0 & _ & Hta & ->)%Hact (tb0 & _ & Htb & ->)%Hact.
    destruct (forget_dead_same (ht_dead t) ta0) as (_ & -> & _).
    destruct (forget_dead_same (ht_dead t) tb0) as (_ & -> & _). by eapply Ha.
Qed.

Lemma hist_event_inv tbl0 e g g' : hs_inv tbl0 g → hist_event e g = Some g' → hs_inv tbl0 g'.
Proof.
  intros Hg. destruct e as [i now|i st entry|i|i|i found|i|i|i]; cbn [hist_event].
  - by apply hist_begin_inv.
  - by apply hist_lock_inv.
  - by apply hist_select_inv.
  - by apply hist_upsert_inv.
  - by apply hist_scan_inv.
  - by apply hist_clear_inv.
  - by apply hist_commit_inv.
  - unfold hist_rollback. intros (_ & _ & [= <-])%bind_Some. destruct Hg as [Hs Ht Hr Ha].
    split; cbn; [done|by apply map_Forall_delete|..];
      intros a b ta tb x Hne; cbn; rewrite !lookup_delete_Some; intros [_ Hta] [_ Htb];
      [by eapply Hr|by eapply Ha].
Qed.

Lemma hist_run_inv tbl0 es g g' : hs_inv tbl0 g → hist_run es g = Some g' → hs_inv tbl0 g'.
Proof.
  revert g. induction es as [|e es IH]; intros g Hg; cbn; [by intros [= <-]|].
  intros (g1 & He & Hrun)%bind_Some. eapply IH; [|done]. by eapply hist_event_inv.
Qed.

(** C5. Concurrent writes of the transaction history are serial, first writes of a hash included.
    However transactions of [gotPending], [gotFinalized] and [gotRejected] are interleaved, statement
    by statement, committed or rolled back at any moment, with any merge functions and any collisions
    of [hashtext], the committed table is what the committed writes leave one after the other in the
    order of the commits: each merged its entry into the row as it stands at that point, so that no
    committed entry is overwritten unread, and each row a write cleared is pending, of its wallet and
    superseded by its result at that point, so that no settled entry is deleted. (Which rows the
    [DELETE] found is not serial: it does not see a pending entry that another transaction has
    inserted and not yet committed.) *)
Theorem concurrent_history_serializes es tbl0 g :
  hist_run es (hist_start tbl0) = Some g →
  serial_history (hs_log g) tbl0 (hs_table g) ∧
  ∀ i t, hs_active g !! i = Some t →
    serial_writes (ht_now t) (ht_done t ++ in_flight (ht_state t)) (hs_table g)
      (hist_view t (hs_table g)).
Proof.
  intros Hrun. pose proof (hist_run_inv tbl0 es _ g (hs_inv_start tbl0) Hrun) as Hg.
  split; [apply Hg|]. intros i t Hi. by apply (to_serial _ _ (hi_tx _ _ Hg i t Hi)).
Qed.
End theorems.

(** ** A write with nobody else writing

    The steps of [TxHistoryServer] are [writeRows] when no other transaction is open. *)

Section solo.
Context `{!TextBinding} `{!DateParse} `{!HashText}.

(** *** [writeRows] as one function *)

Lemma writeRows_inv st now entry tbl tbl' :
  writeRows st now entry tbl = (Ok tt, tbl') →
  ∃ k res stored,
    bound_key st (e_hash entry) = Ok k ∧
    (ex ← entry_or_undefined (e_hash entry) (tbl !! k); merge_with st entry ex) = Ok res ∧
    encodeStoredEntry res = Ok stored ∧
    let tbl1 := <[k := {| r_entry := stored; r_identifiers := e_identifiers res;
                          r_lifecycle := lifecycle_text (e_lifecycle res);
                          r_updated_at := now |}]> tbl in
    tbl' = if clearing res
           then filter (λ p : RowKey * TxHistoryRow,
                          clears k.1 k.2 (e_identifiers res) p.1 p.2 = false) tbl1
           else tbl1.
Proof.
  unfold writeRows, rethrow, advisory_xact_lock, select_row, check, bound_key, mbind, action_bind, result_bind.
  destruct (bind_text (walletId st)) as [w|] eqn:Hw; [|done].
  destruct (bind_text (e_hash entry)) as [h|] eqn:Hh; [|done].
  destruct (entry_or_undefined (e_hash entry) (tbl !! (w, h))) as [ex|] eqn:Hex; [|done].
  destruct (merge_with st entry ex) as [res|] eqn:Hm; [|done].
  pose proof (merge_with_hash _ _ _ _ Hm) as Hhash.
  unfold upsert_entry, clear_pending, statement, mret, action_ret, mbind, result_bind.
  destruct (encodeStoredEntry res) as [stored|] eqn:He; [|done]. rewrite Hhash, Hw, Hh.
  intros Hrun. exists (w, h), res, stored. rewrite Hex, Hm. split_and!; [done..|].
  cbn [fst snd]. change (terminal _ && _) with (clearing res) in Hrun.
  destruct (clearing res); by injection Hrun as <-.
Qed.

(** *** One transaction *)

(** The server with the transaction [0] alone. *)
Definition solo (t : HistTx) (tbl : TxHistoryTable) (log : list (Z * list HistWrite)) : HistServer :=
  {| hs_table := tbl; hs_active := {[ 0%nat := t ]}; hs_log := log |}.

Lemma hist_with_solo t t' tbl log : hist_with_tx 0 t' (solo t tbl log) = solo t' tbl log.
Proof. unfold hist_with_tx, solo. cbn. by rewrite insert_singleton_eq. Qed.

Lemma solo_active t tbl log : hs_active (solo t tbl log) !! 0%nat = Some t.
Proof. apply lookup_singleton_eq. Qed.

Lemma solo_row_unlocked k t tbl log : row_unlocked k 0 (solo t tbl log).
Proof. intros j tj. cbn. rewrite lookup_singleton_Some. intros [<- _]. by left. Qed.

Lemma solo_advisory_free l t tbl log : advisory_free l 0 (solo t tbl log).
Proof. intros j tj. cbn. rewrite lookup_singleton_Some. intros [<- _]. by left. Qed.

Lemma hist_run_app es1 es2 g : hist_run (es1 ++ es2) g = (g' ← hist_run es1 g; hist_run es2 g').
Proof.
  revert g. induction es1 as [|e es1 IH]; intros g; [done|]. cbn.
  destruct (hist_event e g) as [g1|]; [apply IH|done].
Qed.

(** The [DELETE] visits its rows one by one and deletes them all. *)
Lemma solo_clears tbl log st entry k res found t cleared :
  NoDup found → ht_state t = HClearing st entry k res found cleared →
  (∀ r, r ∈ found → is_Some (superseded_rows k res (hist_view t tbl) !! r)) →
  ∃ t', hist_run (replicate (length found) (HistClear 0)) (solo t tbl log) = Some (solo t' tbl log) ∧
    ht_state t' = HClearing st entry k res [] (cleared ++ found) ∧
    ht_now t' = ht_now t ∧ ht_done t' = ht_done t ∧
    ∀ k', hist_view t' tbl !! k' = if decide (k' ∈ found) then None else hist_view t tbl !! k'.
Proof.
  revert t cleared. induction found as [|r found IH]; intros t cleared Hnd Hst Hsup.
  { exists t. rewrite app_nil_r. split_and!; [done..|]. intros k'. by rewrite decide_False by set_solver. }
  apply NoDup_cons in Hnd as [Hr Hnd]. cbn [length replicate hist_run hist_event]. unfold hist_clear.
  rewrite solo_active. cbn [mbind option_bind]. rewrite Hst.
  rewrite option_guard_True by apply solo_row_unlocked. cbn [mbind option_bind hs_table solo].
  destruct (Hsup r) as [row Hrow]; [by left|]. rewrite Hrow, hist_with_solo.
  set (t1 := {| ht_rows := <[r := None]> (ht_rows t) |}).
  pose proof (hist_view_write t t1 r None tbl eq_refl) as Hview.
  destruct (IH t1 (cleared ++ [r]) Hnd eq_refl) as (t' & Hrun & Hst' & Hn & Hd & Hv).
  { intros r' Hr'. erewrite superseded_rows_lookup; [apply Hsup; by right|].
    rewrite Hview. apply lookup_partial_alter_ne. by intros ->. }
  exists t'. rewrite Hst', <-app_assoc. split_and!; [exact Hrun|done..|].
  intros k'. rewrite Hv, Hview. destruct (decide (k' = r)) as [->|Hne].
  - by rewrite lookup_partial_alter_eq, decide_False, decide_True by set_solver.
  - rewrite lookup_partial_alter_ne by done. by repeat case_decide; set_solver.
Qed.

(** Every row of what [DELETE] sees is deleted or does not qualify. *)
Lemma deleted_view k res tbl tbl' :
  (∀ k', tbl' !! k' = if decide (k' ∈ elements (dom (superseded_rows k res tbl))) then None else tbl !! k') →
  tbl' = filter (λ p : RowKey * TxHistoryRow, clears k.1 k.2 (e_identifiers res) p.1 p.2 = false) tbl.
Proof.
  intros Hv. apply map_eq. intros k'. rewrite Hv, map_lookup_filter.
  case_decide as Hk; rewrite elem_of_elements, elem_of_dom in Hk.
  - destruct Hk as [row [Hrow Hc]%map_lookup_filter_Some]. rewrite Hrow. cbn in Hc |- *.
    by rewrite option_guard_False by (cbn; congruence).
  - destruct (tbl !! k') as [row|] eqn:Hrow; [|done]. cbn. rewrite option_guard_True; [done|]. cbn.
    apply not_true_is_false. intros Hc. apply Hk. exists row. by apply map_lookup_filter_Some.
Qed.

(** *** From the first statement to the stored row *)

Lemma solo_begin now tbl log :
  hist_event (HistBegin 0 now) {| hs_table := tbl; hs_active := ∅; hs_log := log |} =
    Some (solo {| ht_now := now; ht_state := HRunning; ht_advisory := ∅; ht_locked := ∅;
                  ht_rows := ∅; ht_dead := ∅; ht_done := [] |} tbl log).
Proof.
  cbn [hist_event]. unfold hist_begin, hist_with_tx. cbn. by rewrite option_guard_True by done.
Qed.

Lemma solo_lock st entry k t tbl log :
  ht_state t = HRunning → TransactionHistoryEntrySchema entry = true →
  bound_key st (e_hash entry) = Ok k →
  ∃ t', hist_event (HistLock 0 st entry) (solo t tbl log) = Some (solo t' tbl log) ∧
    ht_state t' = HLocked st entry k ∧ ht_now t' = ht_now t ∧ ht_rows t' = ht_rows t ∧
    ht_done t' = ht_done t.
Proof.
  intros Hst Hv Hb. cbn [hist_event]. unfold hist_lock. rewrite solo_active. cbn [mbind option_bind].
  unfold hist_running. rewrite Hst, !option_guard_True by done. cbn [mbind option_bind]. rewrite Hb.
  rewrite option_guard_True by apply solo_advisory_free. cbn [mbind option_bind].
  rewrite hist_with_solo. by eexists.
Qed.

Lemma solo_select st entry k res t tbl log :
  ht_state t = HLocked st entry k →
  (ex ← entry_or_undefined (e_hash entry) (hist_view t tbl !! k); merge_with st entry ex) = Ok res →
  ∃ t', hist_event (HistSelect 0) (solo t tbl log) = Some (solo t' tbl log) ∧
    ht_state t' = HRead st entry k res ∧ ht_now t' = ht_now t ∧ ht_rows t' = ht_rows t ∧
    ht_done t' = ht_done t.
Proof.
  intros Hst Hm. cbn [hist_event]. unfold hist_select. rewrite solo_active. cbn [mbind option_bind].
  rewrite Hst. cbn [hs_table solo]. rewrite option_guard_True by (intros _; apply solo_row_unlocked).
  rewrite Hm. cbn [mbind option_bind]. rewrite hist_with_solo. by eexists.
Qed.

Lemma solo_upsert st entry k res stored t tbl log :
  ht_state t = HRead st entry k res → encodeStoredEntry res = Ok stored →
  upsert_entry st (ht_now t) res (hist_view t tbl) =
    (Ok tt, <[k := {| r_entry := stored; r_identifiers := e_identifiers res;
                      r_lifecycle := lifecycle_text (e_lifecycle res); r_updated_at := ht_now t |}]>
              (hist_view t tbl)) →
  ∃ t', hist_event (HistUpsert 0) (solo t tbl log) = Some (solo t' tbl log) ∧
    ht_state t' = (if clearing res then HStored st entry k res else HRunning) ∧
    ht_now t' = ht_now t ∧
    ht_done t' = ht_done t ++ (if clearing res then []
      else [{| hw_storage := st; hw_entry := entry; hw_result := res; hw_cleared := [] |}]) ∧
    hist_view t' tbl = (upsert_entry st (ht_now t) res (hist_view t tbl)).2.
Proof.
  intros Hst He Hup. cbn [hist_event]. unfold hist_upsert. rewrite solo_active. cbn [mbind option_bind].
  rewrite Hst, He. cbn [hs_table solo]. rewrite option_guard_True by apply solo_row_unlocked.
  cbn [mbind option_bind]. rewrite Hup, hist_with_solo. cbn [snd]. eexists. split; [reflexivity|].
  rewrite lookup_insert_eq.
  destruct (clearing res); cbn [ht_state ht_now ht_done ht_finish]; rewrite ?app_nil_r;
    split_and!; try done; by apply hist_view_write.
Qed.

Lemma solo_commit t tbl log :
  ht_state t = HRunning →
  hist_event (HistCommit 0) (solo t tbl log) =
    Some {| hs_table := hist_view t tbl; hs_active := ∅; hs_log := log ++ [(ht_now t, ht_done t)] |}.
Proof.
  intros Hst. cbn [hist_event]. unfold hist_commit. rewrite solo_active. cbn [mbind option_bind].
  unfold hist_running. rewrite Hst, option_guard_True by done. cbn [mbind option_bind solo hs_table hs_active hs_log].
  by rewrite delete_singleton_eq, fmap_empty.
Qed.

(** The [DELETE], from its scan to the end of the write. *)
Lemma solo_delete tbl log st entry k res t :
  ht_state t = HStored st entry k res → clearing res = true →
  ∃ es t' cleared, hist_run es (solo t tbl log) = Some (solo t' tbl log) ∧
    ht_state t' = HRunning ∧ ht_now t' = ht_now t ∧
    ht_done t' = ht_done t ++ [{| hw_storage := st; hw_entry := entry; hw_result := res;
                                  hw_cleared := cleared |}] ∧
    hist_view t' tbl = filter (λ p : RowKey * TxHistoryRow,
      clears k.1 k.2 (e_identifiers res) p.1 p.2 = false) (hist_view t tbl).
Proof.
  intros Hst Hc. set (found := elements (dom (superseded_rows k res (hist_view t tbl)))).
  set (t1 := ht_with_state t (HClearing st entry k res found [])).
  assert (hist_event (HistScan 0 found) (solo t tbl log) = Some (solo t1 tbl log)) as Hscan.
  { cbn [hist_event]. unfold hist_scan. rewrite solo_active. cbn [mbind option_bind]. rewrite Hst.
    rewrite !option_guard_True; [by cbn [mbind option_bind]; rewrite hist_with_solo| |apply NoDup_elements|done].
    apply list_to_set_elements_L. }
  destruct (solo_clears tbl log st entry k res found t1 []) as (t2 & Hrun & Hst2 & Hn & Hd & Hv).
  { apply NoDup_elements. }
  { done. }
  { intros r Hr. by apply elem_of_elements, elem_of_dom in Hr. }
  exists (HistScan 0 found :: replicate (length found) (HistClear 0) ++ [HistClear 0]).
  do 2 eexists. cbn [hist_run]. rewrite Hscan. cbn [mbind option_bind]. rewrite hist_run_app, Hrun.
  cbn [mbind option_bind hist_run hist_event]. unfold hist_clear. rewrite solo_active.
  cbn [mbind option_bind]. rewrite Hst2, hist_with_solo. split; [reflexivity|].
  cbn [ht_state ht_now ht_done ht_finish app]. rewrite Hn, Hd. split_and!; [done..|].
  rewrite (hist_view_same t2) by done. by apply deleted_view.
Qed.

(** A write that is run alone, statement by statement, commits, and leaves the table as [writeRows]
    does. *)
Theorem undisturbed_write st now entry g tbl' :
  hs_active g = ∅ → TransactionHistoryEntrySchema entry = true →
  writeRows st now entry (hs_table g) = (Ok tt, tbl') →
  ∃ es res cleared, hist_run es g = Some
    {| hs_table := tbl'; hs_active := ∅;
       hs_log := hs_log g ++ [(now, [{| hw_storage := st; hw_entry := entry; hw_result := res;
                                        hw_cleared := cleared |}])] |}.
Proof.
  destruct g as [tbl active log]. cbn [hs_active hs_table hs_log].
  intros -> Hv (k & res & stored & Hb & Hm & He & ->)%writeRows_inv.
  pose proof (solo_begin now tbl log) as He0. set (t0 := {| ht_now := now |}) in *.
  assert (hist_view t0 tbl = tbl) as Hview0 by (apply map_eq; intros; by rewrite hist_view_lookup).
  destruct (solo_lock st entry k t0 tbl log) as (t1 & He1 & Hst1 & Hn1 & Hr1 & Hd1); [done..|].
  assert (hist_view t1 tbl = tbl) as Hview1 by by rewrite (hist_view_same t0).
  destruct (solo_select st entry k res t1 tbl log) as (t2 & He2 & Hst2 & Hn2 & Hr2 & Hd2);
    [done|by rewrite Hview1|].
  assert (hist_view t2 tbl = tbl) as Hview2 by by rewrite (hist_view_same t1).
  destruct (merge_row_run st (ht_now t2) entry k res stored tbl Hb Hm He) as [Hup _].
  destruct (solo_upsert st entry k res stored t2 tbl log) as (t3 & He3 & Hst3 & Hn3 & Hd3 & Hview3);
    [done|done|by rewrite Hview2|].
  rewrite Hview2, Hup in Hview3. cbn [snd] in Hview3.
  replace (ht_now t2) with now in * by (by rewrite Hn2, Hn1).
  assert (ht_done t2 = []) as Hd by (by rewrite Hd2, Hd1). rewrite Hd in Hd3. cbn [app] in Hd3.
  assert (∀ es, hist_run ([HistBegin 0 now; HistLock 0 st entry; HistSelect 0; HistUpsert 0] ++ es)
    {| hs_table := tbl; hs_active := ∅; hs_log := log |} = hist_run es (solo t3 tbl log)) as Hpre.
  { intros es. cbn [app hist_run]. rewrite He0. cbn [mbind option_bind]. rewrite He1.
    cbn [mbind option_bind]. rewrite He2. cbn [mbind option_bind]. by rewrite He3. }
  destruct (clearing res) eqn:Hc.
  - destruct (solo_delete tbl log st entry k res t3) as (es & t4 & cleared & Hrun & Hst4 & Hn4 & Hd4 & Hv4);
      [done..|].
    eexists (_ ++ (es ++ [HistCommit 0])), res, cleared. rewrite Hpre, hist_run_app, Hrun.
    cbn [mbind option_bind hist_run]. rewrite solo_commit by done. cbn [mbind option_bind].
    by rewrite Hv4, Hview3, Hn4, Hn3, Hd4, Hd3.
  - eexists (_ ++ [HistCommit 0]), res, []. rewrite Hpre. cbn [hist_run]. rewrite solo_commit by done.
    cbn [mbind option_bind]. by rewrite Hview3, Hn3, Hd3.
Qed.
End solo.

(** ** Two first writes of one hash *)

Module HistServerDemo.

#[local] Existing Instance rejecting_binding.
#[local] Existing Instance iso_dates.

(** A merge that unites the identifiers and takes the incoming lifecycle. *)
Definition uniting : Storage :=
  {| walletId := js "w";
     mergeFn := λ a b, Ok (history_entry (e_hash b) (e_identifiers a ++ e_identifiers b) (e_lifecycle b)) |}.

(** Every key has the same [hashtext]. *)
#[local] Instance one_hash : HashText := λ _, 0.

(** Both transactions write hash [h2] for the first time, the second one settling it; the second has
    to wait for the advisory lock, merges into what the first committed and clears the pending entry
    [h1], whose identifiers only the union covers. *)
Definition first_writes : list HistEvent :=
  [HistBegin 1 10; HistBegin 2 20;
   HistLock 1 uniting (history_entry (js "h2") [js "a"] Pending); HistSelect 1; HistUpsert 1; HistCommit 1;
   HistLock 2 uniting (history_entry (js "h2") [js "b"] Finalized); HistSelect 2; HistUpsert 2;
   HistScan 2 [(js "w", js "h1")]; HistClear 2; HistClear 2; HistCommit 2].

Definition first_writes_end : HistServer :=
  default (hist_start ∅) (hist_run first_writes (hist_start pending_table)).

Lemma first_writes_run : hist_run first_writes (hist_start pending_table) = Some first_writes_end.
Proof. vm_compute. reflexivity. Qed.

(** The second writer cannot start while the first is open. *)
Example first_writer_waits :
  hist_run [HistBegin 1 10; HistBegin 2 20;
            HistLock 1 uniting (history_entry (js "h2") [js "a"] Pending); HistSelect 1;
            HistLock 2 uniting (history_entry (js "h2") [js "b"] Finalized)]
    (hist_start pending_table) = None.
Proof. vm_compute. reflexivity. Qed.

Lemma concurrent_history_serializes_witness :
  serial_history (hs_log first_writes_end) pending_table (hs_table first_writes_end) ∧
  r_identifiers <$> hs_table first_writes_end = {[ (js "w", js "h2") := [js "a"; js "b"] ]}.
Proof.
  split; [|vm_compute; reflexivity].
  exact (proj1 (concurrent_history_serializes first_writes pending_table first_writes_end first_writes_run)).
Defined.

(** A pending entry committed after the scan of the [DELETE] stays, as it would if it had been
    written after the settled one. *)
Definition last_unit : HashText := λ s, Z.of_N (default 0%N (last s)).

Example late_pending_stays :
  (λ g, r_lifecycle <$> hs_table g) <$>
  @hist_run _ _ last_unit
    [HistBegin 1 10; HistBegin 2 20;
     HistLock 1 uniting (history_entry (js "h1") [js "a"] Pending); HistSelect 1; HistUpsert 1;
     HistLock 2 uniting (history_entry (js "h2") [js "a"] Finalized); HistSelect 2; HistUpsert 2;
     HistScan 2 []; HistClear 2; HistCommit 2; HistCommit 1] (hist_start ∅) =
  Some {[ (js "w", js "h1") := js "pending"; (js "w", js "h2") := js "finalized" ]}.
Proof. vm_compute. reflexivity. Qed.

End HistServerDemo.
