(* ===== verification/Checkpoint.v ===== *)
(** * CheckpointStore: tables and operations

    Models [src/postgres/checkpoint-store.ts] and the boundary schemas of
    [src/interfaces/checkpoint-store.ts] against the tables of
    [src/postgres/migrations/002_checkpoint_store.ts] and [006_ckpt_chunks_size_bytes.ts]. SHA-256
    is [node:crypto]'s, a parameter. Digests are kept as their bytes where the code prints them in
    hexadecimal. *)

From S2P Require Import Prelude Text Json Errors Transaction Driver Slices.

Local Open Scope Z_scope.

Class Sha256 := sha256 : bytes → bytes.

(** ** Tables *)

Record ChunkRow := { ck_data : bytes; ck_created_at : Z }.

(** The stored generated column [octet_length(data)]. *)
Definition size_bytes (c : ChunkRow) : Z := Z.of_nat (length (ck_data c)).

Record ManifestRow := {
  m_id : Z;
  m_w : jsstr;
  m_net : jsstr;
  m_seq : Z;
  m_complete : bool;
  m_manifest_hash : bytes;
  m_label : option jsstr;
  m_created_at : Z;
}.

#[export] Instance ManifestRow_eq_dec : EqDecision ManifestRow.
Proof. solve_decision. Defined.

Record JunctionRow := { j_manifest_id : Z; j_position : Z; j_chunk_hash : bytes }.

#[export] Instance JunctionRow_eq_dec : EqDecision JunctionRow.
Proof. solve_decision. Defined.

Record CkDb := {
  ckpt_chunks : gmap bytes ChunkRow;
  ckpt_manifests : list ManifestRow;
  ckpt_manifest_chunks : list JunctionRow;
  ckpt_sequence_counters : gmap (jsstr * jsstr) Z;
}.

(** What the server supplies to a transaction: [now()], the next value of the manifests' serial. *)
Record CkCtx := { ck_now : Z; ck_nextval : Z }.

Definition with_chunks (t : gmap bytes ChunkRow) (db : CkDb) : CkDb :=
  {| ckpt_chunks := t; ckpt_manifests := ckpt_manifests db;
     ckpt_manifest_chunks := ckpt_manifest_chunks db;
     ckpt_sequence_counters := ckpt_sequence_counters db |}.
Definition with_manifests (ms : list ManifestRow) (db : CkDb) : CkDb :=
  {| ckpt_chunks := ckpt_chunks db; ckpt_manifests := ms;
     ckpt_manifest_chunks := ckpt_manifest_chunks db;
     ckpt_sequence_counters := ckpt_sequence_counters db |}.
Definition with_junction (j : list JunctionRow) (db : CkDb) : CkDb :=
  {| ckpt_chunks := ckpt_chunks db; ckpt_manifests := ckpt_manifests db;
     ckpt_manifest_chunks := j; ckpt_sequence_counters := ckpt_sequence_counters db |}.
Definition with_counters (c : gmap (jsstr * jsstr) Z) (db : CkDb) : CkDb :=
  {| ckpt_chunks := ckpt_chunks db; ckpt_manifests := ckpt_manifests db;
     ckpt_manifest_chunks := ckpt_manifest_chunks db; ckpt_sequence_counters := c |}.

(** ** Boundary schemas *)

Definition MAX_CHECKPOINT_ID_LENGTH : nat := 512.

Definition CheckpointIdSchema (s : jsstr) : bool := z_text 1 (Some MAX_CHECKPOINT_ID_LENGTH) s.

Definition assertValidCheckpointIds (walletId networkId : jsstr) : result thrown unit :=
  if negb (CheckpointIdSchema walletId)
  then Err (ValidationError "PgCheckpointStore walletId" "" "")
  else if negb (CheckpointIdSchema networkId)
  then Err (ValidationError "PgCheckpointStore networkId" "" "")
  else Ok tt.

Record SaveCheckpointOptions := {
  so_chunkSize : option jsnum;
  so_label : option jsstr;
  so_signal : option AbortSignal;
  so_tx : option TransactionHandle;
}.

Definition MAX_CHUNK_SIZE : Z := 16 * 1024 * 1024.

(** [SaveCheckpointOptionsSchema.safeParse]: the parsed chunk size. *)
Definition validateSaveOptions (opts : SaveCheckpointOptions) : result thrown (option Z) :=
  let invalid := Err (ValidationError "PgCheckpointStore.save opts" "" "") in
  if (if so_label opts is Some l then (length l <=? 200)%nat else true) then
    match so_chunkSize opts with
    | None => Ok None
    | Some n => if z_positive_int MAX_CHUNK_SIZE n is Some z then Ok (Some z) else invalid
    end
  else invalid.

Record HistoryOptions := {
  ho_limit : option jsnum;
  ho_before : option jsnum;
  ho_signal : option AbortSignal;
}.

(** [limit] defaults to 50 and is at most 1000; [before] is any positive safe integer. *)
Definition validateHistoryOptions (opts : HistoryOptions) : result thrown (Z * option Z) :=
  let invalid := Err (ValidationError "PgCheckpointStore.history opts" "" "") in
  match (match ho_limit opts with None => Some 50 | Some n => z_positive_int 1000 n end) with
  | None => invalid
  | Some limit =>
      match ho_before opts with
      | None => Ok (limit, None)
      | Some n =>
          if z_positive_int MAX_SAFE_INTEGER n is Some b then Ok (limit, Some b) else invalid
      end
  end.

(** ** Summaries *)

Record CheckpointSummary := {
  cs_sequence : Z;
  cs_manifestHash : bytes;
  cs_byteLength : Z;
  cs_chunkCount : Z;
  cs_label : option jsstr;
  cs_createdAt : Z;
}.

Record CheckpointRecord := { cr_summary : CheckpointSummary; cr_data : bytes }.

(** Out of range it throws a plain [Error], which no translation changes. *)
Definition coerceToSafeNumber (value : Z) (context : string) : result thrown Z :=
  if (MAX_SAFE_INTEGER <? value) || (value <? - MAX_SAFE_INTEGER)
  then Err (TError "Error" (context +:+ ": outside the safe integer range") None None None)
  else Ok value.

Definition toSummary (row : ManifestRow) (byteLength chunkCount : Z) : result thrown CheckpointSummary :=
  sequence ← coerceToSafeNumber (m_seq row) "CheckpointSummary.sequence";
  Ok {| cs_sequence := sequence; cs_manifestHash := m_manifest_hash row;
        cs_byteLength := byteLength; cs_chunkCount := chunkCount; cs_label := m_label row;
        cs_createdAt := date_of_timestamptz (m_created_at row) |}.

(** ** Chunking *)

Definition DEFAULT_CHUNK_SIZE : Z := 4 * 1024 * 1024.
Definition CHUNK_INSERT_MAX_ROWS : Z := 30000.
Definition JUNCTION_INSERT_MAX_ROWS : Z := 20000.

Definition splitChunks (data : bytes) (chunkSize : Z) : list bytes := for_slices chunkSize data.

(** The [seenChunkHashes] loop: the first occurrence of every hash, in order. *)
Fixpoint dedupe_chunks (seen : list bytes) (rows : list (bytes * bytes)) : list (bytes * bytes) :=
  match rows with
  | [] => []
  | (hash, data) :: rest =>
      if bool_decide (hash ∈ seen) then dedupe_chunks seen rest
      else (hash, data) :: dedupe_chunks (hash :: seen) rest
  end.

(** ** Statements of [save] *)

Definition upsert_chunk (now : Z) (t : gmap bytes ChunkRow) (row : bytes * bytes) : gmap bytes ChunkRow :=
  match t !! row.1 with
  | Some c => <[row.1 := {| ck_data := ck_data c; ck_created_at := now |}]> t
  | None => <[row.1 := {| ck_data := row.2; ck_created_at := now |}]> t
  end.

(** [INSERT INTO ckpt_chunks <batch> ON CONFLICT (hash) DO UPDATE SET created_at = now()]: the same
    hash twice in one statement is SQLSTATE [21000]. *)
Definition upsert_chunk_batch (ctx : CkCtx) (batch : list (bytes * bytes)) : act CkDb unit :=
  statement (λ db,
    if bool_decide (NoDup batch.*1)
    then Ok (tt, with_chunks (foldl (upsert_chunk (ck_now ctx)) (ckpt_chunks db) batch) db)
    else Err (pg_error "21000" "ON CONFLICT DO UPDATE command cannot affect row a second time" None)).

(** [INSERT .. ON CONFLICT (w, net) DO UPDATE SET next_seq = next_seq + 1 RETURNING next_seq - 1];
    the column's default is 2. *)
Definition claim_seq (w net : jsstr) : act CkDb Z :=
  statement (λ db,
    next ← match ckpt_sequence_counters db !! (w, net) with
           | None => Ok 2
           | Some next_seq => bigint_succ next_seq
           end;
    Ok (next - 1, with_counters (<[(w, net) := next]> (ckpt_sequence_counters db)) db)).

Section save.
Context `{!Sha256} `{!TextBinding}.

(** [opts.label ?? null] as a bound parameter. *)
Definition bind_label (label : option jsstr) : result thrown (option jsstr) :=
  match label with
  | None => Ok None
  | Some l => l' ← bind_text l; Ok (Some l')
  end.

Definition insert_manifest (ctx : CkCtx) (w net : jsstr) (seq : Z) (manifestHash : bytes)
    (label : option jsstr) : act CkDb ManifestRow :=
  statement (λ db,
    bound ← bind_label label;
    if existsb (λ m, m_id m =? ck_nextval ctx) (ckpt_manifests db)
    then Err (pg_error "23505" "duplicate key value violates unique constraint"
                (Some "ckpt_manifests_pkey"))
    else
      let row := {| m_id := ck_nextval ctx; m_w := w; m_net := net; m_seq := seq;
                    m_complete := true; m_manifest_hash := manifestHash; m_label := bound;
                    m_created_at := ck_now ctx |} in
      Ok (row, with_manifests (ckpt_manifests db ++ [row]) db)).

(** One junction row against the primary key, the width of [position] and the two foreign keys. *)
Definition insert_junction_row (db : CkDb) (r : JunctionRow) : result thrown CkDb :=
  if 2147483647 <? j_position r
  then Err (pg_error "22003" "integer out of range" None)
  else if existsb (λ r', (j_manifest_id r' =? j_manifest_id r) && (j_position r' =? j_position r))
            (ckpt_manifest_chunks db)
  then Err (pg_error "23505" "duplicate key value violates unique constraint"
              (Some "ckpt_manifest_chunks_pkey"))
  else if negb (existsb (λ m, m_id m =? j_manifest_id r) (ckpt_manifests db))
  then Err (pg_error "23503" "violates foreign key constraint"
              (Some "ckpt_manifest_chunks_manifest_id_fkey"))
  else if bool_decide (ckpt_chunks db !! j_chunk_hash r = None)
  then Err (pg_error "23503" "violates foreign key constraint"
              (Some "ckpt_manifest_chunks_chunk_hash_fkey"))
  else Ok (with_junction (ckpt_manifest_chunks db ++ [r]) db).

Definition insert_junction_batch (batch : list JunctionRow) : act CkDb unit :=
  statement (λ db,
    db' ← foldl (λ acc r, db ← acc; insert_junction_row db r) (Ok db) batch; Ok (tt, db')).

(** [runOnTx]: the write path, on whichever transaction it is given. *)
Definition runOnTx (ctx : CkCtx) (walletId networkId : jsstr) (data : bytes) (chunkSize : Z)
    (label : option jsstr) : act CkDb CheckpointSummary :=
  let chunks := splitChunks data chunkSize in
  let chunkHashes := sha256 <$> chunks in
  let manifestHash := sha256 (mjoin chunkHashes) in
  let chunkRows := dedupe_chunks [] (zip chunkHashes chunks) in
  for_each (upsert_chunk_batch ctx) (for_slices CHUNK_INSERT_MAX_ROWS chunkRows) ;;
  seq ← claim_seq walletId networkId;
  manifest ← insert_manifest ctx walletId networkId seq manifestHash label;
  let junctionRows := imap (λ i chunk_hash,
        {| j_manifest_id := m_id manifest; j_position := Z.of_nat i;
           j_chunk_hash := chunk_hash |}) chunkHashes in
  for_each insert_junction_batch (for_slices JUNCTION_INSERT_MAX_ROWS junctionRows) ;;
  check (toSummary manifest (Z.of_nat (length data)) (Z.of_nat (length chunks))).
End save.

(** ** Statements of [load], [history] and [prune] *)

(** [ORDER BY seq DESC]. *)
Definition by_seq_desc (m1 m2 : ManifestRow) : Prop := m_seq m2 ≤ m_seq m1.
#[export] Instance by_seq_desc_dec : RelDecision by_seq_desc.
Proof. intros m1 m2. unfold by_seq_desc. apply _. Defined.

Definition by_position (r1 r2 : JunctionRow) : Prop := j_position r1 ≤ j_position r2.
#[export] Instance by_position_dec : RelDecision by_position.
Proof. intros r1 r2. unfold by_position. apply _. Defined.

(** [WHERE w = .. AND net = .. AND complete AND p ORDER BY seq DESC]. *)
Definition select_manifests (w net : jsstr) (p : Z → bool) (db : CkDb) : list ManifestRow :=
  merge_sort by_seq_desc
    (filter (λ m, m_w m = w ∧ m_net m = net ∧ Is_true (m_complete m && p (m_seq m)))
       (ckpt_manifests db)).

Definition junction_of (id : Z) (db : CkDb) : list JunctionRow :=
  filter (λ r, j_manifest_id r = id) (ckpt_manifest_chunks db).

(** [LEFT JOIN ckpt_chunks c ON c.hash = mc.chunk_hash .. ORDER BY mc.position]. *)
Definition select_chunk_rows (id : Z) (db : CkDb) : list (Z * bytes * option bytes) :=
  (λ r, (j_position r, j_chunk_hash r, ck_data <$> ckpt_chunks db !! j_chunk_hash r))
    <$> merge_sort by_position (junction_of id db).

Section load.
Context `{!Sha256}.

(** The verification loop of [load], from index [i]: the parts and the hashes in order. *)
Fixpoint verify_chunks (manifestHash : bytes) (i : Z) (rows : list (Z * bytes * option bytes))
    : result thrown (list bytes * list bytes) :=
  match rows with
  | [] => Ok ([], [])
  | (position, chunk_hash, stored) :: rest =>
      if negb (position =? i) then Err (ManifestCorruptError manifestHash "position gap")
      else match stored with
           | None => Err (ChunkMissingError chunk_hash)
           | Some data =>
               let actualHash := sha256 data in
               if negb (bool_decide (actualHash = chunk_hash))
               then Err (ChunkIntegrityError actualHash chunk_hash)
               else '(parts, hashes) ← verify_chunks manifestHash (i + 1) rest;
                    Ok (data :: parts, chunk_hash :: hashes)
           end
  end.

Definition load_manifest (manifest : ManifestRow) (db : CkDb) : result thrown CheckpointRecord :=
  let chunkRows := select_chunk_rows (m_id manifest) db in
  '(parts, chunkHashesInOrder) ← verify_chunks (m_manifest_hash manifest) 0 chunkRows;
  if negb (bool_decide (sha256 (mjoin chunkHashesInOrder) = m_manifest_hash manifest))
  then Err (ManifestCorruptError (m_manifest_hash manifest)
              "recomputed manifest hash does not match the stored value")
  else
    let data := mjoin parts in
    summary ← toSummary manifest (Z.of_nat (length data)) (Z.of_nat (length chunkRows));
    Ok {| cr_summary := summary; cr_data := data |}.

Definition load_run (walletId networkId : jsstr) (sequence : option Z)
    : act CkDb CheckpointRecord := λ db,
  (match take 1 (select_manifests walletId networkId
                   (λ seq, if sequence is Some s then seq =? s else true) db) with
   | [] => Err (CheckpointNotFoundError walletId networkId sequence)
   | manifest :: _ => load_manifest manifest db
   end, db).
End load.

(** [SELECT manifest_id, count, coalesce(sum(size_bytes), 0) .. GROUP BY manifest_id]: no group for
    a manifest without joined rows. *)
Definition aggregate_rows (ids : list Z) (db : CkDb) : list (Z * (Z * Z)) :=
  omap (λ id,
    match omap (λ r, ckpt_chunks db !! j_chunk_hash r) (junction_of id db) with
    | [] => None
    | joined => Some (id, (Z.of_nat (length joined), foldr (λ c n, size_bytes c + n) 0 joined))
    end) ids.

Definition history_summary (aggById : gmap Z (Z * Z)) (manifest : ManifestRow)
    : result thrown CheckpointSummary :=
  let '(chunk_count, byte_length) := default (0, 0) (aggById !! m_id manifest) in
  byteLength ← coerceToSafeNumber byte_length "CheckpointSummary.byteLength";
  chunkCount ← coerceToSafeNumber chunk_count "CheckpointSummary.chunkCount";
  toSummary manifest byteLength chunkCount.

(** [xs.map(f)] where [f] can throw. *)
Fixpoint map_result {E A B} (f : A → result E B) (xs : list A) : result E (list B) :=
  match xs with
  | [] => Ok []
  | x :: xs' => y ← f x; ys ← map_result f xs'; Ok (y :: ys)
  end.

Definition history_run (walletId networkId : jsstr) (limit : Z) (before : option Z)
    : act CkDb (list CheckpointSummary) := λ db,
  let manifestRows := take (Z.to_nat limit) (select_manifests walletId networkId
                        (λ seq, if before is Some b then seq <? b else true) db) in
  let manifestIds := m_id <$> manifestRows in
  let aggById : gmap Z (Z * Z) := list_to_map (aggregate_rows manifestIds db) in
  (map_result (history_summary aggById) manifestRows, db).

Record PruneResult := {
  prunedSequences : list Z;
  reclaimedChunks : Z;
  reclaimedBytes : Z;
}.

(** Step 1: [DELETE .. WHERE m.seq < (SELECT seq .. OFFSET retainCount - 1 LIMIT 1) RETURNING seq];
    the junction rows of a deleted manifest go with it ([ON DELETE CASCADE]). *)
Definition prune_manifests (walletId networkId : jsstr) (retainCount : Z) : act CkDb (list Z) :=
  statement (λ db,
    match select_manifests walletId networkId (λ _, true) db !! Z.to_nat (retainCount - 1) with
    | None => Ok ([], db)
    | Some cut =>
        let doomed m := m_w m = walletId ∧ m_net m = networkId ∧ Is_true (m_complete m) ∧
                        m_seq m < m_seq cut in
        let gone := filter doomed (ckpt_manifests db) in
        Ok (m_seq <$> gone,
            with_junction (filter (λ r, j_manifest_id r ∉ m_id <$> gone) (ckpt_manifest_chunks db))
              (with_manifests (filter (λ m, ¬ doomed m) (ckpt_manifests db)) db))
    end).

Definition GRACE_WINDOW : Z := 15 * 60 * 1000000.   (** [interval '15 minutes'] *)

(** Step 2: [DELETE FROM ckpt_chunks c WHERE c.created_at < now() - interval '15 minutes' AND NOT
    EXISTS (SELECT 1 .. WHERE mc.chunk_hash = c.hash) RETURNING octet_length(c.data)]. *)
Definition reclaimable (now : Z) (db : CkDb) (row : bytes * ChunkRow) : Prop :=
  ck_created_at row.2 < now - GRACE_WINDOW ∧ row.1 ∉ j_chunk_hash <$> ckpt_manifest_chunks db.
#[export] Instance reclaimable_dec now db row : Decision (reclaimable now db row).
Proof. unfold reclaimable. apply _. Defined.

Definition reclaim_chunks (ctx : CkCtx) : act CkDb (list Z) :=
  statement (λ db,
    let gone := filter (reclaimable (ck_now ctx) db) (ckpt_chunks db) in
    Ok (size_bytes ∘ snd <$> map_to_list gone,
        with_chunks (filter (λ row, ¬ reclaimable (ck_now ctx) db row) (ckpt_chunks db)) db)).

Definition prune_run (ctx : CkCtx) (walletId networkId : jsstr) (retainCount : Z)
    : act CkDb PruneResult :=
  prunedRows ← prune_manifests walletId networkId retainCount;
  reclaimedRows ← reclaim_chunks ctx;
  check (seqs ← map_result (λ seq, coerceToSafeNumber seq "PruneResult.prunedSequences") prunedRows;
         Ok {| prunedSequences := seqs; reclaimedChunks := Z.of_nat (length reclaimedRows);
               reclaimedBytes := foldl Z.add 0 reclaimedRows |}).

(** ** The public methods *)

Section public.
Context {S : Type} `{!Part S CkDb} `{!SqlBegin S} `{!Sha256} `{!TextBinding}.

Definition ck_catch (e : thrown) : thrown := translatePostgresError e None.

(** [this.txLayer.withTransaction((tx) => run(resolveTransaction(tx)), ..)] *)
Definition in_own_transaction {A} (run : act CkDb A) (isolation : option string) (uuid : jsstr)
    : act (World S) A :=
  withTransaction (λ tx, resolveTransaction tx ;; on_part run)
    {| to_isolation := isolation; to_timeoutMs := None; to_signal := None |} uuid.

Definition saveImpl (ctx : CkCtx) (walletId networkId : jsstr) (data : bytes)
    (chunkSize : option Z) (label : option jsstr) (tx : option TransactionHandle) (uuid : jsstr)
    : act (World S) CheckpointSummary :=
  let run := runOnTx ctx walletId networkId data (default DEFAULT_CHUNK_SIZE chunkSize) label in
  match tx with
  | Some h => resolveTransaction h ;; rethrow ck_catch (on_part run)
  | None => rethrow ck_catch (in_own_transaction run None uuid)
  end.

Definition save (ctx : CkCtx) (walletId networkId : jsstr) (data : bytes)
    (opts : SaveCheckpointOptions) (uuid : jsstr) : act (World S) CheckpointSummary :=
  check (assertValidCheckpointIds walletId networkId) ;;
  chunkSize ← check (validateSaveOptions opts);
  withAbort (saveImpl ctx walletId networkId data chunkSize (so_label opts) (so_tx opts) uuid)
    (so_signal opts).

Definition load (walletId networkId : jsstr) (sequence : option Z) (signal : option AbortSignal)
    (uuid : jsstr) : act (World S) CheckpointRecord :=
  check (assertValidCheckpointIds walletId networkId) ;;
  withAbort (rethrow ck_catch
    (in_own_transaction (load_run walletId networkId sequence) (Some "repeatable read") uuid))
    signal.

Definition history (walletId networkId : jsstr) (opts : HistoryOptions) (uuid : jsstr)
    : act (World S) (list CheckpointSummary) :=
  check (assertValidCheckpointIds walletId networkId) ;;
  '(limit, before) ← check (validateHistoryOptions opts);
  withAbort (rethrow ck_catch
    (in_own_transaction (history_run walletId networkId limit before) (Some "repeatable read") uuid))
    (ho_signal opts).

(** [Number.isSafeInteger(retainCount)] and [retainCount >= 1]. *)
Definition validateRetainCount (retainCount : jsnum) : result thrown Z :=
  match z_int retainCount with
  | Some n => if n <? 1 then Err (ValidationError "prune retainCount must be a safe integer >= 1"
                                    "retainCount" "") else Ok n
  | None => Err (ValidationError "prune retainCount must be a safe integer >= 1" "retainCount" "")
  end.

Definition prune (ctx : CkCtx) (walletId networkId : jsstr) (retainCount : jsnum)
    (signal : option AbortSignal) (uuid : jsstr) : act (World S) PruneResult :=
  check (assertValidCheckpointIds walletId networkId) ;;
  retain ← check (validateRetainCount retainCount);
  withAbort (rethrow ck_catch (in_own_transaction (prune_run ctx walletId networkId retain) None uuid))
    signal.
End public.
