(* ===== verification/CheckpointSave.v ===== *)
(** * CheckpointStore: what [save] writes

    The store invariant of the checkpoint tables, the effect of [save] as one explicit new state,
    and the preservation of the invariant by it. *)

From S2P Require Import Prelude Text Json Errors Transaction Driver Slices Checkpoint.

Local Open Scope Z_scope.

Section save.
Context `{HSha : !Sha256} `{HText : !TextBinding}.

(** ** The invariant *)

(** The junction rows of a manifest whose chunk hashes are [hs]. *)
Definition rows_of (id : Z) (hs : list bytes) : list JunctionRow :=
  imap (λ i h, {| j_manifest_id := id; j_position := Z.of_nat i; j_chunk_hash := h |}) hs.

(** A manifest's rows are dense and hash to its manifest hash, and its chunks are stored. *)
Definition manifest_ok (db : CkDb) (m : ManifestRow) : Prop := ∃ hs,
  junction_of (m_id m) db = rows_of (m_id m) hs ∧
  m_manifest_hash m = sha256 (mjoin hs) ∧
  Forall (λ h, is_Some (ckpt_chunks db !! h)) hs.

Record ck_inv (db : CkDb) : Prop := {
  inv_address : ∀ h c, ckpt_chunks db !! h = Some c → sha256 (ck_data c) = h;
  inv_manifests : Forall (manifest_ok db) (ckpt_manifests db);
  inv_ids : NoDup (m_id <$> ckpt_manifests db);
  inv_fk : Forall (λ r, j_manifest_id r ∈ m_id <$> ckpt_manifests db) (ckpt_manifest_chunks db);
  inv_seq : Forall (λ m, m_complete m = true ∧ 1 ≤ m_seq m ∧
              ∃ n, ckpt_sequence_counters db !! (m_w m, m_net m) = Some n ∧ m_seq m < n)
              (ckpt_manifests db);
  inv_unique : NoDup ((λ m, (m_w m, m_net m, m_seq m)) <$> ckpt_manifests db);
  inv_counters : ∀ k n, ckpt_sequence_counters db !! k = Some n → 2 ≤ n;
}.

Definition ck_empty : CkDb :=
  {| ckpt_chunks := ∅; ckpt_manifests := []; ckpt_manifest_chunks := [];
     ckpt_sequence_counters := ∅ |}.

Lemma ck_inv_empty : ck_inv ck_empty.
Proof. split; cbn; try constructor; intros *; by rewrite ?lookup_empty. Qed.

(** ** The chunk upsert *)

Lemma upsert_chunk_ne now t row h : h ≠ row.1 → upsert_chunk now t row !! h = t !! h.
Proof. intros Hne. unfold upsert_chunk. case_match; by rewrite lookup_insert_ne. Qed.

Lemma upsert_chunk_eq now t row :
  upsert_chunk now t row !! row.1 =
    Some {| ck_data := if t !! row.1 is Some c then ck_data c else row.2; ck_created_at := now |}.
Proof. unfold upsert_chunk. case_match; by rewrite lookup_insert_eq. Qed.

(** After the upsert of a batch without repeated hashes: a stored chunk keeps its bytes, a new
    one gets the batch's, and every hash of the batch carries the current time. *)
Lemma upsert_chunks_lookup now t rows h :
  NoDup rows.*1 →
  foldl (upsert_chunk now) t rows !! h =
    match list_to_map (M := gmap bytes bytes) rows !! h with
    | Some d => Some {| ck_data := if t !! h is Some c then ck_data c else d;
                        ck_created_at := now |}
    | None => t !! h
    end.
Proof.
  revert t. induction rows as [|[h' d] rows IH]; intros t Hnd; [done|].
  cbn [fmap list_fmap fst] in Hnd. apply NoDup_cons in Hnd as [Hnin Hnd].
  cbn [foldl list_to_map foldr fst snd uncurry]. rewrite IH by done.
  destruct (decide (h = h')) as [->|Hne].
  - rewrite lookup_insert_eq, not_elem_of_list_to_map_1 by done.
    apply (upsert_chunk_eq now t (h', d)).
  - rewrite lookup_insert_ne by done. by rewrite upsert_chunk_ne.
Qed.

Lemma upsert_chunk_batch_ok ctx batch db :
  NoDup batch.*1 →
  upsert_chunk_batch ctx batch db =
    (Ok tt, with_chunks (foldl (upsert_chunk (ck_now ctx)) (ckpt_chunks db) batch) db).
Proof. intros Hnd. unfold upsert_chunk_batch. unfold_action. by rewrite bool_decide_true. Qed.

Lemma upsert_batches ctx n rows db :
  0 < n → NoDup rows.*1 →
  for_each (upsert_chunk_batch ctx) (for_slices n rows) db =
    (Ok tt, with_chunks (foldl (upsert_chunk (ck_now ctx)) (ckpt_chunks db) rows) db).
Proof.
  intros Hn. revert db. apply (for_slices_ind n (λ rows ls, ∀ db, NoDup rows.*1 →
    for_each (upsert_chunk_batch ctx) ls db =
      (Ok tt, with_chunks (foldl (upsert_chunk (ck_now ctx)) (ckpt_chunks db) rows) db))); [done| |].
  - intros [] _. done.
  - intros l Hl IH db Hnd.
    rewrite <-(take_drop (Z.to_nat n) l), fmap_app, NoDup_app in Hnd. destruct Hnd as (H1 & _ & H2).
    erewrite for_each_cons_ok by (by apply upsert_chunk_batch_ok).
    rewrite IH by done. cbn. by rewrite <-foldl_app, take_drop.
Qed.

Lemma dedupe_hashes seen rows h :
  h ∈ (dedupe_chunks seen rows).*1 ↔ h ∈ rows.*1 ∧ h ∉ seen.
Proof.
  revert seen. induction rows as [|[h' d] rows IH]; intros seen; cbn; [set_solver|].
  case_bool_decide as Hs; cbn; rewrite ?elem_of_cons, IH; [set_solver|].
  destruct (decide (h = h')); set_solver.
Qed.

Lemma dedupe_NoDup seen rows : NoDup (dedupe_chunks seen rows).*1.
Proof.
  revert seen. induction rows as [|[h d] rows IH]; intros seen; cbn; [constructor|].
  case_bool_decide; [done|]. cbn. constructor; [|done]. rewrite dedupe_hashes. set_solver.
Qed.

Lemma dedupe_subset seen rows row : row ∈ dedupe_chunks seen rows → row ∈ rows.
Proof.
  revert seen. induction rows as [|[h d] rows IH]; intros seen; cbn; [done|].
  case_bool_decide; rewrite ?elem_of_cons; naive_solver.
Qed.

(** ** The junction insert *)

Lemma insert_junction_row_ok db r db' :
  insert_junction_row db r = Ok db' → db' = with_junction (ckpt_manifest_chunks db ++ [r]) db.
Proof. unfold insert_junction_row. repeat case_match; intros; by simplify_eq. Qed.

Lemma with_junction_with j1 j2 db : with_junction j1 (with_junction j2 db) = with_junction j1 db.
Proof. done. Qed.
Lemma with_junction_id db : with_junction (ckpt_manifest_chunks db) db = db.
Proof. by destruct db. Qed.

Lemma insert_junction_rows_ok rows db db' :
  foldl (λ acc r, db ← acc; insert_junction_row db r) (Ok db) rows = Ok db' →
  db' = with_junction (ckpt_manifest_chunks db ++ rows) db.
Proof.
  revert db. induction rows as [|r rows IH]; intros db; cbn.
  - intros [= <-]. by rewrite app_nil_r, with_junction_id.
  - change (Ok db ≫= λ db, insert_junction_row db r) with (insert_junction_row db r).
    destruct (insert_junction_row db r) as [db1|e] eqn:Hr.
    + apply insert_junction_row_ok in Hr as ->. intros ->%IH. cbn.
      by rewrite <-(assoc_L (++)).
    + intros H. exfalso. clear -H. by induction rows.
Qed.

Lemma insert_junction_batch_inv batch db db' :
  insert_junction_batch batch db = (Ok tt, db') →
  db' = with_junction (ckpt_manifest_chunks db ++ batch) db.
Proof.
  unfold insert_junction_batch. unfold_action. destruct (foldl _ _ _) eqn:Hf; [|done].
  intros [= <-]. by apply insert_junction_rows_ok.
Qed.

Lemma junction_batches_ok n rows db db' :
  0 < n →
  for_each insert_junction_batch (for_slices n rows) db = (Ok tt, db') →
  db' = with_junction (ckpt_manifest_chunks db ++ rows) db.
Proof.
  intros Hn. revert db. apply (for_slices_ind n (λ rows ls, ∀ db,
    for_each insert_junction_batch ls db = (Ok tt, db') →
    db' = with_junction (ckpt_manifest_chunks db ++ rows) db)); [done| |].
  - intros db [= <-]. by rewrite app_nil_r, with_junction_id.
  - intros l _ IH db (db1 & Hb & H)%for_each_cons_inv.
    apply insert_junction_batch_inv in Hb as ->. apply IH in H as ->. cbn.
    by rewrite <-(assoc_L (++)), take_drop.
Qed.

(** Rows that break no constraint. *)
Definition insertable (db : CkDb) (r : JunctionRow) : Prop :=
  j_position r ≤ 2147483647 ∧
  j_manifest_id r ∈ m_id <$> ckpt_manifests db ∧
  is_Some (ckpt_chunks db !! j_chunk_hash r) ∧
  ∀ r', r' ∈ ckpt_manifest_chunks db →
    j_manifest_id r' = j_manifest_id r → j_position r' ≠ j_position r.

Lemma insert_junction_row_total db r :
  insertable db r →
  insert_junction_row db r = Ok (with_junction (ckpt_manifest_chunks db ++ [r]) db).
Proof.
  intros (Hp & Hm & Hc & Hk). unfold insert_junction_row.
  destruct (Z.ltb_spec 2147483647 (j_position r)); [lia|].
  destruct (existsb _ (ckpt_manifest_chunks db)) eqn:He.
  { apply existsb_exists in He as (r' & Hr'%list_elem_of_In & Hb). bool_to_prop.
    by destruct (Hk r' Hr'). }
  destruct (existsb _ (ckpt_manifests db)) eqn:Hx; cbn.
  - rewrite bool_decide_false; [done|]. destruct Hc as [c ->]. done.
  - apply list_elem_of_fmap in Hm as (m & Hid & Hin). exfalso.
    assert (existsb (λ m, m_id m =? j_manifest_id r) (ckpt_manifests db) = true); [|congruence].
    apply existsb_exists. exists m. split; [by apply list_elem_of_In|]. lia.
Qed.

Definition junction_key (r : JunctionRow) : Z * Z := (j_manifest_id r, j_position r).

Lemma insertable_after db r rows :
  NoDup (junction_key <$> r :: rows) → Forall (insertable db) (r :: rows) →
  Forall (insertable (with_junction (ckpt_manifest_chunks db ++ [r]) db)) rows.
Proof.
  intros [Hnin _]%NoDup_cons [_ Hall]%Forall_cons. rewrite Forall_forall in Hall |- *.
  intros r1 Hr1. destruct (Hall r1 Hr1) as (Hp & Hm & Hc & Hk).
  split_and!; [done..|]. cbn. intros r' [Hr'| ->%list_elem_of_singleton]%elem_of_app Hid Hpos.
  - by eapply Hk.
  - apply Hnin. apply list_elem_of_fmap. exists r1. split; [|done].
    unfold junction_key. by rewrite Hid, Hpos.
Qed.

Lemma insert_junction_rows_total rows db :
  NoDup (junction_key <$> rows) → Forall (insertable db) rows →
  foldl (λ acc r, db ← acc; insert_junction_row db r) (Ok db) rows =
    Ok (with_junction (ckpt_manifest_chunks db ++ rows) db).
Proof.
  revert db. induction rows as [|r rows IH]; intros db Hnd Hall; cbn.
  - by rewrite app_nil_r, with_junction_id.
  - change (Ok db ≫= λ db, insert_junction_row db r) with (insert_junction_row db r).
    rewrite insert_junction_row_total by (by apply Forall_cons in Hall as [? _]).
    rewrite IH; [cbn; by rewrite <-(assoc_L (++))| |by apply insertable_after].
    by apply NoDup_cons in Hnd as [_ ?].
Qed.

(** ** The state [save] leaves *)

Definition chunk_hashes (data : bytes) (size : Z) : list bytes := sha256 <$> splitChunks data size.

Definition chunk_rows (data : bytes) (size : Z) : list (bytes * bytes) :=
  dedupe_chunks [] (zip (chunk_hashes data size) (splitChunks data size)).

Definition next_seq (w net : jsstr) (db : CkDb) : Z :=
  default 1 (ckpt_sequence_counters db !! (w, net)).

Definition saved_manifest (ctx : CkCtx) (w net : jsstr) (data : bytes) (size : Z)
    (bound : option jsstr) (db : CkDb) : ManifestRow :=
  {| m_id := ck_nextval ctx; m_w := w; m_net := net; m_seq := next_seq w net db;
     m_complete := true; m_manifest_hash := sha256 (mjoin (chunk_hashes data size));
     m_label := bound; m_created_at := ck_now ctx |}.

Definition saved (ctx : CkCtx) (w net : jsstr) (data : bytes) (size : Z) (bound : option jsstr)
    (db : CkDb) : CkDb :=
  {| ckpt_chunks := foldl (upsert_chunk (ck_now ctx)) (ckpt_chunks db) (chunk_rows data size);
     ckpt_manifests := ckpt_manifests db ++ [saved_manifest ctx w net data size bound db];
     ckpt_manifest_chunks := ckpt_manifest_chunks db ++ rows_of (ck_nextval ctx) (chunk_hashes data size);
     ckpt_sequence_counters := <[(w, net) := next_seq w net db + 1]> (ckpt_sequence_counters db) |}.

Lemma chunk_rows_NoDup data size : NoDup (chunk_rows data size).*1.
Proof. apply dedupe_NoDup. Qed.

Definition claimable (w net : jsstr) (db : CkDb) : Prop :=
  next_seq w net db < POSTGRES_BIGINT_MAX.

Lemma claim_seq_ok w net db :
  claimable w net db →
  claim_seq w net db =
    (Ok (next_seq w net db),
     with_counters (<[(w, net) := next_seq w net db + 1]> (ckpt_sequence_counters db)) db).
Proof.
  unfold claimable, claim_seq, next_seq, bigint_succ. unfold_action.
  destruct (ckpt_sequence_counters db !! (w, net)) as [n|]; cbn; intros Hn; [|done].
  destruct (Z.ltb_spec n POSTGRES_BIGINT_MAX); [|lia]. cbn. by rewrite Z.add_simpl_r.
Qed.

Lemma claim_seq_inv w net db seq db' :
  claim_seq w net db = (Ok seq, db') → claimable w net db.
Proof.
  unfold claimable, claim_seq, next_seq, bigint_succ, POSTGRES_BIGINT_MAX. unfold_action.
  destruct (ckpt_sequence_counters db !! (w, net)) as [n|]; cbn; [|lia].
  destruct (Z.ltb_spec n 9223372036854775807); [done|]. done.
Qed.

Lemma insert_manifest_ok ctx w net seq hash label bound db :
  bind_label label = Ok bound → ck_nextval ctx ∉ m_id <$> ckpt_manifests db →
  let row := {| m_id := ck_nextval ctx; m_w := w; m_net := net; m_seq := seq; m_complete := true;
                m_manifest_hash := hash; m_label := bound; m_created_at := ck_now ctx |} in
  insert_manifest ctx w net seq hash label db =
    (Ok row, with_manifests (ckpt_manifests db ++ [row]) db).
Proof.
  intros Hb Hf. unfold insert_manifest. unfold_action. rewrite Hb.
  destruct (existsb _ _) eqn:He; [|done]. exfalso. apply Hf.
  apply existsb_exists in He as (m & ?%list_elem_of_In & He). apply list_elem_of_fmap.
  exists m. split; [lia|done].
Qed.

Lemma insert_manifest_inv ctx w net seq hash label db m db' :
  insert_manifest ctx w net seq hash label db = (Ok m, db') →
  is_ok (bind_label label) = true ∧ ck_nextval ctx ∉ m_id <$> ckpt_manifests db.
Proof.
  unfold insert_manifest. unfold_action. destruct (bind_label label); [|done].
  destruct (existsb _ _) eqn:He; [done|]. intros _. split; [done|].
  intros (m' & Hid & Hin)%list_elem_of_fmap.
  assert (existsb (λ m, m_id m =? ck_nextval ctx) (ckpt_manifests db) = true); [|congruence].
  apply existsb_exists. exists m'. split; [by apply list_elem_of_In|]. lia.
Qed.

(** The state just before the junction rows go in. *)
Definition before_junction (ctx : CkCtx) (w net : jsstr) (data : bytes) (size : Z)
    (bound : option jsstr) (db : CkDb) : CkDb :=
  with_junction (ckpt_manifest_chunks db) (saved ctx w net data size bound db).

(** What it takes for [save] to get as far as the junction rows. *)
Definition savable (ctx : CkCtx) (w net : jsstr) (label : option jsstr) (bound : option jsstr)
    (db : CkDb) : Prop :=
  claimable w net db ∧ bind_label label = Ok bound ∧ ck_nextval ctx ∉ m_id <$> ckpt_manifests db.

Lemma runOnTx_unfold ctx w net data size label bound db :
  savable ctx w net label bound db →
  runOnTx ctx w net data size label db =
    (for_each insert_junction_batch
       (for_slices JUNCTION_INSERT_MAX_ROWS (rows_of (ck_nextval ctx) (chunk_hashes data size))) ;;
     check (toSummary (saved_manifest ctx w net data size bound db)
              (Z.of_nat (length data)) (Z.of_nat (length (splitChunks data size)))))
    (before_junction ctx w net data size bound db).
Proof.
  intros (Hc & Hb & Hf). unfold runOnTx.
  erewrite action_bind_ok by (by apply upsert_batches, chunk_rows_NoDup).
  erewrite action_bind_ok by (by apply claim_seq_ok).
  erewrite action_bind_ok by (by apply insert_manifest_ok). done.
Qed.

Lemma runOnTx_savable ctx w net data size label db s db' :
  runOnTx ctx w net data size label db = (Ok s, db') → ∃ bound, savable ctx w net label bound db.
Proof.
  unfold runOnTx. erewrite action_bind_ok by (by apply upsert_batches, chunk_rows_NoDup).
  intros (seq & db1 & Hs & H)%action_bind_inv. pose proof (claim_seq_inv _ _ _ _ _ Hs) as Hc.
  rewrite claim_seq_ok in Hs by exact Hc. simplify_eq.
  apply action_bind_inv in H as (m & db2 & Hm & _). apply insert_manifest_inv in Hm as [Hb Hf].
  destruct (bind_label label) as [bound|] eqn:Hl; [|done]. by exists bound.
Qed.

(** A [save] that succeeds leaves exactly [saved]. *)
Lemma runOnTx_inv ctx w net data size label db s db' :
  runOnTx ctx w net data size label db = (Ok s, db') →
  ∃ bound, savable ctx w net label bound db ∧ db' = saved ctx w net data size bound db ∧
    toSummary (saved_manifest ctx w net data size bound db)
      (Z.of_nat (length data)) (Z.of_nat (length (splitChunks data size))) = Ok s.
Proof.
  intros Hrun. destruct (runOnTx_savable _ _ _ _ _ _ _ _ _ Hrun) as [bound Hs].
  exists bound. split; [done|]. rewrite (runOnTx_unfold _ _ _ _ _ _ _ _ Hs) in Hrun.
  apply action_bind_inv in Hrun as ([] & db1 & Hj & Hrun).
  apply junction_batches_ok in Hj as ->; [|done]. by injection Hrun as -> <-.
Qed.

(** ** [save] keeps the invariant *)

Lemma zip_hashes_elem (l : list bytes) h d :
  (h, d) ∈ zip (sha256 <$> l) l → h = sha256 d ∧ d ∈ l.
Proof.
  induction l as [|a l IH]; cbn; [by intros ?%not_elem_of_nil|].
  rewrite elem_of_cons. intros [[= -> ->]|H]; [set_solver|]. destruct (IH H). set_solver.
Qed.

Lemma zip_hashes_fst (l : list bytes) : (zip (sha256 <$> l) l).*1 = sha256 <$> l.
Proof. apply fst_zip. by rewrite length_fmap. Qed.

Lemma chunk_rows_elem data size h d :
  (h, d) ∈ chunk_rows data size → h = sha256 d ∧ d ∈ splitChunks data size.
Proof. intros H%dedupe_subset. by apply zip_hashes_elem. Qed.

Lemma chunk_rows_hashes data size h :
  h ∈ (chunk_rows data size).*1 ↔ h ∈ chunk_hashes data size.
Proof.
  unfold chunk_rows. rewrite dedupe_hashes. unfold chunk_hashes. rewrite zip_hashes_fst. set_solver.
Qed.

(** What [save] does to the chunk pool, hash by hash. *)
Lemma saved_chunks_lookup ctx w net data size bound db h :
  ckpt_chunks (saved ctx w net data size bound db) !! h =
    match list_to_map (M := gmap bytes bytes) (chunk_rows data size) !! h with
    | Some d => Some {| ck_data := if ckpt_chunks db !! h is Some c then ck_data c else d;
                        ck_created_at := ck_now ctx |}
    | None => ckpt_chunks db !! h
    end.
Proof. apply upsert_chunks_lookup, chunk_rows_NoDup. Qed.

Lemma saved_chunk_kept ctx w net data size bound db h c :
  ckpt_chunks db !! h = Some c →
  ∃ c', ckpt_chunks (saved ctx w net data size bound db) !! h = Some c' ∧ ck_data c' = ck_data c.
Proof. intros H. rewrite saved_chunks_lookup, H. case_match; by eexists. Qed.

Lemma saved_chunk_stored ctx w net data size bound db h :
  h ∈ chunk_hashes data size → is_Some (ckpt_chunks (saved ctx w net data size bound db) !! h).
Proof.
  rewrite <-chunk_rows_hashes, saved_chunks_lookup. intros H.
  destruct (list_to_map _ !! h) eqn:He; [by eexists|]. exfalso.
  by apply not_elem_of_list_to_map_2 in He.
Qed.

Lemma saved_address ctx w net data size bound db h c :
  (∀ h c, ckpt_chunks db !! h = Some c → sha256 (ck_data c) = h) →
  ckpt_chunks (saved ctx w net data size bound db) !! h = Some c → sha256 (ck_data c) = h.
Proof.
  intros Ha. rewrite saved_chunks_lookup.
  destruct (list_to_map _ !! h) as [d|] eqn:He; [|by apply Ha].
  destruct (ckpt_chunks db !! h) as [c0|] eqn:H0; intros [= <-]; cbn; [by apply Ha|].
  apply elem_of_list_to_map_2, chunk_rows_elem in He as [-> _]. done.
Qed.

Lemma rows_of_ids id hs r : r ∈ rows_of id hs → j_manifest_id r = id.
Proof. intros (i & h & -> & _)%elem_of_lookup_imap_1. done. Qed.

Lemma filter_rows_of id hs : filter (λ r, j_manifest_id r = id) (rows_of id hs) = rows_of id hs.
Proof. apply list_filter_every. intros r. apply rows_of_ids. Qed.

Lemma saved_junction_old ctx w net data size bound db id :
  id ≠ ck_nextval ctx →
  junction_of id (saved ctx w net data size bound db) = junction_of id db.
Proof.
  intros Hne. unfold junction_of, saved; cbn. rewrite filter_app, (list_filter_none _ (rows_of _ _)).
  - apply app_nil_r.
  - intros r ->%rows_of_ids. congruence.
Qed.

Lemma saved_junction_new ctx w net data size bound db :
  Forall (λ r, j_manifest_id r ∈ m_id <$> ckpt_manifests db) (ckpt_manifest_chunks db) →
  ck_nextval ctx ∉ m_id <$> ckpt_manifests db →
  junction_of (ck_nextval ctx) (saved ctx w net data size bound db) =
    rows_of (ck_nextval ctx) (chunk_hashes data size).
Proof.
  intros Hfk Hf. unfold junction_of, saved; cbn. rewrite filter_app, filter_rows_of, list_filter_none; [done|].
  rewrite Forall_forall in Hfk. intros r Hr He. apply Hf. rewrite <-He. by apply Hfk.
Qed.

Lemma saved_manifest_ok ctx w net data size bound db :
  Forall (λ r, j_manifest_id r ∈ m_id <$> ckpt_manifests db) (ckpt_manifest_chunks db) →
  ck_nextval ctx ∉ m_id <$> ckpt_manifests db →
  manifest_ok (saved ctx w net data size bound db) (saved_manifest ctx w net data size bound db).
Proof.
  intros Hfk Hf. exists (chunk_hashes data size). split_and!.
  - by apply saved_junction_new.
  - done.
  - apply Forall_forall. intros h. apply saved_chunk_stored.
Qed.

Lemma manifest_ok_saved ctx w net data size bound db m :
  m_id m ≠ ck_nextval ctx → manifest_ok db m → manifest_ok (saved ctx w net data size bound db) m.
Proof.
  intros Hne (hs & Hj & Hh & Hc). exists hs. split_and!; [by rewrite saved_junction_old|done|].
  eapply Forall_impl; [exact Hc|]. intros h [c Hlk]. cbn.
  destruct (saved_chunk_kept ctx w net data size bound db h c Hlk) as (c' & ? & _). by exists c'.
Qed.

Lemma next_seq_pos w net db : ck_inv db → 1 ≤ next_seq w net db.
Proof.
  intros Hi. unfold next_seq. destruct (_ !! _) as [n|] eqn:Hn; cbn; [|lia].
  apply (inv_counters _ Hi) in Hn. lia.
Qed.

(** Every earlier checkpoint of the pair is older than the next sequence number. *)
Lemma seq_below_next m db :
  ck_inv db → m ∈ ckpt_manifests db → m_seq m < next_seq (m_w m) (m_net m) db.
Proof.
  intros Hi Hm. pose proof (inv_seq _ Hi) as Hs. rewrite Forall_forall in Hs.
  destruct (Hs m Hm) as (_ & _ & n & Hn & Hlt). unfold next_seq. by rewrite Hn.
Qed.

Lemma saved_inv_seq ctx w net data size bound db :
  ck_inv db →
  Forall (λ m, m_complete m = true ∧ 1 ≤ m_seq m ∧
    ∃ n, ckpt_sequence_counters (saved ctx w net data size bound db) !! (m_w m, m_net m) = Some n ∧
         m_seq m < n) (ckpt_manifests (saved ctx w net data size bound db)).
Proof.
  intros Hi. pose proof (inv_seq _ Hi) as Hs. rewrite Forall_forall in Hs.
  apply Forall_forall. intros m [Hm| ->%list_elem_of_singleton]%elem_of_app.
  - destruct (Hs m Hm) as (Hc & Hge & n & Hn & Hlt). split_and!; [done..|]. cbn.
    destruct (decide ((w, net) = (m_w m, m_net m))) as [He|Hne].
    + rewrite He, lookup_insert_eq. eexists; split; [done|]. simplify_eq.
      pose proof (seq_below_next m db Hi Hm). lia.
    + rewrite lookup_insert_ne by done. eauto.
  - split_and!; [done|by apply next_seq_pos|]. cbn. rewrite lookup_insert_eq.
    eexists; split; [done|]. lia.
Qed.

Lemma saved_inv ctx w net data size label bound db :
  ck_inv db → savable ctx w net label bound db → ck_inv (saved ctx w net data size bound db).
Proof.
  intros Hi (_ & _ & Hf). split.
  - intros h c. apply saved_address, inv_address, Hi.
  - cbn. apply Forall_app. split; [|by constructor; [apply saved_manifest_ok; [apply inv_fk|]|]].
    apply Forall_forall. intros m Hm. pose proof (inv_manifests _ Hi) as Hms.
    rewrite Forall_forall in Hms. apply manifest_ok_saved; [|by apply Hms].
    intros He. apply Hf. rewrite <-He. by apply list_elem_of_fmap_2.
  - cbn. rewrite fmap_app. apply NoDup_app. split_and!; [apply Hi| |apply NoDup_singleton].
    intros id Hid ->%list_elem_of_singleton. done.
  - cbn. rewrite fmap_app. apply Forall_app. split.
    + eapply Forall_impl; [apply Hi|]. cbn. set_solver.
    + apply Forall_forall. intros r ->%rows_of_ids. set_solver.
  - by apply saved_inv_seq.
  - cbn. rewrite fmap_app. apply NoDup_app. split_and!; [apply Hi| |apply NoDup_singleton].
    intros k (m & -> & Hm)%list_elem_of_fmap [= <- <- Hs]%list_elem_of_singleton.
    pose proof (seq_below_next m db Hi Hm). lia.
  - intros k n. cbn. destruct (decide (k = (w, net))) as [->|Hne].
    + rewrite lookup_insert_eq. intros [= <-]. pose proof (next_seq_pos w net db Hi). lia.
    + rewrite lookup_insert_ne by done. apply Hi.
Qed.

(** ** [save] succeeds *)

Lemma rows_of_keys id hs : NoDup (junction_key <$> rows_of id hs).
Proof.
  apply NoDup_fmap_2_strong.
  - intros r1 r2 (i & h & -> & Hi)%elem_of_lookup_imap_1 (j & h' & -> & Hj)%elem_of_lookup_imap_1.
    unfold junction_key; cbn. intros [= He%(inj _)]. subst. congruence.
  - apply NoDup_alt. intros i j r Hi Hj. unfold rows_of in *. rewrite list_lookup_imap in Hi, Hj.
    destruct (hs !! i), (hs !! j); simplify_eq/=. lia.
Qed.

Lemma new_rows_insertable ctx w net data size bound db r :
  ck_inv db → ck_nextval ctx ∉ m_id <$> ckpt_manifests db →
  Z.of_nat (length (splitChunks data size)) ≤ 2147483648 →
  r ∈ rows_of (ck_nextval ctx) (chunk_hashes data size) →
  insertable (before_junction ctx w net data size bound db) r.
Proof.
  intros Hi Hf Hlen (i & h & -> & Hh)%elem_of_lookup_imap_1. split_and!; cbn.
  - apply lookup_lt_Some in Hh. unfold chunk_hashes in Hh. rewrite length_fmap in Hh. lia.
  - rewrite fmap_app. set_solver.
  - apply (saved_chunk_stored ctx w net data size bound db). by eapply list_elem_of_lookup_2.
  - intros r' Hr' Hid. exfalso. apply Hf. rewrite <-Hid.
    pose proof (inv_fk _ Hi) as Hfk. rewrite Forall_forall in Hfk. by apply Hfk.
Qed.

Lemma junction_batches_total n rows db :
  0 < n → NoDup (junction_key <$> rows) → Forall (insertable db) rows →
  for_each insert_junction_batch (for_slices n rows) db =
    (Ok tt, with_junction (ckpt_manifest_chunks db ++ rows) db).
Proof.
  intros Hn. revert db. apply (for_slices_ind n (λ rows ls, ∀ db,
    NoDup (junction_key <$> rows) → Forall (insertable db) rows →
    for_each insert_junction_batch ls db =
      (Ok tt, with_junction (ckpt_manifest_chunks db ++ rows) db))); [done| |].
  - intros db _ _. by rewrite app_nil_r, with_junction_id.
  - intros l _ IH db Hnd Hall. pose proof (take_drop (Z.to_nat n) l) as Htd.
    set (l1 := take (Z.to_nat n) l) in *. set (l2 := drop (Z.to_nat n) l) in *.
    rewrite <-Htd in Hnd, Hall.
    assert (insert_junction_batch l1 db =
      (Ok tt, with_junction (ckpt_manifest_chunks db ++ l1) db)) as Hb.
    { unfold insert_junction_batch. unfold_action.
      rewrite fmap_app, NoDup_app in Hnd. apply Forall_app in Hall.
      by rewrite insert_junction_rows_total by tauto. }
    erewrite for_each_cons_ok by exact Hb. rewrite IH.
    + cbn. by rewrite <-(assoc_L (++)), Htd.
    + rewrite fmap_app, NoDup_app in Hnd. tauto.
    + clear -Hnd Hall. revert db Hall. induction l1 as [|r l1 IH]; intros db Hall.
      { by rewrite app_nil_r, with_junction_id. }
      cbn [app] in Hnd, Hall. pose proof (insertable_after db r (l1 ++ l2) Hnd Hall) as Hall'.
      cbn in Hnd. apply NoDup_cons in Hnd as [_ Hnd]. specialize (IH Hnd _ Hall').
      cbn in IH. by rewrite <-(assoc_L (++)) in IH.
Qed.

Lemma runOnTx_total ctx w net data size label bound db :
  ck_inv db → savable ctx w net label bound db →
  Z.of_nat (length (splitChunks data size)) ≤ 2147483648 →
  runOnTx ctx w net data size label db =
    (toSummary (saved_manifest ctx w net data size bound db)
       (Z.of_nat (length data)) (Z.of_nat (length (splitChunks data size))),
     saved ctx w net data size bound db).
Proof.
  intros Hi Hs Hlen. rewrite (runOnTx_unfold _ _ _ _ _ _ _ _ Hs).
  erewrite action_bind_ok; [done|]. apply junction_batches_total; [done|apply rows_of_keys|].
  apply Forall_forall. intros r. apply new_rows_insertable; [done|apply Hs|done].
Qed.
End save.
