(* ===== verification/CheckpointSpec.v ===== *)
(** * CheckpointStore: what its methods promise

    [load] against the store invariant, the round trip with [save], the newest-first page of
    [history], the retention and collection rules of [prune], and their preservation over every
    reachable store (laws C1 and C2a of [Formal/STORAGE_ALGEBRA.md]). *)

From S2P Require Import Prelude Text Json Errors Transaction Driver Slices Checkpoint.
From S2P Require Import CheckpointSave.

Local Open Scope Z_scope.

#[export] Instance by_seq_desc_trans : Transitive by_seq_desc.
Proof. intros m1 m2 m3. unfold by_seq_desc. lia. Qed.
#[export] Instance by_seq_desc_total : Total by_seq_desc.
Proof. intros m1 m2. unfold by_seq_desc. lia. Qed.
#[export] Instance by_position_trans : Transitive by_position.
Proof. intros m1 m2 m3. unfold by_position. lia. Qed.
#[export] Instance by_position_total : Total by_position.
Proof. intros m1 m2. unfold by_position. lia. Qed.

Section spec.
Context `{HSha : !Sha256} `{HText : !TextBinding}.

(** ** Reading a manifest's rows *)

Lemma imap_rows_sorted k id hs :
  StronglySorted by_position
    (imap (λ i h, {| j_manifest_id := id; j_position := Z.of_nat (k + i); j_chunk_hash := h |}) hs).
Proof.
  revert k. induction hs as [|h hs IH]; intros k; cbn; [constructor|]. constructor.
  - specialize (IH (S k)). erewrite imap_ext; [exact IH|]. intros i x _. cbn. do 2 f_equal. lia.
  - apply Forall_forall. intros r (i & h' & -> & _)%elem_of_lookup_imap_1.
    unfold by_position; cbn. lia.
Qed.

Lemma merge_sort_rows_of id hs : merge_sort by_position (rows_of id hs) = rows_of id hs.
Proof.
  apply (merge_sort_unique by_position); [|apply (imap_rows_sorted 0)|done].
  intros r1 r2 (i & h & -> & Hi)%elem_of_lookup_imap_1 (j & h' & -> & Hj)%elem_of_lookup_imap_1.
  unfold by_position; cbn. intros ??. assert (i = j) as -> by lia. congruence.
Qed.

Definition chunk_data (db : CkDb) (h : bytes) : option bytes := ck_data <$> ckpt_chunks db !! h.

(** The hashes a manifest lists and the bytes they stand for. *)
Definition hashes_of (m : ManifestRow) (db : CkDb) : list bytes :=
  j_chunk_hash <$> junction_of (m_id m) db.
Definition payload (db : CkDb) (hs : list bytes) : bytes := mjoin (omap (chunk_data db) hs).

Lemma rows_of_hashes id hs : j_chunk_hash <$> rows_of id hs = hs.
Proof.
  unfold rows_of.
  apply list_eq. intros i. rewrite list_lookup_fmap, list_lookup_imap. by destruct (hs !! i).
Qed.

Lemma manifest_ok_hashes db m :
  manifest_ok db m →
  junction_of (m_id m) db = rows_of (m_id m) (hashes_of m db) ∧
  m_manifest_hash m = sha256 (mjoin (hashes_of m db)) ∧
  Forall (λ h, is_Some (ckpt_chunks db !! h)) (hashes_of m db).
Proof. intros (hs & Hj & ? & ?). unfold hashes_of. rewrite Hj, rows_of_hashes. done. Qed.

Lemma select_chunk_rows_ok db m :
  manifest_ok db m →
  select_chunk_rows (m_id m) db =
    imap (λ i h, (Z.of_nat i, h, chunk_data db h)) (hashes_of m db).
Proof.
  intros (Hj & _ & _)%manifest_ok_hashes. unfold select_chunk_rows.
  rewrite Hj, merge_sort_rows_of. unfold rows_of. by rewrite fmap_imap.
Qed.

Lemma verify_chunks_ok db mh k hs :
  (∀ h c, ckpt_chunks db !! h = Some c → sha256 (ck_data c) = h) →
  Forall (λ h, is_Some (ckpt_chunks db !! h)) hs →
  verify_chunks mh (Z.of_nat k) (imap (λ i h, (Z.of_nat (k + i), h, chunk_data db h)) hs) =
    Ok (omap (chunk_data db) hs, hs).
Proof.
  intros Ha Hc. revert k. induction Hc as [|h hs [c Hh] Hc IH]; intros k; [done|].
  cbn. rewrite Nat.add_0_r, Z.eqb_refl. unfold chunk_data at 1 3. rewrite Hh. cbn.
  rewrite bool_decide_true by (by apply Ha). cbn.
  specialize (IH (S k)). rewrite (imap_ext _ (λ i h, (Z.of_nat (S k + i), h, chunk_data db h))).
  - replace (Z.of_nat k + 1) with (Z.of_nat (S k)) by lia. by rewrite IH.
  - intros i x _. cbn. do 3 f_equal. lia.
Qed.

(** On a consistent store, [load]'s verification always passes. *)
Lemma load_manifest_ok db m :
  ck_inv db → m ∈ ckpt_manifests db →
  load_manifest m db =
    (summary ← toSummary m (Z.of_nat (length (payload db (hashes_of m db))))
                 (Z.of_nat (length (hashes_of m db)));
     Ok {| cr_summary := summary; cr_data := payload db (hashes_of m db) |}).
Proof.
  intros Hi Hm. pose proof (inv_manifests _ Hi) as Hok. rewrite Forall_forall in Hok.
  specialize (Hok m Hm). destruct (manifest_ok_hashes _ _ Hok) as (_ & Hh & Hc).
  unfold load_manifest. rewrite select_chunk_rows_ok by done.
  pose proof (verify_chunks_ok db (m_manifest_hash m) 0 (hashes_of m db) (inv_address _ Hi) Hc) as Hv.
  change (Z.of_nat 0) with 0 in Hv. cbn [Nat.add] in Hv. rewrite Hv. unfold_action. rewrite <-Hh, bool_decide_true by done. cbn.
  by rewrite length_imap.
Qed.

(** ** The descending page of a pair *)

Lemma select_manifests_elem w net p db m :
  m ∈ select_manifests w net p db ↔
  m ∈ ckpt_manifests db ∧ m_w m = w ∧ m_net m = net ∧ m_complete m = true ∧ p (m_seq m) = true.
Proof.
  unfold select_manifests. rewrite merge_sort_Permutation, list_elem_of_filter, Is_true_true.
  rewrite andb_true_iff. tauto.
Qed.

Lemma manifest_key_inj db m1 m2 :
  ck_inv db → m1 ∈ ckpt_manifests db → m2 ∈ ckpt_manifests db →
  m_w m1 = m_w m2 → m_net m1 = m_net m2 → m_seq m1 = m_seq m2 → m1 = m2.
Proof.
  intros Hi H1 H2 Hw Hn Hs. eapply (NoDup_fmap_elem_inj _ _ _ _ (inv_unique _ Hi) H1 H2).
  by rewrite Hw, Hn, Hs.
Qed.

Lemma select_manifests_anti w net p db m1 m2 :
  ck_inv db → m1 ∈ select_manifests w net p db → m2 ∈ select_manifests w net p db →
  m_seq m1 = m_seq m2 → m1 = m2.
Proof.
  intros Hi (H1 & Hw1 & Hn1 & _)%select_manifests_elem (H2 & Hw2 & Hn2 & _)%select_manifests_elem Hs.
  apply (manifest_key_inj db); congruence.
Qed.

Lemma select_manifests_sorted w net p db : StronglySorted by_seq_desc (select_manifests w net p db).
Proof. apply (StronglySorted_merge_sort by_seq_desc). Qed.

Lemma select_manifests_strict w net p db :
  ck_inv db → StronglySorted (λ m1 m2, m_seq m2 < m_seq m1) (select_manifests w net p db).
Proof.
  intros Hi. eapply StronglySorted_strict; [| |apply select_manifests_sorted].
  - unfold select_manifests. rewrite merge_sort_Permutation.
    eapply sublist_NoDup; [|apply sublist_filter]. eapply NoDup_fmap_1, inv_unique, Hi.
  - intros m1 m2 H1 H2 Hne Hle. unfold by_seq_desc in Hle.
    assert (m_seq m1 ≠ m_seq m2); [|lia]. intros He. apply Hne.
    by apply (select_manifests_anti w net p db).
Qed.

(** The first row of the page is the one whose sequence number is not below any other. *)
Lemma select_manifests_head w net p db m :
  ck_inv db → m ∈ select_manifests w net p db →
  (∀ m', m' ∈ select_manifests w net p db → m_seq m' ≤ m_seq m) →
  take 1 (select_manifests w net p db) = [m].
Proof.
  intros Hi Hm Hmax. pose proof (select_manifests_sorted w net p db) as Hs.
  destruct (select_manifests w net p db) as [|m0 rest] eqn:Hsel.
  { by apply not_elem_of_nil in Hm. }
  cbn. rewrite take_0. f_equal.
  assert (m_seq m0 = m_seq m) as Heq.
  { apply Z.le_antisymm; [apply Hmax; set_solver|].
    apply elem_of_cons in Hm as [->|Hm]; [lia|]. inversion Hs as [|??? Hall]; subst.
    rewrite Forall_forall in Hall. apply Hall, Hm. }
  eapply (select_manifests_anti w net p db); [done|rewrite Hsel; set_solver..|done].
Qed.

(** ** load after save *)

Definition pick (q : option Z) (seq : Z) : bool := if q is Some s then seq =? s else true.

Lemma load_run_manifest w net q db m :
  ck_inv db → m ∈ ckpt_manifests db → m_w m = w → m_net m = net →
  (q = Some (m_seq m) ∨
   (q = None ∧ ∀ m', m' ∈ ckpt_manifests db → m_w m' = w → m_net m' = net → m_seq m' ≤ m_seq m)) →
  load_run w net q db = (load_manifest m db, db).
Proof.
  intros Hi Hm Hw Hn Hq. unfold load_run. fold (pick q).
  pose proof (inv_seq _ Hi) as Hs. rewrite Forall_forall in Hs. destruct (Hs m Hm) as (Hc & _).
  rewrite (select_manifests_head w net (pick q) db m); [done|done|..].
  - apply select_manifests_elem. split_and!; [done..|].
    destruct Hq as [->|[-> _]]; [apply Z.eqb_refl|done].
  - intros m' (Hm' & Hw' & Hn' & _ & Hp)%select_manifests_elem.
    destruct Hq as [->|[-> Hmax]]; [apply Z.eqb_eq in Hp; lia|by apply Hmax].
Qed.

Lemma payload_cons db h d hs : chunk_data db h = Some d → payload db (h :: hs) = d ++ payload db hs.
Proof. intros Hd. unfold payload. cbn. by rewrite Hd. Qed.

(** The bytes under the hashes of a list of chunks are the chunks, or two inputs collide. *)
Lemma payload_chunks db (chunks : list bytes) :
  (∀ h c, ckpt_chunks db !! h = Some c → sha256 (ck_data c) = h) →
  Forall (λ h, is_Some (ckpt_chunks db !! h)) (sha256 <$> chunks) →
  payload db (sha256 <$> chunks) = mjoin chunks ∨
  ∃ x y : bytes, x ≠ y ∧ sha256 x = sha256 y.
Proof.
  intros Ha. induction chunks as [|d chunks IH]; [by left|].
  intros [[c Hc] Hall]%Forall_cons. destruct (IH Hall) as [He|?]; [|by right].
  destruct (decide (ck_data c = d)) as [Hd|Hd].
  - left. rewrite fmap_cons, (payload_cons db _ d), He; [done|].
    unfold chunk_data. by rewrite Hc, <-Hd.
  - right. exists (ck_data c), d. split; [done|]. by apply Ha in Hc.
Qed.

Lemma splitChunks_join data size : 0 < size → mjoin (splitChunks data size) = data.
Proof. apply for_slices_concat. Qed.

Lemma saved_is_newest ctx w net data size bound db m' :
  ck_inv db → m' ∈ ckpt_manifests (saved ctx w net data size bound db) →
  m_w m' = w → m_net m' = net → m_seq m' ≤ m_seq (saved_manifest ctx w net data size bound db).
Proof.
  intros Hi [Hm| ->%list_elem_of_singleton]%elem_of_app Hw Hn; [|done].
  pose proof (seq_below_next m' db Hi Hm) as Hlt. rewrite Hw, Hn in Hlt. cbn. lia.
Qed.

Lemma toSummary_sequence m a b s : toSummary m a b = Ok s → cs_sequence s = m_seq m.
Proof.
  unfold toSummary, coerceToSafeNumber. unfold_action. destruct (_ || _); [done|]. by intros [= <-].
Qed.

Lemma load_run_saved ctx w net data size label bound db s q :
  ck_inv db → savable ctx w net label bound db → 0 < size →
  toSummary (saved_manifest ctx w net data size bound db)
    (Z.of_nat (length data)) (Z.of_nat (length (splitChunks data size))) = Ok s →
  q = None ∨ q = Some (cs_sequence s) →
  let db' := saved ctx w net data size bound db in
  load_run w net q db' = (Ok {| cr_summary := s; cr_data := data |}, db') ∨
  ∃ x y : bytes, x ≠ y ∧ sha256 x = sha256 y.
Proof.
  intros Hi Hsv Hsz Hsum Hq db'. assert (ck_inv db') as Hi' by (by eapply saved_inv).
  set (m := saved_manifest ctx w net data size bound db) in *.
  assert (m ∈ ckpt_manifests db') as Hm by (cbn; set_solver).
  assert (cs_sequence s = m_seq m) as Hseq by (by eapply toSummary_sequence).
  rewrite (load_run_manifest w net q db' m Hi' Hm) by
    (done || (destruct Hq as [->| ->]; [right; split; [done|]|left; by rewrite Hseq];
              intros; by apply saved_is_newest)).
  rewrite (load_manifest_ok _ _ Hi' Hm).
  assert (hashes_of m db' = chunk_hashes data size) as Hh.
  { unfold hashes_of, db', m. cbn [m_id saved_manifest]. rewrite saved_junction_new.
    - apply rows_of_hashes.
    - apply Hi.
    - apply Hsv. }
  rewrite Hh. unfold chunk_hashes at 1 3.
  destruct (payload_chunks db' (splitChunks data size) (inv_address _ Hi')) as [Hp|?]; [|left|by right].
  { apply Forall_forall. intros h. apply saved_chunk_stored. }
  fold (chunk_hashes data size). unfold chunk_hashes in *. rewrite Hp, splitChunks_join by done.
  rewrite length_fmap. unfold_action. by rewrite Hsum.
Qed.
End spec.
