(* ===== verification/CheckpointPrune.v ===== *)
(** * CheckpointStore: retention and collection

    What [prune] deletes and what it leaves: the newest [retainCount] checkpoints of the pair, every
    other pair's checkpoints, and every chunk that some remaining manifest still lists. *)

From S2P Require Import Prelude Text Json Errors Transaction Driver Slices Checkpoint.
From S2P Require Import CheckpointSave CheckpointSpec.

Local Open Scope Z_scope.

Section prune.
Context `{HSha : !Sha256} `{HText : !TextBinding}.

Definition page (w net : jsstr) (db : CkDb) : list ManifestRow :=
  select_manifests w net (λ _, true) db.

(** [doomed cut m]: [m] is a complete checkpoint of the pair older than [cut]. *)
Definition doomed (w net : jsstr) (cut : ManifestRow) (m : ManifestRow) : Prop :=
  m_w m = w ∧ m_net m = net ∧ Is_true (m_complete m) ∧ m_seq m < m_seq cut.
#[global] Instance doomed_dec w net cut m : Decision (doomed w net cut m).
Proof. unfold doomed. apply _. Defined.

(** The store after a list of manifests is deleted and the chunks in [gone] are reclaimed. *)
Definition keep_manifests (P : ManifestRow → Prop) `{∀ m, Decision (P m)} (db : CkDb) : CkDb :=
  with_junction
    (filter (λ r, j_manifest_id r ∉ m_id <$> filter (λ m, ¬ P m) (ckpt_manifests db))
       (ckpt_manifest_chunks db))
    (with_manifests (filter P (ckpt_manifests db)) db).

Lemma keep_junction (P : ManifestRow → Prop) `{∀ m, Decision (P m)} db m :
  ck_inv db → m ∈ ckpt_manifests db → P m →
  junction_of (m_id m) (keep_manifests P db) = junction_of (m_id m) db.
Proof.
  intros Hi Hm HP. unfold junction_of, keep_manifests; cbn. rewrite list_filter_filter.
  apply list_filter_ext_elem. intros r Hr. split; [tauto|]. intros Hid. split; [done|].
  intros (m' & Hid' & [HnP Hm']%list_elem_of_filter)%list_elem_of_fmap. apply HnP.
  rewrite Hid in Hid'. by rewrite (NoDup_fmap_elem_inj m_id _ _ _ (inv_ids _ Hi) Hm' Hm) by done.
Qed.

Lemma keep_manifests_inv (P : ManifestRow → Prop) `{∀ m, Decision (P m)} db :
  ck_inv db → ck_inv (keep_manifests P db).
Proof.
  intros Hi. split; cbn.
  - apply Hi.
  - apply Forall_forall. intros m [HP Hm]%list_elem_of_filter.
    pose proof (inv_manifests _ Hi) as Hms. rewrite Forall_forall in Hms.
    destruct (Hms m Hm) as (hs & Hj & ? & ?). exists hs.
    by rewrite (keep_junction P db m Hi Hm HP).
  - eapply sublist_NoDup; [apply Hi|]. apply fmap_sublist, sublist_filter.
  - apply Forall_forall. intros r [Hr Hin]%list_elem_of_filter.
    pose proof (inv_fk _ Hi) as Hfk. rewrite Forall_forall in Hfk.
    specialize (Hfk r Hin). apply list_elem_of_fmap in Hfk as (m & Hid & Hm).
    apply list_elem_of_fmap. exists m. split; [done|]. apply list_elem_of_filter. split; [|done].
    destruct (decide (P m)); [done|]. exfalso. apply Hr. rewrite Hid.
    apply list_elem_of_fmap_2, list_elem_of_filter. done.
  - pose proof (inv_seq _ Hi) as Hs. rewrite Forall_forall in Hs.
    apply Forall_forall. intros m [_ Hm]%list_elem_of_filter. by apply Hs.
  - eapply sublist_NoDup; [apply Hi|]. apply fmap_sublist, sublist_filter.
  - apply Hi.
Qed.

(** ** Step 1: retention *)

(** [m] survives: it is not older than the [n]-th newest of the pair, if there is one. *)
Definition kept (w net : jsstr) (n : Z) (db : CkDb) (m : ManifestRow) : Prop :=
  match page w net db !! Z.to_nat (n - 1) with
  | Some cut => ¬ doomed w net cut m
  | None => True
  end.
#[global] Instance kept_dec w net n db m : Decision (kept w net n db m).
Proof. unfold kept. case_match; apply _. Defined.

Lemma kept_some w net n db cut m :
  page w net db !! Z.to_nat (n - 1) = Some cut → kept w net n db m ↔ ¬ doomed w net cut m.
Proof. intros Hc. unfold kept. by rewrite Hc. Qed.
Lemma kept_none w net n db m : page w net db !! Z.to_nat (n - 1) = None → kept w net n db m.
Proof. intros Hc. unfold kept. by rewrite Hc. Qed.

Lemma prune_manifests_run w net n db :
  prune_manifests w net n db =
    (Ok (m_seq <$> filter (λ m, ¬ kept w net n db m) (ckpt_manifests db)),
     keep_manifests (kept w net n db) db).
Proof.
  unfold prune_manifests, keep_manifests. unfold_action. fold (page w net db).
  destruct (page w net db !! Z.to_nat (n - 1)) as [cut|] eqn:Hc.
  - assert (filter (λ m, ¬ kept w net n db m) (ckpt_manifests db) =
      filter (doomed w net cut) (ckpt_manifests db)) as ->.
    { apply list_filter_ext_elem. intros m _. rewrite (kept_some _ _ _ _ _ _ Hc).
      destruct (decide (doomed w net cut m)); tauto. }
    assert (filter (kept w net n db) (ckpt_manifests db) =
      filter (λ m, ¬ doomed w net cut m) (ckpt_manifests db)) as ->; [|done].
    apply list_filter_ext_elem. intros m _. by apply kept_some.
  - rewrite list_filter_none by (intros m _ Hk; by apply Hk, kept_none).
    rewrite (list_filter_every (kept w net n db)) by (intros m _; by apply kept_none).
    rewrite list_filter_every by (intros r _; apply not_elem_of_nil). by destruct db.
Qed.

Lemma select_keep (P : ManifestRow → Prop) `{∀ m, Decision (P m)} w net p db :
  ck_inv db →
  select_manifests w net p (keep_manifests P db) = filter P (select_manifests w net p db).
Proof.
  intros Hi. unfold select_manifests at 1.
  apply (merge_sort_unique by_seq_desc).
  - intros m1 m2 H1 H2 ??. apply (select_manifests_anti w net p _ _ _ (keep_manifests_inv P db Hi)).
    + unfold select_manifests. by rewrite merge_sort_Permutation.
    + unfold select_manifests. by rewrite merge_sort_Permutation.
    + unfold by_seq_desc in *. lia.
  - apply StronglySorted_filter, select_manifests_sorted.
  - unfold select_manifests. rewrite merge_sort_Permutation. cbn. rewrite !list_filter_filter.
    erewrite list_filter_iff; [reflexivity|]. intros m. cbn. tauto.
Qed.

Lemma page_elem w net db m :
  m ∈ page w net db ↔ m ∈ ckpt_manifests db ∧ m_w m = w ∧ m_net m = net ∧ m_complete m = true.
Proof. unfold page. rewrite select_manifests_elem. tauto. Qed.

Lemma page_NoDup w net db : ck_inv db → NoDup (page w net db).
Proof.
  intros Hi. unfold page, select_manifests. rewrite merge_sort_Permutation.
  eapply sublist_NoDup; [|apply sublist_filter].
  eapply NoDup_fmap_1, inv_unique, Hi.
Qed.

(** Positions on the page order sequence numbers strictly. *)
Lemma page_lookup_lt w net db i j m1 m2 :
  ck_inv db → page w net db !! i = Some m1 → page w net db !! j = Some m2 →
  (i < j)%nat → m_seq m2 < m_seq m1.
Proof.
  intros Hi H1 H2 Hij.
  assert (m_seq m2 ≤ m_seq m1) as Hle.
  { eapply (StronglySorted_lookup_lt by_seq_desc (page w net db) i j); [|done..].
    apply select_manifests_sorted. }
  assert (m_seq m2 ≠ m_seq m1); [|lia]. intros He.
  assert (m1 = m2) as ->.
  { eapply (select_manifests_anti w net (λ _, true) db); [done|..|done];
      eapply list_elem_of_lookup_2; eassumption. }
  pose proof (NoDup_lookup _ _ _ _ (page_NoDup w net db Hi) H1 H2). lia.
Qed.

Lemma filter_kept_page w net n db :
  ck_inv db → 1 ≤ n → filter (kept w net n db) (page w net db) = take (Z.to_nat n) (page w net db).
Proof.
  intros Hi Hn. destruct (page w net db !! Z.to_nat (n - 1)) as [cut|] eqn:Hc.
  - rewrite <-(take_drop (Z.to_nat n) (page w net db)) at 1. rewrite filter_app.
    rewrite list_filter_every, list_filter_none; [by rewrite app_nil_r|..].
    + intros m [j Hj]%list_elem_of_lookup Hk%(kept_some _ _ _ _ _ _ Hc). apply Hk.
      rewrite lookup_drop in Hj.
      assert (m ∈ page w net db) as (_ & Hw & Hnt & Hcm)%page_elem by (by eapply list_elem_of_lookup_2).
      unfold doomed. rewrite Hcm. split_and!; [done..|].
      eapply (page_lookup_lt w net db); [done|exact Hc|exact Hj|lia].
    + intros m [j Hj]%list_elem_of_lookup. apply (kept_some _ _ _ _ _ _ Hc). intros (_ & _ & _ & Hlt).
      apply lookup_take_Some in Hj as [Hj Hjn].
      destruct (decide (j = Z.to_nat (n - 1))) as [->|Hne]; [simplify_eq; lia|].
      pose proof (page_lookup_lt w net db j _ m cut Hi Hj Hc). lia.
  - rewrite list_filter_every by (intros; by apply kept_none).
    apply lookup_ge_None in Hc. by rewrite take_ge by lia.
Qed.

Lemma kept_other w net n db m : (m_w m, m_net m) ≠ (w, net) → kept w net n db m.
Proof. intros Hne. unfold kept, doomed. case_match; [|done]. intros (<- & <- & _). done. Qed.

(** ** Step 2: collection *)

Definition collected (now : Z) (db : CkDb) : CkDb :=
  with_chunks (filter (λ row, ¬ reclaimable now db row) (ckpt_chunks db)) db.

Lemma collected_lookup now db h c :
  ckpt_chunks (collected now db) !! h = Some c ↔
  ckpt_chunks db !! h = Some c ∧ ¬ reclaimable now db (h, c).
Proof. unfold collected; cbn. by rewrite map_lookup_filter_Some. Qed.

Lemma collected_referenced now db h :
  h ∈ j_chunk_hash <$> ckpt_manifest_chunks db →
  ckpt_chunks (collected now db) !! h = ckpt_chunks db !! h.
Proof.
  intros Hh. apply option_eq. intros c. rewrite collected_lookup. split; [tauto|].
  intros Hc. split; [done|]. by intros [_ Hn].
Qed.

Lemma hashes_of_referenced m db h : h ∈ hashes_of m db → h ∈ j_chunk_hash <$> ckpt_manifest_chunks db.
Proof.
  unfold hashes_of, junction_of. intros (r & -> & [_ Hr]%list_elem_of_filter)%list_elem_of_fmap.
  by apply list_elem_of_fmap_2.
Qed.

Lemma collected_inv now db : ck_inv db → ck_inv (collected now db).
Proof.
  intros Hi. split; [|..]; try apply Hi.
  - intros h c [Hc _]%collected_lookup. by apply (inv_address _ Hi).
  - pose proof (inv_manifests _ Hi) as Hms. eapply Forall_impl; [exact Hms|].
    intros m (Hj & Hh & Hc)%manifest_ok_hashes. exists (hashes_of m db).
    split_and!; [done..|]. rewrite Forall_forall in Hc |- *. intros h Hin.
    rewrite collected_referenced by (by eapply hashes_of_referenced). by apply Hc.
Qed.

(** ** A whole [prune] *)

Definition pruned (ctx : CkCtx) (w net : jsstr) (n : Z) (db : CkDb) : CkDb :=
  collected (ck_now ctx) (keep_manifests (kept w net n db) db).

Lemma pruned_inv ctx w net n db : ck_inv db → ck_inv (pruned ctx w net n db).
Proof. intros Hi. by apply collected_inv, keep_manifests_inv. Qed.

Lemma coerce_ok v context a : coerceToSafeNumber v context = Ok a → a = v.
Proof. unfold coerceToSafeNumber. destruct (_ || _); by intros [= <-]. Qed.

Lemma map_result_coerce context xs ys :
  map_result (λ seq, coerceToSafeNumber seq context) xs = Ok ys → ys = xs.
Proof.
  revert ys. induction xs as [|x xs IH]; intros ys; cbn; [by intros [= <-]|].
  unfold_action. destruct (coerceToSafeNumber x context) as [a|] eqn:Ha; [|done].
  destruct (map_result _ xs) as [ys'|]; [|done]. intros [= <-].
  rewrite (coerce_ok _ _ _ Ha). by rewrite (IH ys').
Qed.

Lemma prune_run_inv ctx w net n db r db' :
  prune_run ctx w net n db = (r, db') →
  db' = pruned ctx w net n db ∧
  ∀ res, r = Ok res →
    prunedSequences res = m_seq <$> filter (λ m, ¬ kept w net n db m) (ckpt_manifests db) ∧
    let gone := map_to_list (filter (reclaimable (ck_now ctx) (keep_manifests (kept w net n db) db))
                               (ckpt_chunks db)) in
    reclaimedChunks res = Z.of_nat (length gone) ∧
    reclaimedBytes res = foldl Z.add 0 (size_bytes ∘ snd <$> gone).
Proof.
  unfold prune_run. erewrite action_bind_ok by apply prune_manifests_run.
  erewrite action_bind_ok by reflexivity. unfold_action. intros [= <- <-]. split; [done|].
  intros res. destruct (map_result _ _) as [seqs|] eqn:Hm; [|done].
  apply map_result_coerce in Hm as ->. intros [= <-]. cbn. by rewrite length_fmap.
Qed.

(** The retained checkpoints, pair by pair. *)
Lemma pruned_page ctx w net n db :
  ck_inv db → 1 ≤ n →
  page w net (pruned ctx w net n db) = take (Z.to_nat n) (page w net db) ∧
  ∀ w' net', (w', net') ≠ (w, net) → page w' net' (pruned ctx w net n db) = page w' net' db.
Proof.
  intros Hi Hn.
  assert (∀ w' net', page w' net' (pruned ctx w net n db) =
    filter (kept w net n db) (page w' net' db)) as Hp by (intros; by apply select_keep).
  split; [by rewrite Hp, filter_kept_page|].
  intros w' net' Hne. rewrite Hp. apply list_filter_every.
  intros m (_ & <- & <- & _)%page_elem. by apply kept_other.
Qed.

(** The sequence numbers [prune] reports are those past the [n] newest. *)
Lemma dropped_sequences w net n db :
  ck_inv db → 1 ≤ n →
  m_seq <$> filter (λ m, ¬ kept w net n db m) (ckpt_manifests db) ≡ₚ
  m_seq <$> drop (Z.to_nat n) (page w net db).
Proof.
  intros Hi Hn. apply fmap_Permutation.
  assert (filter (λ m, ¬ kept w net n db m) (page w net db) = drop (Z.to_nat n) (page w net db)) as <-.
  { pose proof (filter_kept_page w net n db Hi Hn) as Hk.
    pose proof (page_NoDup w net db Hi) as Hnd.
    rewrite <-(take_drop (Z.to_nat n) (page w net db)) at 1.
    rewrite filter_app, list_filter_none, list_filter_every; [done|..].
    - intros m Hm Hkm. rewrite <-(take_drop (Z.to_nat n) (page w net db)), NoDup_app in Hnd.
      destruct Hnd as (_ & Hdis & _). eapply Hdis; [|exact Hm]. rewrite <-Hk.
      apply list_elem_of_filter. split; [done|].
      rewrite <-(take_drop (Z.to_nat n) (page w net db)). set_solver.
    - intros m Hm Hnk. apply Hnk. rewrite <-Hk in Hm. by apply list_elem_of_filter in Hm as [? _]. }
  unfold page at 1, select_manifests. rewrite merge_sort_Permutation, list_filter_filter.
  apply Permutation_refl'. apply list_filter_ext_elem. intros m Hm. split; [|tauto].
  intros Hnk. split; [done|]. destruct (decide ((m_w m, m_net m) = (w, net))) as [[= <- <-]|Hne].
  - pose proof (inv_seq _ Hi) as Hs. rewrite Forall_forall in Hs.
    destruct (Hs m Hm) as (Hc & _). by rewrite Hc.
  - exfalso. by apply Hnk, kept_other.
Qed.

(** A manifest reads the same in two stores that agree on its rows and chunks. *)
Lemma load_manifest_ext m db db' :
  junction_of (m_id m) db' = junction_of (m_id m) db →
  (∀ h, h ∈ hashes_of m db → chunk_data db' h = chunk_data db h) →
  load_manifest m db' = load_manifest m db.
Proof.
  intros Hj Hc. unfold load_manifest.
  assert (select_chunk_rows (m_id m) db' = select_chunk_rows (m_id m) db) as ->; [|done].
  unfold select_chunk_rows. rewrite Hj. apply list_fmap_ext. intros i r Hr.
  fold (chunk_data db' (j_chunk_hash r)) (chunk_data db (j_chunk_hash r)). rewrite Hc; [done|].
  apply list_elem_of_lookup_2 in Hr. rewrite merge_sort_Permutation in Hr.
  by apply list_elem_of_fmap_2.
Qed.

Lemma pruned_manifest_elem ctx w net n db m :
  m ∈ ckpt_manifests (pruned ctx w net n db) → m ∈ ckpt_manifests db ∧ kept w net n db m.
Proof. cbn. rewrite list_elem_of_filter. tauto. Qed.

Lemma pruned_load ctx w net n db m :
  ck_inv db → m ∈ ckpt_manifests (pruned ctx w net n db) →
  load_manifest m (pruned ctx w net n db) = load_manifest m db.
Proof.
  intros Hi [Hm Hk]%pruned_manifest_elem.
  pose proof (keep_junction (kept w net n db) db m Hi Hm Hk) as Hj.
  apply load_manifest_ext; [done|]. intros h Hh. unfold chunk_data, pruned.
  rewrite collected_referenced; [done|].
  apply (hashes_of_referenced m). unfold hashes_of. by rewrite Hj.
Qed.

Lemma saved_load ctx w net data size bound db m :
  ck_inv db → ck_nextval ctx ∉ m_id <$> ckpt_manifests db → m ∈ ckpt_manifests db →
  load_manifest m (saved ctx w net data size bound db) = load_manifest m db.
Proof.
  intros Hi Hf Hm. apply load_manifest_ext.
  - apply saved_junction_old. intros He. apply Hf. rewrite <-He. by apply list_elem_of_fmap_2.
  - pose proof (inv_manifests _ Hi) as Hok. rewrite Forall_forall in Hok.
    destruct (manifest_ok_hashes _ _ (Hok m Hm)) as (_ & _ & Hc). rewrite Forall_forall in Hc.
    intros h Hh. destruct (Hc h Hh) as [c Hch]. unfold chunk_data.
    destruct (saved_chunk_kept ctx w net data size bound db h c Hch) as (c' & -> & Hd).
    rewrite Hch. cbn. by rewrite Hd.
Qed.

(** ** The size of the chunk pool *)

Definition total_bytes (t : gmap bytes ChunkRow) : Z :=
  foldr Z.add 0 (size_bytes ∘ snd <$> map_to_list t).

Lemma foldl_add_foldr (l : list Z) : foldl Z.add 0 l = foldr Z.add 0 l.
Proof.
  assert (∀ a, foldl Z.add a l = a + foldr Z.add 0 l) as H.
  { induction l as [|x l IH]; intros a; cbn; [lia|]. rewrite IH. lia. }
  by rewrite H.
Qed.

Lemma total_bytes_insert t h c :
  t !! h = None → total_bytes (<[h := c]> t) = size_bytes c + total_bytes t.
Proof.
  intros Hn. unfold total_bytes.
  change (size_bytes c + _) with (foldr Z.add 0 (size_bytes ∘ snd <$> (h, c) :: map_to_list t)).
  apply (foldr_permutation_proper eq Z.add 0); [lia|].
  by apply fmap_Permutation, map_to_list_insert.
Qed.

Lemma total_bytes_partition (P : bytes * ChunkRow → Prop) `{∀ x, Decision (P x)} t :
  total_bytes t = total_bytes (filter P t) + total_bytes (filter (λ x, ¬ P x) t) ∧
  size t = (size (filter P t) + size (filter (λ x, ¬ P x) t))%nat.
Proof.
  induction t as [|h c t Hn [IHb IHs]] using map_ind; [done|].
  assert (∀ Q `{∀ x, Decision (Q x)}, filter Q t !! h = None) as HQ.
  { intros Q HD. apply map_lookup_filter_None. by left. }
  rewrite total_bytes_insert, map_size_insert_None by done. destruct (decide (P (h, c))) as [HP|HP].
  - rewrite map_filter_insert_True by done. rewrite (map_filter_insert_False (λ x, ¬ P x)), delete_id by tauto.
    rewrite total_bytes_insert, map_size_insert_None by apply HQ. lia.
  - rewrite map_filter_insert_False, delete_id by done.
    rewrite (map_filter_insert_True (λ x, ¬ P x)) by done.
    rewrite total_bytes_insert, map_size_insert_None by apply HQ. lia.
Qed.
End prune.
