(* ===== verification/CheckpointTheorems.v ===== *)
(** * CheckpointStore: the theorems about its public methods

    [save], [load], [history] and [prune] as a caller sees them, through whichever [sql.begin] the
    driver provides. *)

From S2P Require Import Prelude Text Json Errors Transaction Driver Slices Checkpoint.
From S2P Require Import CheckpointSave CheckpointSpec CheckpointPrune.

Local Open Scope Z_scope.

Section public.
Context {S : Type} `{HPart : !Part S CkDb} `{HBegin : !SqlBegin S}.
Context `{HSha : !Sha256} `{HText : !TextBinding}.

(** The checkpoint tables of a world. *)
Definition tables (w : World S) : CkDb := part (w_db w).

(** ** From a resolved method to the statements it ran *)

Lemma in_own_transaction_ok {A} (run : act CkDb A) iso uuid w a w' :
  in_own_transaction run iso uuid w = (Ok a, w') →
  ∃ db', run (tables w) = (Ok a, db') ∧ w_db w' = set_part db' (w_db w).
Proof.
  unfold in_own_transaction. intros (w1 & Hdb & _ & Hr & Hw' & _)%withTransaction_cases.
  revert Hr Hw'. unfold_action. unfold resolveTransaction, tables. case_decide; [|done].
  unfold on_part. rewrite Hdb. destruct (run (part (w_db w))) as [r db'] eqn:He. cbn.
  intros -> ->. by exists db'.
Qed.

Lemma rethrow_ok {A} f (m : act (World S) A) w a w' :
  rethrow f m w = (Ok a, w') → m w = (Ok a, w').
Proof. unfold rethrow. destruct (m w) as [[]]; naive_solver. Qed.

Lemma withAbort_ok {A} (m : act (World S) A) signal w a w' :
  withAbort m signal w = (Ok a, w') → m w = (Ok a, w').
Proof. unfold withAbort, throw. repeat case_match; naive_solver. Qed.

Lemma check_bind_inv {A B} (r : result thrown A) (f : A → act (World S) B) w b w' :
  (check r ≫= f) w = (Ok b, w') → ∃ a, r = Ok a ∧ f a w = (Ok b, w').
Proof. unfold_action. destruct r; [eauto|done]. Qed.

Lemma validateSaveOptions_pos opts size :
  validateSaveOptions opts = Ok size → 0 < default DEFAULT_CHUNK_SIZE size.
Proof.
  unfold validateSaveOptions, z_positive_int. intros H.
  destruct (if so_label opts is Some l then (length l <=? 200)%nat else true); [|done].
  destruct (so_chunkSize opts) as [n|]; [|by simplify_eq].
  destruct (z_int n) as [z|]; [|done]. cbn in H.
  destruct ((0 <? z) && _) eqn:Hb; [|done]. simplify_eq. bool_to_prop. done.
Qed.

Lemma save_inv_size ctx w net data opts uuid wo s wo' :
  save ctx w net data opts uuid wo = (Ok s, wo') →
  ∃ size db', validateSaveOptions opts = Ok size ∧
    runOnTx ctx w net data (default DEFAULT_CHUNK_SIZE size) (so_label opts) (tables wo) = (Ok s, db') ∧
    w_db wo' = set_part db' (w_db wo).
Proof.
  unfold save. intros ([] & _ & (size & Hv & H%withAbort_ok)%check_bind_inv)%check_bind_inv.
  exists size. unfold saveImpl in H. destruct (so_tx opts) as [h|].
  - apply action_bind_inv in H as ([] & wo1 & Hr & H%rethrow_ok).
    unfold resolveTransaction in Hr. case_decide; [|done]. simplify_eq.
    unfold on_part, tables in *. destruct (runOnTx _ _ _ _ _ _ _) as [r db'] eqn:He. simplify_eq.
    by exists db'.
  - apply rethrow_ok, in_own_transaction_ok in H as (db' & Hrun & Hdb). by exists db'.
Qed.

Lemma save_inv ctx w net data opts uuid wo s wo' :
  save ctx w net data opts uuid wo = (Ok s, wo') →
  ∃ size db', 0 < size ∧
    runOnTx ctx w net data size (so_label opts) (tables wo) = (Ok s, db') ∧
    w_db wo' = set_part db' (w_db wo).
Proof.
  intros (size & db' & Hv%validateSaveOptions_pos & Hrun & Hdb)%save_inv_size. by eexists _, db'.
Qed.

Lemma load_inv w net q signal uuid wo r wo' :
  load w net q signal uuid wo = (Ok r, wo') → (load_run w net q (tables wo)).1 = Ok r.
Proof.
  unfold load. intros ([] & _ & H%withAbort_ok%rethrow_ok%in_own_transaction_ok)%check_bind_inv.
  destruct H as (db' & -> & _). done.
Qed.

Lemma prune_inv ctx w net n signal uuid wo res wo' :
  prune ctx w net n signal uuid wo = (Ok res, wo') →
  ∃ k db', validateRetainCount n = Ok k ∧ 1 ≤ k ∧
    prune_run ctx w net k (tables wo) = (Ok res, db') ∧ w_db wo' = set_part db' (w_db wo).
Proof.
  unfold prune. intros ([] & _ & (k & Hv & H)%check_bind_inv)%check_bind_inv.
  apply withAbort_ok, rethrow_ok, in_own_transaction_ok in H as (db' & Hrun & Hdb).
  exists k, db'. split_and!; [done| |done..]. unfold validateRetainCount in Hv.
  destruct (z_int n) as [z|]; [|done]. destruct (Z.ltb_spec z 1); [done|]. by simplify_eq.
Qed.

Lemma history_inv w net opts uuid wo ss wo' :
  history w net opts uuid wo = (Ok ss, wo') →
  ∃ limit before, validateHistoryOptions opts = Ok (limit, before) ∧
    (history_run w net limit before (tables wo)).1 = Ok ss.
Proof.
  unfold history. intros ([] & _ & ([limit before] & Hv & H)%check_bind_inv)%check_bind_inv.
  apply withAbort_ok, rethrow_ok, in_own_transaction_ok in H as (db' & Hrun & _).
  exists limit, before. by rewrite Hrun.
Qed.

(** ** save and load *)

Lemma load_saved ctx w net data opts uuid wo s wo' :
  ck_inv (tables wo) →
  save ctx w net data opts uuid wo = (Ok s, wo') →
  (∃ x y : bytes, x ≠ y ∧ sha256 x = sha256 y) ∨
  (cs_byteLength s = Z.of_nat (length data) ∧
   ∀ q, q = None ∨ q = Some (cs_sequence s) →
     load_run w net q (tables wo') = (Ok {| cr_summary := s; cr_data := data |}, tables wo') ∧
     ∀ signal uuid' r wo'', load w net q signal uuid' wo' = (Ok r, wo'') →
       r = {| cr_summary := s; cr_data := data |}).
Proof.
  intros Hi (size & db' & Hsz & Hrun & Hdb)%save_inv.
  apply runOnTx_inv in Hrun as (bound & Hsv & -> & Hsum).
  assert (tables wo' = saved ctx w net data size bound (tables wo)) as Ht.
  { unfold tables. by rewrite Hdb, part_set. }
  assert (∀ q, q = None ∨ q = Some (cs_sequence s) →
    (∃ x y : bytes, x ≠ y ∧ sha256 x = sha256 y) ∨
    load_run w net q (tables wo') = (Ok {| cr_summary := s; cr_data := data |}, tables wo')) as Hq.
  { intros q Hq. rewrite Ht.
    destruct (load_run_saved _ _ _ _ _ _ _ _ _ q Hi Hsv Hsz Hsum Hq); auto. }
  destruct (Hq None) as [?|H1]; [by left|by left|].
  destruct (Hq (Some (cs_sequence s))) as [?|H2]; [by right|by left|]. right. split.
  { unfold toSummary in Hsum. unfold_action_in Hsum. case_match; by simplify_eq. }
  intros q Hcase.
  assert (load_run w net q (tables wo') = (Ok {| cr_summary := s; cr_data := data |}, tables wo'))
    as Hl by (by destruct Hcase as [->| ->]).
  split; [done|]. intros signal uuid' r wo'' Hr%load_inv. rewrite Hl in Hr. by injection Hr.
Qed.

(** C2. Round trip. After [save] resolves, [load] of that sequence number, and [load] of the
    latest checkpoint, read back exactly the saved bytes under the summary [save] returned, and
    their verification passes; the only alternative is a pair of different byte strings with the
    same SHA-256 digest. Holds for every payload, chunk size, label and prior store contents,
    with and without a caller's transaction. *)
Theorem load_after_save ctx w net data opts uuid wo s wo' :
  ck_inv (tables wo) →
  save ctx w net data opts uuid wo = (Ok s, wo') →
  (∃ x y : bytes, x ≠ y ∧ sha256 x = sha256 y) ∨
  (cs_byteLength s = Z.of_nat (length data) ∧
   ∀ q, q = None ∨ q = Some (cs_sequence s) →
     load_run w net q (tables wo') = (Ok {| cr_summary := s; cr_data := data |}, tables wo') ∧
     ∀ signal uuid' r wo'', load w net q signal uuid' wo' = (Ok r, wo'') →
       r = {| cr_summary := s; cr_data := data |}).
Proof. apply load_saved. Qed.

(** [save] succeeds. On a consistent store, with valid identifiers and options, no abort and a
    serial value not in use, the write path of [save] reaches its summary for every payload that
    fits the [integer] position column, whatever the number of chunks and however the inserts are
    batched: no statement of it can violate a constraint. It claims the pair's next sequence
    number, and leaves the consistent store in which exactly that checkpoint was added. *)
Theorem save_never_violates ctx w net data size label bound db :
  ck_inv db → savable ctx w net label bound db → 0 < size →
  Z.of_nat (length (splitChunks data size)) ≤ 2147483648 →
  runOnTx ctx w net data size label db =
    (toSummary (saved_manifest ctx w net data size bound db)
       (Z.of_nat (length data)) (Z.of_nat (length (splitChunks data size))),
     saved ctx w net data size bound db) ∧
  ck_inv (saved ctx w net data size bound db) ∧
  next_seq w net (saved ctx w net data size bound db) = next_seq w net db + 1 ∧
  Z.of_nat (length (splitChunks data size)) = (Z.of_nat (length data) + size - 1) / size.
Proof.
  intros Hi Hsv Hsz Hlen. split_and!.
  - by apply runOnTx_total.
  - by eapply saved_inv.
  - unfold next_seq; cbn. by rewrite lookup_insert_eq.
  - by apply for_slices_length.
Qed.

(** Deduplication (Law C1). [save] adds to the shared pool exactly the chunks of its payload
    that were missing, each stored once; a chunk already stored, by any wallet, keeps its bytes
    and only has its age reset; no other chunk changes. Saving the same payload again adds no
    chunk. *)
Theorem save_deduplicates ctx ctx' w net w' net' data size bound bound' db h :
  ck_inv db →
  let db1 := saved ctx w net data size bound db in
  (h ∉ sha256 <$> splitChunks data size → ckpt_chunks db1 !! h = ckpt_chunks db !! h) ∧
  (h ∈ sha256 <$> splitChunks data size → ∃ c, ckpt_chunks db1 !! h = Some c ∧
     ck_created_at c = ck_now ctx ∧
     (∀ c0, ckpt_chunks db !! h = Some c0 → ck_data c = ck_data c0) ∧
     (ckpt_chunks db !! h = None → ck_data c ∈ splitChunks data size)) ∧
  dom (ckpt_chunks (saved ctx' w' net' data size bound' db1)) = dom (ckpt_chunks db1).
Proof.
  intros Hi db1.
  assert (∀ h, h ∈ sha256 <$> splitChunks data size ↔
    is_Some (list_to_map (M := gmap bytes bytes) (chunk_rows data size) !! h)) as Hin.
  { intros h'. fold (chunk_hashes data size). rewrite <-chunk_rows_hashes. split.
    - intros H. destruct (list_to_map _ !! h') eqn:He; [by eexists|].
      by apply not_elem_of_list_to_map_2 in He.
    - intros [d Hd%elem_of_list_to_map_2]. apply list_elem_of_fmap. by exists (h', d). }
  split_and!.
  - intros Hn. unfold db1. rewrite saved_chunks_lookup.
    destruct (list_to_map _ !! h) eqn:He; [|done]. exfalso. apply Hn, Hin. by rewrite He.
  - intros [d Hd]%Hin. unfold db1. rewrite saved_chunks_lookup, Hd. eexists; split; [done|]. cbn.
    split; [done|]. apply elem_of_list_to_map_2, chunk_rows_elem in Hd as [_ Hd].
    split; [by intros c0 ->|by intros ->].
  - apply set_eq. intros h'. rewrite !elem_of_dom, (saved_chunks_lookup ctx').
    destruct (list_to_map _ !! h') as [d|] eqn:He; [|done]. split; [|by eexists].
    intros _. apply saved_chunk_stored. unfold chunk_hashes. apply Hin. by rewrite He.
Qed.

(** ** prune *)

(** C19. Retention. A resolved [prune] leaves the pair's [retainCount] newest checkpoints (all of
    them if there are fewer), in every other pair everything, and a consistent store; it reports
    exactly the sequence numbers it dropped. *)
Theorem prune_retains_newest ctx w net n signal uuid wo res wo' :
  ck_inv (tables wo) →
  prune ctx w net n signal uuid wo = (Ok res, wo') →
  ∃ k, validateRetainCount n = Ok k ∧ 1 ≤ k ∧ ck_inv (tables wo') ∧
    page w net (tables wo') = take (Z.to_nat k) (page w net (tables wo)) ∧
    (∀ w' net', (w', net') ≠ (w, net) → page w' net' (tables wo') = page w' net' (tables wo)) ∧
    prunedSequences res ≡ₚ m_seq <$> drop (Z.to_nat k) (page w net (tables wo)).
Proof.
  intros Hi (k & db' & Hv & Hk & Hrun & Hdb)%prune_inv. exists k.
  apply prune_run_inv in Hrun as [-> Hres]. destruct (Hres res eq_refl) as [Hseq _].
  assert (tables wo' = pruned ctx w net k (tables wo)) as ->.
  { unfold tables. by rewrite Hdb, part_set. }
  destruct (pruned_page ctx w net k (tables wo) Hi Hk) as [Hp Ho].
  split_and!; [done|done|by apply pruned_inv|done|done|].
  rewrite Hseq. by apply dropped_sequences.
Qed.

(** C30. Collection (Law C2). A resolved [prune] reclaims a chunk if and only if no remaining
    manifest of any wallet lists it and it is older than the grace window; the chunks it keeps
    are unchanged, and the counts it reports are exactly what left the pool. *)
Theorem prune_collects_exactly ctx w net n signal uuid wo res wo' :
  prune ctx w net n signal uuid wo = (Ok res, wo') →
  (∀ h c, ckpt_chunks (tables wo) !! h = Some c →
     ckpt_chunks (tables wo') !! h = Some c ∨
     (ckpt_chunks (tables wo') !! h = None ∧
      ck_created_at c < ck_now ctx - GRACE_WINDOW ∧
      h ∉ j_chunk_hash <$> ckpt_manifest_chunks (tables wo'))) ∧
  (∀ h c, ckpt_chunks (tables wo') !! h = Some c →
     ckpt_chunks (tables wo) !! h = Some c ∧
     (ck_now ctx - GRACE_WINDOW ≤ ck_created_at c ∨
      h ∈ j_chunk_hash <$> ckpt_manifest_chunks (tables wo'))) ∧
  Z.of_nat (size (ckpt_chunks (tables wo))) =
    Z.of_nat (size (ckpt_chunks (tables wo'))) + reclaimedChunks res ∧
  total_bytes (ckpt_chunks (tables wo)) = total_bytes (ckpt_chunks (tables wo')) + reclaimedBytes res.
Proof.
  intros (k & db' & Hv & Hk & Hrun & Hdb)%prune_inv.
  apply prune_run_inv in Hrun as [-> Hres]. destruct (Hres res eq_refl) as (_ & Hcount & Hbytes).
  assert (tables wo' = pruned ctx w net k (tables wo)) as ->.
  { unfold tables. by rewrite Hdb, part_set. }
  unfold pruned. set (db1 := keep_manifests (kept w net k (tables wo)) (tables wo)) in *.
  change (ckpt_chunks (tables wo)) with (ckpt_chunks db1) in *.
  pose proof (total_bytes_partition (reclaimable (ck_now ctx) db1) (ckpt_chunks db1)) as [Hb Hs].
  split_and!.
  - intros h c Hc. destruct (decide (reclaimable (ck_now ctx) db1 (h, c))) as [Hr|Hr].
    + right. destruct Hr as [Hage Hnr]. split_and!; [|done|done].
      apply eq_None_not_Some. intros [c' [Hc' Hnr']%collected_lookup].
      simplify_eq. by apply Hnr'.
    + left. by apply collected_lookup.
  - intros h c [Hc Hr]%collected_lookup. split; [done|]. cbn.
    destruct (decide (h ∈ j_chunk_hash <$> ckpt_manifest_chunks db1)) as [Hin|Hnin]; [by right|left].
    destruct (decide (ck_created_at c < ck_now ctx - GRACE_WINDOW)) as [Hlt|]; [|lia].
    exfalso. by apply Hr.
  - rewrite Hcount, Hs. rewrite length_map_to_list. cbn. lia.
  - rewrite Hbytes, Hb, foldl_add_foldr. unfold total_bytes. cbn. lia.
Qed.

(** ** Every reachable store *)

Inductive ck_step : CkDb → CkDb → Prop :=
  | ck_step_save ctx w net data size label db s db' :
      0 < size → runOnTx ctx w net data size label db = (Ok s, db') → ck_step db db'
  | ck_step_prune ctx w net n db res db' :
      1 ≤ n → prune_run ctx w net n db = (Ok res, db') → ck_step db db'.

(** What one committed [save] or [prune] does to the manifests. *)
Record step_effect (db db' : CkDb) : Prop := {
  se_inv : ck_inv db';
  se_seq : ∀ w net, next_seq w net db ≤ next_seq w net db';
  se_new : ∀ m, m ∈ ckpt_manifests db' → m ∈ ckpt_manifests db ∨
             next_seq (m_w m) (m_net m) db ≤ m_seq m;
  se_load : ∀ m, m ∈ ckpt_manifests db → m ∈ ckpt_manifests db' →
              load_manifest m db' = load_manifest m db;
}.

Lemma ck_step_effect db db' : ck_inv db → ck_step db db' → step_effect db db'.
Proof.
  intros Hi Hs. destruct Hs as [ctx w net data size label db s db' Hsz Hrun|ctx w net n db res db' Hn Hrun].
  - apply runOnTx_inv in Hrun as (bound & Hsv & -> & _). split.
    + by eapply saved_inv.
    + intros w' net'. unfold next_seq at 2; cbn.
      destruct (decide ((w, net) = (w', net'))) as [[= <- <-]|Hne].
      * rewrite lookup_insert_eq. cbn. lia.
      * by rewrite lookup_insert_ne.
    + intros m [Hm| ->%list_elem_of_singleton]%elem_of_app; [by left|by right].
    + intros m Hm _. apply saved_load; [done|apply Hsv|done].
  - apply prune_run_inv in Hrun as [-> _]. split.
    + by apply pruned_inv.
    + done.
    + intros m [Hm _]%pruned_manifest_elem. by left.
    + intros m _ Hm. by apply pruned_load.
Qed.

(** Histories of operations that each have such an effect. *)
Section histories.
Context (op : CkDb → CkDb → Prop).
Context (op_effect : ∀ db db', ck_inv db → op db db' → step_effect db db').

Lemma ck_gone_forever db db' m :
  ck_inv db → rtc op db db' →
  m ∉ ckpt_manifests db → m_seq m < next_seq (m_w m) (m_net m) db → m ∉ ckpt_manifests db'.
Proof.
  intros Hi Hs. induction Hs as [|db db1 db' Hs _ IH]; intros Hn Hlt; [done|].
  destruct (op_effect _ _ Hi Hs) as [Hi1 Hseq Hnew _].
  apply IH; [done| |].
  - intros [Hm|Hge]%Hnew; [done|lia].
  - specialize (Hseq (m_w m) (m_net m)). lia.
Qed.

Lemma ck_steps_load db db' m :
  ck_inv db → rtc op db db' →
  m ∈ ckpt_manifests db → m ∈ ckpt_manifests db' →
  ck_inv db' ∧ load_manifest m db' = load_manifest m db.
Proof.
  intros Hi Hs. induction Hs as [|db db1 db' Hs Hss IH]; intros Hm Hm'; [done|].
  destruct (op_effect _ _ Hi Hs) as [Hi1 Hseq _ Hload].
  destruct (decide (m ∈ ckpt_manifests db1)) as [Hm1|Hm1].
  - destruct (IH Hi1 Hm1 Hm') as [? ->]. split; [done|]. by apply Hload.
  - exfalso. eapply (ck_gone_forever db1 db' m Hi1 Hss Hm1); [|exact Hm'].
    pose proof (seq_below_next m db Hi Hm). specialize (Hseq (m_w m) (m_net m)). lia.
Qed.
End histories.

(** A stored checkpoint with a safe sequence number loads. *)
Lemma stored_loads db m :
  ck_inv db → m ∈ ckpt_manifests db → m_seq m ≤ MAX_SAFE_INTEGER → ∃ r, load_manifest m db = Ok r.
Proof.
  intros Hi Hm Hle. rewrite (load_manifest_ok _ _ Hi Hm).
  pose proof (inv_seq _ Hi) as Hseq. rewrite Forall_forall in Hseq.
  destruct (Hseq m Hm) as (_ & Hge & _). unfold toSummary, coerceToSafeNumber. unfold_action.
  unfold MAX_SAFE_INTEGER in *.
  destruct (Z.ltb_spec 9007199254740991 (m_seq m)); [lia|].
  destruct (Z.ltb_spec (m_seq m) (- (9007199254740991))); [lia|]. by eexists.
Qed.

(** A checkpoint never changes while it exists (Law C2a). From any consistent store, after any
    committed saves and prunes by any wallets, a checkpoint that is still listed loads exactly as
    before: none of its chunks was collected or overwritten, its verification still passes, and
    [load] can only fail for a sequence number outside the safe integers. *)
Theorem checkpoints_immutable db db' m :
  ck_inv db → rtc ck_step db db' →
  m ∈ ckpt_manifests db → m ∈ ckpt_manifests db' →
  load_manifest m db' = load_manifest m db ∧
  (m_seq m ≤ MAX_SAFE_INTEGER → ∃ r, load_manifest m db' = Ok r).
Proof.
  intros Hi Hs Hm Hm'. destruct (ck_steps_load _ ck_step_effect _ _ _ Hi Hs Hm Hm') as [Hi' Heq].
  split; [done|]. by apply stored_loads.
Qed.
End public.

(** ** On a connection without faults *)

Section no_faults.
Context {S : Type} `{HPart : !Part S CkDb} `{HSha : !Sha256} `{HText : !TextBinding}.
#[local] Existing Instance no_faults.

Lemma in_own_transaction_resolves {A} (run : act CkDb A) uuid wo a db' :
  run (tables wo) = (Ok a, db') →
  ∃ wo', in_own_transaction run None uuid wo = (Ok a, wo') ∧ tables wo' = db'.
Proof.
  intros Hrun. unfold in_own_transaction, withTransaction, rethrow, withAbort. cbn.
  unfold mbind, mret, action_bind, action_ret, check, begin_no_faults, txCallback, run_registered. cbn.
  unfold resolveTransaction. rewrite decide_True by (cbn; set_solver). unfold on_part. cbn.
  unfold tables in Hrun. rewrite Hrun. eexists. split; [reflexivity|]. unfold tables. cbn. by rewrite part_set.
Qed.

(** [save] itself resolves, with the summary and the tables of its write path. *)
Lemma save_resolves ctx w net data opts size bound uuid wo :
  assertValidCheckpointIds w net = Ok tt → validateSaveOptions opts = Ok size →
  so_signal opts = None → so_tx opts = None →
  ck_inv (tables wo) → savable ctx w net (so_label opts) bound (tables wo) →
  Z.of_nat (length (splitChunks data (default DEFAULT_CHUNK_SIZE size))) ≤ 2147483648 →
  next_seq w net (tables wo) ≤ MAX_SAFE_INTEGER →
  ∃ s wo', save ctx w net data opts uuid wo = (Ok s, wo') ∧
    tables wo' = saved ctx w net data (default DEFAULT_CHUNK_SIZE size) bound (tables wo).
Proof.
  intros Hids Hopts Hsig Htx Hi Hsv Hlen Hseq.
  pose proof (runOnTx_total ctx w net data _ _ bound (tables wo) Hi Hsv Hlen) as Hrun.
  assert (∃ s, toSummary (saved_manifest ctx w net data (default DEFAULT_CHUNK_SIZE size) bound (tables wo))
    (Z.of_nat (length data)) (Z.of_nat (length (splitChunks data (default DEFAULT_CHUNK_SIZE size)))) = Ok s)
    as [s Hs].
  { pose proof (next_seq_pos w net (tables wo) Hi). unfold toSummary, coerceToSafeNumber. cbn.
    unfold MAX_SAFE_INTEGER in *. rewrite !(proj2 (Z.ltb_ge _ _)) by lia. by eexists. }
  rewrite Hs in Hrun. destruct (in_own_transaction_resolves _ uuid _ _ _ Hrun) as (wo' & Hwo & Ht).
  exists s, wo'. split; [|exact Ht]. unfold save. rewrite Hids, Hopts. unfold mbind, action_bind, check.
  rewrite Hsig. unfold withAbort, saveImpl. rewrite Htx. unfold rethrow. by rewrite Hwo.
Qed.
End no_faults.

(** ** Witnesses: a store of its own, a fault-free connection and an injective digest *)

Module Demo.
#[export] Instance digest : Sha256 := λ b, b.
#[export] Existing Instance rejecting_binding.
#[export] Instance connection : SqlBegin CkDb := no_faults.

Definition wallet : jsstr := js "wallet".
Definition net : jsstr := js "net".
Definition data : bytes := [Byte.x01; Byte.x02; Byte.x01; Byte.x02; Byte.x03].
Definition opts : SaveCheckpointOptions :=
  {| so_chunkSize := Some (NumInt 2); so_label := Some (js "first"); so_signal := None; so_tx := None |}.
Definition ctx1 : CkCtx := {| ck_now := 1000000; ck_nextval := 7 |}.
Definition ctx2 : CkCtx := {| ck_now := 5000000000; ck_nextval := 8 |}.
Definition world0 : World CkDb := idle_world ck_empty.
Definition world1 : World CkDb := (save ctx1 wallet net data opts (js "u1") world0).2.
Definition world2 : World CkDb := (save ctx2 wallet net [Byte.x09] opts (js "u2") world1).2.
Definition world3 : World CkDb := (prune ctx2 wallet net (NumInt 1) None (js "u3") world2).2.

Definition summary1 : CheckpointSummary :=
  {| cs_sequence := 1; cs_manifestHash := data; cs_byteLength := 5; cs_chunkCount := 3;
     cs_label := Some (js "first"); cs_createdAt := 1000 |}.

Lemma save1 : save ctx1 wallet net data opts (js "u1") world0 = (Ok summary1, world1).
Proof. vm_compute. reflexivity. Qed.

Definition result3 : PruneResult :=
  {| prunedSequences := [1]; reclaimedChunks := 2; reclaimedBytes := 3 |}.

Lemma prune3 : prune ctx2 wallet net (NumInt 1) None (js "u3") world2 = (Ok result3, world3).
Proof. vm_compute. reflexivity. Qed.

Lemma world1_saved :
  tables world1 = saved ctx1 wallet net data 2 (Some (js "first")) ck_empty.
Proof. vm_compute. reflexivity. Qed.

Lemma world2_saved :
  tables world2 = saved ctx2 wallet net [Byte.x09] 2 (Some (js "first")) (tables world1).
Proof. vm_compute. reflexivity. Qed.

Lemma savable1 : savable ctx1 wallet net (Some (js "first")) (Some (js "first")) ck_empty.
Proof. split_and!; [vm_compute; reflexivity|reflexivity|]. cbn. set_solver. Qed.

Lemma world1_inv : ck_inv (tables world1).
Proof. rewrite world1_saved. eapply saved_inv; [apply ck_inv_empty|apply savable1]. Qed.

Lemma savable2 : savable ctx2 wallet net (Some (js "first")) (Some (js "first")) (tables world1).
Proof. split_and!; [vm_compute; reflexivity|reflexivity|]. rewrite world1_saved. cbn. set_solver. Qed.

Lemma world2_inv : ck_inv (tables world2).
Proof. rewrite world2_saved. eapply saved_inv; [apply world1_inv|apply savable2]. Qed.
End Demo.
Import Demo.

Lemma load_after_save_witness :
  save ctx1 wallet net data opts (js "u1") world0 = (Ok summary1, world1) ∧
  ((∃ x y : bytes, x ≠ y ∧ sha256 x = sha256 y) ∨
   load_run wallet net None (tables world1) = (Ok {| cr_summary := summary1; cr_data := data |},
                                               tables world1)).
Proof.
  split; [exact save1|].
  destruct (@load_after_save CkDb part_self connection digest rejecting_binding ctx1 wallet net data opts (js "u1") world0 summary1 world1
    ck_inv_empty save1) as [H|[_ H]]; [by left|right].
  exact (proj1 (H None (or_introl eq_refl))).
Defined.

Lemma save_never_violates_witness :
  savable ctx1 wallet net (Some (js "first")) (Some (js "first")) ck_empty ∧
  next_seq wallet net (saved ctx1 wallet net data 2 (Some (js "first")) ck_empty) = 1 + 1.
Proof.
  split; [exact savable1|].
  refine (proj1 (proj2 (proj2 (save_never_violates ctx1 wallet net data 2 (Some (js "first"))
    (Some (js "first")) ck_empty ck_inv_empty savable1 _ _)))); [reflexivity|vm_compute; discriminate].
Defined.

Lemma save_deduplicates_witness :
  ck_inv ck_empty ∧
  dom (ckpt_chunks (saved ctx2 wallet net data 2 None (saved ctx1 wallet net data 2 None ck_empty))) =
  dom (ckpt_chunks (saved ctx1 wallet net data 2 None ck_empty)).
Proof.
  split; [exact ck_inv_empty|].
  exact (proj2 (proj2 (save_deduplicates ctx1 ctx2 wallet net wallet net data 2 None None ck_empty []
    ck_inv_empty))).
Defined.

Lemma prune_retains_newest_witness :
  m_seq <$> page wallet net (tables world2) = [2; 1] ∧
  m_seq <$> page wallet net (tables world3) = [2] ∧
  ck_inv (tables world3).
Proof.
  split; [vm_compute; reflexivity|]. split; [vm_compute; reflexivity|].
  destruct (prune_retains_newest ctx2 wallet net (NumInt 1) None (js "u3") world2 result3 world3
    world2_inv prune3) as (k & _ & _ & Hi & _).
  exact Hi.
Defined.

Lemma prune_collects_exactly_witness :
  size (ckpt_chunks (tables world2)) = 3%nat ∧ size (ckpt_chunks (tables world3)) = 1%nat ∧
  total_bytes (ckpt_chunks (tables world2)) = total_bytes (ckpt_chunks (tables world3)) + 3.
Proof.
  split; [vm_compute; reflexivity|]. split; [vm_compute; reflexivity|].
  destruct (prune_collects_exactly ctx2 wallet net (NumInt 1) None (js "u3") world2 result3 world3
    prune3) as (_ & _ & _ & Hb).
  exact Hb.
Defined.

Lemma checkpoints_immutable_witness :
  let m := saved_manifest ctx1 wallet net data 2 (Some (js "first")) ck_empty in
  m ∈ ckpt_manifests (tables world1) ∧ m ∈ ckpt_manifests (tables world2) ∧
  load_manifest m (tables world2) = load_manifest m (tables world1).
Proof.
  assert (ck_step (tables world1) (tables world2)) as Hstep.
  { apply (ck_step_save ctx2 wallet net [Byte.x09] 2 (Some (js "first")) (tables world1)
      {| cs_sequence := 2; cs_manifestHash := [Byte.x09]; cs_byteLength := 1; cs_chunkCount := 1;
         cs_label := Some (js "first"); cs_createdAt := 5000000 |}); [reflexivity|].
    vm_compute. reflexivity. }
  assert (saved_manifest ctx1 wallet net data 2 (Some (js "first")) ck_empty ∈
    ckpt_manifests (tables world1)) as H1
    by (rewrite world1_saved; apply elem_of_app; right; left).
  assert (saved_manifest ctx1 wallet net data 2 (Some (js "first")) ck_empty ∈
    ckpt_manifests (tables world2)) as H2.
  { rewrite world2_saved. apply elem_of_app. left. exact H1. }
  split; [exact H1|]. split; [exact H2|].
  exact (proj1 (checkpoints_immutable (tables world1) (tables world2) _ world1_inv
    (rtc_once _ _ Hstep) H1 H2)).
Defined.
