(* ===== verification/CheckpointServer.v ===== *)
(** * CheckpointStore: [save] and [prune] running at the same time

    [src/postgres/checkpoint-store.ts] takes no lock of its own. What [save] and [prune] do to each
    other is decided by the server: each runs in one READ COMMITTED transaction, a row a transaction
    wrote stays locked until that transaction ends, and a statement that finds a row locked waits and
    then reads the row again. This file models that: the committed tables, the open transactions
    with what they have written so far, and one step per row a statement touches. A step is enabled
    only when the rows it touches are not locked by another transaction; a transaction may be rolled
    back at any moment (an error, a timeout, a deadlock, a lost connection).

    The statements are those of [Checkpoint]: the steps call the same functions on the tables as the
    transaction sees them. *)

From S2P Require Import Prelude Text Json Errors Transaction Driver Slices Checkpoint.
From S2P Require Import CheckpointSave CheckpointSpec CheckpointPrune.

Local Open Scope Z_scope.

(** ** Transactions in progress *)

(** The arguments of a [save] past its validation. *)
Record SaveReq := {
  rq_w : jsstr;
  rq_net : jsstr;
  rq_data : bytes;
  rq_size : Z;
  rq_label : option jsstr;
}.

(** A [save] under way: its [now()], the chunk rows left to upsert, and what it has written. *)
Record Saver := {
  sv_req : SaveReq;
  sv_now : Z;
  sv_todo : list (bytes * bytes);
  sv_chunks : gmap bytes ChunkRow;
  sv_seq : option Z;
  sv_manifest : option ManifestRow;
  sv_junction : list JunctionRow;
}.

(** Where a [prune] is. A [DELETE] reads one snapshot, taken when the statement starts, and then
    visits the rows it found there one by one; the rows not visited yet are the argument. *)
Inductive PruneStage :=
  | PruneBegun
  | PruneManifests (rows : list ManifestRow)
  | PruneChunks (hashes : gset bytes)
  | PruneDone.

Record Pruner := {
  pr_w : jsstr;
  pr_net : jsstr;
  pr_retain : Z;
  pr_now : Z;
  pr_stage : PruneStage;
  pr_manifests : list ManifestRow;
  pr_chunks : list (bytes * ChunkRow);
}.

Inductive Tx := Saving (s : Saver) | Pruning (p : Pruner).

(** What a committed transaction returned to its caller. *)
Inductive Committed :=
  | CSave (ctx : CkCtx) (rq : SaveReq) (summary : CheckpointSummary)
  | CPrune (now : Z) (w net : jsstr) (retain : Z) (result : PruneResult).

(** The server: its clock, the next value of the manifests' serial, the committed tables, the open
    transactions, and the history of commits. *)
Record Server := {
  srv_clock : Z;
  srv_nextval : Z;
  srv_db : CkDb;
  srv_active : gmap nat Tx;
  srv_log : list Committed;
}.

Definition with_tx (i : nat) (t : Tx) (g : Server) : Server :=
  {| srv_clock := srv_clock g; srv_nextval := srv_nextval g; srv_db := srv_db g;
     srv_active := <[i := t]> (srv_active g); srv_log := srv_log g |}.

Definition commit_tx (i : nat) (db : CkDb) (entry : Committed) (g : Server) : Server :=
  {| srv_clock := srv_clock g; srv_nextval := srv_nextval g; srv_db := db;
     srv_active := delete i (srv_active g); srv_log := srv_log g ++ [entry] |}.

Definition rollback_tx (i : nat) (g : Server) : Server :=
  {| srv_clock := srv_clock g; srv_nextval := srv_nextval g; srv_db := srv_db g;
     srv_active := delete i (srv_active g); srv_log := srv_log g |}.

Definition saver_at (i : nat) (g : Server) : option Saver :=
  match srv_active g !! i with Some (Saving s) => Some s | _ => None end.
Definition pruner_at (i : nat) (g : Server) : option Pruner :=
  match srv_active g !! i with Some (Pruning p) => Some p | _ => None end.

(** ** Row locks *)

(** The row (or the new key) of a chunk is locked by who upserted it and by who deleted it. *)
Definition holds_chunk (h : bytes) (t : Tx) : Prop :=
  match t with
  | Saving s => is_Some (sv_chunks s !! h)
  | Pruning p => h ∈ (pr_chunks p).*1
  end.
#[export] Instance holds_chunk_dec h t : Decision (holds_chunk h t).
Proof. unfold holds_chunk. destruct t; apply _. Defined.

(** The counter's row is locked by who claimed a number from it. *)
Definition holds_counter (k : jsstr * jsstr) (t : Tx) : Prop :=
  match t with
  | Saving s => is_Some (sv_seq s) ∧ (rq_w (sv_req s), rq_net (sv_req s)) = k
  | Pruning _ => False
  end.
#[export] Instance holds_counter_dec k t : Decision (holds_counter k t).
Proof. unfold holds_counter. destruct t; apply _. Defined.

Definition holds_manifest (m : ManifestRow) (t : Tx) : Prop :=
  match t with Saving _ => False | Pruning p => m ∈ pr_manifests p end.
#[export] Instance holds_manifest_dec m t : Decision (holds_manifest m t).
Proof. unfold holds_manifest. destruct t; apply _. Defined.

(** No transaction but [i] holds the lock. *)
Definition unlocked (holds : Tx → Prop) `{∀ t, Decision (holds t)} (i : nat) (g : Server) : Prop :=
  map_Forall (λ j t, j = i ∨ ¬ holds t) (srv_active g).
#[export] Instance unlocked_dec (holds : Tx → Prop) `{∀ t, Decision (holds t)} i g :
  Decision (unlocked holds i g).
Proof. unfold unlocked. apply _. Defined.

(** ** What a transaction sees: the committed tables under its own writes *)

Definition save_view (s : Saver) (db : CkDb) : CkDb :=
  {| ckpt_chunks := sv_chunks s ∪ ckpt_chunks db;
     ckpt_manifests := ckpt_manifests db ++ option_list (sv_manifest s);
     ckpt_manifest_chunks := ckpt_manifest_chunks db ++ sv_junction s;
     ckpt_sequence_counters :=
       if sv_seq s is Some seq
       then <[(rq_w (sv_req s), rq_net (sv_req s)) := seq + 1]> (ckpt_sequence_counters db)
       else ckpt_sequence_counters db |}.

(** Step 1's deletions, with the junction rows they cascade to. *)
Definition prune_view (p : Pruner) (db : CkDb) : CkDb :=
  keep_manifests (λ m, m ∉ pr_manifests p) db.

(** The tables a [prune] commits: step 2's deletions as well. *)
Definition prune_commit (p : Pruner) (db : CkDb) : CkDb :=
  with_chunks (filter (λ row, row.1 ∉ (pr_chunks p).*1) (ckpt_chunks db)) (prune_view p db).

(** The version of the row that the upsert leaves. *)
Definition upserted (now : Z) (t : gmap bytes ChunkRow) (row : bytes * bytes) : gmap bytes ChunkRow :=
  if upsert_chunk now t row !! row.1 is Some c then {[row.1 := c]} else ∅.

(** The rows step 1's [WHERE] selects. *)
Definition doomed_rows (w net : jsstr) (retain : Z) (db : CkDb) : list ManifestRow :=
  match page w net db !! Z.to_nat (retain - 1) with
  | None => []
  | Some cut => filter (doomed w net cut) (ckpt_manifests db)
  end.

(** [prune]'s result, from the rows its two statements returned. *)
Definition prune_result (p : Pruner) : result thrown PruneResult :=
  seqs ← map_result (λ seq, coerceToSafeNumber seq "PruneResult.prunedSequences")
           (m_seq <$> pr_manifests p);
  Ok {| prunedSequences := seqs;
        reclaimedChunks := Z.of_nat (length (pr_chunks p));
        reclaimedBytes := foldl Z.add 0 (size_bytes ∘ snd <$> pr_chunks p) |}.

(** ** Events *)

Inductive event :=
  | Tick (dt burnt : Z)
  | Rollback (i : nat)
  | BeginSave (i : nat) (rq : SaveReq)
  | UpsertChunk (i : nat)
  | ClaimSeq (i : nat)
  | InsertManifest (i : nat)
  | InsertJunction (i : nat)
  | CommitSave (i : nat)
  | BeginPrune (i : nat) (w net : jsstr) (retain : Z)
  | ScanManifests (i : nat)
  | DeleteManifest (i k : nat)
  | ScanChunks (i : nat)
  | DeleteChunk (i : nat) (h : bytes)
  | SkipChunk (i : nat) (h : bytes)
  | CheckForeignKey (i : nat)
  | CommitPrune (i : nat).

Section server.
Context `{HSha : !Sha256} `{HText : !TextBinding}.
Implicit Types (g : Server) (s : Saver) (p : Pruner).

(** The age a saving transaction may reach before it commits. *)
Variable max_age : Z.

Definition rq_hashes (rq : SaveReq) : list bytes := chunk_hashes (rq_data rq) (rq_size rq).
Definition rq_rows (rq : SaveReq) : list (bytes * bytes) := chunk_rows (rq_data rq) (rq_size rq).

(** *** [save] *)

Definition begin_save (i : nat) (rq : SaveReq) (g : Server) : option Server :=
  guard (srv_active g !! i = None);;
  guard (0 < rq_size rq);;
  Some (with_tx i (Saving {| sv_req := rq; sv_now := srv_clock g; sv_todo := rq_rows rq;
                             sv_chunks := ∅; sv_seq := None; sv_manifest := None;
                             sv_junction := [] |}) g).

(** One row of [INSERT INTO ckpt_chunks .. ON CONFLICT (hash) DO UPDATE SET created_at = now()]. *)
Definition upsert_step (i : nat) (g : Server) : option Server :=
  s ← saver_at i g;
  match sv_todo s with
  | [] => None
  | row :: todo =>
      guard (unlocked (holds_chunk row.1) i g);;
      Some (with_tx i (Saving {| sv_req := sv_req s; sv_now := sv_now s; sv_todo := todo;
                                 sv_chunks := upserted (sv_now s) (ckpt_chunks (save_view s (srv_db g))) row
                                                ∪ sv_chunks s;
                                 sv_seq := sv_seq s; sv_manifest := sv_manifest s;
                                 sv_junction := sv_junction s |}) g)
  end.

(** The claim waits for the counter's row; then it reads the committed value. *)
Definition claim_step (i : nat) (g : Server) : option Server :=
  s ← saver_at i g;
  let rq := sv_req s in
  guard (sv_todo s = []);;
  guard (sv_seq s = None);;
  guard (unlocked (holds_counter (rq_w rq, rq_net rq)) i g);;
  match claim_seq (rq_w rq) (rq_net rq) (save_view s (srv_db g)) with
  | (Ok seq, _) =>
      Some (with_tx i (Saving {| sv_req := rq; sv_now := sv_now s; sv_todo := sv_todo s;
                                 sv_chunks := sv_chunks s; sv_seq := Some seq;
                                 sv_manifest := sv_manifest s; sv_junction := sv_junction s |}) g)
  | (Err _, _) => None
  end.

(** The serial's next value is consumed whatever becomes of the transaction. *)
Definition manifest_step (i : nat) (g : Server) : option Server :=
  s ← saver_at i g;
  seq ← sv_seq s;
  let rq := sv_req s in
  guard (sv_manifest s = None);;
  match insert_manifest {| ck_now := sv_now s; ck_nextval := srv_nextval g |} (rq_w rq) (rq_net rq)
          seq (sha256 (mjoin (rq_hashes rq))) (rq_label rq) (save_view s (srv_db g)) with
  | (Ok m, _) =>
      Some {| srv_clock := srv_clock g; srv_nextval := srv_nextval g + 1; srv_db := srv_db g;
              srv_active := <[i := Saving {| sv_req := rq; sv_now := sv_now s;
                sv_todo := sv_todo s; sv_chunks := sv_chunks s; sv_seq := sv_seq s;
                sv_manifest := Some m; sv_junction := sv_junction s |}]> (srv_active g);
              srv_log := srv_log g |}
  | (Err _, _) => None
  end.

(** The junction row of position [length (sv_junction s)]. *)
Definition next_junction (s : Saver) (m : ManifestRow) : option JunctionRow :=
  h ← rq_hashes (sv_req s) !! length (sv_junction s);
  Some {| j_manifest_id := m_id m; j_position := Z.of_nat (length (sv_junction s));
          j_chunk_hash := h |}.

Definition junction_step (i : nat) (g : Server) : option Server :=
  s ← saver_at i g;
  m ← sv_manifest s;
  r ← next_junction s m;
  match insert_junction_row (save_view s (srv_db g)) r with
  | Ok _ =>
      Some (with_tx i (Saving {| sv_req := sv_req s; sv_now := sv_now s; sv_todo := sv_todo s;
                                 sv_chunks := sv_chunks s; sv_seq := sv_seq s;
                                 sv_manifest := sv_manifest s;
                                 sv_junction := sv_junction s ++ [r] |}) g)
  | Err _ => None
  end.

Definition commit_save (i : nat) (g : Server) : option Server :=
  s ← saver_at i g;
  m ← sv_manifest s;
  let rq := sv_req s in
  guard (length (sv_junction s) = length (rq_hashes rq));;
  guard (srv_clock g - sv_now s ≤ max_age);;
  match toSummary m (Z.of_nat (length (rq_data rq)))
          (Z.of_nat (length (splitChunks (rq_data rq) (rq_size rq)))) with
  | Ok summary =>
      Some (commit_tx i (save_view s (srv_db g))
              (CSave {| ck_now := sv_now s; ck_nextval := m_id m |} rq summary) g)
  | Err _ => None
  end.

(** *** [prune] *)

Definition pr_with (p : Pruner) (stage : PruneStage) (ms : list ManifestRow)
    (cs : list (bytes * ChunkRow)) : Pruner :=
  {| pr_w := pr_w p; pr_net := pr_net p; pr_retain := pr_retain p; pr_now := pr_now p;
     pr_stage := stage; pr_manifests := ms; pr_chunks := cs |}.

Definition begin_prune (i : nat) (w net : jsstr) (retain : Z) (g : Server) : option Server :=
  guard (srv_active g !! i = None);;
  guard (1 ≤ retain);;
  Some (with_tx i (Pruning {| pr_w := w; pr_net := net; pr_retain := retain;
                              pr_now := srv_clock g; pr_stage := PruneBegun;
                              pr_manifests := []; pr_chunks := [] |}) g).

(** Step 1 starts: its snapshot decides which rows it will visit. *)
Definition scan_manifests (i : nat) (g : Server) : option Server :=
  p ← pruner_at i g;
  match pr_stage p with
  | PruneBegun =>
      let rows := doomed_rows (pr_w p) (pr_net p) (pr_retain p) (srv_db g) in
      Some (with_tx i (Pruning (pr_with p (PruneManifests rows) [] [])) g)
  | _ => None
  end.

(** A visited row: a [prune] that deleted it first is waited for, and a row that is gone is passed
    over. Manifest rows are never updated. *)
Definition delete_manifest (i k : nat) (g : Server) : option Server :=
  p ← pruner_at i g;
  match pr_stage p with
  | PruneManifests rows =>
      m ← rows !! k;
      guard (unlocked (holds_manifest m) i g);;
      let deleted := if bool_decide (m ∈ ckpt_manifests (srv_db g))
                     then pr_manifests p ++ [m] else pr_manifests p in
      Some (with_tx i (Pruning (pr_with p (PruneManifests (delete k rows)) deleted (pr_chunks p))) g)
  | _ => None
  end.

(** Step 2 starts once step 1 and its cascade are through: the snapshot is the committed state under
    the transaction's own deletions. *)
Definition scan_chunks (i : nat) (g : Server) : option Server :=
  p ← pruner_at i g;
  match pr_stage p with
  | PruneManifests [] =>
      let found := filter (reclaimable (pr_now p) (prune_view p (srv_db g))) (ckpt_chunks (srv_db g)) in
      Some (with_tx i (Pruning (pr_with p (PruneChunks (dom found)) (pr_manifests p) [])) g)
  | _ => None
  end.

(** A visited chunk, once no other transaction has it locked. If its current version is old enough
    it is deleted; the subquery is not evaluated again. *)
Definition delete_chunk (i : nat) (h : bytes) (g : Server) : option Server :=
  p ← pruner_at i g;
  match pr_stage p with
  | PruneChunks hashes =>
      c ← ckpt_chunks (srv_db g) !! h;
      guard (h ∈ hashes);;
      guard (unlocked (holds_chunk h) i g);;
      guard (ck_created_at c < pr_now p - GRACE_WINDOW);;
      Some (with_tx i (Pruning (pr_with p (PruneChunks (hashes ∖ {[h]})) (pr_manifests p)
                                  (pr_chunks p ++ [(h, c)]))) g)
  | _ => None
  end.

(** A row is passed over when it is gone or refreshed; a row that was deleted and inserted again since
    the snapshot is a new row the statement does not visit, so passing over is always allowed. *)
Definition skip_chunk (i : nat) (h : bytes) (g : Server) : option Server :=
  p ← pruner_at i g;
  match pr_stage p with
  | PruneChunks hashes =>
      guard (h ∈ hashes);;
      guard (unlocked (holds_chunk h) i g);;
      Some (with_tx i (Pruning (pr_with p (PruneChunks (hashes ∖ {[h]})) (pr_manifests p)
                                  (pr_chunks p))) g)
  | _ => None
  end.

(** The foreign key of the junction rows, checked against the current state when step 2 ends; a row
    that still refers to a deleted chunk is SQLSTATE [23503]. *)
Definition unreferenced (p : Pruner) (db : CkDb) : Prop :=
  Forall (λ row, row.1 ∉ j_chunk_hash <$> ckpt_manifest_chunks (prune_view p db)) (pr_chunks p).
#[export] Instance unreferenced_dec p db : Decision (unreferenced p db).
Proof. unfold unreferenced. apply _. Defined.

Definition check_foreign_key (i : nat) (g : Server) : option Server :=
  p ← pruner_at i g;
  match pr_stage p with
  | PruneChunks hashes =>
      guard (hashes = ∅);;
      guard (unreferenced p (srv_db g));;
      Some (with_tx i (Pruning (pr_with p PruneDone (pr_manifests p) (pr_chunks p))) g)
  | _ => None
  end.

Definition commit_prune (i : nat) (g : Server) : option Server :=
  p ← pruner_at i g;
  match pr_stage p, prune_result p with
  | PruneDone, Ok res =>
      Some (commit_tx i (prune_commit p (srv_db g))
              (CPrune (pr_now p) (pr_w p) (pr_net p) (pr_retain p) res) g)
  | _, _ => None
  end.

(** *** The server *)

(** Time passes; values of the serial are consumed by inserts that fail. *)
Definition tick (dt burnt : Z) (g : Server) : option Server :=
  guard (0 ≤ dt);;
  guard (0 ≤ burnt);;
  Some {| srv_clock := srv_clock g + dt; srv_nextval := srv_nextval g + burnt;
          srv_db := srv_db g; srv_active := srv_active g; srv_log := srv_log g |}.

Definition step (ev : event) (g : Server) : option Server :=
  match ev with
  | Tick dt burnt => tick dt burnt g
  | Rollback i => Some (rollback_tx i g)
  | BeginSave i rq => begin_save i rq g
  | UpsertChunk i => upsert_step i g
  | ClaimSeq i => claim_step i g
  | InsertManifest i => manifest_step i g
  | InsertJunction i => junction_step i g
  | CommitSave i => commit_save i g
  | BeginPrune i w net retain => begin_prune i w net retain g
  | ScanManifests i => scan_manifests i g
  | DeleteManifest i k => delete_manifest i k g
  | ScanChunks i => scan_chunks i g
  | DeleteChunk i h => delete_chunk i h g
  | SkipChunk i h => skip_chunk i h g
  | CheckForeignKey i => check_foreign_key i g
  | CommitPrune i => commit_prune i g
  end.

(** A run is any sequence of events whose steps are all enabled. *)
Fixpoint run (evs : list event) (g : Server) : option Server :=
  match evs with
  | [] => Some g
  | ev :: evs' => g' ← step ev g; run evs' g'
  end.

Definition idle_server (clock nextval : Z) (db : CkDb) : Server :=
  {| srv_clock := clock; srv_nextval := nextval; srv_db := db; srv_active := ∅; srv_log := [] |}.
End server.
