(* ===== verification/CheckpointServerSpec.v ===== *)
(** * CheckpointStore: the serial specification of concurrent runs

    What the commits of a concurrent run must look like one after the other: a [save] is the whole
    write path run alone on the tables it commits to, a [prune] deletes only rows that its two
    conditions select in those tables (it may pass some over that were busy). *)

From S2P Require Import Prelude Text Json Errors Transaction Driver Slices Checkpoint.
From S2P Require Import CheckpointSave CheckpointSpec CheckpointPrune CheckpointTheorems CheckpointServer.

Local Open Scope Z_scope.

(** The tables without the manifests of [ms] (and their junction rows) and the chunks of [hs]. *)
Definition without (ms : list ManifestRow) (hs : list bytes) (db : CkDb) : CkDb :=
  with_chunks (filter (λ row, row.1 ∉ hs) (ckpt_chunks db)) (keep_manifests (λ m, m ∉ ms) db).

Section spec.
Context `{HSha : !Sha256} `{HText : !TextBinding}.
Implicit Types (db : CkDb) (m : ManifestRow).

Inductive serial_op : Committed → CkDb → CkDb → Prop :=
  | serial_save ctx rq summary db db' :
      0 < rq_size rq →
      runOnTx ctx (rq_w rq) (rq_net rq) (rq_data rq) (rq_size rq) (rq_label rq) db =
        (Ok summary, db') →
      serial_op (CSave ctx rq summary) db db'
  | serial_prune now w net n ms (cs : list (bytes * ChunkRow)) res db :
      1 ≤ n →
      NoDup ms → Forall (λ m, m ∈ doomed_rows w net n db) ms →
      NoDup cs.*1 →
      Forall (λ row, ckpt_chunks db !! row.1 = Some row.2 ∧
                     reclaimable now (keep_manifests (λ m, m ∉ ms) db) row) cs →
      prunedSequences res = m_seq <$> ms →
      reclaimedChunks res = Z.of_nat (length cs) →
      reclaimedBytes res = foldl Z.add 0 (size_bytes ∘ snd <$> cs) →
      serial_op (CPrune now w net n res) db (without ms cs.*1 db).

Inductive serial_run (db0 : CkDb) : list Committed → CkDb → Prop :=
  | serial_nil : serial_run db0 [] db0
  | serial_snoc log db c db' :
      serial_run db0 log db → serial_op c db db' → serial_run db0 (log ++ [c]) db'.

(** ** Which checkpoints are past the retained ones, by counting *)

Definition same_pair (w net : jsstr) (m : ManifestRow) : Prop :=
  m_w m = w ∧ m_net m = net ∧ m_complete m = true.
#[global] Instance same_pair_dec w net m : Decision (same_pair w net m).
Proof. unfold same_pair. apply _. Defined.

Definition newer_rows (w net : jsstr) (seq : Z) (ms : list ManifestRow) : list ManifestRow :=
  filter (λ m, same_pair w net m ∧ seq < m_seq m) ms.

Lemma newer_rows_page w net seq db :
  length (newer_rows w net seq (ckpt_manifests db)) =
  length (filter (λ m, seq < m_seq m) (page w net db)).
Proof.
  unfold page, select_manifests, newer_rows. rewrite merge_sort_Permutation, list_filter_filter.
  f_equal. apply list_filter_ext_elem. intros m _. unfold same_pair.
  destruct (m_complete m); cbn; intuition (try done).
Qed.

Lemma filter_length_le {A} (P : A → Prop) `{∀ x, Decision (P x)} l : (length (filter P l) ≤ length l)%nat.
Proof. apply length_filter. Qed.

Lemma page_cut_newer w net db k cut m :
  page w net db !! k = Some cut → m ∈ drop k (page w net db) → m_seq m ≤ m_seq cut.
Proof.
  intros Hc [j Hj]%list_elem_of_lookup. rewrite lookup_drop in Hj.
  destruct (decide (j = 0)%nat) as [->|Hne]; [rewrite Nat.add_0_r in Hj; simplify_eq; lia|].
  change (by_seq_desc cut m).
  eapply (StronglySorted_lookup_lt by_seq_desc (page w net db) k (k + j)); [|done|done|lia].
  apply select_manifests_sorted.
Qed.

Lemma page_newer_cut w net db k cut m :
  page w net db !! k = Some cut → m ∈ take (S k) (page w net db) → m_seq cut ≤ m_seq m.
Proof.
  intros Hc [j Hj]%list_elem_of_lookup. apply lookup_take_Some in Hj as [Hj Hlt].
  destruct (decide (j = k)) as [->|Hne]; [simplify_eq; lia|].
  change (by_seq_desc m cut).
  eapply (StronglySorted_lookup_lt by_seq_desc (page w net db) j k); [|done|done|lia].
  apply select_manifests_sorted.
Qed.

(** A stored checkpoint of the pair is selected by step 1 exactly when [n] newer ones are stored. *)
Lemma doomed_rows_count w net n db m :
  1 ≤ n → m ∈ ckpt_manifests db → same_pair w net m →
  m ∈ doomed_rows w net n db ↔
  n ≤ Z.of_nat (length (newer_rows w net (m_seq m) (ckpt_manifests db))).
Proof.
  intros Hn Hm (Hw & Hnet & Hc). rewrite newer_rows_page. unfold doomed_rows.
  set (k := Z.to_nat (n - 1)).
  destruct (page w net db !! k) as [cut|] eqn:Hcut; set (l := page w net db) in *.
  - rewrite list_elem_of_filter. unfold doomed. rewrite Hc. split.
    + intros [(_ & _ & _ & Hlt) _]. rewrite <-(take_drop (S k) l), filter_app, length_app.
      rewrite list_filter_every.
      * rewrite length_take. apply lookup_lt_Some in Hcut. subst l. lia.
      * intros m' Hm'. pose proof (page_newer_cut _ _ _ _ _ m' Hcut Hm'). lia.
    + intros Hle. split; [|done]. split_and!; [done..|].
      destruct (decide (m_seq m < m_seq cut)); [done|]. exfalso.
      rewrite <-(take_drop k l), filter_app, length_app, (list_filter_none _ (drop k l)) in Hle.
      * pose proof (filter_length_le (λ m', m_seq m < m_seq m') (take k l)) as Hl.
        rewrite length_take in Hl. cbn in Hle. lia.
      * intros m' Hm'. pose proof (page_cut_newer _ _ _ _ _ m' Hcut Hm'). lia.
  - split; [by intros ?%not_elem_of_nil|]. intros Hle. exfalso.
    apply lookup_ge_None in Hcut. pose proof (filter_length_le (λ m', m_seq m < m_seq m') l). subst l. lia.
Qed.

Lemma doomed_rows_elem w net n db m :
  m ∈ doomed_rows w net n db → m ∈ ckpt_manifests db ∧ same_pair w net m.
Proof.
  unfold doomed_rows. destruct (page w net db !! _) as [cut|]; [|by intros ?%not_elem_of_nil].
  rewrite list_elem_of_filter. unfold doomed, same_pair. destruct (m_complete m); naive_solver.
Qed.

(** Older than a selected row is selected. *)
Lemma doomed_rows_down w net n db m m' :
  m' ∈ doomed_rows w net n db → m ∈ ckpt_manifests db → same_pair w net m →
  m_seq m ≤ m_seq m' → m ∈ doomed_rows w net n db.
Proof.
  unfold doomed_rows. destruct (page w net db !! _) as [cut|]; [|by intros ?%not_elem_of_nil].
  rewrite !list_elem_of_filter. unfold doomed, same_pair.
  intros [(_ & _ & _ & Hlt) _] Hm (Hw & Hnet & Hc) Hle. rewrite Hc. split_and!; [done..|lia|done].
Qed.

(** ** Serial operations keep the invariant *)

Lemma without_lookup ms hs db h :
  ckpt_chunks (without ms hs db) !! h =
    if bool_decide (h ∈ hs) then None else ckpt_chunks db !! h.
Proof.
  cbn. case_bool_decide as Hh.
  - apply map_lookup_filter_None_2. right. by intros c _ [].
  - destruct (ckpt_chunks db !! h) as [c|] eqn:Hc.
    + by apply map_lookup_filter_Some.
    + by apply map_lookup_filter_None_2; left.
Qed.

Lemma without_elem ms hs db m :
  m ∈ ckpt_manifests (without ms hs db) ↔ m ∈ ckpt_manifests db ∧ m ∉ ms.
Proof. cbn. rewrite list_elem_of_filter. tauto. Qed.

Lemma without_inv ms hs db :
  ck_inv db →
  (∀ h, h ∈ hs → h ∉ j_chunk_hash <$> ckpt_manifest_chunks (keep_manifests (λ m, m ∉ ms) db)) →
  ck_inv (without ms hs db).
Proof.
  intros Hi Hun. pose proof (keep_manifests_inv (λ m, m ∉ ms) db Hi) as Hk.
  split; [|..]; try apply Hk.
  - intros h c Hc. rewrite without_lookup in Hc. case_bool_decide; [done|]. by apply (inv_address _ Hi).
  - pose proof (inv_manifests _ Hk) as Hms. eapply Forall_impl; [exact Hms|].
    intros m (Hj & Hh & Hc)%manifest_ok_hashes.
    exists (hashes_of m (keep_manifests (λ m, m ∉ ms) db)). split_and!; [done..|].
    rewrite Forall_forall in Hc |- *. intros h Hin. rewrite without_lookup, bool_decide_false.
    + by apply (Hc h).
    + intros Hh'. by apply (Hun h Hh'), (hashes_of_referenced m).
Qed.

Lemma serial_op_inv c db db' : ck_inv db → serial_op c db db' → ck_inv db'.
Proof.
  intros Hi Hop. destruct Hop as [ctx rq s db db' Hsz Hrun|now w net n ms cs res db Hn Hnd Hms Hcd Hcs _ _ _].
  - apply runOnTx_inv in Hrun as (bound & Hsv & -> & _). by eapply saved_inv.
  - apply without_inv; [done|]. intros h (row & -> & Hin)%list_elem_of_fmap.
    rewrite Forall_forall in Hcs. destruct (Hcs row Hin) as [_ [_ Hr]]. exact Hr.
Qed.

(** A [prune] on its own is the serial operation that passes nothing over. *)
Lemma doomed_rows_kept w net n db :
  doomed_rows w net n db = filter (λ m, ¬ kept w net n db m) (ckpt_manifests db).
Proof.
  unfold doomed_rows. destruct (page w net db !! Z.to_nat (n - 1)) as [cut|] eqn:Hc.
  - apply list_filter_ext_elem. intros m _. rewrite (kept_some _ _ _ _ _ _ Hc).
    destruct (decide (doomed w net cut m)); tauto.
  - symmetry. apply list_filter_none. intros m _ Hk. by apply Hk, kept_none.
Qed.

Lemma keep_manifests_ext (P Q : ManifestRow → Prop) `{∀ m, Decision (P m), ∀ m, Decision (Q m)} db :
  (∀ m, m ∈ ckpt_manifests db → P m ↔ Q m) → keep_manifests P db = keep_manifests Q db.
Proof.
  intros HPQ. unfold keep_manifests.
  assert (filter P (ckpt_manifests db) = filter Q (ckpt_manifests db)) as ->
    by (apply list_filter_ext_elem; exact HPQ).
  assert (filter (λ m, ¬ P m) (ckpt_manifests db) = filter (λ m, ¬ Q m) (ckpt_manifests db)) as ->; [|done].
  apply list_filter_ext_elem. intros m Hm. by rewrite (HPQ m Hm).
Qed.

(** The rows step 2's [WHERE] selects when [ms] has been deleted. *)
Definition reclaimable_rows (now : Z) (ms : list ManifestRow) (db : CkDb) : gmap bytes ChunkRow :=
  filter (reclaimable now (keep_manifests (λ m, m ∉ ms) db)) (ckpt_chunks db).

Lemma keep_doomed w net n db :
  keep_manifests (kept w net n db) db = keep_manifests (λ m, m ∉ doomed_rows w net n db) db.
Proof.
  apply keep_manifests_ext. intros m Hm. rewrite doomed_rows_kept, list_elem_of_filter.
  destruct (decide (kept w net n db m)); tauto.
Qed.

Lemma pruned_without ctx w net n db :
  let ms := doomed_rows w net n db in
  pruned ctx w net n db = without ms (map_to_list (reclaimable_rows (ck_now ctx) ms db)).*1 db.
Proof.
  intros ms. unfold pruned, collected, without. rewrite keep_doomed. f_equal. apply map_eq.
  intros h. cbn. apply option_eq. intros c. rewrite !map_lookup_filter_Some. cbn.
  split; (intros [Hc Hr]; split; [done|]).
  - intros ([h' c'] & -> & Hin%elem_of_map_to_list)%list_elem_of_fmap.
    apply map_lookup_filter_Some in Hin as [Hc' Hrec]. cbn in *. simplify_eq. by apply Hr.
  - intros Hrec. apply Hr. apply list_elem_of_fmap. exists (h, c). split; [done|].
    by apply elem_of_map_to_list, map_lookup_filter_Some.
Qed.

(** What a [prune] on its own reports, in these terms. *)
Lemma prune_run_rows ctx w net n db res db' :
  prune_run ctx w net n db = (Ok res, db') →
  let ms := doomed_rows w net n db in
  let cs := map_to_list (reclaimable_rows (ck_now ctx) ms db) in
  db' = without ms cs.*1 db ∧
  map_result (λ seq, coerceToSafeNumber seq "PruneResult.prunedSequences") (m_seq <$> ms) =
    Ok (prunedSequences res) ∧
  prunedSequences res = m_seq <$> ms ∧
  reclaimedChunks res = Z.of_nat (length cs) ∧
  reclaimedBytes res = foldl Z.add 0 (size_bytes ∘ snd <$> cs).
Proof.
  intros Hrun ms cs. destruct (prune_run_inv _ _ _ _ _ _ _ Hrun) as [-> Hres].
  destruct (Hres res eq_refl) as (Hs & Hcount & Hbytes). cbv zeta in Hcount, Hbytes.
  rewrite <-doomed_rows_kept in Hs. rewrite keep_doomed in Hcount, Hbytes.
  split_and!; [by apply pruned_without| |done..].
  unfold prune_run in Hrun. erewrite action_bind_ok in Hrun by apply prune_manifests_run.
  erewrite action_bind_ok in Hrun by reflexivity. unfold_action_in Hrun.
  rewrite <-doomed_rows_kept in Hrun. fold ms in Hrun.
  destruct (map_result _ _) as [seqs|]; [|done]. by injection Hrun as <-.
Qed.

Lemma prune_run_serial ctx w net n db res db' :
  ck_inv db → 1 ≤ n → prune_run ctx w net n db = (Ok res, db') →
  serial_op (CPrune (ck_now ctx) w net n res) db db'.
Proof.
  intros Hi Hn Hrun. destruct (prune_run_rows _ _ _ _ _ _ _ Hrun) as (-> & _ & Hs & Hcount & Hbytes).
  apply serial_prune; try done.
  - rewrite doomed_rows_kept. apply NoDup_filter. eapply NoDup_fmap_1, inv_ids, Hi.
  - by apply Forall_forall.
  - apply NoDup_fst_map_to_list.
  - apply Forall_forall. intros [h c] Hin%elem_of_map_to_list.
    by apply map_lookup_filter_Some in Hin.
Qed.

(** ** Checkpoints across serial runs *)

Lemma hashes_of_without ms hs db m :
  ck_inv db → m ∈ ckpt_manifests (without ms hs db) →
  hashes_of m (without ms hs db) = hashes_of m db.
Proof.
  intros Hi [Hm Hn]%without_elem. unfold hashes_of. f_equal.
  apply (keep_junction (λ m, m ∉ ms) db m Hi Hm Hn).
Qed.

Lemma without_load ms hs db m :
  ck_inv db →
  (∀ h, h ∈ hs → h ∉ j_chunk_hash <$> ckpt_manifest_chunks (keep_manifests (λ m, m ∉ ms) db)) →
  m ∈ ckpt_manifests (without ms hs db) → load_manifest m (without ms hs db) = load_manifest m db.
Proof.
  intros Hi Hun Hm. pose proof Hm as [Hm0 Hn]%without_elem.
  apply load_manifest_ext; [by apply (keep_junction (λ m, m ∉ ms) db m Hi)|].
  intros h Hh. unfold chunk_data. rewrite without_lookup, bool_decide_false; [done|].
  intros Hh'. apply (Hun h Hh'), (hashes_of_referenced m).
  rewrite <-(hashes_of_without ms hs db m Hi Hm) in Hh. exact Hh.
Qed.

Lemma serial_op_effect c db db' : ck_inv db → serial_op c db db' → step_effect db db'.
Proof.
  intros Hi Hop. pose proof (serial_op_inv _ _ _ Hi Hop) as Hi'.
  destruct Hop as [ctx rq s db db' Hsz Hrun|now w net n ms cs res db Hn Hnd Hms Hcd Hcs _ _ _].
  - apply (ck_step_effect db db' Hi). by eapply ck_step_save.
  - split; [done|done| |].
    + intros m [Hm _]%without_elem. by left.
    + intros m _ Hm. apply without_load; [done| |done].
      intros h (row & -> & Hin)%list_elem_of_fmap. rewrite Forall_forall in Hcs.
      destruct (Hcs row Hin) as [_ [_ Hr]]. exact Hr.
Qed.

Lemma serial_run_inv db0 log db : ck_inv db0 → serial_run db0 log db → ck_inv db.
Proof. intros Hi Hr. induction Hr; [done|]. by eapply serial_op_inv. Qed.
End spec.
