(* ===== verification/CheckpointServerInv.v ===== *)
(** * CheckpointStore: the invariant of concurrent runs

    What holds of every open transaction whatever the others do: its locks are its own, what it has
    written is what its statements would write on the tables as they are committed now, and the rows
    a [prune] is about to delete are still rows its conditions select. Every step keeps it. *)

From S2P Require Import Prelude Text Json Errors Transaction Driver Slices Checkpoint.
From S2P Require Import CheckpointSave CheckpointSpec CheckpointPrune CheckpointTheorems.
From S2P Require Import CheckpointServer CheckpointServerSpec.

Local Open Scope Z_scope.

(** ** Locks are exclusive *)

Definition new_id (t : Tx) : option Z :=
  match t with Saving s => m_id <$> sv_manifest s | Pruning _ => None end.

Record compatible (t1 t2 : Tx) : Prop := {
  co_chunk : ∀ h, holds_chunk h t1 → holds_chunk h t2 → False;
  co_counter : ∀ k, holds_counter k t1 → holds_counter k t2 → False;
  co_manifest : ∀ m, holds_manifest m t1 → holds_manifest m t2 → False;
  co_new_id : ∀ id, new_id t1 = Some id → new_id t2 = Some id → False;
}.

Lemma compatible_sym t1 t2 : compatible t1 t2 → compatible t2 t1.
Proof. intros []. split; eauto. Qed.

(** Nothing more is held: still compatible. *)
Lemma compatible_mono t1 t1' t2 :
  compatible t1 t2 →
  (∀ h, holds_chunk h t1' → holds_chunk h t1 ∨ ¬ holds_chunk h t2) →
  (∀ k, holds_counter k t1' → holds_counter k t1 ∨ ¬ holds_counter k t2) →
  (∀ m, holds_manifest m t1' → holds_manifest m t1 ∨ ¬ holds_manifest m t2) →
  (∀ id, new_id t1' = Some id → new_id t1 = Some id ∨ new_id t2 ≠ Some id) →
  compatible t1' t2.
Proof.
  intros [H1 H2 H3 H4] G1 G2 G3 G4. split; intros x Hx Hy.
  - destruct (G1 x Hx); [by eapply H1|done].
  - destruct (G2 x Hx); [by eapply H2|done].
  - destruct (G3 x Hx); [by eapply H3|done].
  - destruct (G4 x Hx); [by eapply H4|done].
Qed.

Lemma unlocked_lookup holds `{∀ t, Decision (holds t)} i j g t :
  unlocked holds i g → srv_active g !! j = Some t → j ≠ i → ¬ holds t.
Proof. intros Hu Hj Hne. destruct (Hu j t Hj); [done|done]. Qed.

Section inv.
Context `{HSha : !Sha256} `{HText : !TextBinding}.
Implicit Types (g : Server) (s : Saver) (p : Pruner) (db : CkDb).

(** ** A [save] under way *)

Definition save_ctx (s : Saver) (id : Z) : CkCtx := {| ck_now := sv_now s; ck_nextval := id |}.

Definition rq_saved (ctx : CkCtx) (rq : SaveReq) (bound : option jsstr) (db : CkDb) : CkDb :=
  saved ctx (rq_w rq) (rq_net rq) (rq_data rq) (rq_size rq) bound db.

Definition rq_manifest (ctx : CkCtx) (rq : SaveReq) (bound : option jsstr) (db : CkDb) : ManifestRow :=
  saved_manifest ctx (rq_w rq) (rq_net rq) (rq_data rq) (rq_size rq) bound db.

(** The version of chunk [h] after the upsert of [rows]. *)
Definition written (now : Z) (rows : list (bytes * bytes)) (db : CkDb) (h : bytes) : option ChunkRow :=
  d ← list_to_map (M := gmap bytes bytes) rows !! h;
  Some {| ck_data := if ckpt_chunks db !! h is Some c then ck_data c else d; ck_created_at := now |}.

Record saver_ok (clock nextval : Z) (db : CkDb) (s : Saver) : Prop := {
  so_start : sv_now s ≤ clock;
  so_size : 0 < rq_size (sv_req s);
  so_rows : ∃ done, rq_rows (sv_req s) = done ++ sv_todo s ∧
              ∀ h, sv_chunks s !! h = written (sv_now s) done db h;
  so_seq : ∀ seq, sv_seq s = Some seq →
             sv_todo s = [] ∧ claimable (rq_w (sv_req s)) (rq_net (sv_req s)) db ∧
             seq = next_seq (rq_w (sv_req s)) (rq_net (sv_req s)) db;
  so_manifest : ∀ m, sv_manifest s = Some m →
             is_Some (sv_seq s) ∧ m_id m < nextval ∧ (m_id m ∉ m_id <$> ckpt_manifests db) ∧
             ∃ bound, bind_label (rq_label (sv_req s)) = Ok bound ∧
                      m = rq_manifest (save_ctx s (m_id m)) (sv_req s) bound db;
  so_junction : ∀ m, sv_manifest s = Some m →
             sv_junction s = take (length (sv_junction s)) (rows_of (m_id m) (rq_hashes (sv_req s)));
  so_no_junction : sv_manifest s = None → sv_junction s = [];
  so_positions : Forall (λ r, j_position r ≤ 2147483647) (sv_junction s);
}.

(** ** A [prune] under way *)

Definition pr_rows (p : Pruner) : list ManifestRow :=
  match pr_stage p with PruneManifests rows => rows | _ => [] end.

(** What step 1 has deleted or will visit. *)
Definition pr_targets (p : Pruner) : list ManifestRow := pr_manifests p ++ pr_rows p.

Definition newer_count (w net : jsstr) (seq : Z) (db : CkDb) : Z :=
  Z.of_nat (length (newer_rows w net seq (ckpt_manifests db))).

Record pruner_ok (clock : Z) (db : CkDb) (p : Pruner) : Prop := {
  po_start : pr_now p ≤ clock;
  po_retain : 1 ≤ pr_retain p;
  po_begun : pr_stage p = PruneBegun → pr_manifests p = [];
  po_early : (pr_stage p = PruneBegun ∨ ∃ rows, pr_stage p = PruneManifests rows) → pr_chunks p = [];
  po_pair : ∀ m, m ∈ pr_targets p →
              same_pair (pr_w p) (pr_net p) m ∧ m_seq m < next_seq (pr_w p) (pr_net p) db;
  po_down : ∀ m m', m' ∈ pr_targets p → m ∈ ckpt_manifests db →
              same_pair (pr_w p) (pr_net p) m → m_seq m ≤ m_seq m' → m ∈ pr_targets p;
  po_count : ∀ m, m ∈ pr_targets p → m ∈ ckpt_manifests db →
              pr_retain p ≤ newer_count (pr_w p) (pr_net p) (m_seq m) db;
  po_held : ∀ m, m ∈ pr_manifests p → m ∈ ckpt_manifests db;
  po_nodup : NoDup (pr_targets p);
  po_chunks : ∀ row, row ∈ pr_chunks p →
              ckpt_chunks db !! row.1 = Some row.2 ∧ ck_created_at row.2 < pr_now p - GRACE_WINDOW;
  po_chunks_nodup : NoDup (pr_chunks p).*1;
  po_chunks_left : ∀ hashes, pr_stage p = PruneChunks hashes → ∀ h, h ∈ hashes → h ∉ (pr_chunks p).*1;
  po_done : pr_stage p = PruneDone → unreferenced p db;
}.

Definition tx_ok (clock nextval : Z) (db : CkDb) (t : Tx) : Prop :=
  match t with Saving s => saver_ok clock nextval db s | Pruning p => pruner_ok clock db p end.

Record srv_inv (g : Server) : Prop := {
  si_db : ck_inv (srv_db g);
  si_ids : ∀ m, m ∈ ckpt_manifests (srv_db g) → m_id m < srv_nextval g;
  si_tx : ∀ i t, srv_active g !! i = Some t → tx_ok (srv_clock g) (srv_nextval g) (srv_db g) t;
  si_compatible : ∀ i j t1 t2, i ≠ j →
    srv_active g !! i = Some t1 → srv_active g !! j = Some t2 → compatible t1 t2;
}.

Lemma srv_inv_idle clock nextval db :
  ck_inv db → (∀ m, m ∈ ckpt_manifests db → m_id m < nextval) → srv_inv (idle_server clock nextval db).
Proof. intros Hi Hid. split; cbn; [done..| |]; intros *; by rewrite lookup_empty. Qed.

Lemma tx_ok_later clock nextval clock' nextval' db t :
  clock ≤ clock' → nextval ≤ nextval' → tx_ok clock nextval db t → tx_ok clock' nextval' db t.
Proof.
  intros Hc Hn. destruct t as [s|p]; intros [].
  - split; try done; [lia|].
    intros m Hm. destruct (so_manifest0 m Hm) as (? & ? & ? & ?). split_and!; [done|lia|done..].
  - split; try done. lia.
Qed.

(** ** One transaction moves *)

Lemma srv_inv_update i t g nextval' :
  srv_inv g → srv_nextval g ≤ nextval' →
  tx_ok (srv_clock g) nextval' (srv_db g) t →
  (∀ j t', j ≠ i → srv_active g !! j = Some t' → compatible t t') →
  srv_inv {| srv_clock := srv_clock g; srv_nextval := nextval'; srv_db := srv_db g;
             srv_active := <[i := t]> (srv_active g); srv_log := srv_log g |}.
Proof.
  intros [Hdb Hids Htx Hco] Hle Ht Hc. split; cbn.
  - done.
  - intros m Hm. specialize (Hids m Hm). lia.
  - intros j t'. destruct (decide (i = j)) as [<-|Hne].
    + rewrite lookup_insert_eq. by intros [= <-].
    + rewrite lookup_insert_ne by done. intros Hj. by eapply tx_ok_later, Htx.
  - intros j k t1 t2 Hne H1 H2.
    apply lookup_insert_Some in H1 as [[<- <-]|[Hj H1]], H2 as [[<- <-]|[Hk H2]].
    + done.
    + by eapply Hc.
    + apply compatible_sym. by eapply Hc.
    + by eapply (Hco j k).
Qed.

Lemma srv_inv_with_tx i t g :
  srv_inv g → tx_ok (srv_clock g) (srv_nextval g) (srv_db g) t →
  (∀ j t', j ≠ i → srv_active g !! j = Some t' → compatible t t') →
  srv_inv (with_tx i t g).
Proof. intros Hg Ht Hc. by apply srv_inv_update. Qed.

Lemma srv_inv_rollback i g : srv_inv g → srv_inv (rollback_tx i g).
Proof.
  intros [Hdb Hids Htx Hco]. split; cbn; [done|done| |].
  - intros j t [_ Hj]%lookup_delete_Some. by eapply Htx.
  - intros j k t1 t2 Hne [_ H1]%lookup_delete_Some [_ H2]%lookup_delete_Some. by eapply (Hco j k).
Qed.

Lemma srv_inv_commit i db' entry g :
  srv_inv g → ck_inv db' → (∀ m, m ∈ ckpt_manifests db' → m_id m < srv_nextval g) →
  (∀ j t, j ≠ i → srv_active g !! j = Some t → tx_ok (srv_clock g) (srv_nextval g) db' t) →
  srv_inv (commit_tx i db' entry g).
Proof.
  intros [Hdb Hids Htx Hco] Hdb' Hids' Hf. split; cbn; [done|done| |].
  - intros j t [Hne Hj]%lookup_delete_Some. by eapply Hf.
  - intros j k t1 t2 Hne [_ H1]%lookup_delete_Some [_ H2]%lookup_delete_Some. by eapply (Hco j k).
Qed.

Lemma saver_at_Some i g s : saver_at i g = Some s ↔ srv_active g !! i = Some (Saving s).
Proof. unfold saver_at. destruct (_ !! _) as [[]|]; naive_solver. Qed.
Lemma pruner_at_Some i g p : pruner_at i g = Some p ↔ srv_active g !! i = Some (Pruning p).
Proof. unfold pruner_at. destruct (_ !! _) as [[]|]; naive_solver. Qed.

(** ** What a commit of one transaction leaves another *)

Lemma saver_frame clock nextval db db' s :
  saver_ok clock nextval db s →
  (∀ h, is_Some (sv_chunks s !! h) → ckpt_chunks db' !! h = ckpt_chunks db !! h) →
  (is_Some (sv_seq s) → ckpt_sequence_counters db' !! (rq_w (sv_req s), rq_net (sv_req s)) =
                        ckpt_sequence_counters db !! (rq_w (sv_req s), rq_net (sv_req s))) →
  (∀ m, sv_manifest s = Some m → m_id m ∉ m_id <$> ckpt_manifests db →
        m_id m ∉ m_id <$> ckpt_manifests db') →
  saver_ok clock nextval db' s.
Proof.
  intros [Hst Hsz (don & Hrq & Hch) Hseq Hman Hj Hnj Hpos] Fc Fs Fm. split; try done.
  - exists don. split; [done|]. intros h. specialize (Hch h). specialize (Fc h).
    rewrite Hch in Fc |- *. unfold written in *. cbn in *.
    destruct (list_to_map don !! h); [|done]. cbn in *. rewrite Fc by done. done.
  - intros seq Hs. destruct (Hseq seq Hs) as (Ht & Hc & ->). rewrite Hs in Fs.
    unfold claimable, next_seq in *. rewrite Fs by done. done.
  - intros m Hm. destruct (Hman m Hm) as (Hs & Hlt & Hn & bound & Hb & Heq).
    split_and!; [done|done|by apply Fm|]. exists bound. split; [done|]. rewrite Heq at 1.
    unfold rq_manifest, saved_manifest, next_seq. cbn. by rewrite (Fs Hs).
Qed.

Lemma pruner_frame clock db db' p :
  pruner_ok clock db p →
  next_seq (pr_w p) (pr_net p) db ≤ next_seq (pr_w p) (pr_net p) db' →
  (∀ m, m ∈ ckpt_manifests db' → same_pair (pr_w p) (pr_net p) m →
        m ∈ ckpt_manifests db ∨ next_seq (pr_w p) (pr_net p) db ≤ m_seq m) →
  (∀ m, m ∈ pr_targets p → m ∈ ckpt_manifests db' →
        m ∈ ckpt_manifests db ∧
        newer_count (pr_w p) (pr_net p) (m_seq m) db ≤ newer_count (pr_w p) (pr_net p) (m_seq m) db') →
  (∀ m, m ∈ pr_manifests p → m ∈ ckpt_manifests db → m ∈ ckpt_manifests db') →
  (∀ row, row ∈ pr_chunks p → ckpt_chunks db' !! row.1 = ckpt_chunks db !! row.1) →
  (unreferenced p db → unreferenced p db') →
  pruner_ok clock db' p.
Proof.
  intros [Hst Hr Hb He Hp Hd Hc Hh Hn Hch Hcn Hcl Hdone] Fs Fm Fc Fh Fch Fu. split; try done.
  - intros m Hm. destruct (Hp m Hm). split; [done|lia].
  - intros m m' Hm' Hm Hsp Hle. destruct (Fm m Hm Hsp) as [Hm0|Hge]; [by eapply Hd|].
    destruct (Hp m' Hm'). lia.
  - intros m Hm Hm'. destruct (Fc m Hm Hm') as [Hm0 Hle]. specialize (Hc m Hm Hm0). lia.
  - intros m Hm. apply Fh; [done|by apply Hh].
  - intros row Hrow. rewrite Fch by done. by apply Hch.
  - intros Hstage. by apply Fu, Hdone.
Qed.
End inv.
