(* ===== verification/CheckpointServerSteps.v ===== *)
(** * CheckpointStore: every step keeps the invariant, every commit is a serial operation *)

From S2P Require Import Prelude Text Json Errors Transaction Driver Slices Checkpoint.
From S2P Require Import CheckpointSave CheckpointSpec CheckpointPrune CheckpointTheorems.
From S2P Require Import CheckpointServer CheckpointServerSpec CheckpointServerInv.

Local Open Scope Z_scope.

Lemma option_union_left_id {A} (x : option A) : None ∪ x = x.
Proof. by destruct x. Qed.
Lemma option_union_right_id {A} (x : option A) : x ∪ None = x.
Proof. by destruct x. Qed.

Section steps.
Context `{HSha : !Sha256} `{HText : !TextBinding}.
Implicit Types (g : Server) (s : Saver) (p : Pruner) (db : CkDb).

(** ** The statements of [save] *)

Lemma upserted_eq now t row :
  upserted now t row =
    {[row.1 := {| ck_data := if t !! row.1 is Some c then ck_data c else row.2;
                  ck_created_at := now |}]}.
Proof. unfold upserted. by rewrite upsert_chunk_eq. Qed.

Lemma saver_ok_upsert clock nextval db s row todo :
  saver_ok clock nextval db s → sv_todo s = row :: todo →
  saver_ok clock nextval db
    {| sv_req := sv_req s; sv_now := sv_now s; sv_todo := todo;
       sv_chunks := upserted (sv_now s) (ckpt_chunks (save_view s db)) row ∪ sv_chunks s;
       sv_seq := sv_seq s; sv_manifest := sv_manifest s; sv_junction := sv_junction s |}.
Proof.
  intros [Hst Hsz (don & Hrq & Hch) Hseq Hman Hj Hnj Hpos] Htodo. split; try done; cbn.
  - exists (don ++ [row]). split; [by rewrite <-(assoc_L (++)), Hrq, Htodo|].
    assert (row.1 ∉ don.*1) as Hnew.
    { pose proof (chunk_rows_NoDup (rq_data (sv_req s)) (rq_size (sv_req s))) as Hnd.
      unfold rq_rows in Hrq. rewrite Hrq, Htodo, fmap_app, NoDup_app in Hnd.
      destruct Hnd as (_ & Hdis & _). intros Hin. apply (Hdis _ Hin). by left. }
    assert (list_to_map (M := gmap bytes bytes) don !! row.1 = None) as Hnone
      by (by apply not_elem_of_list_to_map_1).
    intros h. rewrite upserted_eq. unfold written. rewrite list_to_map_app, !lookup_union.
    destruct row as [h0 d]. cbn [fst snd] in *. cbn [list_to_map foldr fst snd uncurry].
    destruct (decide (h = h0)) as [->|Hne].
    + rewrite lookup_singleton_eq, lookup_insert_eq, Hch. unfold written. rewrite Hnone. cbn.
      by destruct (ckpt_chunks db !! h0).
    + rewrite lookup_singleton_ne, lookup_insert_ne, lookup_empty by done.
      rewrite option_union_left_id, option_union_right_id. apply Hch.
  - intros seq Hs. destruct (Hseq seq Hs) as [Hnil _]. by rewrite Htodo in Hnil.
Qed.

Lemma saver_ok_claim clock nextval db s seq db1 :
  saver_ok clock nextval db s → sv_todo s = [] → sv_seq s = None →
  claim_seq (rq_w (sv_req s)) (rq_net (sv_req s)) (save_view s db) = (Ok seq, db1) →
  saver_ok clock nextval db
    {| sv_req := sv_req s; sv_now := sv_now s; sv_todo := sv_todo s; sv_chunks := sv_chunks s;
       sv_seq := Some seq; sv_manifest := sv_manifest s; sv_junction := sv_junction s |}.
Proof.
  intros [Hst Hsz Hrows Hseq Hman Hj Hnj Hpos] Htodo Hnone Hclaim. split; try done; cbn.
  - intros seq' [= <-]. pose proof (claim_seq_inv _ _ _ _ _ Hclaim) as Hc.
    rewrite claim_seq_ok in Hclaim by done. injection Hclaim as <- _.
    unfold claimable, next_seq in *. unfold save_view in *. cbn in *. by rewrite Hnone in *.
  - intros m Hm. destruct (Hman m Hm) as [Hs _]. rewrite Hnone in Hs. by destruct Hs.
Qed.

Lemma saver_ok_manifest clock nextval db s seq m db1 :
  saver_ok clock nextval db s →
  (∀ m, m ∈ ckpt_manifests db → m_id m < nextval) →
  sv_seq s = Some seq → sv_manifest s = None →
  insert_manifest (save_ctx s nextval) (rq_w (sv_req s)) (rq_net (sv_req s)) seq
    (sha256 (mjoin (rq_hashes (sv_req s)))) (rq_label (sv_req s)) (save_view s db) = (Ok m, db1) →
  saver_ok clock (nextval + 1) db
    {| sv_req := sv_req s; sv_now := sv_now s; sv_todo := sv_todo s; sv_chunks := sv_chunks s;
       sv_seq := sv_seq s; sv_manifest := Some m; sv_junction := sv_junction s |} ∧ m_id m = nextval.
Proof.
  intros [Hst Hsz Hrows Hseq Hman Hj Hnj Hpos] Hids Hs Hnone Hins.
  destruct (insert_manifest_inv _ _ _ _ _ _ _ _ _ Hins) as [Hb Hf].
  destruct (bind_label (rq_label (sv_req s))) as [bound|] eqn:Hbl; [|done].
  rewrite (insert_manifest_ok _ _ _ _ _ _ bound) in Hins by done. injection Hins as <- _. cbn.
  split; [|done]. split; try done; cbn.
  - intros m [= <-]. cbn. split_and!; [by rewrite Hs|lia| |].
    + intros (m & Hid & Hm)%list_elem_of_fmap. specialize (Hids m Hm). lia.
    + exists bound. split; [done|]. destruct (Hseq seq Hs) as (_ & _ & ->). done.
  - intros m [= <-]. by rewrite (Hnj Hnone).
Qed.

Lemma rows_of_lookup id hs k h :
  hs !! k = Some h →
  rows_of id hs !! k = Some {| j_manifest_id := id; j_position := Z.of_nat k; j_chunk_hash := h |}.
Proof. intros Hk. unfold rows_of. by rewrite list_lookup_imap, Hk. Qed.

Lemma saver_ok_junction clock nextval db s m r db1 :
  saver_ok clock nextval db s → sv_manifest s = Some m → next_junction s m = Some r →
  insert_junction_row (save_view s db) r = Ok db1 →
  saver_ok clock nextval db
    {| sv_req := sv_req s; sv_now := sv_now s; sv_todo := sv_todo s; sv_chunks := sv_chunks s;
       sv_seq := sv_seq s; sv_manifest := sv_manifest s; sv_junction := sv_junction s ++ [r] |}.
Proof.
  intros [Hst Hsz Hrows Hseq Hman Hj Hnj Hpos] Hm Hnext Hins. split; try done; cbn.
  - intros m' Hm'. simplify_eq. unfold next_junction in Hnext.
    destruct (rq_hashes (sv_req s) !! length (sv_junction s)) as [h|] eqn:Hh; [|done].
    injection Hnext as <-. rewrite length_app. cbn. rewrite Nat.add_1_r.
    rewrite (take_S_r _ _ _ (rows_of_lookup _ _ _ _ Hh)). by rewrite <-(Hj m).
  - by rewrite Hm.
  - apply Forall_app. split; [done|]. constructor; [|done].
    unfold insert_junction_row in Hins. destruct (Z.ltb_spec 2147483647 (j_position r)); [done|lia].
Qed.

(** ** The commit of [save] *)

Lemma saver_view_saved clock nextval db s m :
  saver_ok clock nextval db s → sv_manifest s = Some m →
  length (sv_junction s) = length (rq_hashes (sv_req s)) →
  ∃ bound,
    savable (save_ctx s (m_id m)) (rq_w (sv_req s)) (rq_net (sv_req s)) (rq_label (sv_req s)) bound db ∧
    m = rq_manifest (save_ctx s (m_id m)) (sv_req s) bound db ∧
    sv_junction s = rows_of (m_id m) (rq_hashes (sv_req s)) ∧
    save_view s db = rq_saved (save_ctx s (m_id m)) (sv_req s) bound db.
Proof.
  intros [Hst Hsz (don & Hrq & Hch) Hseq Hman Hj Hnj Hpos] Hm Hlen.
  destruct (Hman m Hm) as ([seq Hs] & Hlt & Hfresh & bound & Hb & Heq).
  destruct (Hseq seq Hs) as (Htodo & Hc & ->). exists bound.
  assert (sv_junction s = rows_of (m_id m) (rq_hashes (sv_req s))) as Hjunc.
  { rewrite (Hj m Hm), Hlen, take_ge; [done|]. unfold rows_of. by rewrite length_imap. }
  split_and!; [done..|]. unfold save_view, rq_saved, saved. rewrite Hs, Hm, Hjunc. cbn. f_equal.
  - apply map_eq. intros h. rewrite upsert_chunks_lookup by apply chunk_rows_NoDup.
    rewrite Htodo, app_nil_r in Hrq. rewrite lookup_union, Hch, <-Hrq. unfold written, rq_rows.
    destruct (list_to_map _ !! h); [cbn; by destruct (ckpt_chunks db !! h)|].
    cbn. by rewrite option_union_left_id.
  - f_equal. by rewrite Heq at 1.
Qed.

Lemma saver_chunk_count clock nextval db s :
  saver_ok clock nextval db s →
  length (sv_junction s) = length (rq_hashes (sv_req s)) →
  ∀ m, sv_manifest s = Some m →
  Z.of_nat (length (splitChunks (rq_data (sv_req s)) (rq_size (sv_req s)))) ≤ 2147483648.
Proof.
  intros Hok Hlen m Hm. destruct (saver_view_saved _ _ _ _ _ Hok Hm Hlen) as (_ & _ & _ & Hj & _).
  assert (length (rq_hashes (sv_req s)) =
    length (splitChunks (rq_data (sv_req s)) (rq_size (sv_req s)))) as <-
    by (unfold rq_hashes, chunk_hashes; apply length_fmap).
  destruct (decide (length (rq_hashes (sv_req s)) = 0%nat)) as [->|Hne]; [lia|].
  destruct (lookup_lt_is_Some_2 (rq_hashes (sv_req s)) (pred (length (rq_hashes (sv_req s)))))
    as [h Hh]; [lia|].
  pose proof (so_positions _ _ _ _ Hok) as Hpos. rewrite Hj, Forall_forall in Hpos.
  specialize (Hpos _ (list_elem_of_lookup_2 _ _ _ (rows_of_lookup (m_id m) _ _ _ Hh))). cbn in Hpos. lia.
Qed.

(** Alone on the tables as they are now, the write path would do exactly what was done. *)
Lemma saver_runs clock nextval db s m :
  ck_inv db → saver_ok clock nextval db s → sv_manifest s = Some m →
  length (sv_junction s) = length (rq_hashes (sv_req s)) →
  let rq := sv_req s in
  runOnTx (save_ctx s (m_id m)) (rq_w rq) (rq_net rq) (rq_data rq) (rq_size rq) (rq_label rq) db =
    (toSummary m (Z.of_nat (length (rq_data rq)))
       (Z.of_nat (length (splitChunks (rq_data rq) (rq_size rq)))), save_view s db).
Proof.
  intros Hi Hok Hm Hlen rq. destruct (saver_view_saved _ _ _ _ _ Hok Hm Hlen) as (bound & Hsv & Heq & _ & ->).
  rewrite (runOnTx_total _ _ _ _ _ _ bound); [|done|done|by eapply saver_chunk_count].
  by rewrite Heq at 3.
Qed.

Lemma saver_holds_hashes clock nextval db s m h :
  saver_ok clock nextval db s → sv_manifest s = Some m →
  h ∈ rq_hashes (sv_req s) → is_Some (sv_chunks s !! h).
Proof.
  intros [_ _ (don & Hrq & Hch) Hseq Hman _ _ _] Hm Hh.
  destruct (Hman m Hm) as ([seq Hs] & _). destruct (Hseq seq Hs) as (Htodo & _).
  rewrite Htodo, app_nil_r in Hrq. rewrite Hch. unfold written.
  apply chunk_rows_hashes in Hh. unfold rq_rows in Hrq. rewrite Hrq in Hh.
  destruct (list_to_map don !! h) eqn:He; [by eexists|]. by apply not_elem_of_list_to_map_2 in He.
Qed.

Lemma prune_view_elem p db r :
  r ∈ ckpt_manifest_chunks (prune_view p db) ↔
  r ∈ ckpt_manifest_chunks db ∧
  ∀ m, m ∈ pr_manifests p → m ∈ ckpt_manifests db → m_id m ≠ j_manifest_id r.
Proof.
  unfold prune_view, keep_manifests; cbn. rewrite list_elem_of_filter. split.
  - intros [Hn Hr]. split; [done|]. intros m Hm Hin Hid. apply Hn. rewrite <-Hid.
    apply list_elem_of_fmap_2, list_elem_of_filter. split; [|done]. by intros Hx.
  - intros [Hr Hn]. split; [|done].
    intros (m & Hid & [Hx Hin]%list_elem_of_filter)%list_elem_of_fmap.
    destruct (decide (m ∈ pr_manifests p)) as [Hm|]; [|by apply Hx]. by eapply Hn.
Qed.

(** The hashes that still have a junction row, as a [prune] sees them. *)
Definition referenced (p : Pruner) (db : CkDb) : list bytes :=
  j_chunk_hash <$> ckpt_manifest_chunks (prune_view p db).

Lemma unreferenced_Forall p db : unreferenced p db ↔ ∀ row, row ∈ pr_chunks p → row.1 ∉ referenced p db.
Proof. unfold unreferenced. by rewrite Forall_forall. Qed.

Lemma referenced_mono p db db' :
  (∀ r, r ∈ ckpt_manifest_chunks db' → r ∈ ckpt_manifest_chunks db) →
  (∀ m, m ∈ pr_manifests p → m ∈ ckpt_manifests db → m ∈ ckpt_manifests db') →
  ∀ h, h ∈ referenced p db' → h ∈ referenced p db.
Proof.
  intros Hr Hm h (r & -> & [Hin Hnid]%prune_view_elem)%list_elem_of_fmap.
  apply list_elem_of_fmap_2, prune_view_elem. split; [by apply Hr|].
  intros m Hmp Hmin. by apply Hnid; [|apply Hm].
Qed.

(** A committing [save] refers to nothing but chunks it has locked. *)
Lemma referenced_save clock nextval db s m p h :
  saver_ok clock nextval db s → sv_manifest s = Some m →
  length (sv_junction s) = length (rq_hashes (sv_req s)) →
  h ∈ referenced p (save_view s db) → h ∈ referenced p db ∨ is_Some (sv_chunks s !! h).
Proof.
  intros Hok Hm Hlen (r & -> & [Hr Hnid]%prune_view_elem)%list_elem_of_fmap.
  cbn in Hr. apply elem_of_app in Hr as [Hr|Hr].
  - left. apply list_elem_of_fmap_2, prune_view_elem. split; [done|]. intros m2 Hm2 Hin.
    apply Hnid; [done|]. cbn. rewrite elem_of_app. by left.
  - right. eapply saver_holds_hashes; [done|done|].
    destruct (saver_view_saved _ _ _ _ _ Hok Hm Hlen) as (_ & _ & _ & Hj & _). rewrite Hj in Hr.
    apply (list_elem_of_fmap_2 j_chunk_hash) in Hr. by rewrite rows_of_hashes in Hr.
Qed.

Lemma referenced_prune p p2 db h :
  (∀ m, holds_manifest m (Pruning p) → holds_manifest m (Pruning p2) → False) →
  h ∈ referenced p2 (prune_commit p db) → h ∈ referenced p2 db.
Proof.
  intros Hma. apply referenced_mono.
  - intros r. cbn. intros [_ Hr]%list_elem_of_filter. done.
  - intros m Hm Hin. apply (without_elem (pr_manifests p) (pr_chunks p).*1). split; [done|].
    intros Hx. by apply (Hma m).
Qed.

(** Whatever a committing [save] adds, it leaves the other transactions as they were. *)
Lemma frame_save clock nextval db s m bound t :
  saver_ok clock nextval db s → sv_manifest s = Some m →
  length (sv_junction s) = length (rq_hashes (sv_req s)) →
  save_view s db = rq_saved (save_ctx s (m_id m)) (sv_req s) bound db →
  compatible (Saving s) t → tx_ok clock nextval db t → tx_ok clock nextval (save_view s db) t.
Proof.
  intros Hok Hm Hlen Hview [Hch Hco _ Hid] Ht.
  destruct (so_manifest _ _ _ _ Hok m Hm) as ([seq Hs] & _ & _ & bound' & _ & Heq).
  destruct (so_seq _ _ _ _ Hok seq Hs) as (_ & _ & Hseq).
  assert (∀ h, ¬ is_Some (sv_chunks s !! h) →
    ckpt_chunks (save_view s db) !! h = ckpt_chunks db !! h) as Hkeep.
  { intros h Hn%eq_None_not_Some. cbn. by rewrite lookup_union, Hn, option_union_left_id. }
  destruct t as [s2|p]; cbn in Ht |- *.
  - apply (saver_frame _ _ db); [done|..].
    + intros h Hh. apply Hkeep. intros Hx. by apply (Hch h).
    + intros Hs2. cbn. rewrite Hs. apply lookup_insert_ne. intros He.
      apply (Hco _ (conj (ex_intro _ seq Hs) eq_refl)). by split.
    + intros m2 Hm2 Hn. cbn. rewrite Hm, fmap_app. cbn.
      intros [Hx|Hx%list_elem_of_singleton]%elem_of_app; [done|].
      apply (Hid (m_id m)); cbn; [by rewrite Hm|]. by rewrite Hm2, <-Hx.
  - assert (m_w m = rq_w (sv_req s) ∧ m_net m = rq_net (sv_req s) ∧ m_seq m = seq) as (Hmw & Hmn & Hms)
      by (rewrite Heq, Hseq; done).
    apply (pruner_frame _ db); [done|..].
    + unfold next_seq. cbn. rewrite Hs.
      destruct (decide ((rq_w (sv_req s), rq_net (sv_req s)) = (pr_w p, pr_net p))) as [He|Hne].
      * rewrite <-He, lookup_insert_eq. rewrite Hseq. unfold next_seq. cbn. lia.
      * by rewrite lookup_insert_ne.
    + intros m2. cbn. rewrite Hm. intros [?| ->%list_elem_of_singleton]%elem_of_app (Hw & Hn & _); [by left|].
      right. rewrite <-Hw, <-Hn, Hmw, Hmn, Hms, Hseq. done.
    + intros m2 Hm2. cbn. rewrite Hm. intros Hin.
      destruct (po_pair _ _ _ Ht m2 Hm2) as [(Hw & Hn & _) Hlt].
      assert (m2 ∈ ckpt_manifests db) as Hin2.
      { apply elem_of_app in Hin as [?| ->%list_elem_of_singleton]; [done|].
        rewrite <-Hw, <-Hn, Hmw, Hmn, Hms, Hseq in Hlt. lia. }
      split; [done|]. unfold newer_count, newer_rows. cbn. rewrite Hm, filter_app, length_app. lia.
    + intros m2 _ Hin. cbn. rewrite elem_of_app. by left.
    + intros row Hrow. apply Hkeep. intros Hx. eapply Hch; [exact Hx|]. cbn.
      by apply list_elem_of_fmap_2.
    + rewrite !unreferenced_Forall. intros Hun row Hrow Href.
      destruct (referenced_save _ _ _ _ _ _ _ Hok Hm Hlen Href) as [Hx|Hx]; [by apply (Hun row)|].
      by apply (Hch row.1); [|apply list_elem_of_fmap_2].
Qed.

(** ** The commit of [prune] *)

Lemma prune_commit_without p db :
  prune_commit p db = without (pr_manifests p) (pr_chunks p).*1 db.
Proof. done. Qed.

Lemma frame_prune clock nextval db p t :
  pruner_ok clock db p → pr_stage p = PruneDone →
  compatible (Pruning p) t → tx_ok clock nextval db t → tx_ok clock nextval (prune_commit p db) t.
Proof.
  intros Hok Hdone [Hch _ Hma _] Ht. rewrite prune_commit_without.
  assert (pr_targets p = pr_manifests p) as Htg
    by (unfold pr_targets, pr_rows; by rewrite Hdone, app_nil_r).
  assert (∀ h, h ∉ (pr_chunks p).*1 →
    ckpt_chunks (without (pr_manifests p) (pr_chunks p).*1 db) !! h = ckpt_chunks db !! h) as Hkeep
    by (intros h Hn; by rewrite without_lookup, bool_decide_false).
  destruct t as [s2|p2]; cbn [tx_ok] in Ht |- *.
  - apply (saver_frame _ _ db); [done|..].
    + intros h Hh. apply Hkeep. intros Hx. by apply (Hch h).
    + done.
    + intros m2 _ Hn (m & Hid & [Hm _]%without_elem)%list_elem_of_fmap. apply Hn.
      rewrite Hid. by apply list_elem_of_fmap_2.
  - apply (pruner_frame _ db); [done|done|..].
    + intros m [Hm _]%without_elem _. by left.
    + intros m Hm [Hin Hnot]%without_elem. split; [done|].
      destruct (po_pair _ _ _ Ht m Hm) as [Hpair _].
      unfold newer_count, newer_rows. cbn. rewrite list_filter_filter.
      apply Z.eq_le_incl. do 2 f_equal. apply list_filter_ext_elem.
      intros m1 Hm1. split; [|tauto]. intros [Hsp Hlt]. split; [done|].
      intros Hgone. apply Hnot. rewrite <-Htg in Hgone |- *.
      destruct (po_pair _ _ _ Hok m1 Hgone) as [(Hw & Hn & _) _].
      destruct Hsp as (Hw2 & Hn2 & _). eapply (po_down _ _ _ Hok m m1); [done|done| |lia].
      by rewrite <-Hw, <-Hn, Hw2, Hn2.
    + intros m Hm Hin. apply without_elem. split; [done|]. intros Hx. by apply (Hma m).
    + intros row Hrow. apply Hkeep. intros Hx. eapply Hch; [exact Hx|]. by apply list_elem_of_fmap_2.
    + rewrite !unreferenced_Forall. intros Hun row Hrow Href. apply (Hun row Hrow).
      by eapply referenced_prune.
Qed.
End steps.
