(* ===== verification/CheckpointServerRuns.v ===== *)
(** * CheckpointStore: concurrent runs are serial runs

    The steps of a [prune] keep its part of the invariant, every event keeps the whole, and every
    run is matched by the serial run of its commits. *)

From S2P Require Import Prelude Text Json Errors Transaction Driver Slices Checkpoint.
From S2P Require Import CheckpointSave CheckpointSpec CheckpointPrune CheckpointTheorems.
From S2P Require Import CheckpointServer CheckpointServerSpec CheckpointServerInv CheckpointServerSteps.

Local Open Scope Z_scope.

Section runs.
Context `{HSha : !Sha256} `{HText : !TextBinding}.
Implicit Types (g : Server) (s : Saver) (p : Pruner) (db : CkDb).

(** ** The statements of [prune] *)

Lemma pruner_ok_scan clock db p :
  ck_inv db → pruner_ok clock db p → pr_stage p = PruneBegun →
  pruner_ok clock db
    (pr_with p (PruneManifests (doomed_rows (pr_w p) (pr_net p) (pr_retain p) db)) [] []).
Proof.
  intros Hi [Hst Hr Hb He Hp Hd Hc Hh Hn Hch Hcn Hcl Hdone] Hbegun.
  split; try done; cbn; unfold pr_targets; cbn.
  - intros m Hm. apply doomed_rows_elem in Hm as [Hin Hsp]. split; [done|].
    pose proof (seq_below_next m db Hi Hin) as Hlt. destruct Hsp as (<- & <- & _). done.
  - intros m m' Hm' Hm Hsp Hle. by eapply doomed_rows_down.
  - intros m Hm Hin. pose proof (doomed_rows_elem _ _ _ _ _ Hm) as [_ Hsp].
    by apply doomed_rows_count in Hm.
  - by intros m ?%not_elem_of_nil.
  - rewrite doomed_rows_kept. apply NoDup_filter. eapply NoDup_fmap_1, inv_ids, Hi.
  - by intros row ?%not_elem_of_nil.
  - constructor.
Qed.

(** Fewer targets, as long as none of the stored ones is left out. *)
Lemma pruner_ok_targets clock db p stage ms :
  pruner_ok clock db p →
  (∃ rows, stage = PruneManifests rows) →
  (∃ rows, pr_stage p = PruneManifests rows) →
  (∀ m, m ∈ pr_targets (pr_with p stage ms (pr_chunks p)) → m ∈ pr_targets p) →
  (∀ m, m ∈ pr_targets p → m ∈ ckpt_manifests db →
        m ∈ pr_targets (pr_with p stage ms (pr_chunks p))) →
  (∀ m, m ∈ ms → m ∈ ckpt_manifests db) →
  NoDup (pr_targets (pr_with p stage ms (pr_chunks p))) →
  pruner_ok clock db (pr_with p stage ms (pr_chunks p)).
Proof.
  intros [Hst Hr Hb He Hp Hd Hc Hh Hn Hch Hcn Hcl Hdone] [rows ->] Hstage Hsub Hsup Hheld Hnd.
  split; try done; cbn.
  - intros _. by apply He; right.
  - intros m Hm. by apply Hp, Hsub.
  - intros m m' Hm' Hm Hsp Hle. apply Hsup; [|done]. by eapply Hd; [apply Hsub| | |].
  - intros m Hm. by apply Hc, Hsub.
Qed.

Lemma delete_targets (ms rows : list ManifestRow) k m :
  rows !! k = Some m →
  ms ++ rows ≡ₚ (ms ++ [m]) ++ delete k rows.
Proof.
  intros Hk. rewrite <-(assoc_L (++)). cbn. apply Permutation_app_head, delete_Permutation, Hk.
Qed.

Lemma pruner_ok_delete clock db p rows k m :
  pruner_ok clock db p → pr_stage p = PruneManifests rows → rows !! k = Some m →
  pruner_ok clock db
    (pr_with p (PruneManifests (delete k rows))
       (if bool_decide (m ∈ ckpt_manifests db) then pr_manifests p ++ [m] else pr_manifests p)
       (pr_chunks p)).
Proof.
  intros Hok Hstage Hk. pose proof (delete_targets (pr_manifests p) rows k m Hk) as Hperm.
  assert (pr_targets p = pr_manifests p ++ rows) as Htg
    by (unfold pr_targets, pr_rows; by rewrite Hstage).
  apply pruner_ok_targets; [done|by eexists|by eexists| | | |]; rewrite ?Htg;
    unfold pr_targets; cbn; case_bool_decide as Hin.
  - intros m'. by rewrite Hperm.
  - intros m'. rewrite Hperm, <-(assoc_L (++)). set_solver.
  - intros m' Hm' _. by rewrite <-Hperm.
  - intros m' Hm' Hin'. rewrite Hperm, <-(assoc_L (++)) in Hm'. set_solver.
  - intros m' [Hm'| ->%list_elem_of_singleton]%elem_of_app; [|done]. by apply (po_held _ _ _ Hok).
  - apply (po_held _ _ _ Hok).
  - rewrite <-Hperm, <-Htg. apply (po_nodup _ _ _ Hok).
  - pose proof (po_nodup _ _ _ Hok) as Hnd. rewrite Htg, Hperm, <-(assoc_L (++)) in Hnd. cbn in Hnd.
    eapply sublist_NoDup; [exact Hnd|]. apply sublist_app; [done|]. by apply sublist_cons.
Qed.

(** Once step 1 is through the targets are the rows deleted. *)
Lemma pruner_ok_stage clock db p stage cs :
  pruner_ok clock db p → pr_rows p = [] →
  (∀ rows, stage ≠ PruneManifests rows) → stage ≠ PruneBegun →
  (∀ row, row ∈ cs →
    ckpt_chunks db !! row.1 = Some row.2 ∧ ck_created_at row.2 < pr_now p - GRACE_WINDOW) →
  NoDup cs.*1 →
  (∀ hashes, stage = PruneChunks hashes → ∀ h, h ∈ hashes → h ∉ cs.*1) →
  (stage = PruneDone → unreferenced (pr_with p stage (pr_manifests p) cs) db) →
  pruner_ok clock db (pr_with p stage (pr_manifests p) cs).
Proof.
  intros [Hst Hr Hb He Hp Hd Hc Hh Hn Hch Hcn Hcl Hdone] Hrows Hs1 Hs2 Hcs Hnd Hleft Hun.
  assert (pr_targets (pr_with p stage (pr_manifests p) cs) = pr_targets p) as Htg.
  { unfold pr_targets, pr_rows in *. cbn. rewrite Hrows. destruct stage; naive_solver. }
  split; try done.
  - cbn. intros [->|[rows ->]]; [done|]. by destruct (Hs1 rows).
  - intros m. rewrite Htg. apply Hp.
  - intros m m'. rewrite !Htg. by apply Hd.
  - intros m. rewrite Htg. by apply Hc.
  - by rewrite Htg.
Qed.

(** ** Events *)

(** What an event does, besides keeping the invariant. *)
Definition quiet (g g' : Server) : Prop := srv_log g' = srv_log g ∧ srv_db g' = srv_db g.
Definition commits (g g' : Server) : Prop :=
  ∃ c, srv_log g' = srv_log g ++ [c] ∧ serial_op c (srv_db g) (srv_db g').

Variable max_age : Z.

Lemma compatible_others i t t' g :
  srv_inv g → srv_active g !! i = Some t →
  (∀ h, holds_chunk h t' → holds_chunk h t ∨ unlocked (holds_chunk h) i g) →
  (∀ k, holds_counter k t' → holds_counter k t ∨ unlocked (holds_counter k) i g) →
  (∀ m, holds_manifest m t' → holds_manifest m t ∨ unlocked (holds_manifest m) i g) →
  (∀ id, new_id t' = Some id → new_id t = Some id ∨ id = srv_nextval g) →
  ∀ j tj, j ≠ i → srv_active g !! j = Some tj → compatible t' tj.
Proof.
  intros Hg Ht H1 H2 H3 H4 j tj Hne Hj.
  assert (compatible t tj) as Hco by (by eapply (si_compatible _ Hg i j)).
  apply (compatible_mono t); [done| | | |].
  - intros h Hh. destruct (H1 h Hh) as [|Hu]; [by left|right]. by eapply unlocked_lookup.
  - intros k Hk. destruct (H2 k Hk) as [|Hu]; [by left|right]. by eapply unlocked_lookup.
  - intros m Hm. destruct (H3 m Hm) as [|Hu]; [by left|right]. by eapply unlocked_lookup.
  - intros id Hid. destruct (H4 id Hid) as [?| ->]; [by left|right]. intros Hnew.
    destruct tj as [s|p]; [|done]. cbn in Hnew.
    destruct (sv_manifest s) as [m|] eqn:Hm; [|done]. injection Hnew as Hnew.
    destruct (so_manifest _ _ _ _ (si_tx _ Hg j _ Hj) m Hm) as (_ & Hlt & _). lia.
Qed.

Lemma compatible_fresh t' tj :
  (∀ h, ¬ holds_chunk h t') → (∀ k, ¬ holds_counter k t') → (∀ m, ¬ holds_manifest m t') →
  new_id t' = None → compatible t' tj.
Proof. intros H1 H2 H3 H4. split; intros x Hx _; [by eapply H1|by eapply H2|by eapply H3|congruence]. Qed.

Lemma begin_save_inv i rq g g' : srv_inv g → begin_save i rq g = Some g' → srv_inv g' ∧ quiet g g'.
Proof.
  intros Hg H. unfold begin_save in H. enabled H as (_ & _ & H). enabled H as (Hsz & _ & H).
  injection H as <-. split; [|done]. apply srv_inv_with_tx; [done| |].
  - split; cbn; try done. exists []. split; [done|]. intros h. by rewrite lookup_empty.
  - intros j t _ _. apply compatible_fresh; cbn; [|by intros k [Hx _]; destruct Hx|by intros m []|done].
    intros h. rewrite lookup_empty. by intros [].
Qed.

Lemma upsert_step_inv i g g' : srv_inv g → upsert_step i g = Some g' → srv_inv g' ∧ quiet g g'.
Proof.
  intros Hg H. unfold upsert_step in H. enabled H as (s & Hs%saver_at_Some & H).
  destruct (sv_todo s) as [|row todo] eqn:Htodo; [done|]. enabled H as (Hu & _ & H).
  injection H as <-. split; [|done]. pose proof (si_tx _ Hg i _ Hs) as Hok. cbn in Hok.
  apply srv_inv_with_tx; [done|by apply saver_ok_upsert|].
  apply (compatible_others i (Saving s) _ g); [done|done| |by left|by left|by left].
  intros h. cbn. rewrite upserted_eq, lookup_union.
  destruct (decide (h = row.1)) as [->|Hne]; [by right|].
  rewrite lookup_singleton_ne, option_union_left_id by done. by left.
Qed.

Lemma claim_step_inv i g g' : srv_inv g → claim_step i g = Some g' → srv_inv g' ∧ quiet g g'.
Proof.
  intros Hg H. unfold claim_step in H. enabled H as (s & Hs%saver_at_Some & H). cbv zeta in H.
  enabled H as (Htodo & _ & H). enabled H as (Hnone & _ & H). enabled H as (Hu & _ & H).
  destruct (claim_seq _ _ _) as [[seq|] db1] eqn:Hclaim; [|done]. injection H as <-.
  split; [|done]. pose proof (si_tx _ Hg i _ Hs) as Hok. cbn in Hok.
  apply srv_inv_with_tx; [done|by eapply saver_ok_claim|].
  apply (compatible_others i (Saving s) _ g); [done|done|by left| |by left|by left].
  intros k [_ <-]. by right.
Qed.

Lemma manifest_step_inv i g g' : srv_inv g → manifest_step i g = Some g' → srv_inv g' ∧ quiet g g'.
Proof.
  intros Hg H. unfold manifest_step in H. enabled H as (s & Hs%saver_at_Some & H).
  enabled H as (seq & Hseq & H). cbv zeta in H. enabled H as (Hnone & _ & H).
  destruct (insert_manifest _ _ _ _ _ _ _) as [[m|] db1] eqn:Hins; [|done]. injection H as <-.
  split; [|done]. pose proof (si_tx _ Hg i _ Hs) as Hok. cbn in Hok.
  destruct (saver_ok_manifest _ _ _ _ _ _ _ Hok (si_ids _ Hg) Hseq Hnone Hins) as [Hok' Hid].
  apply srv_inv_update; [done|lia|done|].
  apply (compatible_others i (Saving s) _ g); [done|done|by left|by left|by left|].
  intros id. cbn. intros [= <-]. by right.
Qed.

Lemma junction_step_inv i g g' : srv_inv g → junction_step i g = Some g' → srv_inv g' ∧ quiet g g'.
Proof.
  intros Hg H. unfold junction_step in H. enabled H as (s & Hs%saver_at_Some & H).
  enabled H as (m & Hm & H). enabled H as (r & Hr & H).
  destruct (insert_junction_row _ _) as [db1|] eqn:Hins; [|done]. injection H as <-.
  split; [|done]. pose proof (si_tx _ Hg i _ Hs) as Hok. cbn in Hok.
  apply srv_inv_with_tx; [done|by eapply saver_ok_junction|].
  by apply (compatible_others i (Saving s) _ g); [done|done|left..].
Qed.

Lemma commit_save_inv i g g' :
  srv_inv g → commit_save max_age i g = Some g' → srv_inv g' ∧ commits g g'.
Proof.
  intros Hg H. unfold commit_save in H. enabled H as (s & Hs%saver_at_Some & H).
  enabled H as (m & Hm & H). cbv zeta in H. enabled H as (Hlen & _ & H). enabled H as (Hage & _ & H).
  destruct (toSummary _ _ _) as [summary|] eqn:Hsum; [|done]. injection H as <-.
  pose proof (si_tx _ Hg i _ Hs) as Hok. cbn in Hok. pose proof (si_db _ Hg) as Hi.
  destruct (saver_view_saved _ _ _ _ _ Hok Hm Hlen) as (bound & Hsv & Heq & _ & Hview).
  destruct (so_manifest _ _ _ _ Hok m Hm) as (_ & Hlt & _). split.
  - apply srv_inv_commit; [done|rewrite Hview; by eapply saved_inv| |].
    + intros m'. cbn. rewrite Hm.
      intros [Hm'| ->%list_elem_of_singleton]%elem_of_app; [by apply (si_ids _ Hg)|done].
    + intros j t Hne Hj. eapply frame_save; [done..| |by apply (si_tx _ Hg j)].
      by apply (si_compatible _ Hg i j).
  - eexists. split; [done|]. apply serial_save; [apply Hok|].
    pose proof (saver_runs _ _ _ _ m Hi Hok Hm Hlen) as Hrun. cbv zeta in Hrun.
    rewrite Hsum in Hrun. exact Hrun.
Qed.

Lemma begin_prune_inv i w net n g g' :
  srv_inv g → begin_prune i w net n g = Some g' → srv_inv g' ∧ quiet g g'.
Proof.
  intros Hg H. unfold begin_prune in H. enabled H as (_ & _ & H). enabled H as (Hn & _ & H).
  injection H as <-. split; [|done]. apply srv_inv_with_tx; [done| |].
  - split; cbn; unfold pr_targets; cbn; try done; try apply NoDup_nil_2;
      intros *; by rewrite elem_of_nil.
  - intros j t _ _. apply compatible_fresh; cbn; [|by intros k []|by intros m ?%not_elem_of_nil|done].
    by intros h ?%not_elem_of_nil.
Qed.

Lemma scan_manifests_inv i g g' : srv_inv g → scan_manifests i g = Some g' → srv_inv g' ∧ quiet g g'.
Proof.
  intros Hg H. unfold scan_manifests in H. enabled H as (p & Hp%pruner_at_Some & H).
  destruct (pr_stage p) eqn:Hstage; try done. injection H as <-. split; [|done].
  pose proof (si_tx _ Hg i _ Hp) as Hok. cbn in Hok.
  apply srv_inv_with_tx; [done|apply pruner_ok_scan; [apply Hg|done|done]|].
  apply (compatible_others i (Pruning p) _ g); [done|done|..]; cbn; try done.
  - by intros h ?%not_elem_of_nil.
  - by intros m ?%not_elem_of_nil.
Qed.

Lemma delete_manifest_inv i k g g' :
  srv_inv g → delete_manifest i k g = Some g' → srv_inv g' ∧ quiet g g'.
Proof.
  intros Hg H. unfold delete_manifest in H. enabled H as (p & Hp%pruner_at_Some & H).
  destruct (pr_stage p) as [|rows| |] eqn:Hstage; try done. enabled H as (m & Hm & H).
  enabled H as (Hu & _ & H). injection H as <-. split; [|done].
  pose proof (si_tx _ Hg i _ Hp) as Hok. cbn in Hok.
  apply srv_inv_with_tx; [done|by apply pruner_ok_delete|].
  apply (compatible_others i (Pruning p) _ g); [done|done|by left|by left| |by left].
  intros m'. cbn. case_bool_decide; [|by left].
  intros [?| ->%list_elem_of_singleton]%elem_of_app; [by left|by right].
Qed.

Lemma scan_chunks_inv i g g' : srv_inv g → scan_chunks i g = Some g' → srv_inv g' ∧ quiet g g'.
Proof.
  intros Hg H. unfold scan_chunks in H. enabled H as (p & Hp%pruner_at_Some & H).
  destruct (pr_stage p) as [|[|]| |] eqn:Hstage; try done. injection H as <-. split; [|done].
  pose proof (si_tx _ Hg i _ Hp) as Hok. cbn in Hok.
  apply srv_inv_with_tx; [done| |].
  - apply pruner_ok_stage; try done.
    + unfold pr_rows. by rewrite Hstage.
    + by intros row ?%not_elem_of_nil.
    + constructor.
    + intros hashes _ h _. apply not_elem_of_nil.
  - apply (compatible_others i (Pruning p) _ g); [done|done| |by left|by left|by left].
    by intros h ?%not_elem_of_nil.
Qed.

Lemma delete_chunk_inv i h g g' :
  srv_inv g → delete_chunk i h g = Some g' → srv_inv g' ∧ quiet g g'.
Proof.
  intros Hg H. unfold delete_chunk in H. enabled H as (p & Hp%pruner_at_Some & H).
  destruct (pr_stage p) as [| |hashes|] eqn:Hstage; try done. enabled H as (c & Hc & H).
  enabled H as (Hin & _ & H). enabled H as (Hu & _ & H). enabled H as (Hold & _ & H).
  injection H as <-. split; [|done]. pose proof (si_tx _ Hg i _ Hp) as Hok. cbn in Hok.
  pose proof (po_chunks_left _ _ _ Hok hashes Hstage) as Hleft.
  apply srv_inv_with_tx; [done| |].
  - apply pruner_ok_stage; try done.
    + unfold pr_rows. by rewrite Hstage.
    + intros row [Hrow| ->%list_elem_of_singleton]%elem_of_app; [by apply (po_chunks _ _ _ Hok)|done].
    + rewrite fmap_app. apply NoDup_app. split_and!; [apply (po_chunks_nodup _ _ _ Hok)| |apply NoDup_singleton].
      intros h' Hh' ->%list_elem_of_singleton. by apply (Hleft h).
    + intros hashes' [= <-] h'. rewrite fmap_app. specialize (Hleft h'). cbn. set_solver.
  - apply (compatible_others i (Pruning p) _ g); [done|done| |by left|by left|by left].
    intros h'. cbn. rewrite fmap_app.
    intros [?| ->%list_elem_of_singleton]%elem_of_app; [by left|by right].
Qed.

Lemma skip_chunk_inv i h g g' : srv_inv g → skip_chunk i h g = Some g' → srv_inv g' ∧ quiet g g'.
Proof.
  intros Hg H. unfold skip_chunk in H. enabled H as (p & Hp%pruner_at_Some & H).
  destruct (pr_stage p) as [| |hashes|] eqn:Hstage; try done.
  enabled H as (Hin & _ & H). enabled H as (Hu & _ & H).
  injection H as <-. split; [|done]. pose proof (si_tx _ Hg i _ Hp) as Hok. cbn in Hok.
  apply srv_inv_with_tx; [done| |].
  - apply pruner_ok_stage; try done; try apply Hok.
    + unfold pr_rows. by rewrite Hstage.
    + intros hashes' [= <-] h' Hh'. apply (po_chunks_left _ _ _ Hok hashes Hstage). set_solver.
  - by apply (compatible_others i (Pruning p) _ g); [done|done|left..].
Qed.

Lemma check_foreign_key_inv i g g' :
  srv_inv g → check_foreign_key i g = Some g' → srv_inv g' ∧ quiet g g'.
Proof.
  intros Hg H. unfold check_foreign_key in H. enabled H as (p & Hp%pruner_at_Some & H).
  destruct (pr_stage p) as [| |hashes|] eqn:Hstage; try done.
  enabled H as (Hin & _ & H). enabled H as (Hu & _ & H).
  injection H as <-. split; [|done]. pose proof (si_tx _ Hg i _ Hp) as Hok. cbn in Hok.
  apply srv_inv_with_tx; [done| |].
  - apply pruner_ok_stage; try done; try apply Hok. unfold pr_rows. by rewrite Hstage.
  - by apply (compatible_others i (Pruning p) _ g); [done|done|left..].
Qed.

(** A [prune] that gets to its commit deletes only rows its conditions select in the tables it
    commits to. *)
Lemma pruner_serial clock db p res :
  ck_inv db → pruner_ok clock db p → pr_stage p = PruneDone → prune_result p = Ok res →
  serial_op (CPrune (pr_now p) (pr_w p) (pr_net p) (pr_retain p) res) db (prune_commit p db).
Proof.
  intros Hi Hok Hdone Hres. rewrite prune_commit_without.
  assert (pr_targets p = pr_manifests p) as Htg
    by (unfold pr_targets, pr_rows; by rewrite Hdone, app_nil_r).
  unfold prune_result in Hres.
  destruct (map_result _ _) as [seqs|] eqn:Hmap; [|done]. apply map_result_coerce in Hmap as ->.
  injection Hres as <-. apply serial_prune; try done.
  - apply Hok.
  - rewrite <-Htg. apply Hok.
  - apply Forall_forall. intros m Hm. pose proof (po_held _ _ _ Hok m Hm) as Hin.
    rewrite <-Htg in Hm. destruct (po_pair _ _ _ Hok m Hm) as [Hsp _].
    apply doomed_rows_count; [apply Hok|done|done|]. by apply (po_count _ _ _ Hok).
  - apply Hok.
  - apply Forall_forall. intros row Hrow. destruct (po_chunks _ _ _ Hok row Hrow) as [Hc Hold].
    split; [done|]. split; [done|]. pose proof (po_done _ _ _ Hok Hdone) as Hun.
    unfold unreferenced in Hun. rewrite Forall_forall in Hun. by apply Hun.
Qed.

Lemma commit_prune_inv i g g' : srv_inv g → commit_prune i g = Some g' → srv_inv g' ∧ commits g g'.
Proof.
  intros Hg H. unfold commit_prune in H. enabled H as (p & Hp%pruner_at_Some & H).
  destruct (pr_stage p) eqn:Hstage; try done. destruct (prune_result p) as [res|] eqn:Hres; [|done].
  injection H as <-. pose proof (si_tx _ Hg i _ Hp) as Hok. cbn in Hok. pose proof (si_db _ Hg) as Hi.
  pose proof (pruner_serial _ _ _ _ Hi Hok Hstage Hres) as Hser. split.
  - apply srv_inv_commit; [done|by eapply serial_op_inv| |].
    + intros m [Hm _]%without_elem. by apply (si_ids _ Hg).
    + intros j t Hne Hj. eapply frame_prune; [done..| |by apply (si_tx _ Hg j)].
      by apply (si_compatible _ Hg i j).
  - by eexists.
Qed.

Lemma tick_inv dt burnt g g' : srv_inv g → tick dt burnt g = Some g' → srv_inv g' ∧ quiet g g'.
Proof.
  intros [Hdb Hids Htx Hco] H. unfold tick in H. enabled H as (H1 & _ & H). enabled H as (H2 & _ & H).
  injection H as <-. split; [|done]. split; cbn; [done| | |done].
  - intros m Hm. specialize (Hids m Hm). lia.
  - intros i t Ht. eapply tx_ok_later; [| |by apply (Htx i)]; lia.
Qed.

(** ** Every event *)

Lemma step_inv ev g g' :
  srv_inv g → step max_age ev g = Some g' → srv_inv g' ∧ (quiet g g' ∨ commits g g').
Proof.
  intros Hg H. destruct ev; cbn [step] in H;
    try (injection H as <-; split; [by apply srv_inv_rollback|by left; split]);
    match type of H with
    | commit_save _ _ _ = _ => apply commit_save_inv in H as []
    | commit_prune _ _ = _ => apply commit_prune_inv in H as []
    | tick _ _ _ = _ => apply tick_inv in H as []
    | begin_save _ _ _ = _ => apply begin_save_inv in H as []
    | upsert_step _ _ = _ => apply upsert_step_inv in H as []
    | claim_step _ _ = _ => apply claim_step_inv in H as []
    | manifest_step _ _ = _ => apply manifest_step_inv in H as []
    | junction_step _ _ = _ => apply junction_step_inv in H as []
    | begin_prune _ _ _ _ _ = _ => apply begin_prune_inv in H as []
    | scan_manifests _ _ = _ => apply scan_manifests_inv in H as []
    | delete_manifest _ _ _ = _ => apply delete_manifest_inv in H as []
    | scan_chunks _ _ = _ => apply scan_chunks_inv in H as []
    | delete_chunk _ _ _ = _ => apply delete_chunk_inv in H as []
    | skip_chunk _ _ _ = _ => apply skip_chunk_inv in H as []
    | check_foreign_key _ _ = _ => apply check_foreign_key_inv in H as []
    end; auto.
Qed.

Lemma run_serial evs g g' :
  srv_inv g → run max_age evs g = Some g' →
  srv_inv g' ∧ ∃ log, srv_log g' = srv_log g ++ log ∧
    ∀ db0 log0, serial_run db0 log0 (srv_db g) → serial_run db0 (log0 ++ log) (srv_db g').
Proof.
  revert g. induction evs as [|ev evs IH]; intros g Hg; cbn [run].
  - intros [= <-]. split; [done|]. exists []. rewrite app_nil_r. split; [done|].
    intros db0 log0. by rewrite app_nil_r.
  - intros H. enabled H as (g1 & Hstep & Hrun).
    destruct (step_inv _ _ _ Hg Hstep) as [Hg1 Hcase].
    destruct (IH g1 Hg1 Hrun) as [Hg' (log & Hlog & Hser)]. split; [done|].
    destruct Hcase as [[Hl Hdb]|(c & Hl & Hop)].
    + exists log. rewrite Hlog, Hl. split; [done|]. intros db0 log0 H0. apply Hser. by rewrite Hdb.
    + exists (c :: log). rewrite Hlog, Hl, <-(assoc_L (++)). split; [done|]. intros db0 log0 H0.
      rewrite (cons_middle c log0 log), (assoc_L (++)). apply Hser. by eapply serial_snoc.
Qed.
End runs.
