(* ===== verification/CheckpointServerTheorems.v ===== *)
(** * CheckpointStore: what holds however [save] and [prune] interleave

    Every run serialises in commit order, sequence numbers have no gaps, checkpoints do not change,
    and the fifteen-minute window keeps the two out of each other's way. *)

From S2P Require Import Prelude Text Json Errors Transaction Driver Slices Checkpoint.
From S2P Require Import CheckpointSave CheckpointSpec CheckpointPrune CheckpointTheorems.
From S2P Require Import CheckpointServer CheckpointServerSpec CheckpointServerInv CheckpointServerSteps.
From S2P Require Import CheckpointServerRuns.

Local Open Scope Z_scope.

Section theorems.
Context `{HSha : !Sha256} `{HText : !TextBinding}.
Implicit Types (g : Server) (s : Saver) (p : Pruner) (db : CkDb).

Variable max_age : Z.

(** ** The window *)

(** No chunk a [prune] has deleted, and none it is still to visit and could delete, is referred to. *)
Record pruner_safe (db : CkDb) (p : Pruner) : Prop := {
  ps_deleted : ∀ row, row ∈ pr_chunks p → row.1 ∉ referenced p db;
  ps_left : ∀ hashes h c, pr_stage p = PruneChunks hashes → h ∈ hashes →
              ckpt_chunks db !! h = Some c → h ∈ referenced p db →
              pr_now p - GRACE_WINDOW ≤ ck_created_at c;
}.

Definition window_inv (g : Server) : Prop :=
  ∀ i p, srv_active g !! i = Some (Pruning p) → pruner_safe (srv_db g) p.

Lemma window_inv_with_tx i t g :
  window_inv g → (∀ p, t = Pruning p → pruner_safe (srv_db g) p) → window_inv (with_tx i t g).
Proof.
  intros Hw Ht j p. cbn. intros [[<- ->]|[_ Hj]]%lookup_insert_Some; [by apply Ht|]. by apply (Hw j).
Qed.

Lemma window_inv_saving i s g : window_inv g → window_inv (with_tx i (Saving s) g).
Proof. intros Hw. apply window_inv_with_tx; [done|]. by intros p. Qed.

Lemma window_inv_commit_save i g g' :
  max_age ≤ GRACE_WINDOW → srv_inv g → window_inv g → commit_save max_age i g = Some g' →
  window_inv g'.
Proof.
  intros Hmax Hg Hw H. unfold commit_save in H. enabled H as (s & Hs%saver_at_Some & H).
  enabled H as (m & Hm & H). cbv zeta in H. enabled H as (Hlen & _ & H). enabled H as (Hage & _ & H).
  destruct (toSummary _ _ _) as [summary|]; [|done]. injection H as <-.
  pose proof (si_tx _ Hg i _ Hs) as Hok. cbn in Hok.
  intros j p. cbn. intros [Hne Hj]%lookup_delete_Some. destruct (Hw j p Hj) as [Hdel Hleft].
  pose proof (si_compatible _ Hg i j _ _ Hne Hs Hj) as Hco.
  pose proof (po_start _ _ _ (si_tx _ Hg j _ Hj)) as Hstart.
  split.
  - intros row Hrow Href.
    destruct (referenced_save _ _ _ _ _ _ _ Hok Hm Hlen Href) as [Hx|Hx]; [by eapply Hdel|].
    eapply (co_chunk _ _ Hco); [exact Hx|]. cbn. by apply list_elem_of_fmap_2.
  - intros hashes h c Hstage Hh Hc Href. cbn in Hc. rewrite lookup_union in Hc.
    destruct (sv_chunks s !! h) as [c'|] eqn:Hwr.
    + destruct (so_rows _ _ _ _ Hok) as (don & _ & Hch). rewrite Hch in Hwr. unfold written in Hwr.
      destruct (list_to_map don !! h); [|done]. injection Hwr as <-.
      assert (c = {| ck_data := ck_data c; ck_created_at := sv_now s |}) as ->
        by (destruct (ckpt_chunks (srv_db g) !! h); by injection Hc as <-).
      cbn. lia.
    + rewrite option_union_left_id in Hc.
      destruct (referenced_save _ _ _ _ _ _ _ Hok Hm Hlen Href) as [Hx|[? Hx]]; [|congruence].
      by eapply Hleft.
Qed.

Lemma window_inv_commit_prune i g g' :
  srv_inv g → window_inv g → commit_prune i g = Some g' → window_inv g'.
Proof.
  intros Hg Hw H. unfold commit_prune in H. enabled H as (p & Hp%pruner_at_Some & H).
  destruct (pr_stage p); try done. destruct (prune_result p) as [res|]; [|done]. injection H as <-.
  intros j p2. cbn. intros [Hne Hj]%lookup_delete_Some. destruct (Hw j p2 Hj) as [Hdel Hleft].
  pose proof (si_compatible _ Hg i j _ _ Hne Hp Hj) as Hco.
  assert (∀ h, h ∈ referenced p2 (prune_commit p (srv_db g)) → h ∈ referenced p2 (srv_db g)) as Href
    by (intros h; apply referenced_prune, (co_manifest _ _ Hco)).
  split.
  - intros row Hrow Hx%Href. by eapply Hdel.
  - intros hashes h c Hstage Hh Hc Hx%Href. rewrite prune_commit_without, without_lookup in Hc.
    case_bool_decide; [done|]. by eapply Hleft.
Qed.

Lemma window_inv_step ev g g' :
  max_age ≤ GRACE_WINDOW → srv_inv g → window_inv g → step max_age ev g = Some g' → window_inv g'.
Proof.
  intros Hmax Hg Hw H. destruct ev; cbn [step] in H.
  - unfold tick in H. enabled H as (_ & _ & H). enabled H as (_ & _ & H). by injection H as <-.
  - injection H as <-. intros j p. cbn. intros [_ Hj]%lookup_delete_Some. by apply (Hw j).
  - unfold begin_save in H. enabled H as (_ & _ & H). enabled H as (_ & _ & H). injection H as <-.
    by apply window_inv_saving.
  - unfold upsert_step in H. enabled H as (s & _ & H). destruct (sv_todo s); [done|].
    enabled H as (_ & _ & H). injection H as <-. by apply window_inv_saving.
  - unfold claim_step in H. enabled H as (s & _ & H). cbv zeta in H. enabled H as (_ & _ & H).
    enabled H as (_ & _ & H). enabled H as (_ & _ & H).
    destruct (claim_seq _ _ _) as [[|] ?]; [|done]. injection H as <-. by apply window_inv_saving.
  - unfold manifest_step in H. enabled H as (s & _ & H). enabled H as (seq & _ & H). cbv zeta in H.
    enabled H as (_ & _ & H). destruct (insert_manifest _ _ _ _ _ _ _) as [[|] ?]; [|done].
    injection H as <-. intros j p. cbn. intros [[_ ?]|[_ Hj]]%lookup_insert_Some; [done|].
    by apply (Hw j).
  - unfold junction_step in H. enabled H as (s & _ & H). enabled H as (m & _ & H).
    enabled H as (r & _ & H). destruct (insert_junction_row _ _); [|done]. injection H as <-.
    by apply window_inv_saving.
  - by eapply window_inv_commit_save.
  - unfold begin_prune in H. enabled H as (_ & _ & H). enabled H as (_ & _ & H). injection H as <-.
    apply window_inv_with_tx; [done|]. intros p [= <-]. split; [|done]. by intros row ?%not_elem_of_nil.
  - unfold scan_manifests in H. enabled H as (p & _ & H). destruct (pr_stage p); try done.
    injection H as <-. apply window_inv_with_tx; [done|]. intros p' [= <-]. split; [|done].
    by intros row ?%not_elem_of_nil.
  - unfold delete_manifest in H. enabled H as (p & Hp%pruner_at_Some & H).
    destruct (pr_stage p) as [|rows| |] eqn:Hstage; try done.
    enabled H as (m & _ & H). enabled H as (_ & _ & H). injection H as <-.
    apply window_inv_with_tx; [done|]. intros p' [= <-]. split; [|done]. cbn.
    rewrite (po_early _ _ _ (si_tx _ Hg _ _ Hp)) by (right; by eexists).
    by intros row ?%not_elem_of_nil.
  - unfold scan_chunks in H. enabled H as (p & _ & H). destruct (pr_stage p) as [|[|]| |]; try done.
    injection H as <-. apply window_inv_with_tx; [done|]. intros p' [= <-]. split.
    + by intros row ?%not_elem_of_nil.
    + cbn. intros hashes h c [= <-] Hh Hc Href. exfalso.
      apply elem_of_dom in Hh as [c' Hc']. apply map_lookup_filter_Some in Hc' as [_ [_ Hn]].
      by apply Hn.
  - unfold delete_chunk in H. enabled H as (p & Hp%pruner_at_Some & H).
    destruct (pr_stage p) as [| |hashes|] eqn:Hstage; try done. enabled H as (c & Hc & H).
    enabled H as (Hin & _ & H). enabled H as (_ & _ & H). enabled H as (Hold & _ & H).
    injection H as <-. destruct (Hw _ _ Hp) as [Hdel Hleft].
    apply window_inv_with_tx; [done|]. intros p' [= <-]. split; cbn.
    + intros row [Hrow| ->%list_elem_of_singleton]%elem_of_app Href; [by eapply Hdel|].
      specialize (Hleft hashes h c Hstage Hin Hc Href). lia.
    + intros hashes' h' c' [= <-] Hh'. apply (Hleft hashes); [done|set_solver].
  - unfold skip_chunk in H. enabled H as (p & Hp%pruner_at_Some & H).
    destruct (pr_stage p) as [| |hashes|] eqn:Hstage; try done.
    enabled H as (Hin & _ & H). enabled H as (_ & _ & H).
    injection H as <-. destruct (Hw _ _ Hp) as [Hdel Hleft].
    apply window_inv_with_tx; [done|]. intros p' [= <-]. split; cbn; [done|].
    intros hashes' h' c' [= <-] Hh'. apply (Hleft hashes); [done|set_solver].
  - unfold check_foreign_key in H. enabled H as (p & Hp%pruner_at_Some & H).
    destruct (pr_stage p) as [| |hashes|] eqn:Hstage; try done.
    enabled H as (_ & _ & H). enabled H as (_ & _ & H).
    injection H as <-. destruct (Hw _ _ Hp) as [Hdel Hleft].
    apply window_inv_with_tx; [done|]. intros p' [= <-]. by split.
  - by eapply window_inv_commit_prune.
Qed.

Lemma window_inv_run evs g g' :
  max_age ≤ GRACE_WINDOW → srv_inv g → window_inv g → run max_age evs g = Some g' → window_inv g'.
Proof.
  intros Hmax. revert g. induction evs as [|ev evs IH]; intros g Hg Hw; cbn [run]; [by intros [= <-]|].
  intros H. enabled H as (g1 & Hstep & Hrun). destruct (step_inv _ _ _ _ Hg Hstep) as [Hg1 _].
  apply (IH g1 Hg1); [|done]. by apply (window_inv_step ev g).
Qed.

Lemma window_inv_idle clock nextval db : window_inv (idle_server clock nextval db).
Proof. intros i p. cbn. by rewrite lookup_empty. Qed.

(** ** The rows of a [save] go in *)

Lemma next_junction_insertable clock nextval db s m r :
  ck_inv db → saver_ok clock nextval db s → sv_manifest s = Some m → next_junction s m = Some r →
  j_position r ≤ 2147483647 → insertable (save_view s db) r.
Proof.
  intros Hi Hok Hm Hr Hpos. unfold next_junction in Hr.
  destruct (rq_hashes (sv_req s) !! length (sv_junction s)) as [h|] eqn:Hh; [|done].
  injection Hr as <-. split_and!; cbn in *.
  - done.
  - rewrite Hm, fmap_app. set_solver.
  - destruct (saver_holds_hashes _ _ _ _ m h Hok Hm) as [c Hc]; [by eapply list_elem_of_lookup_2|].
    rewrite lookup_union, Hc. destruct (ckpt_chunks db !! h); by eexists.
  - intros r' [Hr'|Hr']%elem_of_app Hid Hp.
    + destruct (so_manifest _ _ _ _ Hok m Hm) as (_ & _ & Hfresh & _). apply Hfresh. rewrite <-Hid.
      pose proof (inv_fk _ Hi) as Hfk. rewrite Forall_forall in Hfk. by apply Hfk.
    + rewrite (so_junction _ _ _ _ Hok m Hm) in Hr'.
      apply list_elem_of_lookup in Hr' as [k Hk]. apply lookup_take_Some in Hk as [Hk Hlt].
      unfold rows_of in Hk. rewrite list_lookup_imap in Hk.
      destruct (rq_hashes (sv_req s) !! k); [|done]. injection Hk as <-. cbn in Hp. lia.
Qed.

Lemma manifest_insertable clock nextval db s seq bound :
  (∀ m, m ∈ ckpt_manifests db → m_id m < nextval) →
  saver_ok clock nextval db s → sv_manifest s = None →
  bind_label (rq_label (sv_req s)) = Ok bound →
  is_ok (insert_manifest (save_ctx s nextval) (rq_w (sv_req s)) (rq_net (sv_req s)) seq
           (sha256 (mjoin (rq_hashes (sv_req s)))) (rq_label (sv_req s)) (save_view s db)).1 = true.
Proof.
  intros Hids Hok Hnone Hb. rewrite (insert_manifest_ok _ _ _ _ _ _ bound); [done|done|].
  cbn. rewrite Hnone, app_nil_r. intros (m & Hid & Hm)%list_elem_of_fmap. specialize (Hids m Hm). lia.
Qed.

(** ** Sequence numbers *)

(** What the committed saves of a pair returned, in commit order. *)
Definition saves_of (w net : jsstr) (log : list Committed) : list CheckpointSummary :=
  omap (λ c, match c with
             | CSave _ rq summary =>
                 if bool_decide (rq_w rq = w ∧ rq_net rq = net) then Some summary else None
             | CPrune _ _ _ _ _ => None
             end) log.

Lemma serial_run_sequences w net db0 log db :
  serial_run db0 log db →
  cs_sequence <$> saves_of w net log =
    (λ k, next_seq w net db0 + Z.of_nat k) <$> seq 0 (length (saves_of w net log)) ∧
  next_seq w net db = next_seq w net db0 + Z.of_nat (length (saves_of w net log)).
Proof.
  intros Hr. induction Hr as [|log db c db' Hr [IH1 IH2] Hop]; [split; [done|cbn; lia]|].
  unfold saves_of in *. rewrite omap_app, length_app, fmap_app.
  destruct Hop as [ctx rq summary db db' Hsz Hrun|now w' net' n ms cs res db _ _ _ _ _ _ _ _];
    cbn [omap list_omap].
  - apply runOnTx_inv in Hrun as (bound & _ & -> & Hsum). apply toSummary_sequence in Hsum.
    case_bool_decide as Hp.
    + destruct Hp as [<- <-]. rewrite IH1. cbn [length fmap list_fmap].
      rewrite seq_app, fmap_app, <-IH1, IH1. cbn. split; [by rewrite Hsum, <-IH2|].
      unfold next_seq at 1. cbn. rewrite lookup_insert_eq. cbn. lia.
    + cbn. rewrite app_nil_r, Nat.add_0_r. split; [done|]. rewrite <-IH2. unfold next_seq at 1. cbn.
      rewrite lookup_insert_ne; [done|]. intros [= H1 H2]. by apply Hp.
  - cbn. by rewrite app_nil_r, Nat.add_0_r.
Qed.

Lemma serial_run_rtc db0 log db : serial_run db0 log db → rtc (λ db db', ∃ c, serial_op c db db') db0 db.
Proof.
  intros Hr. induction Hr as [|log db c db' Hr IH Hop]; [done|]. eapply rtc_r; [done|]. by exists c.
Qed.

(** ** Claims *)

Section claims.
Context (clock nextval : Z) (db0 : CkDb).
Context (db0_inv : ck_inv db0) (db0_ids : ∀ m, m ∈ ckpt_manifests db0 → m_id m < nextval).

Lemma run_from_idle evs g :
  run max_age evs (idle_server clock nextval db0) = Some g →
  srv_inv g ∧ serial_run db0 (srv_log g) (srv_db g).
Proof.
  intros Hrun. destruct (run_serial _ _ _ _ (srv_inv_idle _ _ _ db0_inv db0_ids) Hrun)
    as [Hg (log & Hlog & Hser)].
  split; [done|]. rewrite Hlog. apply (Hser db0 []). apply serial_nil.
Qed.


(** C12. The grace window does its work. As long as no [save] is open for longer than the fifteen
    minutes, no [prune] ever deletes, or gets as far as trying to delete, a chunk that a concurrently
    committed [save] refers to: when its second statement ends, the foreign-key check passes. And
    however long a [save] takes, none of its own rows is refused: neither a chunk it refers to nor
    its manifest row is missing or duplicated when the junction rows go in. *)
Theorem no_constraint_violation evs g i :
  run max_age evs (idle_server clock nextval db0) = Some g →
  (∀ p, max_age ≤ GRACE_WINDOW → srv_active g !! i = Some (Pruning p) → unreferenced p (srv_db g)) ∧
  (∀ s m r, srv_active g !! i = Some (Saving s) → sv_manifest s = Some m → next_junction s m = Some r →
     j_position r ≤ 2147483647 →
     insert_junction_row (save_view s (srv_db g)) r =
       Ok (with_junction (ckpt_manifest_chunks (save_view s (srv_db g)) ++ [r]) (save_view s (srv_db g)))) ∧
  (∀ s seq bound, srv_active g !! i = Some (Saving s) → sv_manifest s = None →
     bind_label (rq_label (sv_req s)) = Ok bound →
     is_ok (insert_manifest (save_ctx s (srv_nextval g)) (rq_w (sv_req s)) (rq_net (sv_req s)) seq
              (sha256 (mjoin (rq_hashes (sv_req s)))) (rq_label (sv_req s))
              (save_view s (srv_db g))).1 = true).
Proof.
  intros Hrun. destruct (run_from_idle _ _ Hrun) as [Hg _]. split_and!.
  - intros p Hmax Hp. apply unreferenced_Forall.
    by apply (window_inv_run _ _ _ Hmax (srv_inv_idle _ _ _ db0_inv db0_ids)
                (window_inv_idle _ _ _) Hrun i p).
  - intros s m r Hs Hm Hr Hpos. apply insert_junction_row_total.
    eapply next_junction_insertable; [apply Hg|apply (si_tx _ Hg i _ Hs)|done..].
  - intros s seq bound Hs Hm Hb.
    by eapply manifest_insertable; [apply (si_ids _ Hg)|apply (si_tx _ Hg i _ Hs)|..].
Qed.

(** C17. Sequence numbers have no gaps and no repeats under concurrency. In any run, the sequence
    numbers returned by the committed saves of a wallet and network, in commit order, count up by one
    from the number the store was at: a [save] that rolls back gives its number back. *)
Theorem sequences_gapless w net evs g :
  run max_age evs (idle_server clock nextval db0) = Some g →
  cs_sequence <$> saves_of w net (srv_log g) =
    (λ k, next_seq w net db0 + Z.of_nat k) <$> seq 0 (length (saves_of w net (srv_log g))).
Proof. intros [_ Hser]%run_from_idle. by destruct (serial_run_sequences w net _ _ _ Hser). Qed.

(** C13. A checkpoint never changes while it exists (Law C2a), also under concurrency. Between any two
    moments of a run, however saves and prunes of any wallets interleave in between, a checkpoint
    that is stored at both loads exactly the same at both: none of its chunks was collected or
    overwritten; and [load] succeeds on it for every sequence number in the safe integers. *)
Theorem checkpoints_immutable_concurrent evs g evs' g' m :
  run max_age evs (idle_server clock nextval db0) = Some g → run max_age evs' g = Some g' →
  m ∈ ckpt_manifests (srv_db g) → m ∈ ckpt_manifests (srv_db g') →
  load_manifest m (srv_db g') = load_manifest m (srv_db g) ∧
  (m_seq m ≤ MAX_SAFE_INTEGER → ∃ r, load_manifest m (srv_db g') = Ok r).
Proof.
  intros [Hg _]%run_from_idle Hrun Hm Hm'.
  destruct (run_serial _ _ _ _ Hg Hrun) as [Hg' (log & _ & Hser)].
  specialize (Hser (srv_db g) [] (serial_nil _)). apply serial_run_rtc in Hser.
  split; [|intros Hle; by apply stored_loads; [apply Hg'|..]].
  eapply ck_steps_load; [|apply Hg|exact Hser|done|done].
  intros db db' Hi [c Hop]. by eapply serial_op_effect.
Qed.
End claims.
End theorems.
