(* ===== verification/CheckpointServerSolo.v ===== *)
(** * CheckpointStore: the operations on their own are runs

    The model of concurrent execution has every outcome of the sequential one: a [save] or a [prune]
    that nothing disturbs is never blocked, and leaves what [runOnTx] or [prune_run] leaves. *)

From S2P Require Import Prelude Text Json Errors Transaction Driver Slices Checkpoint.
From S2P Require Import CheckpointSave CheckpointSpec CheckpointPrune CheckpointTheorems.
From S2P Require Import CheckpointServer CheckpointServerSpec CheckpointServerInv CheckpointServerSteps.
From S2P Require Import CheckpointServerRuns CheckpointServerTheorems.

Local Open Scope Z_scope.

Section solo.
Context `{HSha : !Sha256} `{HText : !TextBinding}.
Implicit Types (g : Server) (s : Saver) (p : Pruner) (db : CkDb).

Variable max_age : Z.

(** A server with one open transaction. *)
Definition solo (clock nextval : Z) (db : CkDb) (t : Tx) : Server :=
  {| srv_clock := clock; srv_nextval := nextval; srv_db := db; srv_active := {[0%nat := t]};
     srv_log := [] |}.

Lemma solo_with_tx clock nextval db t t' :
  with_tx 0 t' (solo clock nextval db t) = solo clock nextval db t'.
Proof. unfold with_tx, solo. cbn. by rewrite insert_singleton_eq. Qed.

Lemma solo_unlocked holds `{∀ t, Decision (holds t)} clock nextval db t :
  unlocked holds 0 (solo clock nextval db t).
Proof. intros j t'. cbn. intros Hj. left. by apply lookup_singleton_Some in Hj as [<- _]. Qed.

Lemma run_app evs1 evs2 g : run max_age (evs1 ++ evs2) g = run max_age evs1 g ≫= run max_age evs2.
Proof.
  revert g. induction evs1 as [|ev evs1 IH]; intros g; [done|].
  cbn [app run]. destruct (step max_age ev g); [apply IH|done].
Qed.

Lemma run_app_Some evs1 evs2 g g1 :
  run max_age evs1 g = Some g1 → run max_age (evs1 ++ evs2) g = run max_age evs2 g1.
Proof. intros H. by rewrite run_app, H. Qed.

Lemma run_step_cons ev evs g g1 : step max_age ev g = Some g1 → run max_age (ev :: evs) g = run max_age evs g1.
Proof. intros H. cbn [run]. by rewrite H. Qed.

(** ** [save] *)






(** ** [prune] *)

Lemma solo_delete_manifests clock nextval db p rows :
  pr_stage p = PruneManifests rows → (∀ m, m ∈ rows → m ∈ ckpt_manifests db) →
  run max_age (replicate (length rows) (DeleteManifest 0 0)) (solo clock nextval db (Pruning p)) =
    Some (solo clock nextval db (Pruning
      (pr_with p (PruneManifests []) (pr_manifests p ++ rows) (pr_chunks p)))).
Proof.
  revert p. induction rows as [|m rows IH]; intros p Hstage Hin.
  - cbn. rewrite app_nil_r. destruct p. cbn in *. by subst.
  - cbn [replicate length]. set (p1 := pr_with p (PruneManifests rows) (pr_manifests p ++ [m]) (pr_chunks p)).
    erewrite (run_step_cons _ _ _ (solo clock nextval db (Pruning p1))).
    + rewrite (IH p1); [|done|set_solver]. unfold p1, pr_with. cbn. by rewrite <-(assoc_L (++)).
    + cbn [step]. unfold delete_manifest. change (pruner_at 0 _) with (Some p). cbn [mbind option_bind].
      rewrite Hstage. cbn [mbind option_bind lookup list_lookup].
      rewrite option_guard_True by apply solo_unlocked. cbn [srv_db solo].
      rewrite bool_decide_true by set_solver. by rewrite solo_with_tx.
Qed.

Lemma solo_delete_chunks clock nextval db p hashes (rows : list (bytes * ChunkRow)) :
  pr_stage p = PruneChunks hashes → hashes = list_to_set rows.*1 → NoDup rows.*1 →
  (∀ row, row ∈ rows → ckpt_chunks db !! row.1 = Some row.2 ∧
                       ck_created_at row.2 < pr_now p - GRACE_WINDOW) →
  run max_age (DeleteChunk 0 <$> rows.*1) (solo clock nextval db (Pruning p)) =
    Some (solo clock nextval db (Pruning
      (pr_with p (PruneChunks ∅) (pr_manifests p) (pr_chunks p ++ rows)))).
Proof.
  revert p hashes. induction rows as [|[h c] rows IH]; intros p hashes Hstage Hh Hnd Hrows.
  - cbn. rewrite app_nil_r. destruct p. cbn in *. by subst.
  - cbn [fmap list_fmap fst] in *. apply NoDup_cons in Hnd as [Hnin Hnd].
    destruct (Hrows (h, c)) as [Hc Hold]; [by left|]. cbn in Hc, Hold.
    set (p1 := pr_with p (PruneChunks (hashes ∖ {[h]})) (pr_manifests p) (pr_chunks p ++ [(h, c)])).
    erewrite (run_step_cons _ _ _ (solo clock nextval db (Pruning p1))).
    + etransitivity; [apply (IH p1 (hashes ∖ {[h]})); [done| |done|]|].
      * subst hashes. cbn. set_solver.
      * intros row Hrow. apply Hrows. by right.
      * unfold p1, pr_with. cbn. by rewrite <-(assoc_L (++)).
    + cbn [step]. unfold delete_chunk. change (pruner_at 0 _) with (Some p). cbn [mbind option_bind].
      rewrite Hstage. cbn [srv_db solo]. rewrite Hc. cbn [mbind option_bind].
      rewrite option_guard_True by (subst hashes; cbn; set_solver).
      rewrite option_guard_True by apply solo_unlocked.
      rewrite option_guard_True by done. by rewrite solo_with_tx.
Qed.

(** Nor does [prune]: run alone, it visits every row its two statements select, passes its
    foreign-key check, and commits the tables and the result that [prune_run] gives in one piece. *)
Theorem solo_prune_completes clock nextval db w net n res db' :
  1 ≤ n →
  prune_run {| ck_now := clock; ck_nextval := nextval |} w net n db = (Ok res, db') →
  ∃ evs, run max_age evs (idle_server clock nextval db) =
    Some {| srv_clock := clock; srv_nextval := nextval; srv_db := db'; srv_active := ∅;
            srv_log := [CPrune clock w net n res] |}.
Proof.
  intros Hn Hrun. destruct (prune_run_rows _ _ _ _ _ _ _ Hrun) as (-> & Hseqs & _ & Hcount & Hbytes).
  cbn [ck_now] in *. set (ms := doomed_rows w net n db) in *.
  set (found := reclaimable_rows clock ms db) in *. set (cs := map_to_list found) in *.
  set (p := {| pr_w := w; pr_net := net; pr_retain := n; pr_now := clock; pr_stage := PruneBegun;
               pr_manifests := []; pr_chunks := [] |}).
  exists ([BeginPrune 0 w net n; ScanManifests 0] ++ replicate (length ms) (DeleteManifest 0 0) ++
          [ScanChunks 0] ++ (DeleteChunk 0 <$> cs.*1) ++ [CheckForeignKey 0; CommitPrune 0]).
  assert (run max_age [BeginPrune 0 w net n; ScanManifests 0] (idle_server clock nextval db) =
    Some (solo clock nextval db (Pruning (pr_with p (PruneManifests ms) [] [])))) as Hr1.
  { cbn [run step]. unfold begin_prune. rewrite !option_guard_True by done.
    cbn [mbind option_bind]. change (with_tx 0 _ _) with (solo clock nextval db (Pruning p)).
    unfold scan_manifests. change (pruner_at 0 _) with (Some p).
    cbn [mbind option_bind pr_stage p]. by rewrite solo_with_tx. }
  rewrite (run_app_Some _ _ _ _ Hr1).
  assert (∀ m, m ∈ ms → m ∈ ckpt_manifests db) as Hms by (by intros m [? _]%doomed_rows_elem).
  erewrite run_app_Some by (by apply solo_delete_manifests).
  set (p2 := pr_with p (PruneManifests []) ms []).
  change (pr_with (pr_with p (PruneManifests ms) [] []) _ _ _) with p2.
  set (p3 := pr_with p (PruneChunks (dom found)) ms []).
  assert (run max_age [ScanChunks 0] (solo clock nextval db (Pruning p2)) =
    Some (solo clock nextval db (Pruning p3))) as Hr2.
  { cbn [run step]. unfold scan_chunks. change (pruner_at 0 _) with (Some p2).
    cbn [mbind option_bind pr_stage p2 pr_with]. by rewrite solo_with_tx. }
  rewrite (run_app_Some _ _ _ _ Hr2).
  assert (∀ row, row ∈ cs → ckpt_chunks db !! row.1 = Some row.2 ∧
    reclaimable clock (keep_manifests (λ m, m ∉ ms) db) row) as Hcs.
  { intros [h c] Hin%elem_of_map_to_list. by apply map_lookup_filter_Some in Hin. }
  erewrite run_app_Some.
  2:{ apply (solo_delete_chunks clock nextval db p3 (dom found) cs); [done| | |].
      - apply set_eq. intros h. rewrite elem_of_dom, elem_of_list_to_set, list_elem_of_fmap. split.
        + intros [c Hc]. exists (h, c). split; [done|]. by apply elem_of_map_to_list.
        + intros ([h' c] & -> & Hc%elem_of_map_to_list). by exists c.
      - apply NoDup_fst_map_to_list.
      - intros row Hrow. destruct (Hcs row Hrow) as [? [? _]]. by split. }
  set (p4 := pr_with p (PruneChunks ∅) ms cs). change (pr_with p3 _ _ _) with p4.
  set (p5 := pr_with p PruneDone ms cs).
  rewrite (run_step_cons _ _ _ (solo clock nextval db (Pruning p5))).
  2:{ cbn [step]. unfold check_foreign_key. change (pruner_at 0 _) with (Some p4).
      cbn [mbind option_bind pr_stage p4 pr_with]. rewrite option_guard_True by done.
      rewrite option_guard_True; [by rewrite solo_with_tx|]. apply unreferenced_Forall.
      intros row Hrow. destruct (Hcs row Hrow) as [_ [_ Hr]]. exact Hr. }
  cbn [run step]. unfold commit_prune. change (pruner_at 0 _) with (Some p5).
  cbn [mbind option_bind pr_stage p5 pr_with].
  assert (prune_result p5 = Ok res) as ->.
  { unfold prune_result. cbn [pr_manifests pr_chunks p5 pr_with]. rewrite Hseqs. cbn.
    rewrite <-Hcount, <-Hbytes. by destruct res. }
  unfold commit_tx. cbn. by rewrite delete_singleton_eq.
Qed.
End solo.
