(* ===== verification/CheckpointServerDemo.v ===== *)
(** * CheckpointStore: concrete runs

    A run in which a [save] refers again to an old chunk while a [prune] is about to collect it, used
    as the witness of the claims; and two runs that show what the model does not rule out: a [save]
    older than the grace window makes a [prune] fail its foreign-key check, and two saves that
    upsert the same chunks in opposite orders wait for each other. *)

From S2P Require Import Prelude Text Json Errors Transaction Driver Slices Checkpoint.
From S2P Require Import CheckpointSave CheckpointSpec CheckpointPrune CheckpointTheorems.
From S2P Require Import CheckpointServer CheckpointServerSpec CheckpointServerInv CheckpointServerSteps.
From S2P Require Import CheckpointServerRuns CheckpointServerTheorems CheckpointServerSolo.

Local Open Scope Z_scope.

Module ServerDemo.
Import CheckpointTheorems.Demo.

Definition request (d : bytes) : SaveReq :=
  {| rq_w := wallet; rq_net := net; rq_data := d; rq_size := 1; rq_label := None |}.

Definition save_alone (i : nat) (d : bytes) : list event :=
  [BeginSave i (request d)] ++ replicate (length d) (UpsertChunk i) ++
  [ClaimSeq i; InsertManifest i] ++ replicate (length d) (InsertJunction i) ++ [CommitSave i].

Definition start : Server := idle_server 1000 1 ck_empty.

(** Two checkpoints; two hours later a [prune] keeps one, and a new [save] writes the old bytes
    again between the [prune]'s snapshot and its visit of the chunk. *)
Definition before_race : list event :=
  save_alone 0 [Byte.x01] ++ save_alone 1 [Byte.x02] ++
  [Tick (8 * GRACE_WINDOW) 0; BeginPrune 5 wallet net 1; ScanManifests 5; DeleteManifest 5 0;
   BeginSave 6 (request [Byte.x01]); ScanChunks 5; UpsertChunk 6; ClaimSeq 6; InsertManifest 6].

Definition after_race : list event :=
  [InsertJunction 6; CommitSave 6; SkipChunk 5 [Byte.x01]; CheckForeignKey 5; CommitPrune 5].

Definition get (g : option Server) : Server := default start g.
Definition middle : Server := get (run GRACE_WINDOW before_race start).
Definition final : Server := get (run GRACE_WINDOW after_race middle).

Lemma run_middle : run GRACE_WINDOW before_race start = Some middle.
Proof. vm_compute. reflexivity. Qed.
Lemma run_final : run GRACE_WINDOW after_race middle = Some final.
Proof. vm_compute. reflexivity. Qed.

(** While the [save] has the chunk locked, the [prune] can neither delete it nor pass it over, and
    once it has committed the refreshed time protects the chunk. *)
Example race_waits :
  step GRACE_WINDOW (DeleteChunk 5 [Byte.x01]) middle = None ∧
  step GRACE_WINDOW (SkipChunk 5 [Byte.x01]) middle = None ∧
  (g ← run GRACE_WINDOW [InsertJunction 6; CommitSave 6] middle;
   step GRACE_WINDOW (DeleteChunk 5 [Byte.x01]) g) = None.
Proof. vm_compute. auto. Qed.

Lemma start_ids : ∀ m, m ∈ ckpt_manifests ck_empty → m_id m < 1.
Proof. by intros m ?%not_elem_of_nil. Qed.

(** The second checkpoint, which the run keeps. *)
Definition second : ManifestRow :=
  {| m_id := 2; m_w := wallet; m_net := net; m_seq := 2; m_complete := true;
     m_manifest_hash := [Byte.x02]; m_label := None; m_created_at := 1000 |}.

Lemma second_middle : second ∈ ckpt_manifests (srv_db middle).
Proof. vm_compute. right. left. Qed.
Lemma second_final : second ∈ ckpt_manifests (srv_db final).
Proof. vm_compute. left. Qed.


Definition racing_saver : Saver :=
  {| sv_req := request [Byte.x01]; sv_now := 1000 + 8 * GRACE_WINDOW; sv_todo := [];
     sv_chunks := {[ [Byte.x01] := {| ck_data := [Byte.x01]; ck_created_at := 1000 + 8 * GRACE_WINDOW |} ]};
     sv_seq := Some 3;
     sv_manifest := Some {| m_id := 3; m_w := wallet; m_net := net; m_seq := 3; m_complete := true;
                            m_manifest_hash := [Byte.x01]; m_label := None;
                            m_created_at := 1000 + 8 * GRACE_WINDOW |};
     sv_junction := [] |}.

Definition racing_pruner : Pruner :=
  {| pr_w := wallet; pr_net := net; pr_retain := 1; pr_now := 1000 + 8 * GRACE_WINDOW;
     pr_stage := PruneChunks {[ [Byte.x01] ]};
     pr_manifests := [ {| m_id := 1; m_w := wallet; m_net := net; m_seq := 1; m_complete := true;
                          m_manifest_hash := [Byte.x01]; m_label := None; m_created_at := 1000 |} ];
     pr_chunks := [] |}.

Lemma no_constraint_violation_witness :
  srv_active middle !! 5%nat = Some (Pruning racing_pruner) ∧ unreferenced racing_pruner (srv_db middle).
Proof.
  split; [vm_compute; reflexivity|].
  apply (no_constraint_violation GRACE_WINDOW 1000 1 ck_empty ck_inv_empty start_ids before_race middle
           5%nat run_middle); [lia|vm_compute; reflexivity].
Defined.

Lemma sequences_gapless_witness :
  cs_sequence <$> saves_of wallet net (srv_log middle) = [1; 2] ∧
  cs_sequence <$> saves_of wallet net (srv_log middle) =
    (λ k, next_seq wallet net ck_empty + Z.of_nat k) <$> seq 0 (length (saves_of wallet net (srv_log middle))).
Proof.
  split; [vm_compute; reflexivity|].
  exact (sequences_gapless GRACE_WINDOW 1000 1 ck_empty ck_inv_empty start_ids wallet net before_race
           middle run_middle).
Defined.

Lemma checkpoints_immutable_concurrent_witness :
  load_manifest second (srv_db final) = load_manifest second (srv_db middle).
Proof.
  apply (checkpoints_immutable_concurrent GRACE_WINDOW 1000 1 ck_empty ck_inv_empty start_ids
           before_race middle after_race final second run_middle run_final second_middle second_final).
Defined.

(** ** What is not ruled out *)

Definition stuck_prune : list event :=
  save_alone 0 [Byte.x01] ++ save_alone 1 [Byte.x02] ++
  [Tick (8 * GRACE_WINDOW) 0; BeginSave 6 (request [Byte.x01]); UpsertChunk 6; ClaimSeq 6;
   InsertManifest 6; InsertJunction 6; Tick (GRACE_WINDOW + 1) 0; BeginPrune 5 wallet net 1;
   ScanManifests 5; DeleteManifest 5 0; ScanChunks 5; CommitSave 6;
   DeleteChunk 5 [Byte.x01]].

(** Were a [save] allowed to stay open for longer than the window, its refreshed time would be too old
    to protect the chunk: the [prune] would delete it and be refused at its foreign-key check. *)
Example window_is_needed : ∃ g,
  run (2 * GRACE_WINDOW) stuck_prune start = Some g ∧
  step (2 * GRACE_WINDOW) (CheckForeignKey 5) g = None ∧
  (p ← pruner_at 5 g; guard (¬ unreferenced p (srv_db g));; Some tt) = Some tt.
Proof. eexists. split; [vm_compute; reflexivity|]. vm_compute. auto. Qed.

(** Rows are upserted in payload order: two saves of the same bytes in another order each wait for
    the chunk the other holds, until the server rolls one of them back. *)
Example opposite_orders_deadlock : ∃ g,
  run GRACE_WINDOW [BeginSave 0 (request [Byte.x01; Byte.x02]); BeginSave 1 (request [Byte.x02; Byte.x01]);
                    UpsertChunk 0; UpsertChunk 1] start = Some g ∧
  step GRACE_WINDOW (UpsertChunk 0) g = None ∧ step GRACE_WINDOW (UpsertChunk 1) g = None ∧
  is_Some (run GRACE_WINDOW [Rollback 1; UpsertChunk 0; ClaimSeq 0] g).
Proof. eexists. split; [vm_compute; reflexivity|]. vm_compute. eauto. Qed.

(** ** The operations alone *)




Definition prune_ctx : CkCtx := {| ck_now := 1000 + 8 * GRACE_WINDOW; ck_nextval := 3 |}.
Definition two_saved : CkDb :=
  srv_db (get (run GRACE_WINDOW (save_alone 0 [Byte.x01] ++ save_alone 1 [Byte.x02]) start)).
Definition pruned_result : PruneResult :=
  {| prunedSequences := [1]; reclaimedChunks := 1; reclaimedBytes := 1 |}.
Definition pruned_db : CkDb := (prune_run prune_ctx wallet net 1 two_saved).2.

Lemma prune_alone : prune_run prune_ctx wallet net 1 two_saved = (Ok pruned_result, pruned_db).
Proof. vm_compute. reflexivity. Qed.

Lemma solo_prune_completes_witness : ∃ evs,
  run GRACE_WINDOW evs (idle_server (1000 + 8 * GRACE_WINDOW) 3 two_saved) =
    Some {| srv_clock := 1000 + 8 * GRACE_WINDOW; srv_nextval := 3; srv_db := pruned_db; srv_active := ∅;
            srv_log := [CPrune (1000 + 8 * GRACE_WINDOW) wallet net 1 pruned_result] |}.
Proof.
  apply (solo_prune_completes GRACE_WINDOW (1000 + 8 * GRACE_WINDOW) 3 two_saved wallet net 1
           pruned_result pruned_db); [lia|exact prune_alone].
Defined.
End ServerDemo.
