(* ===== verification/Hex.v ===== *)
(** * Hexadecimal digests

    Models the hash encodings of [src/postgres/chain-archive-store.ts] and
    [src/interfaces/chain-archive-store.ts]: [hexToBuf] is Node's [Buffer.from(s, "hex")], which
    decodes pairs of digits of either case and stops at the first pair that is not one, [bufToHex]
    its lowercase inverse, and [Hex32Schema] the boundary check that makes the two inverse to each
    other. *)

From S2P Require Import Prelude Text.

Local Open Scope N_scope.

(** ** Digits *)

Definition hex_digit (n : N) : N := if n <? 10 then 48 + n else 87 + n.

Definition is_lower_hex (c : N) : bool := (48 <=? c) && (c <=? 57) || (97 <=? c) && (c <=? 102).

(** The value of a digit of either case. *)
Definition hex_value (c : N) : option N :=
  if (48 <=? c) && (c <=? 57) then Some (c - 48)
  else if (97 <=? c) && (c <=? 102) then Some (c - 87)
  else if (65 <=? c) && (c <=? 70) then Some (c - 55)
  else None.

(** ** Buffers *)

Fixpoint hexToBuf (hex : jsstr) : bytes :=
  match hex with
  | c :: d :: rest =>
      match hex_value c, hex_value d with
      | Some hi, Some lo =>
          match Byte.of_N (16 * hi + lo) with Some b => b :: hexToBuf rest | None => [] end
      | _, _ => []
      end
  | _ => []
  end.

Definition hex_of_byte (b : Byte.byte) : jsstr :=
  [hex_digit (Byte.to_N b / 16); hex_digit (Byte.to_N b mod 16)].

Definition bufToHex (buf : bytes) : jsstr := buf ≫= hex_of_byte.

(** [/^[0-9a-f]{64}$/]. *)
Definition Hex32Schema (s : jsstr) : bool := (length s =? 64)%nat && forallb is_lower_hex s.

(** ** Laws *)

Lemma hex_digit_lower n : n < 16 → is_lower_hex (hex_digit n) = true.
Proof. unfold is_lower_hex, hex_digit. destruct (N.ltb_spec n 10); lia. Qed.

Lemma hex_value_digit n : n < 16 → hex_value (hex_digit n) = Some n.
Proof.
  intros Hn. unfold hex_value, hex_digit. destruct (N.ltb_spec n 10).
  - rewrite (proj2 (andb_true_iff _ _)) by lia. f_equal; lia.
  - destruct ((48 <=? 87 + n) && (87 + n <=? 57)) eqn:E; [lia|].
    rewrite (proj2 (andb_true_iff _ _)) by lia. f_equal; lia.
Qed.

Lemma hex_value_lower c : is_lower_hex c = true → ∃ n, n < 16 ∧ hex_value c = Some n ∧ hex_digit n = c.
Proof.
  unfold is_lower_hex, hex_value, hex_digit. intros Hc.
  destruct ((48 <=? c) && (c <=? 57)) eqn:E.
  - exists (c - 48). destruct (N.ltb_spec (c - 48) 10); split_and!; (done || lia).
  - cbn in Hc. rewrite Hc. exists (c - 87).
    destruct (N.ltb_spec (c - 87) 10); split_and!; (done || lia).
Qed.

Lemma byte_to_N_lt b : Byte.to_N b < 256.
Proof. pose proof (Byte.to_N_bounded b). lia. Qed.

Lemma byte_of_N_small n : n < 256 → ∃ b, Byte.of_N n = Some b ∧ Byte.to_N b = n.
Proof.
  intros Hn. destruct (Byte.of_N n) as [b|] eqn:E.
  - exists b. split; [done|]. by apply Byte.to_of_N.
  - apply Byte.of_N_None_iff in E. lia.
Qed.

Lemma hex_halves n : n < 256 → n / 16 < 16 ∧ n mod 16 < 16 ∧ 16 * (n / 16) + n mod 16 = n.
Proof.
  intros Hn. split_and!; [apply N.Div0.div_lt_upper_bound; lia|by apply N.mod_lt|].
  symmetry. by apply N.div_mod.
Qed.

Lemma hex_combine hi lo : hi < 16 → lo < 16 →
  16 * hi + lo < 256 ∧ (16 * hi + lo) / 16 = hi ∧ (16 * hi + lo) mod 16 = lo.
Proof.
  intros Hh Hl. split_and!; [lia|symmetry; apply (N.div_unique _ _ _ lo); lia|].
  symmetry. apply (N.mod_unique _ _ hi); lia.
Qed.

Lemma hexToBuf_byte b s : hexToBuf (hex_of_byte b ++ s) = b :: hexToBuf s.
Proof.
  destruct (hex_halves (Byte.to_N b) (byte_to_N_lt b)) as (Hh & Hl & Hb).
  cbn -[N.mul N.div N.modulo]. rewrite !hex_value_digit by done.
  rewrite Hb. by rewrite Byte.of_to_N.
Qed.

Lemma bufToHex_cons x b : bufToHex (x :: b) = hex_of_byte x ++ bufToHex b.
Proof. done. Qed.

Lemma hexToBuf_bufToHex b : hexToBuf (bufToHex b) = b.
Proof.
  induction b as [|x b IH]; [done|]. rewrite bufToHex_cons.
  by rewrite hexToBuf_byte, IH.
Qed.

#[export] Instance bufToHex_inj : Inj (=) (=) bufToHex.
Proof. intros b c H. by rewrite <-(hexToBuf_bufToHex b), H, hexToBuf_bufToHex. Qed.

Lemma bufToHex_length b : length (bufToHex b) = (2 * length b)%nat.
Proof.
  induction b as [|x b IH]; [done|]. rewrite bufToHex_cons.
  rewrite length_app, IH. cbn. lia.
Qed.

Lemma bufToHex_lower b : forallb is_lower_hex (bufToHex b) = true.
Proof.
  induction b as [|x b IH]; [done|]. rewrite bufToHex_cons.
  destruct (hex_halves (Byte.to_N x) (byte_to_N_lt x)) as (Hh & Hl & _).
  rewrite forallb_app, IH. cbn -[N.div N.modulo]. by rewrite !hex_digit_lower.
Qed.

Lemma Hex32Schema_bufToHex b : length b = 32%nat → Hex32Schema (bufToHex b) = true.
Proof. intros Hb. unfold Hex32Schema. by rewrite bufToHex_length, Hb, bufToHex_lower. Qed.

(** Decoding an even-length string of lowercase digits loses nothing. *)
Lemma bufToHex_hexToBuf n s :
  length s = (2 * n)%nat → forallb is_lower_hex s = true →
  bufToHex (hexToBuf s) = s ∧ length (hexToBuf s) = n.
Proof.
  revert s. induction n as [|n IH]; intros s Hl Hs.
  { by destruct s. }
  destruct s as [|c [|d s]]; [done|cbn in Hl; lia|]. cbn in Hs, Hl.
  apply andb_true_iff in Hs as [Hc Hs]. apply andb_true_iff in Hs as [Hd Hs].
  destruct (hex_value_lower c Hc) as (hi & Hhi & Ec & <-).
  destruct (hex_value_lower d Hd) as (lo & Hlo & Ed & <-).
  destruct (hex_combine hi lo Hhi Hlo) as (Hlt & Hdiv & Hmod).
  destruct (byte_of_N_small _ Hlt) as (b & Eb & Hb).
  destruct (IH s) as [IH1 IH2]; [lia|done|].
  cbn [hexToBuf]. rewrite Ec, Ed, Eb. cbn [length]. rewrite IH2. split; [|done].
  rewrite bufToHex_cons, IH1. unfold hex_of_byte. by rewrite Hb, Hdiv, Hmod.
Qed.

Lemma Hex32Schema_decode s :
  Hex32Schema s = true → bufToHex (hexToBuf s) = s ∧ length (hexToBuf s) = 32%nat.
Proof.
  intros [Hl Hs]%andb_true_iff. apply Nat.eqb_eq in Hl. by apply (bufToHex_hexToBuf 32).
Qed.

(** C40. [Hex32Schema] is exactly the encoding of the 32-byte buffers: a string passes it if and
    only if it is the lowercase hex of a buffer of 32 bytes, and then [hexToBuf] recovers that
    buffer. So two distinct validated hashes are two distinct [bytea] keys, and a key read back
    from the table is the string that was written. *)
Theorem Hex32Schema_exact (s : jsstr) :
  Hex32Schema s = true ↔ length (hexToBuf s) = 32%nat ∧ bufToHex (hexToBuf s) = s.
Proof.
  split; [by intros []%Hex32Schema_decode|].
  intros [Hl Hs]. rewrite <-Hs. by apply Hex32Schema_bufToHex.
Qed.

(** What the schema is for: [hexToBuf] alone truncates, so an unvalidated string may decode to
    fewer bytes than it has digit pairs. *)
Example hexToBuf_truncates : hexToBuf (js "00zz11") = [Byte.x00] ∧ Hex32Schema (js "00zz11") = false.
Proof. done. Qed.
