(* ===== verification/Utf8.v ===== *)
(** * UTF-8

    [TextEncoder.encode] and [TextDecoder("utf-8", { fatal: true }).decode], which the envelope
    codec of [src/interfaces/wallet-state-envelope.ts] and the raw payloads of
    [chain-archive-sync/sync-service.ts] go through: JavaScript strings are sequences of UTF-16
    code units, encoding replaces an unpaired surrogate by U+FFFD, and fatal decoding accepts
    exactly the shortest encodings of Unicode scalar values, dropping one leading byte-order
    mark. *)

From S2P Require Import Prelude Text Hex.

Local Open Scope N_scope.

(** ** Scalar values and UTF-16 *)

Definition is_scalar (c : N) : bool :=
  (c <? 0x110000) && negb (is_high_surrogate c || is_low_surrogate c).

Definition replacement_character : N := 0xFFFD.

(** The scalar values of a string, unpaired surrogates replaced. *)
Fixpoint scalars (s : jsstr) : list N :=
  match s with
  | [] => []
  | c :: r =>
      if is_high_surrogate c then
        match r with
        | d :: r' =>
            if is_low_surrogate d
            then (0x10000 + (c - 0xD800) * 0x400 + (d - 0xDC00)) :: scalars r'
            else replacement_character :: scalars r
        | [] => [replacement_character]
        end
      else if is_low_surrogate c then replacement_character :: scalars r
      else c :: scalars r
  end.

Definition utf16_of_scalar (c : N) : jsstr :=
  if c <? 0x10000 then [c]
  else [0xD800 + (c - 0x10000) / 0x400; 0xDC00 + (c - 0x10000) mod 0x400].

(** ** Bytes *)

Definition byte_of (n : N) : Byte.byte := default Byte.x00 (Byte.of_N n).

Definition utf8_of_scalar (c : N) : list N :=
  if c <? 0x80 then [c]
  else if c <? 0x800 then [0xC0 + c / 64; 0x80 + c mod 64]
  else if c <? 0x10000 then [0xE0 + c / 4096; 0x80 + (c / 64) mod 64; 0x80 + c mod 64]
  else [0xF0 + c / 262144; 0x80 + (c / 4096) mod 64; 0x80 + (c / 64) mod 64; 0x80 + c mod 64].

Definition TextEncoder_encode (s : jsstr) : bytes := byte_of <$> (scalars s ≫= utf8_of_scalar).

Definition is_continuation (b : N) : bool := (0x80 <=? b) && (b <=? 0xBF).

(** One scalar value per step; [None]: an invalid sequence. *)
Fixpoint utf8_decode (bs : list N) : option (list N) :=
  match bs with
  | [] => Some []
  | b0 :: r0 =>
      if b0 <? 0x80 then cons b0 <$> utf8_decode r0
      else
        match r0 with
        | b1 :: r1 =>
            if negb (is_continuation b1) then None
            else if (0xC2 <=? b0) && (b0 <=? 0xDF)
            then cons ((b0 - 0xC0) * 64 + (b1 - 0x80)) <$> utf8_decode r1
            else
              match r1 with
              | b2 :: r2 =>
                  if negb (is_continuation b2) then None
                  else if (0xE0 <=? b0) && (b0 <=? 0xEF) then
                    let c := (b0 - 0xE0) * 4096 + (b1 - 0x80) * 64 + (b2 - 0x80) in
                    if (0x800 <=? c) && is_scalar c then cons c <$> utf8_decode r2 else None
                  else
                    match r2 with
                    | b3 :: r3 =>
                        if negb (is_continuation b3) then None
                        else if (0xF0 <=? b0) && (b0 <=? 0xF4) then
                          let c := (b0 - 0xF0) * 262144 + (b1 - 0x80) * 4096 + (b2 - 0x80) * 64
                                   + (b3 - 0x80) in
                          if (0x10000 <=? c) && is_scalar c then cons c <$> utf8_decode r3 else None
                        else None
                    | [] => None
                    end
              | [] => None
              end
        | [] => None
        end
  end.

(** The decoder drops one byte-order mark at the start. *)
Definition strip_bom (bs : list N) : list N :=
  match bs with
  | b0 :: b1 :: b2 :: r =>
      if (b0 =? 0xEF) && (b1 =? 0xBB) && (b2 =? 0xBF) then r else bs
  | _ => bs
  end.

Definition TextDecoder_decode (bs : bytes) : option jsstr :=
  (λ cs, cs ≫= utf16_of_scalar) <$> utf8_decode (strip_bom (Byte.to_N <$> bs)).

(** ** Laws *)

Lemma bind_step {A B} (f : A → list B) x l : (x :: l) ≫= f = f x ++ (l ≫= f).
Proof. done. Qed.

Lemma byte_of_N n : n < 256 → Byte.to_N (byte_of n) = n.
Proof. intros Hn. unfold byte_of. by destruct (byte_of_N_small n Hn) as (b & -> & Hb). Qed.

(** The digits of a number in base 64. *)
Lemma base64_1 c : c = (c / 64) * 64 + c mod 64 ∧ c mod 64 < 64.
Proof. split; [rewrite N.mul_comm; by apply N.div_mod|by apply N.mod_lt]. Qed.

Lemma div_4096 c : c / 4096 = c / 64 / 64.
Proof. by rewrite N.Div0.div_div. Qed.
Lemma div_262144 c : c / 262144 = c / 64 / 64 / 64.
Proof. by rewrite !N.Div0.div_div. Qed.

(** Decide a comparison of the decoder by arithmetic. *)
Ltac decide_cond :=
  match goal with
  | |- context [if ?b then _ else _] =>
      first [ replace b with true by (unfold is_continuation in *; lia)
            | replace b with false by (unfold is_continuation in *; lia) ]; cbv iota
  end.

Lemma utf8_decode_scalar c r :
  is_scalar c = true → utf8_decode (utf8_of_scalar c ++ r) = cons c <$> utf8_decode r.
Proof.
  intros Hs. unfold utf8_of_scalar.
  destruct (base64_1 c) as [E1 L1], (base64_1 (c / 64)) as [E2 L2], (base64_1 (c / 64 / 64)) as [E3 L3].
  rewrite div_4096, div_262144.
  assert (c < 0x110000) as Hc by (unfold is_scalar in Hs; lia).
  revert E1 L1 E2 L2 E3 L3. generalize (c mod 64) as x0, (c / 64) as q1. intros x0 q1.
  generalize (q1 mod 64) as x1, (q1 / 64) as q2. intros x1 q2.
  generalize (q2 mod 64) as x2, (q2 / 64) as x3. intros x2 x3 E1 L1 E2 L2 E3 L3.
  destruct (N.ltb_spec c 0x80); [|destruct (N.ltb_spec c 0x800); [|destruct (N.ltb_spec c 0x10000)]];
    cbn [app utf8_decode].
  - by decide_cond.
  - do 3 decide_cond. do 2 f_equal. lia.
  - do 5 decide_cond. cbv zeta.
    replace ((0xE0 + q2 - 0xE0) * 4096 + (0x80 + x1 - 0x80) * 64 + (0x80 + x0 - 0x80)) with c by lia.
    rewrite Hs. by decide_cond.
  - do 7 decide_cond. cbv zeta.
    replace ((0xF0 + x3 - 0xF0) * 262144 + (0x80 + x2 - 0x80) * 4096 + (0x80 + x1 - 0x80) * 64
             + (0x80 + x0 - 0x80)) with c by lia.
    rewrite Hs. by decide_cond.
Qed.

Lemma utf8_of_scalar_bytes c : is_scalar c = true → Forall (λ b, b < 256) (utf8_of_scalar c).
Proof.
  intros Hs. assert (c < 0x110000) as Hc by (unfold is_scalar in Hs; lia). unfold utf8_of_scalar.
  rewrite div_4096, div_262144.
  destruct (base64_1 c) as [E1 L1], (base64_1 (c / 64)) as [E2 L2], (base64_1 (c / 64 / 64)) as [E3 L3].
  revert E1 L1 E2 L2 E3 L3. generalize (c mod 64) as x0, (c / 64) as q1. intros x0 q1.
  generalize (q1 mod 64) as x1, (q1 / 64) as q2. intros x1 q2.
  generalize (q2 mod 64) as x2, (q2 / 64) as x3. intros x2 x3 E1 L1 E2 L2 E3 L3.
  repeat case_match; repeat constructor; bool_to_prop; lia.
Qed.

Lemma utf8_decode_scalars cs :
  Forall (λ c, is_scalar c = true) cs → utf8_decode (cs ≫= utf8_of_scalar) = Some cs.
Proof.
  induction 1 as [|c cs Hc _ IH]; [done|].
  by rewrite bind_step, utf8_decode_scalar, IH.
Qed.

(** Well-formed UTF-16 of 16-bit units: every unit below 65536, every surrogate paired. *)
Definition well_formed (s : jsstr) : Prop :=
  Forall (λ c, c < 0x10000) s ∧ LONE_SURROGATE_PATTERN s = false.

Lemma scalars_spec s :
  well_formed s →
  Forall (λ c, is_scalar c = true) (scalars s) ∧ (scalars s ≫= utf16_of_scalar) = s.
Proof.
  unfold well_formed, LONE_SURROGATE_PATTERN.
  induction s as [s IH] using (induction_ltof1 _ length); unfold ltof in IH.
  destruct s as [|c r]; [done|]. intros [Hu Hl]. cbn [lone_surrogate_from] in Hl.
  apply orb_false_iff in Hl as [Hl Hr]. apply orb_false_iff in Hl as [Hl1 Hl2].
  apply Forall_cons in Hu as [Hc Hu]. cbn [scalars].
  destruct (is_high_surrogate c) eqn:Hh.
  - destruct r as [|d r']; [done|]. cbn in Hl1. apply negb_false_iff in Hl1 as Hd. rewrite Hd.
    cbn in Hr. rewrite Hd, (low_not_high d Hd) in Hr. cbn in Hr.
    apply Forall_cons in Hu as [_ Hu].
    destruct (IH r') as [IH1 IH2]; [cbn; lia|by split|]. unfold is_high_surrogate in Hh. unfold is_low_surrogate in Hd.
    assert (d - 0xDC00 < 0x400) as Hd' by lia. assert (c - 0xD800 < 0x400) as Hc' by lia. split.
    + constructor; [|done]. unfold is_scalar, is_high_surrogate, is_low_surrogate. lia.
    + rewrite bind_step, IH2. unfold utf16_of_scalar.
      replace (0x10000 + (c - 0xD800) * 0x400 + (d - 0xDC00) <? 0x10000) with false by lia.
      replace (0x10000 + (c - 0xD800) * 0x400 + (d - 0xDC00) - 0x10000)
        with (0x400 * (c - 0xD800) + (d - 0xDC00)) by lia.
      rewrite <-(N.div_unique _ _ (c - 0xD800) (d - 0xDC00)) by (done || lia).
      rewrite <-(N.mod_unique _ _ (c - 0xD800) (d - 0xDC00)) by (done || lia).
      cbn [app]. f_equal; [lia|]. f_equal. lia.
  - destruct (is_low_surrogate c) eqn:Hlow; [by rewrite andb_true_r in Hl2|].
    destruct (IH r) as [IH1 IH2]; [cbn; lia|by split|]. split.
    + constructor; [|done]. unfold is_scalar. rewrite Hh, Hlow. lia.
    + rewrite bind_step, IH2. unfold utf16_of_scalar. by replace (c <? 0x10000) with true by lia.
Qed.

Lemma to_N_byte_of bs : Forall (λ b, b < 256) bs → (Byte.to_N <$> (byte_of <$> bs)) = bs.
Proof. induction 1 as [|b bs Hb _ IH]; [done|]. cbn. by rewrite byte_of_N, IH. Qed.

(** Decoding what was encoded, for a string whose first character is ASCII (so no byte-order
    mark). *)
Lemma TextDecoder_encode c s :
  c < 0x80 → well_formed (c :: s) → TextDecoder_decode (TextEncoder_encode (c :: s)) = Some (c :: s).
Proof.
  intros Hc Hw. destruct (scalars_spec _ Hw) as [Hs Hu16].
  unfold TextDecoder_decode, TextEncoder_encode.
  rewrite to_N_byte_of.
  2:{ apply Forall_bind. eapply Forall_impl; [exact Hs|]. exact utf8_of_scalar_bytes. }
  assert (scalars (c :: s) = c :: scalars s) as E.
  { cbn. unfold is_high_surrogate, is_low_surrogate.
    replace ((0xD800 <=? c) && (c <=? 0xDBFF)) with false by lia.
    by replace ((0xDC00 <=? c) && (c <=? 0xDFFF)) with false by lia. }
  assert (strip_bom (scalars (c :: s) ≫= utf8_of_scalar) = (scalars (c :: s) ≫= utf8_of_scalar)) as ->.
  { rewrite E, bind_step. unfold utf8_of_scalar at 1 3. replace (c <? 0x80) with true by lia.
    cbn [app strip_bom]. repeat case_match; try done. exfalso. bool_to_prop. lia. }
  rewrite utf8_decode_scalars by done. cbn [fmap option_fmap option_map]. by rewrite Hu16.
Qed.
