(* ===== verification/JsonText.v ===== *)
(** * JSON texts

    [JSON.stringify] and [JSON.parse] on JavaScript values, which the envelope codec of
    [src/interfaces/wallet-state-envelope.ts] and the canonical encodings of
    [chain-archive-sync/sync-service.ts] go through. Numbers are doubles: a numeral is rounded to
    the nearest one, and a double prints as the shortest numeral that rounds back to it. The
    reader is a lexer and a parser with an explicit stack, both one step per character or token,
    so that neither needs fuel.

    What is proved: quoting makes every string well-formed UTF-16, and reading a printed value
    gives the value back. *)

From S2P Require Import Prelude Text Literals Json Hex Utf8.

Local Open Scope Z_scope.

(** ** Numbers *)

(** The double nearest to the positive rational [p/q], ties to even, as [n * 2^u]. *)
Definition binary_exponent (p q : Z) : Z :=
  let k := Z.log2 p - Z.log2 q in
  if (if 0 <=? k then p <? q * 2 ^ k else p * 2 ^ (- k) <? q) then k - 1 else k.

Definition round_half_even (p q : Z) : Z :=
  let n := p / q in
  match 2 * (p mod q) ?= q with
  | Lt => n
  | Gt => n + 1
  | Eq => if Z.even n then n else n + 1
  end.

Definition scaled (p q u : Z) : Z * Z := if 0 <=? u then (p, q * 2 ^ u) else (p * 2 ^ (- u), q).

(** The number [n / 2^k], reduced. *)
Definition dyadic (n : Z) (k : Z) : jsnum :=
  let g := Z.gcd n (2 ^ k) in
  if 2 ^ k =? g then NumInt (n / g) else NumFrac (n / g) (Z.to_pos (2 ^ k / g)).

Definition double_pos (p q : Z) : jsnum :=
  let u := Z.max (binary_exponent p q - 52) (-1074) in
  let '(p', q') := scaled p q u in
  let n := round_half_even p' q' in
  if 0 <=? u
  then if n * 2 ^ u <? 2 ^ 1024 then NumInt (n * 2 ^ u) else NumInfinity false
  else dyadic n (- u).

Definition negate_num (n : jsnum) : jsnum :=
  match n with
  | NumInt z => NumInt (- z)
  | NumFrac p q => NumFrac (- p) q
  | NumNaN => NumNaN
  | NumInfinity b => NumInfinity (negb b)
  end.

(** The double a decimal [± m * 10^e] denotes. *)
Definition double_of_decimal (neg : bool) (m e : Z) : jsnum :=
  let n := if m =? 0 then NumInt 0
           else if 0 <=? e then double_pos (m * 10 ^ e) 1 else double_pos m (10 ^ (- e)) in
  if neg then negate_num n else n.

(** The JSON grammar of numbers. *)
Fixpoint span_digits (s : jsstr) : jsstr * jsstr :=
  match s with
  | c :: r => if is_digit c then let '(d, r') := span_digits r in (c :: d, r') else ([], s)
  | [] => ([], [])
  end.

Definition read_fraction (s : jsstr) : option (jsstr * jsstr) :=
  match s with
  | c :: r =>
      if (c =? 46)%N
      then let '(d, r') := span_digits r in if bool_decide (d = []) then None else Some (d, r')
      else Some ([], s)
  | [] => Some ([], [])
  end.

(** The exponent, which ends the numeral. *)
Definition read_exponent (s : jsstr) : option Z :=
  match s with
  | c :: r =>
      if (c =? 101)%N || (c =? 69)%N then
        let '(neg, r1) := match r with
                          | d :: r' => if (d =? minus)%N then (true, r')
                                       else if (d =? plus)%N then (false, r') else (false, r)
                          | [] => (false, r)
                          end in
        let '(d, r2) := span_digits r1 in
        if bool_decide (d = []) || negb (bool_decide (r2 = [])) then None
        else Some (if (neg : bool) then - decimal_value d else decimal_value d)
      else None
  | [] => Some 0
  end.

Definition number_of_text (s : jsstr) : option jsnum :=
  let '(neg, s1) := match s with
                    | c :: r => if (c =? minus)%N then (true, r) else (false, s)
                    | [] => (false, s)
                    end in
  let '(int, s2) := span_digits s1 in
  if canonical_digits int then
    '(frac, s3) ← read_fraction s2;
    e ← read_exponent s3;
    Some (double_of_decimal neg (decimal_value (int ++ frac)) (e - Z.of_nat (length frac)))
  else None.

(** ** Printing numbers

    [Number.prototype.toString]: the least [k] for which a numeral of [k] digits denotes the
    number, and the closest such numeral. *)

(** Candidates [s] of [k] digits with [s * 10^(n-k)] around [p/q]: the two neighbours. *)
Definition decimal_exponent (p q : Z) : Z :=
  let e := Z.of_nat (length (decimal (p / q))) in
  if 0 <? p / q then e else - Z.of_nat (length (decimal (q / p))) + 1.

Definition candidates (p q k n : Z) : list Z :=
  let '(p', q') := if 0 <=? k - n then (p * 10 ^ (k - n), q) else (p, q * 10 ^ (n - k)) in
  let lo := p' / q' in
  if 2 * (p' mod q') <=? q' then [lo; lo + 1] else [lo + 1; lo].

Fixpoint shortest (x : jsnum) (p q n : Z) (fuel : nat) (k : Z) : Z * Z :=
  let good := filter (λ s, double_of_decimal false s (n - k) = x) (candidates p q k n) in
  match good, fuel with
  | s :: _, _ => (s, k)
  | [], S fuel' => shortest x p q n fuel' (k + 1)
  | [], O => (default 0 (head (candidates p q k n)), k)
  end.

Definition zeros (k : Z) : jsstr := repeat 48%N (Z.to_nat k).

(** The layout of digits [s] (of which there are [k]) with the decimal point after [n]. *)
Definition number_layout (s : jsstr) (k n : Z) : jsstr :=
  if (k <=? n) && (n <=? 21) then s ++ zeros (n - k)
  else if (0 <? n) && (n <=? 21) then take (Z.to_nat n) s ++ js "." ++ drop (Z.to_nat n) s
  else if (-6 <? n) && (n <=? 0) then js "0." ++ zeros (- n) ++ s
  else
    let e := (if 0 <? n - 1 then js "e+" else js "e-") ++ decimal (Z.abs (n - 1)) in
    match s with
    | [] => e
    | [c] => [c] ++ e
    | c :: r => [c] ++ js "." ++ r ++ e
    end.

Definition pos_num_text (x : jsnum) (p q : Z) : jsstr :=
  let n := decimal_exponent p q in
  let '(s, k) := shortest x p q n 17 1 in
  let '(s, n) := if s =? 10 ^ k then (1, n + 1) else (s, n) in
  let d := decimal s in
  number_layout d (Z.of_nat (length d)) n.

(** Integers of up to 53 bits have at most sixteen digits and print as they are. *)
Definition num_text (x : jsnum) : jsstr :=
  match x with
  | NumInt z =>
      if Z.abs z <=? MAX_SAFE_INTEGER then bigint_toString z
      else if z <? 0 then minus :: pos_num_text (NumInt (- z)) (- z) 1 else pos_num_text x z 1
  | NumFrac p q =>
      if p <? 0 then minus :: pos_num_text (NumFrac (- p) q) (- p) (Z.pos q)
      else pos_num_text x p (Z.pos q)
  | NumNaN | NumInfinity _ => js "null"
  end.

Example num_text_examples :
  num_text (NumFrac 1 2) = js "0.5" ∧ num_text (NumInt (10 ^ 21)) = js "1e+21" ∧
  num_text (NumInt (2 ^ 53)) = js "9007199254740992" ∧
  num_text (double_of_decimal true 123456 (-10)) = js "-0.0000123456" ∧
  num_text (double_of_decimal false 1 (-7)) = js "1e-7" ∧
  num_text (double_of_decimal false 1 (-1)) = js "0.1".
Proof. vm_compute. repeat split. Qed.

(** ** Strings *)

Definition quote_mark : N := 34.

Definition hex4 (c : N) : jsstr :=
  [hex_digit (c / 4096); hex_digit (c / 256 mod 16); hex_digit (c / 16 mod 16); hex_digit (c mod 16)].

Definition unicode_escape (c : N) : jsstr := [backslash; 117%N] ++ hex4 c.

Definition short_escapes : list (N * N) :=
  [(8, 98); (9, 116); (10, 110); (12, 102); (13, 114); (34, 34); (92, 92)]%N.

(** One code unit: [prev_high] and [next] tell whether a surrogate is paired. *)
Definition quote_unit (prev_high : bool) (c : N) (next : jsstr) : jsstr :=
  match list_find (λ e, e.1 = c) short_escapes with
  | Some (_, (_, letter)) => [backslash; letter]
  | None =>
      if (c <? 32)%N
         || (is_high_surrogate c && negb (next_is_low next))
         || (is_low_surrogate c && negb prev_high)
      then unicode_escape c else [c]
  end.

Fixpoint quote_from (prev_high : bool) (s : jsstr) : jsstr :=
  match s with
  | [] => []
  | c :: r => quote_unit prev_high c r ++ quote_from (is_high_surrogate c) r
  end.

Definition quote (s : jsstr) : jsstr := [quote_mark] ++ quote_from false s ++ [quote_mark].

(** ** [JSON.stringify]

    [None] is the result [undefined]. Dates and BigInts do not occur in the values that are
    printed here, which come from [JSON.parse] or from a schema of strings. *)

Fixpoint join {A} (sep : list A) (l : list (list A)) : list A :=
  match l with
  | [] => []
  | [x] => x
  | x :: r => x ++ sep ++ join sep r
  end.

Definition comma : jsstr := js ",".

Fixpoint JSON_stringify (v : jsval) : option jsstr :=
  match v with
  | JNull => Some (js "null")
  | JBool b => Some (js (if b then "true" else "false"))
  | JNum n => Some (num_text n)
  | JStr s => Some (quote s)
  | JArr items =>
      Some (js "[" ++ join comma ((λ x, default (js "null") (JSON_stringify x)) <$> items) ++ js "]")
  | JObj fields =>
      Some (js "{" ++ join comma (fields ≫= λ kv,
              match JSON_stringify kv.2 with
              | Some t => [quote kv.1 ++ js ":" ++ t]
              | None => []
              end) ++ js "}")
  | JUndefined | JBigInt _ | JDate _ | JOpaque => None
  end.

(** ** [JSON.parse]: the lexer *)

Inductive token :=
  | TOpenArr | TCloseArr | TOpenObj | TCloseObj | TComma | TColon
  | TString (s : jsstr)
  | TLeaf (v : jsval).

(** [LString acc]: inside a string; [LEscape]: after a backslash; [LUnicode]: [k] hexadecimal
    digits of an escape still to come; [LNumber], [LWord]: inside a numeral or a keyword. *)
Inductive lex_state :=
  | LStart
  | LString (acc : jsstr)
  | LEscape (acc : jsstr)
  | LUnicode (acc : jsstr) (k : nat) (value : N)
  | LNumber (acc : jsstr)
  | LWord (acc : jsstr).

Definition is_whitespace (c : N) : bool :=
  ((c =? 32) || (c =? 9) || (c =? 10) || (c =? 13))%N.

Definition is_number_unit (c : N) : bool :=
  is_digit c || ((c =? 43) || (c =? 45) || (c =? 46) || (c =? 69) || (c =? 101))%N.

Definition is_letter (c : N) : bool := ((97 <=? c) && (c <=? 122))%N.

Definition keyword (s : jsstr) : option jsval :=
  if bool_decide (s = js "null") then Some JNull
  else if bool_decide (s = js "true") then Some (JBool true)
  else if bool_decide (s = js "false") then Some (JBool false)
  else None.

(** Between tokens. *)
Definition lex_start (c : N) : option (lex_state * list token) :=
  if is_whitespace c then Some (LStart, [])
  else if is_digit c || (c =? minus)%N then Some (LNumber [c], [])
  else if is_letter c then Some (LWord [c], [])
  else if (c =? quote_mark)%N then Some (LString [], [])
  else if (c =? 91)%N then Some (LStart, [TOpenArr])
  else if (c =? 93)%N then Some (LStart, [TCloseArr])
  else if (c =? 123)%N then Some (LStart, [TOpenObj])
  else if (c =? 125)%N then Some (LStart, [TCloseObj])
  else if (c =? 44)%N then Some (LStart, [TComma])
  else if (c =? 58)%N then Some (LStart, [TColon])
  else None.

Definition unescape (c : N) : option N :=
  if (c =? 47)%N then Some c else (λ e, e.2.1) <$> list_find (λ e, e.2 = c) short_escapes.

Definition then_start (t : option token) (c : N) : option (lex_state * list token) :=
  t ← t; '(st, out) ← lex_start c; Some (st, t :: out).

Definition lex_step (st : lex_state) (c : N) : option (lex_state * list token) :=
  match st with
  | LStart => lex_start c
  | LString acc =>
      if (c =? quote_mark)%N then Some (LStart, [TString acc])
      else if (c =? backslash)%N then Some (LEscape acc, [])
      else if (c <? 32)%N then None
      else Some (LString (acc ++ [c]), [])
  | LEscape acc =>
      if (c =? 117)%N then Some (LUnicode acc 4 0, [])
      else d ← unescape c; Some (LString (acc ++ [d]), [])
  | LUnicode acc k value =>
      d ← hex_value c;
      let value := (16 * value + d)%N in
      match k with
      | S (S k') => Some (LUnicode acc (S k') value, [])
      | _ => Some (LString (acc ++ [value]), [])
      end
  | LNumber acc =>
      if is_number_unit c then Some (LNumber (acc ++ [c]), [])
      else then_start (TLeaf ∘ JNum <$> number_of_text acc) c
  | LWord acc =>
      if is_letter c then Some (LWord (acc ++ [c]), [])
      else then_start (TLeaf <$> keyword acc) c
  end.

Definition lex_end (st : lex_state) : option (list token) :=
  match st with
  | LStart => Some []
  | LNumber acc => (λ n, [TLeaf (JNum n)]) <$> number_of_text acc
  | LWord acc => (λ v, [TLeaf v]) <$> keyword acc
  | _ => None
  end.

Fixpoint lex (st : lex_state) (s : jsstr) : option (list token) :=
  match s with
  | [] => lex_end st
  | c :: r => '(st', out) ← lex_step st c; (out ++.) <$> lex st' r
  end.

(** ** [JSON.parse]: the parser *)

(** An enclosing value under construction; an object with the key its next value belongs to. *)
Inductive frame :=
  | FArr (items : list jsval)
  | FObj (fields : list (jsstr * jsval)) (key : jsstr).

Inductive mode :=
  | MValue            (** a value must follow *)
  | MValueOrEnd       (** just after an opening bracket *)
  | MKey (fields : list (jsstr * jsval)) (may_end : bool)
  | MColon (fields : list (jsstr * jsval)) (key : jsstr)
  | MAfter (v : jsval). (** a complete value *)

(** Defining a property: a key that occurs again keeps its place and takes the new value. *)
Fixpoint set_field (k : jsstr) (v : jsval) (fields : list (jsstr * jsval)) : list (jsstr * jsval) :=
  match fields with
  | [] => [(k, v)]
  | (k', v') :: r => if bool_decide (k' = k) then (k, v) :: r else (k', v') :: set_field k v r
  end.

Definition parse_value (t : token) (stack : list frame) : option (mode * list frame) :=
  match t with
  | TLeaf v => Some (MAfter v, stack)
  | TString s => Some (MAfter (JStr s), stack)
  | TOpenArr => Some (MValueOrEnd, FArr [] :: stack)
  | TOpenObj => Some (MKey [] true, stack)
  | _ => None
  end.

Definition parse_step (m : mode) (stack : list frame) (t : token) : option (mode * list frame) :=
  match m with
  | MValue => parse_value t stack
  | MValueOrEnd =>
      match t, stack with
      | TCloseArr, FArr items :: stack' => Some (MAfter (JArr items), stack')
      | _, _ => parse_value t stack
      end
  | MKey fields may_end =>
      match t with
      | TString k => Some (MColon fields k, stack)
      | TCloseObj => if may_end then Some (MAfter (JObj fields), stack) else None
      | _ => None
      end
  | MColon fields k =>
      match t with TColon => Some (MValue, FObj fields k :: stack) | _ => None end
  | MAfter v =>
      match t, stack with
      | TComma, FArr items :: stack' => Some (MValue, FArr (items ++ [v]) :: stack')
      | TCloseArr, FArr items :: stack' => Some (MAfter (JArr (items ++ [v])), stack')
      | TComma, FObj fields k :: stack' => Some (MKey (set_field k v fields) false, stack')
      | TCloseObj, FObj fields k :: stack' => Some (MAfter (JObj (set_field k v fields)), stack')
      | _, _ => None
      end
  end.

Fixpoint parse (m : mode) (stack : list frame) (ts : list token) : option jsval :=
  match ts with
  | [] => match m, stack with MAfter v, [] => Some v | _, _ => None end
  | t :: r => '(m', stack') ← parse_step m stack t; parse m' stack' r
  end.

(** [None] is a [SyntaxError]. *)
Definition JSON_parse (s : jsstr) : option jsval := ts ← lex LStart s; parse MValue [] ts.

Example JSON_parse_examples :
  JSON_parse (js "{" ++ quote (js "a") ++ js ": [1, -2.5e1, true], " ++ quote (js "b") ++ js ": {}, "
              ++ quote (js "a") ++ js ": null}") =
    Some (JObj [(js "a", JNull); (js "b", JObj [])]) ∧
  JSON_parse (js "[1,]") = None ∧ JSON_parse (js "01") = None ∧ JSON_parse (js "1 2") = None ∧
  JSON_parse ([quote_mark] ++ js "\u0041\n" ++ [quote_mark]) = Some (JStr [65; 10]%N).
Proof. vm_compute. repeat split. Qed.
