(* ===== verification/JsonTextSpec.v ===== *)
(** * Reading back a printed JSON value

    The laws of [JsonText]: what [JSON.stringify] prints for a value of safe integers, strings,
    arrays and objects with distinct keys is well-formed UTF-16 that starts with an ASCII
    character, and [JSON.parse] gives the value back. *)

From S2P Require Import Prelude Text Literals Json Hex Utf8 JsonText.

Local Open Scope Z_scope.

(** ** Integers *)

Lemma round_half_even_1 p : round_half_even p 1 = p.
Proof. unfold round_half_even. by rewrite Z.mod_1_r, Z.div_1_r. Qed.

Lemma dyadic_int z j : 0 ≤ j → dyadic (z * 2 ^ j) j = NumInt z.
Proof.
  intros Hj. assert (0 < 2 ^ j) by (apply Z.pow_pos_nonneg; lia). unfold dyadic.
  assert (Z.gcd (z * 2 ^ j) (2 ^ j) = 2 ^ j) as ->.
  { rewrite Z.gcd_comm. apply Z.divide_gcd_iff; [lia|]. by exists z. }
  by rewrite Z.eqb_refl, Z.div_mul by lia.
Qed.

Lemma double_pos_int z : 0 < z ≤ MAX_SAFE_INTEGER → double_pos z 1 = NumInt z.
Proof.
  intros [Hz Hm]. destruct (Z.log2_spec z Hz) as [Hlo Hhi].
  assert (0 ≤ Z.log2 z) as Hk by apply Z.log2_nonneg.
  assert (Z.log2 z ≤ 52) as Hk'.
  { apply Z.lt_succ_r, Z.log2_lt_pow2; [done|]. unfold MAX_SAFE_INTEGER in Hm. lia. }
  assert (binary_exponent z 1 = Z.log2 z) as Eb.
  { unfold binary_exponent. rewrite Z.sub_0_r. rewrite (proj2 (Z.leb_le _ _)) by done.
    by rewrite Z.mul_1_l, (proj2 (Z.ltb_ge _ _)). }
  unfold double_pos. rewrite Eb, Z.max_l by lia. unfold scaled.
  destruct (Z.leb_spec 0 (Z.log2 z - 52)).
  - replace (Z.log2 z - 52) with 0 by lia. rewrite Z.mul_1_l, Z.pow_0_r, round_half_even_1, Z.mul_1_r.
    rewrite (proj2 (Z.ltb_lt _ _)); [done|]. unfold MAX_SAFE_INTEGER in Hm.
    apply Z.le_lt_trans with (1 := Hm). by vm_compute.
  - rewrite round_half_even_1. apply dyadic_int. lia.
Qed.

Lemma span_digits_all s : forallb is_digit s = true → span_digits s = (s, []).
Proof.
  induction s as [|c s IH]; [done|]. cbn. intros [Hc Hs]%andb_true_iff. by rewrite Hc, IH.
Qed.

Lemma number_of_decimal neg n :
  0 ≤ n ≤ MAX_SAFE_INTEGER → double_of_decimal neg n 0 = NumInt (if neg then - n else n).
Proof.
  intros Hn. unfold double_of_decimal. destruct (Z.eqb_spec n 0) as [->|]; [by destruct neg|].
  cbn [Z.leb Z.compare]. rewrite Z.pow_0_r, Z.mul_1_r, double_pos_int by lia. by destruct neg.
Qed.

(** An optional sign and the digits of a safe integer. *)
Lemma number_of_text_int z :
  Z.abs z ≤ MAX_SAFE_INTEGER → number_of_text (bigint_toString z) = Some (NumInt z).
Proof.
  intros Hz. unfold bigint_toString, number_of_text.
  assert (∀ n, 0 ≤ n → span_digits (decimal n) = (decimal n, [])) as Hspan.
  { intros n Hn. by apply span_digits_all, decimal_digits. }
  destruct (Z.ltb_spec z 0).
  - rewrite N.eqb_refl, Hspan, decimal_canonical by lia. cbn -[decimal_value decimal double_of_decimal].
    rewrite app_nil_r, decimal_value_decimal by lia. rewrite number_of_decimal by lia. do 2 f_equal. lia.
  - destruct (decimal_not_minus z ltac:(lia)) as (c & r & E & Hc). pose proof (Hspan z ltac:(lia)) as Hs.
    pose proof (decimal_canonical z ltac:(lia)) as Hd. pose proof (decimal_value_decimal z ltac:(lia)) as Hv.
    rewrite E in *. rewrite Hc, Hs, Hd. cbn -[decimal_value double_of_decimal]. rewrite app_nil_r, Hv, number_of_decimal by lia. done.
Qed.

(** ** Strings *)

Lemma hex4_value c : (c < 0x10000)%N →
  (c / 4096 < 16 ∧ c / 256 mod 16 < 16 ∧ c / 16 mod 16 < 16 ∧ c mod 16 < 16 ∧
   16 * (16 * (16 * (16 * 0 + c / 4096) + c / 256 mod 16) + c / 16 mod 16) + c mod 16 = c)%N.
Proof.
  intros Hc.
  replace (c / 4096)%N with (c / 16 / 16 / 16)%N by (by rewrite !N.Div0.div_div).
  replace (c / 256)%N with (c / 16 / 16)%N by (by rewrite !N.Div0.div_div).
  assert (∀ x : N, x = 16 * (x / 16) + x mod 16 ∧ x mod 16 < 16)%N as H.
  { intros x. split; [by apply N.div_mod|by apply N.mod_lt]. }
  destruct (H c) as [E1 L1], (H (c / 16)%N) as [E2 L2], (H (c / 16 / 16)%N) as [E3 L3].
  clear H. revert E1 L1 E2 L2 E3 L3.
  generalize (c mod 16)%N, (c / 16)%N. intros m0 q1. generalize (q1 mod 16)%N, (q1 / 16)%N.
  intros m1 q2. generalize (q2 mod 16)%N, (q2 / 16)%N. intros m2 q3 E1 L1 E2 L2 E3 L3.
  repeat split; lia.
Qed.

Lemma lex_escape acc letter d rest :
  (letter =? 117)%N = false → unescape letter = Some d →
  lex (LString acc) (backslash :: letter :: rest) = lex (LString (acc ++ [d])) rest.
Proof.
  intros Hu Hd. cbn [lex]. cbn -[unescape lex]. rewrite Hu, Hd. cbn -[lex].
  by destruct (lex _ rest).
Qed.

(** One hexadecimal digit of an escape. *)
Lemma lex_hex_digit acc k value d rest : (d < 16)%N →
  lex (LUnicode acc (S k) value) (hex_digit d :: rest) =
  lex (if k is O then LString (acc ++ [(16 * value + d)%N]) else LUnicode acc k (16 * value + d)) rest.
Proof.
  intros Hd. cbn [lex lex_step]. rewrite hex_value_digit by done.
  destruct k; cbn [mbind option_bind]; by destruct (lex _ rest).
Qed.

Lemma lex_unicode_escape acc c rest : (c < 0x10000)%N →
  lex (LString acc) (unicode_escape c ++ rest) = lex (LString (acc ++ [c])) rest.
Proof.
  intros Hc. destruct (hex4_value c Hc) as (H1 & H2 & H3 & H4 & E).
  transitivity (lex (LUnicode acc 4 0) (hex4 c ++ rest)).
  { unfold unicode_escape. cbn [app lex]. cbn -[lex hex4]. by destruct (lex _ _). }
  unfold hex4. cbn [app]. rewrite !lex_hex_digit by done. cbv iota. by rewrite E.
Qed.

(** One quoted unit is read back as that unit. *)
Lemma lex_quote_unit acc prev c next rest :
  (c < 0x10000)%N →
  lex (LString acc) (quote_unit prev c next ++ rest) = lex (LString (acc ++ [c])) rest.
Proof.
  intros Hc. unfold quote_unit.
  destruct (list_find _ short_escapes) as [[i [e letter]]|] eqn:Hf.
  - apply list_find_Some in Hf as (Hi & He & _). cbn in He. subst e.
    do 7 (destruct i as [|i]; [injection Hi as <- <-; by apply lex_escape|]). done.
  - assert (c ≠ 34 ∧ c ≠ 92)%N as [H34 H92].
    { split; intros ->; vm_compute in Hf; done. }
    destruct (_ || _) eqn:Hu.
    + by apply lex_unicode_escape.
    + rewrite !orb_false_iff in Hu. destruct Hu as [[Hu _] _]. cbn [app lex]. unfold lex_step.
      rewrite (proj2 (N.eqb_neq c quote_mark)), (proj2 (N.eqb_neq c backslash)), Hu by done.
      cbn. by destruct (lex _ rest).
Qed.

Lemma lex_quote_from s : Forall (λ c, c < 0x10000)%N s → ∀ acc prev rest,
  lex (LString acc) (quote_from prev s ++ [quote_mark] ++ rest) =
    cons (TString (acc ++ s)) <$> lex LStart rest.
Proof.
  induction 1 as [|c s Hc _ IH]; intros acc prev rest.
  - rewrite app_nil_r. cbn. by destruct (lex _ rest).
  - cbn [quote_from]. rewrite <-app_assoc, lex_quote_unit, IH by done. by rewrite <-app_assoc.
Qed.

Lemma lex_quote s rest :
  Forall (λ c, c < 0x10000)%N s → lex LStart (quote s ++ rest) = cons (TString s) <$> lex LStart rest.
Proof.
  intros Hs. unfold quote. rewrite <-!app_assoc.
  transitivity (lex (LString []) (quote_from false s ++ [quote_mark] ++ rest)).
  - change ((app [] <$> lex (LString []) (quote_from false s ++ [quote_mark] ++ rest)) = lex (LString []) (quote_from false s ++ [quote_mark] ++ rest)). by destruct (lex _ _).
  - by rewrite lex_quote_from.
Qed.

(** ** Values *)

(** The values the round trip is about: safe integers, strings of 16-bit units, arrays, and
    objects with distinct keys. *)
Definition is_units (s : jsstr) : bool := forallb (λ c, c <? 0x10000)%N s.

Fixpoint plain (v : jsval) : bool :=
  match v with
  | JNull | JBool _ => true
  | JNum (NumInt z) => Z.abs z <=? MAX_SAFE_INTEGER
  | JStr s => is_units s
  | JArr items => forallb plain items
  | JObj fields => bool_decide (NoDup fields.*1) && forallb (λ kv, is_units kv.1 && plain kv.2) fields
  | _ => false
  end.

(** The tokens of a value. *)
Fixpoint tokens (v : jsval) : list token :=
  match v with
  | JStr s => [TString s]
  | JArr items => [TOpenArr] ++ join [TComma] (tokens <$> items) ++ [TCloseArr]
  | JObj fields =>
      [TOpenObj] ++ join [TComma] ((λ kv, [TString kv.1; TColon] ++ tokens kv.2) <$> fields) ++ [TCloseObj]
  | v => [TLeaf v]
  end.

(** What may follow a numeral or a keyword without becoming part of it. *)
Definition ended (rest : jsstr) : Prop :=
  match rest with [] => True | c :: _ => is_number_unit c = false ∧ is_letter c = false end.

Lemma is_units_spec s : is_units s = true ↔ Forall (λ c, c < 0x10000)%N s.
Proof.
  unfold is_units. rewrite forallb_forall, Forall_forall. setoid_rewrite list_elem_of_In.
  by setoid_rewrite N.ltb_lt.
Qed.

Lemma lex_number_rest acc n rest :
  number_of_text acc = Some n → ended rest →
  lex (LNumber acc) rest = cons (TLeaf (JNum n)) <$> lex LStart rest.
Proof.
  intros Hn He. destruct rest as [|c r]; cbn [lex lex_end lex_step]; [by rewrite Hn|].
  destruct He as [-> _]. rewrite Hn. cbn. destruct (lex_start c) as [[st out]|]; [|done].
  cbn. by destruct (lex st r).
Qed.

Lemma lex_word_rest acc v rest :
  keyword acc = Some v → ended rest → lex (LWord acc) rest = cons (TLeaf v) <$> lex LStart rest.
Proof.
  intros Hn He. destruct rest as [|c r]; cbn [lex lex_end lex_step]; [by rewrite Hn|].
  destruct He as [_ ->]. rewrite Hn. cbn. destruct (lex_start c) as [[st out]|]; [|done].
  cbn. by destruct (lex st r).
Qed.

Lemma lex_number_units acc s rest :
  forallb is_number_unit s = true → lex (LNumber acc) (s ++ rest) = lex (LNumber (acc ++ s)) rest.
Proof.
  revert acc. induction s as [|c s IH]; intros acc; cbn [forallb app]; [by rewrite app_nil_r|].
  intros [Hc Hs]%andb_true_iff. cbn [lex lex_step]. rewrite Hc. cbn [mbind option_bind].
  rewrite IH, <-app_assoc by done. by destruct (lex _ rest).
Qed.

Lemma bigint_units z :
  ∃ c r, bigint_toString z = c :: r ∧ is_whitespace c = false ∧ is_digit c || (c =? minus)%N = true ∧
         (c < 0x80)%N ∧ forallb is_number_unit r = true.
Proof.
  assert (∀ s, forallb is_digit s = true → forallb is_number_unit s = true) as Hn.
  { intros s. rewrite !forallb_forall. intros Hs c Hc. unfold is_number_unit. by rewrite (Hs c Hc). }
  unfold bigint_toString. destruct (Z.ltb_spec z 0).
  - exists minus, (decimal (- z)). repeat split. apply Hn, decimal_digits. lia.
  - pose proof (decimal_digits z ltac:(lia)) as Hd. destruct (decimal_not_minus z) as (c & r & E & _); [lia|].
    rewrite E in *. cbn in Hd. apply andb_true_iff in Hd as [Hc Hd]. exists c, r. rewrite Hc.
    repeat split; [..|by apply Hn]; unfold is_digit, is_whitespace in *; lia.
Qed.

Lemma lex_int z rest :
  Z.abs z ≤ MAX_SAFE_INTEGER → ended rest →
  lex LStart (bigint_toString z ++ rest) = cons (TLeaf (JNum (NumInt z))) <$> lex LStart rest.
Proof.
  intros Hz He. pose proof (number_of_text_int z Hz) as Hn.
  destruct (bigint_units z) as (c & r & E & Hw & Hc & _ & Hr). rewrite E in *. cbn [app lex lex_step].
  unfold lex_start at 1. rewrite Hw, Hc. cbn [mbind option_bind].
  rewrite lex_number_units, (lex_number_rest _ (NumInt z)) by done. by destruct (lex _ rest).
Qed.

(** [text] is read as the tokens [ts], whatever delimiter comes after it. *)
Definition lexes_to (text : jsstr) (ts : list token) : Prop :=
  ∀ rest, ended rest → lex LStart (text ++ rest) = app ts <$> lex LStart rest.

(** Punctuation is a token on its own. *)
Lemma lex_punctuation c t rest :
  lex_start c = Some (LStart, [t]) → lex LStart (c :: rest) = cons t <$> lex LStart rest.
Proof. intros Hc. cbn [lex lex_step]. rewrite Hc. cbn. by destruct (lex _ rest). Qed.

Lemma lexes_to_join texts tss :
  Forall2 lexes_to texts tss → lexes_to (join comma texts) (join [TComma] tss).
Proof.
  induction 1 as [|x ts texts tss Hx Hrest IH]; intros rest He.
  { cbn [join app]. by destruct (lex _ rest). }
  destruct Hrest as [|x' ts' texts' tss']; [by apply Hx|].
  change (join comma (x :: x' :: texts')) with (x ++ comma ++ join comma (x' :: texts')).
  change (join [TComma] (ts :: ts' :: tss')) with (ts ++ [TComma] ++ join [TComma] (ts' :: tss')).
  rewrite <-!app_assoc, Hx by done. change (comma ++ ?r) with (44%N :: r).
  rewrite (lex_punctuation 44 TComma) by done. rewrite IH by done.
  destruct (lex _ rest); [|done]. cbn [fmap option_fmap option_map]. by rewrite <-!app_assoc.
Qed.

(** A text between brackets. *)
Lemma lexes_to_bracketed o c topen tclose text ts :
  lex_start o = Some (LStart, [topen]) → lex_start c = Some (LStart, [tclose]) →
  is_number_unit c = false → is_letter c = false → lexes_to text ts →
  lexes_to ([o] ++ text ++ [c]) ([topen] ++ ts ++ [tclose]).
Proof.
  intros Ho Hc H1 H2 Ht rest _. rewrite <-!app_assoc. change ([o] ++ ?r) with (o :: r).
  rewrite (lex_punctuation o topen), Ht by done. change ([c] ++ rest) with (c :: rest).
  rewrite (lex_punctuation c tclose) by done.
  destruct (lex _ rest); [|done]. cbn [fmap option_fmap option_map app]. by rewrite <-!app_assoc.
Qed.

Lemma lexes_to_field k text ts :
  is_units k = true → lexes_to text ts →
  lexes_to (quote k ++ js ":" ++ text) ([TString k; TColon] ++ ts).
Proof.
  intros Hk%is_units_spec Ht rest He. rewrite <-!app_assoc, lex_quote by done.
  change (js ":" ++ ?r) with (58%N :: r). rewrite (lex_punctuation 58 TColon), Ht by done.
  by destruct (lex _ rest).
Qed.

Lemma lexes_to_word w v : 
  (∃ c r, w = c :: r ∧ lex_start c = Some (LWord [c], []) ∧ forallb is_letter r = true) →
  keyword w = Some v → lexes_to w [TLeaf v].
Proof.
  intros (c & r & -> & Hc & Hr) Hv rest He. cbn [app lex lex_step]. rewrite Hc. cbn [mbind option_bind].
  assert (∀ acc, lex (LWord acc) (r ++ rest) = lex (LWord (acc ++ r)) rest) as ->.
  { clear - Hr. induction r as [|d r IH]; intros acc; [by rewrite app_nil_r|].
    cbn in Hr. apply andb_true_iff in Hr as [Hd Hr]. cbn [app lex lex_step]. rewrite Hd.
    cbn [mbind option_bind]. rewrite IH, <-app_assoc by done. by destruct (lex _ rest). }
  cbn [app]. rewrite (lex_word_rest _ v) by done. by destruct (lex _ rest).
Qed.

Definition field_text (kv : jsstr * jsval) : list jsstr :=
  match JSON_stringify kv.2 with Some t => [quote kv.1 ++ js ":" ++ t] | None => [] end.

Lemma JSON_stringify_arr items :
  JSON_stringify (JArr items) =
    Some ([91%N] ++ join comma ((λ x, default (js "null") (JSON_stringify x)) <$> items) ++ [93%N]).
Proof. done. Qed.

Lemma JSON_stringify_obj fields :
  JSON_stringify (JObj fields) = Some ([123%N] ++ join comma (fields ≫= field_text) ++ [125%N]).
Proof. done. Qed.

Lemma stringify_lexes v :
  plain v = true → ∃ text, JSON_stringify v = Some text ∧ lexes_to text (tokens v).
Proof.
  revert v. apply (jsval_nested_ind (λ v, plain v = true →
    ∃ text, JSON_stringify v = Some text ∧ lexes_to text (tokens v))).
  - intros [| |b|n| |s| | | |]; try done; cbn [plain].
    + intros _. eexists; split; [done|]. apply lexes_to_word; [|done]. by eexists _, _.
    + intros _. eexists; split; [done|]. destruct b; (apply lexes_to_word; [by eexists _, _|done]).
    + destruct n as [z| | |]; [|done..]. intros Hz%Z.leb_le. eexists; split; [done|]. cbn [num_text].
      rewrite (proj2 (Z.leb_le _ _)) by done. intros rest He. rewrite lex_int by done. done.
    + intros Hs%is_units_spec. eexists; split; [done|]. intros rest _. by apply lex_quote.
  - intros items IH Hp. rewrite JSON_stringify_arr. eexists; split; [done|]. cbn [tokens].
    apply (lexes_to_bracketed 91 93); [done..|]. apply lexes_to_join.
    cbn [plain] in Hp. induction IH as [|x items Hx _ IH]; [constructor|].
    cbn in Hp. apply andb_true_iff in Hp as [Hpx Hp]. destruct (Hx Hpx) as (text & Ht & Hl).
    rewrite !fmap_cons, Ht. constructor; [done|by apply IH].
  - intros fields IH Hp. rewrite JSON_stringify_obj. eexists; split; [done|]. cbn [tokens].
    apply (lexes_to_bracketed 123 125); [done..|]. apply lexes_to_join.
    cbn [plain] in Hp. apply andb_true_iff in Hp as [_ Hp].
    induction IH as [|[k x] fields Hx _ IH]; [constructor|].
    cbn in Hp. apply andb_true_iff in Hp as [[Hk Hpx]%andb_true_iff Hp]. cbn in Hx.
    destruct (Hx Hpx) as (text & Ht & Hl).
    rewrite fmap_cons, bind_step. unfold field_text at 1. cbn [fst snd]. rewrite Ht.
    constructor; [by apply lexes_to_field|by apply IH].
Qed.

(** ** The parser reads the tokens of a value *)

(** What a complete value does to the enclosing ones is decided by the next token. *)
Definition value_mode (m : mode) : Prop := m = MValue ∨ m = MValueOrEnd.

Lemma set_field_new k v fields : k ∉ fields.*1 → set_field k v fields = fields ++ [(k, v)].
Proof.
  induction fields as [|[k' v'] fields IH]; [done|]. csimpl. intros [H1 H2]%not_elem_of_cons.
  rewrite bool_decide_false by congruence. by rewrite IH.
Qed.

Definition parses (v : jsval) : Prop := ∀ m stack rest,
  value_mode m → parse m stack (tokens v ++ rest) = parse (MAfter v) stack rest.

Lemma parse_items stack items rest : Forall parses items → ∀ x acc,
  parse (MAfter x) (FArr acc :: stack)
    ((items ≫= λ y, TComma :: tokens y) ++ TCloseArr :: rest) =
  parse (MAfter (JArr (acc ++ x :: items))) stack rest.
Proof.
  induction 1 as [|y items Hy _ IH]; intros x acc; [done|].
  rewrite bind_step, <-app_assoc. cbn [app parse parse_step mbind option_bind].
  rewrite Hy, IH by by left. by rewrite <-app_assoc.
Qed.

Lemma parse_fields stack fields rest : Forall (parses ∘ snd) fields → ∀ acc k x,
  NoDup (acc.*1 ++ k :: fields.*1) →
  parse (MAfter x) (FObj acc k :: stack)
    ((fields ≫= λ kv, TComma :: TString kv.1 :: TColon :: tokens kv.2) ++ TCloseObj :: rest) =
  parse (MAfter (JObj (acc ++ (k, x) :: fields))) stack rest.
Proof.
  induction 1 as [|[k' y] fields Hy _ IH]; intros acc k x Hnd.
  - cbn. rewrite set_field_new; [done|]. apply NoDup_app in Hnd. set_solver.
  - rewrite bind_step, <-app_assoc. cbn [app parse parse_step mbind option_bind fst snd].
    assert (k ∉ acc.*1) as Hk by (apply NoDup_app in Hnd; set_solver).
    rewrite (set_field_new k x acc Hk). cbn in Hy. rewrite Hy by by left.
    rewrite IH. { by rewrite <-app_assoc. }
    rewrite fmap_app, <-app_assoc. done.
Qed.

Lemma join_bind {A B} (sep : list A) (f : B → list A) x l :
  join sep (f <$> x :: l) = f x ++ (l ≫= λ y, sep ++ f y).
Proof.
  revert x. induction l as [|y l IH]; intros x; [cbn; by rewrite app_nil_r|].
  change (join sep (f <$> x :: y :: l)) with (f x ++ sep ++ join sep (f <$> y :: l)).
  rewrite IH, bind_step. by rewrite <-!app_assoc.
Qed.

Lemma plain_parses v : plain v = true → parses v.
Proof.
  revert v. apply (jsval_nested_ind (λ v, plain v = true → parses v)).
  - by intros [| | | | | | | | |]; try exact I; intros Hp m stack rest [-> | ->].
  - intros items IH Hp m stack rest Hm. cbn [plain tokens] in *.
    assert (Forall parses items) as Hi.
    { rewrite forallb_forall in Hp. rewrite Forall_forall in IH |- *. intros x Hx. apply IH; [done|].
      by apply Hp, list_elem_of_In. }
    rewrite <-!app_assoc.
    transitivity (parse MValueOrEnd (FArr [] :: stack) (join [TComma] (tokens <$> items) ++ TCloseArr :: rest)).
    { by destruct Hm as [-> | ->]. }
    destruct Hi as [|x items Hx Hi]; [done|].
    rewrite join_bind, <-app_assoc, Hx by by right. by apply (parse_items stack items rest Hi x []).
  - intros fields IH Hp m stack rest Hm. cbn [plain tokens] in *.
    apply andb_true_iff in Hp as [Hnd%bool_decide_eq_true Hp].
    assert (Forall (parses ∘ snd) fields) as Hi.
    { rewrite forallb_forall in Hp. rewrite Forall_forall in IH |- *. intros x Hx. apply IH; [done|].
      apply list_elem_of_In, Hp, andb_true_iff in Hx. by destruct Hx. }
    rewrite <-!app_assoc.
    transitivity (parse (MKey [] true) stack
      (join [TComma] ((λ kv, [TString kv.1; TColon] ++ tokens kv.2) <$> fields) ++ TCloseObj :: rest)).
    { by destruct Hm as [-> | ->]. }
    destruct Hi as [|[k x] fields Hx Hi]; [done|].
    rewrite (join_bind [TComma]), <-app_assoc. cbn [app fst snd parse parse_step mbind option_bind].
    cbn in Hx. rewrite Hx by by left. by apply (parse_fields stack fields rest Hi [] k x).
Qed.

Lemma JSON_round_trip v :
  plain v = true → ∃ text, JSON_stringify v = Some text ∧ JSON_parse text = Some v.
Proof.
  intros Hp. destruct (stringify_lexes v Hp) as (text & Ht & Hl). exists text. split; [done|].
  unfold JSON_parse. pose proof (Hl [] I) as E. rewrite app_nil_r in E. rewrite E. cbn [mbind option_bind lex lex_end fmap option_fmap option_map].
  rewrite (plain_parses v Hp) by by left. done.
Qed.

(** ** A printed value is well-formed UTF-16 *)

(** A piece of text that neither contains nor leaves open a surrogate pair. *)
Definition closed_text (s : jsstr) : Prop :=
  Forall (λ c, c < 0x10000)%N s ∧ next_is_low s = false ∧
  ∀ t, next_is_low t = false → LONE_SURROGATE_PATTERN (s ++ t) = LONE_SURROGATE_PATTERN t.

Lemma closed_nil : closed_text [].
Proof. by repeat split. Qed.

Lemma closed_app s t : closed_text s → closed_text t → closed_text (s ++ t).
Proof.
  intros (U1 & L1 & P1) (U2 & L2 & P2). split; [by apply Forall_app|]. split.
  { by destruct s. }
  intros r Hr. rewrite <-app_assoc, P1; [by apply P2|]. by destruct t.
Qed.

Lemma lone_ascii b c r : (c < 0x80)%N → lone_surrogate_from b (c :: r) = LONE_SURROGATE_PATTERN r.
Proof.
  intros Hc. unfold LONE_SURROGATE_PATTERN. cbn [lone_surrogate_from].
  assert (is_high_surrogate c = false ∧ is_low_surrogate c = false) as [-> ->]; [|done].
  unfold is_high_surrogate, is_low_surrogate. lia.
Qed.

Lemma lone_ascii_app s b r :
  forallb (λ c, c <? 0x80)%N s = true → s ≠ [] → lone_surrogate_from b (s ++ r) = LONE_SURROGATE_PATTERN r.
Proof.
  revert b. induction s as [|c s IH]; intros b; [done|]. cbn [forallb app]. intros [Hc Hs]%andb_true_iff _.
  rewrite lone_ascii by lia. destruct s as [|d s]; [done|]. by apply IH.
Qed.

Lemma closed_ascii s : forallb (λ c, c <? 0x80)%N s = true → closed_text s.
Proof.
  intros Hs. destruct s as [|c s]; [apply closed_nil|]. split; [|split].
  - rewrite forallb_forall in Hs. apply Forall_forall. intros x Hx%list_elem_of_In.
    specialize (Hs x Hx). lia.
  - cbn in Hs |- *. unfold is_low_surrogate. lia.
  - intros t _. by apply (lone_ascii_app (c :: s)).
Qed.

Lemma hex4_ascii c : (c < 0x10000)%N → forallb (λ c, c <? 0x80)%N (hex4 c) = true.
Proof.
  intros Hc. destruct (hex4_value c Hc) as (H1 & H2 & H3 & H4 & _).
  assert (∀ n, n < 16 → (hex_digit n <? 0x80) = true)%N as Hd.
  { intros n Hn. unfold hex_digit. case_match; lia. }
  unfold hex4. cbn [forallb]. by rewrite !Hd.
Qed.

(** Either an ASCII escape, or the unit itself when it is not an unpaired surrogate. *)
Lemma quote_unit_cases b c s :
  (c < 0x10000)%N →
  (forallb (λ d, d <? 0x80)%N (quote_unit b c s) = true ∧ quote_unit b c s ≠ [] ∧
   (next_is_low s = true → is_high_surrogate c = false)) ∨
  (quote_unit b c s = [c] ∧ (is_high_surrogate c = true → next_is_low s = true) ∧
   (is_low_surrogate c = true → b = true)).
Proof.
  intros Hc. unfold quote_unit. destruct (list_find _ short_escapes) as [[i [e letter]]|] eqn:Hf.
  - left. apply list_find_Some in Hf as (Hi & He & _). cbn in He. subst e.
    do 7 (destruct i as [|i]; [by injection Hi as <- <-|]). done.
  - destruct (_ || _) eqn:Hu.
    + left. split; [|split; [done|]]. { unfold unicode_escape. cbn. by apply hex4_ascii. }
      intros Hn. destruct (is_high_surrogate c) eqn:Hh; [|done]. exfalso.
      rewrite Hn in Hu. cbn in Hu. rewrite orb_false_r in Hu. unfold is_high_surrogate in Hh.
      unfold is_low_surrogate in Hu. lia.
    + right. rewrite !orb_false_iff in Hu. destruct Hu as [[_ Hh] Hl]. split; [done|]. split.
      * intros E. rewrite E in Hh. by destruct (next_is_low s).
      * intros E. rewrite E in Hl. by destruct b.
Qed.

Lemma quote_unit_paired c s :
  is_low_surrogate c = true → quote_unit true c s = [c].
Proof.
  intros Hl. unfold quote_unit. destruct (list_find _ short_escapes) as [[i [e letter]]|] eqn:Hf.
  - exfalso. apply list_find_Some in Hf as (Hi & He & _). cbn in He. subst e.
    do 7 (destruct i as [|i]; [by injection Hi as <- <-|]). done.
  - rewrite (low_not_high c Hl), andb_false_r, !orb_false_r.
    replace (c <? 32)%N with false; [done|]. unfold is_low_surrogate in Hl. lia.
Qed.

Lemma quote_from_lone s : Forall (λ c, c < 0x10000)%N s → ∀ b b' t,
  (next_is_low s = true → b' = b) → next_is_low t = false →
  lone_surrogate_from b' (quote_from b s ++ t) = LONE_SURROGATE_PATTERN t.
Proof.
  induction 1 as [|c s Hc _ IH]; intros b b' t Hb Ht; [by apply lone_surrogate_from_not_low|].
  cbn [quote_from]. rewrite <-app_assoc.
  destruct (quote_unit_cases b c s Hc) as [(Ha & Hne & Hh)|(-> & Hh & Hl)].
  - rewrite lone_ascii_app by done. apply IH; [|done]. intros Hn. by rewrite Hh.
  - cbn [app lone_surrogate_from]. rewrite IH by done.
    assert (is_low_surrogate c && negb b' = false) as ->.
    { destruct (is_low_surrogate c) eqn:E; [|done]. by rewrite Hb, Hl. }
    destruct (is_high_surrogate c) eqn:E; [|done]. specialize (Hh eq_refl).
    destruct s as [|d s]; [done|]. cbn in Hh. cbn [quote_from]. rewrite quote_unit_paired by done.
    cbn. by rewrite Hh.
Qed.

Lemma quote_from_units s : Forall (λ c, c < 0x10000)%N s → ∀ b, Forall (λ c, c < 0x10000)%N (quote_from b s).
Proof.
  induction 1 as [|c s Hc _ IH]; intros b; [constructor|]. cbn [quote_from]. apply Forall_app. split; [|done].
  destruct (quote_unit_cases b c s Hc) as [(Ha & _)|(-> & _)]; [|by constructor].
  rewrite forallb_forall in Ha. apply Forall_forall. intros x Hx%list_elem_of_In. specialize (Ha x Hx). lia.
Qed.

Lemma closed_quote s : is_units s = true → closed_text (quote s).
Proof.
  intros Hs%is_units_spec. unfold quote. split; [|split; [done|]].
  - apply Forall_cons. split; [done|]. apply Forall_app. split; [by apply quote_from_units|by constructor].
  - intros t Ht. rewrite <-!app_assoc. unfold LONE_SURROGATE_PATTERN. rewrite (lone_ascii_app [quote_mark]) by done.
    unfold LONE_SURROGATE_PATTERN. rewrite quote_from_lone by done. by apply (lone_ascii_app [quote_mark]).
Qed.

Lemma closed_join l : Forall closed_text l → closed_text (join comma l).
Proof.
  induction 1 as [|x l Hx Hl IH]; [apply closed_nil|].
  destruct l as [|y l]; [done|]. apply closed_app; [done|]. apply closed_app; [by apply closed_ascii|done].
Qed.

Lemma ascii_head (s : jsstr) : forallb (λ c, c <? 0x80)%N s = true → s ≠ [] → ∃ c r, s = c :: r ∧ (c < 0x80)%N.
Proof. destruct s as [|c r]; [done|]. cbn. intros [Hc _]%andb_true_iff _. exists c, r. split; [done|lia]. Qed.

Lemma bigint_ascii z : forallb (λ c, c <? 0x80)%N (bigint_toString z) = true ∧ bigint_toString z ≠ [].
Proof.
  destruct (bigint_units z) as (c & r & -> & _ & _ & Hc & Hr). split; [|done]. cbn.
  apply andb_true_iff. split; [lia|]. rewrite forallb_forall in Hr |- *. intros x Hx. specialize (Hr x Hx).
  unfold is_number_unit, is_digit in Hr. lia.
Qed.

(** Printed text starts with an ASCII character and is closed. *)
Lemma stringify_closed v text :
  plain v = true → JSON_stringify v = Some text →
  closed_text text ∧ ∃ c r, text = c :: r ∧ (c < 0x80)%N.
Proof.
  revert v text. apply (jsval_nested_ind (λ v, ∀ text, plain v = true → JSON_stringify v = Some text →
    closed_text text ∧ ∃ c r, text = c :: r ∧ (c < 0x80)%N)).
  - intros [| |b|n| |s| | | |]; try exact I; intros text Hp [= <-].
    + split; [by apply closed_ascii|]. by apply ascii_head.
    + destruct b; (split; [by apply closed_ascii|by apply ascii_head]).
    + destruct n as [z| | |]; [|done..]. cbn [plain] in Hp. cbn [num_text]. rewrite Hp.
      destruct (bigint_ascii z) as [Ha Hne]. split; [by apply closed_ascii|by apply ascii_head].
    + split; [by apply closed_quote|]. by exists quote_mark, (quote_from false s ++ [quote_mark]).
  - intros items IH text Hp. rewrite JSON_stringify_arr. intros [= <-]. split; [|by eexists _, _].
    cbn [plain] in Hp. apply (closed_app [91%N]); [by apply closed_ascii|].
    apply closed_app; [|by apply closed_ascii]. apply closed_join.
    induction IH as [|x items Hx _ IH]; [constructor|]. cbn in Hp. apply andb_true_iff in Hp as [Hpx Hp].
    rewrite fmap_cons. destruct (stringify_lexes x Hpx) as (t & Ht & _). rewrite Ht.
    constructor; [by apply (Hx t)|by apply IH].
  - intros fields IH text Hp. rewrite JSON_stringify_obj. intros [= <-]. split; [|by eexists _, _].
    cbn [plain] in Hp. apply andb_true_iff in Hp as [_ Hp]. apply (closed_app [123%N]); [by apply closed_ascii|].
    apply closed_app; [|by apply closed_ascii]. apply closed_join.
    induction IH as [|[k x] fields Hx _ IH]; [constructor|].
    cbn in Hp. apply andb_true_iff in Hp as [[Hk Hpx]%andb_true_iff Hp].
    rewrite bind_step. unfold field_text at 1. cbn [fst snd].
    destruct (stringify_lexes x Hpx) as (t & Ht & _). rewrite Ht. constructor; [|by apply IH].
    apply closed_app; [by apply closed_quote|]. apply closed_app; [by apply closed_ascii|]. by apply (Hx t).
Qed.

Lemma closed_well_formed s : closed_text s → well_formed s.
Proof.
  intros (Hu & _ & Hl). split; [done|]. specialize (Hl [] eq_refl). by rewrite app_nil_r in Hl.
Qed.

(** A value, through its JSON text and the UTF-8 bytes of it, and back. *)
Lemma JSON_bytes_round_trip v :
  plain v = true → ∃ text, JSON_stringify v = Some text ∧
    TextDecoder_decode (TextEncoder_encode text) = Some text ∧ JSON_parse text = Some v.
Proof.
  intros Hp. destruct (JSON_round_trip v Hp) as (text & Ht & Hr). exists text. split; [done|]. split; [|done].
  destruct (stringify_closed v text Hp Ht) as [Hc (c & r & -> & Ha)].
  apply TextDecoder_encode; [done|by apply closed_well_formed].
Qed.
