(* ===== verification/Doubles.v ===== *)
(** * Arithmetic on doubles

    The operators on JavaScript numbers that the benchmarks of [bench/] compute with. A number is a
    [jsnum]: a finite double is its exact rational value, so an operation is the exact one on
    rationals followed by [double_pos], the rounding to the nearest double of [JsonText]. The sign of
    zero has no counterpart; no operation here divides by a zero that could be negative.

    What is proved: the order is a total preorder, and antisymmetric on reduced numbers; integers in
    the safe range are added and subtracted exactly; the error of a rounded product, as far as
    [Math.ceil] of a percentage needs it. *)

From S2P Require Import Prelude Text Json JsonText JsonTextSpec.

Local Open Scope Z_scope.

(** ** The order *)

(** [a <= b]; NaN comes after every number, which only matters for sorting. *)
Definition num_leb (a b : jsnum) : bool :=
  match a, b with
  | _, NumNaN => true
  | NumNaN, _ => false
  | NumInfinity true, _ => true
  | _, NumInfinity false => true
  | NumInfinity false, _ => false
  | _, NumInfinity true => false
  | NumInt x, NumInt y => x <=? y
  | NumInt x, NumFrac p q => x * Z.pos q <=? p
  | NumFrac p q, NumInt y => p <=? y * Z.pos q
  | NumFrac p q, NumFrac p' q' => p * Z.pos q' <=? p' * Z.pos q
  end.

Definition is_nan (n : jsnum) : bool := match n with NumNaN => true | _ => false end.

(** [a < b] of the language: false when one is NaN. *)
Definition num_ltb (a b : jsnum) : bool := negb (is_nan a) && negb (is_nan b) && negb (num_leb b a).

(** [a <= b] of the language. *)
Definition num_lteb (a b : jsnum) : bool := negb (is_nan a) && negb (is_nan b) && num_leb a b.

Definition num_le (a b : jsnum) : Prop := num_leb a b = true.
#[export] Instance num_le_dec : RelDecision num_le.
Proof. intros a b. unfold num_le. apply _. Defined.

(** [[...xs].sort((a, b) => a - b)] on numbers other than NaN: the comparator's sign is the order, since
    the difference of two different doubles never rounds to zero. *)
Definition num_sort (xs : list jsnum) : list jsnum := merge_sort num_le xs.

(** ** Arithmetic *)

Definition round_double (p : Z) (q : positive) : jsnum :=
  match p with
  | Z0 => NumInt 0
  | Zpos _ => double_pos p (Z.pos q)
  | Zneg p' => negate_num (double_pos (Zpos p') (Z.pos q))
  end.

Definition fraction (n : jsnum) : option (Z * positive) :=
  match n with NumInt z => Some (z, 1%positive) | NumFrac p q => Some (p, q) | _ => None end.

Definition infinity_of (positive : bool) : jsnum := NumInfinity (negb positive).

Definition num_add (a b : jsnum) : jsnum :=
  match fraction a, fraction b with
  | Some (p, q), Some (p', q') => round_double (p * Z.pos q' + p' * Z.pos q) (q * q')
  | _, _ =>
      match a, b with
      | NumNaN, _ | _, NumNaN => NumNaN
      | NumInfinity s, NumInfinity s' => if Bool.eqb s s' then a else NumNaN
      | NumInfinity _, _ => a
      | _, _ => b
      end
  end.

Definition num_sub (a b : jsnum) : jsnum := num_add a (negate_num b).

(** The sign of a number other than NaN. *)
Definition num_sgn (n : jsnum) : Z :=
  match n with NumInt z => Z.sgn z | NumFrac p _ => Z.sgn p | NumInfinity s => if s then -1 else 1 | NumNaN => 0 end.

Definition num_mul (a b : jsnum) : jsnum :=
  match fraction a, fraction b with
  | Some (p, q), Some (p', q') => round_double (p * p') (q * q')
  | _, _ =>
      if is_nan a || is_nan b || (num_sgn a * num_sgn b =? 0) then NumNaN
      else infinity_of (0 <? num_sgn a * num_sgn b)
  end.

Definition num_div (a b : jsnum) : jsnum :=
  match fraction a, fraction b with
  | Some (p, q), Some (p', q') =>
      if p' =? 0 then if p =? 0 then NumNaN else infinity_of (0 <? p)
      else round_double (Z.sgn p' * p * Z.pos q') (q * Z.to_pos (Z.abs p'))
  | Some _, None => if is_nan b then NumNaN else NumInt 0
  | None, Some _ =>
      if is_nan a then NumNaN
      else infinity_of (0 <? num_sgn a * (if num_sgn b =? 0 then 1 else num_sgn b))
  | None, None => NumNaN
  end.

Definition math_max (a b : jsnum) : jsnum :=
  if is_nan a || is_nan b then NumNaN else if num_leb a b then b else a.
Definition math_min (a b : jsnum) : jsnum :=
  if is_nan a || is_nan b then NumNaN else if num_leb a b then a else b.

(** [Math.ceil]. *)
Definition math_ceil (n : jsnum) : jsnum :=
  match n with NumFrac p q => NumInt (- (- p / Z.pos q)) | _ => n end.

Example arithmetic_examples :
  num_add (NumFrac 3602879701896397 36028797018963968) (NumFrac 3602879701896397 18014398509481984) =
    NumFrac 1351079888211149 4503599627370496 (* 0.1 + 0.2 *) ∧
  num_div (NumInt 1) (NumInt 0) = NumInfinity false ∧ num_div (NumInt (-6)) (NumInt (-4)) = NumFrac 3 2 ∧
  num_mul (NumFrac 7 2) (NumInt 2) = NumInt 7 ∧ math_ceil (NumFrac (-3) 2) = NumInt (-1) ∧
  num_sub (NumInt (2 ^ 53)) (NumInt (-1)) = NumInt (2 ^ 53).
Proof. vm_compute. repeat split. Qed.

(** ** The order is a total preorder *)

#[export] Instance num_le_total : Total num_le.
Proof.
  intros a b. unfold num_le. destruct a as [x|p q| |[]], b as [y|p' q'| |[]]; cbn; auto;
    rewrite !Z.leb_le; lia.
Qed.

#[export] Instance num_le_trans : Transitive num_le.
Proof.
  intros a b c. unfold num_le.
  destruct a as [x|p q| |[]], b as [y|p' q'| |[]], c as [z|p'' q''| |[]]; cbn; try done; rewrite ?Z.leb_le; nia.
Qed.

Lemma num_ltb_spec a b :
  is_nan a = false → is_nan b = false → num_ltb a b = true ↔ num_le a b ∧ ¬ num_le b a.
Proof.
  intros Ha Hb. unfold num_ltb, num_le. rewrite Ha, Hb. cbn. rewrite negb_true_iff.
  destruct (num_le_total a b) as [H|H]; unfold num_le in H; destruct (num_leb b a), (num_leb a b); naive_solver.
Qed.

(** A number in lowest terms; every double is. *)
Definition reduced (n : jsnum) : Prop :=
  match n with NumFrac p q => Z.gcd p (Z.pos q) = 1 ∧ (1 < q)%positive | _ => True end.

Lemma num_le_antisymm a b : reduced a → reduced b → num_le a b → num_le b a → a = b.
Proof.
  assert (∀ x p q, Z.gcd p (Z.pos q) = 1 → x * Z.pos q = p → (1 < q)%positive → False) as Hfrac.
  { intros x p q Hg <- Hq. enough (Z.divide (Z.pos q) 1) as Hd%Z.divide_1_r_nonneg by lia.
    rewrite <-Hg. apply Z.gcd_greatest; [by exists x|done]. }
  unfold num_le, reduced. destruct a as [x|p q| |[]], b as [y|p' q'| |[]]; cbn; try done;
    rewrite ?Z.leb_le; intros Ha Hb H1 H2.
  - f_equal. lia.
  - exfalso. apply (Hfrac x p' q'); [apply Hb|lia|apply Hb].
  - exfalso. apply (Hfrac y p q); [apply Ha|lia|apply Ha].
  - assert (p * Z.pos q' = p' * Z.pos q) as Heq by lia. destruct Ha as [Ha _], Hb as [Hb _].
    assert (Z.divide (Z.pos q) (Z.pos q')) as D1.
    { apply (Z.gauss _ p); [|by rewrite Z.gcd_comm]. exists p'. lia. }
    assert (Z.divide (Z.pos q') (Z.pos q)) as D2.
    { apply (Z.gauss _ p'); [|by rewrite Z.gcd_comm]. exists p. lia. }
    assert (Z.pos q = Z.pos q') as Hq by (apply Z.divide_antisym_nonneg; lia || done).
    injection Hq as ->. f_equal. nia.
Qed.

(** ** Rounding *)

Lemma round_half_even_ge p q z : 0 < q → z * q ≤ p → z ≤ round_half_even p q.
Proof.
  intros Hq Hz. assert (z ≤ p / q) by (apply Z.div_le_lower_bound; lia).
  unfold round_half_even. destruct (_ ?= _); [destruct (Z.even _)|..]; lia.
Qed.

Lemma round_half_even_le p q z : 0 < q → p ≤ z * q → round_half_even p q ≤ z.
Proof.
  intros Hq Hz. pose proof (Z.div_mod p q ltac:(lia)) as Hd. pose proof (Z.mod_pos_bound p q Hq) as Hm.
  unfold round_half_even. destruct (Z.compare_spec (2 * (p mod q)) q); [destruct (Z.even _)|..]; nia.
Qed.

(** [2 ^ e <= p / q] for the binary exponent [e]. *)
Lemma binary_exponent_le p q :
  0 < p → 0 < q → q * 2 ^ Z.max 0 (binary_exponent p q) ≤ p * 2 ^ Z.max 0 (- binary_exponent p q).
Proof.
  intros Hp Hq. destruct (Z.log2_spec p Hp) as [Hp1 _], (Z.log2_spec q Hq) as [_ Hq2].
  pose proof (Z.log2_nonneg p) as Hlp. pose proof (Z.log2_nonneg q) as Hlq.
  unfold binary_exponent. set (k := Z.log2 p - Z.log2 q).
  assert (∀ a b, 0 ≤ a → 0 ≤ b → a - b = k - 1 → q * 2 ^ a ≤ p * 2 ^ b) as Hlow.
  { intros a b Ha Hb Hab. assert (2 ^ a * 2 ^ Z.succ (Z.log2 q) = 2 ^ b * 2 ^ Z.log2 p) as Heq.
    { rewrite <-!Z.pow_add_r by lia. f_equal. unfold k in Hab. lia. }
    assert (0 < 2 ^ a) by (apply Z.pow_pos_nonneg; lia). assert (0 < 2 ^ b) by (apply Z.pow_pos_nonneg; lia).
    nia. }
  destruct (Z.leb_spec 0 k).
  - destruct (Z.ltb_spec p (q * 2 ^ k)).
    + apply Hlow; lia.
    + by rewrite (Z.max_r 0 k), (Z.max_l 0 (- k)), Z.pow_0_r, Z.mul_1_r by lia.
  - destruct (Z.ltb_spec (p * 2 ^ (- k)) q).
    + apply Hlow; lia.
    + by rewrite (Z.max_l 0 k), (Z.max_r 0 (- k)), Z.pow_0_r, Z.mul_1_r by lia.
Qed.

Lemma dyadic_reduced n k : 0 ≤ k → reduced (dyadic n k).
Proof.
  intros Hk. assert (0 < 2 ^ k) as H2 by (apply Z.pow_pos_nonneg; lia). unfold dyadic.
  destruct (Z.eqb_spec (2 ^ k) (Z.gcd n (2 ^ k))) as [|Hne]; [done|].
  assert (0 < Z.gcd n (2 ^ k)) as Hg by (pose proof (Z.gcd_nonneg n (2 ^ k)); pose proof (Z.gcd_eq_0_r n (2 ^ k)); lia).
  destruct (Z.gcd_divide_r n (2 ^ k)) as [c Hc].
  assert (2 ^ k / Z.gcd n (2 ^ k) = c) as Hdiv by (symmetry; apply Z.div_unique_exact; lia).
  assert (0 < c) by nia. assert (c ≠ 1) by (intros ->; lia).
  cbn. rewrite Z2Pos.id by lia. split; [|lia]. apply Z.gcd_div_gcd; lia.
Qed.

Lemma double_pos_reduced p q : reduced (double_pos p q).
Proof.
  unfold double_pos. destruct (scaled _ _ _) as [p' q']. destruct (Z.leb_spec 0 (Z.max (binary_exponent p q - 52) (-1074))).
  - by destruct (_ <? _).
  - apply dyadic_reduced. lia.
Qed.

(** Whatever the program computes is in lowest terms. *)
Lemma round_double_reduced p q : reduced (round_double p q).
Proof.
  destruct p as [|p|p]; [done|apply double_pos_reduced|]. cbn.
  pose proof (double_pos_reduced (Z.pos p) (Z.pos q)) as H.
  destruct (double_pos _ _) as [|p' q'| |]; [done| |done..]. cbn in *. by rewrite Z.gcd_opp_l.
Qed.

Lemma math_ceil_dyadic n k : 0 ≤ k → math_ceil (dyadic n k) = NumInt (- (- n / 2 ^ k)).
Proof.
  intros Hk. assert (0 < 2 ^ k) as H2 by (apply Z.pow_pos_nonneg; lia). unfold dyadic.
  assert (0 < Z.gcd n (2 ^ k)) as Hg by (pose proof (Z.gcd_nonneg n (2 ^ k)); pose proof (Z.gcd_eq_0_r n (2 ^ k)); lia).
  destruct (Z.gcd_divide_r n (2 ^ k)) as [c Hc], (Z.gcd_divide_l n (2 ^ k)) as [d Hd].
  assert (n / Z.gcd n (2 ^ k) = d) as Hn by (symmetry; apply Z.div_unique_exact; lia).
  assert (2 ^ k / Z.gcd n (2 ^ k) = c) as Hq by (symmetry; apply Z.div_unique_exact; lia).
  assert (0 < c) by nia.
  assert (- n / 2 ^ k = - d / c) as ->.
  { rewrite Hc, Hd, <-Z.mul_opp_l at 1. apply Z.div_mul_cancel_r; lia. }
  destruct (Z.eqb_spec (2 ^ k) (Z.gcd n (2 ^ k))).
  - cbn. rewrite Hn. assert (c = 1) as -> by nia. by rewrite Z.div_1_r, Z.opp_involutive.
  - cbn. by rewrite Hn, Hq, Z2Pos.id by lia.
Qed.

(** The ceiling of a rounded quotient up to [2 ^ 32] that is at most the integer [k] and not within
    [1/256] of [k - 1]. *)
Lemma math_ceil_double_pos p q k :
  0 < p → 0 < q → k ≤ 2 ^ 32 → p ≤ k * q → (256 * (k - 1) + 1) * q ≤ 256 * p →
  math_ceil (double_pos p q) = NumInt k.
Proof.
  intros Hp Hq Hk Hup Hlo. pose proof (binary_exponent_le p q Hp Hq) as He.
  unfold double_pos. set (e := binary_exponent p q) in *.
  assert (e ≤ 32) as He32.
  { destruct (Z.le_gt_cases e 32); [done|]. rewrite Z.max_r, Z.max_l, Z.pow_0_r in He by lia.
    assert (2 ^ 33 ≤ 2 ^ e) by (apply Z.pow_le_mono_r; lia). nia. }
  set (u := Z.max (e - 52) (-1074)). assert (20 ≤ - u) as Hu by lia. unfold scaled.
  destruct (Z.leb_spec 0 u); [lia|]. rewrite math_ceil_dyadic by lia. f_equal.
  assert (2 ^ (- u) = 2 ^ (- u - 8) * 256) as E8.
  { change 256 with (2 ^ 8). rewrite <-Z.pow_add_r by lia. f_equal. lia. }
  assert (0 < 2 ^ (- u - 8)) by (apply Z.pow_pos_nonneg; lia).
  set (n := round_half_even _ _).
  assert (n ≤ k * 2 ^ (- u)) by (apply round_half_even_le; nia).
  assert ((k - 1) * 2 ^ (- u) + 1 ≤ n) by (apply round_half_even_ge; nia).
  rewrite <-(Z.div_unique (- n) (2 ^ (- u)) (- k) (k * 2 ^ (- u) - n)); [lia|left; nia|nia].
Qed.

(** ** Integers *)

Lemma round_double_int z : Z.abs z ≤ MAX_SAFE_INTEGER → round_double z 1 = NumInt z.
Proof. intros Hz. destruct z as [|p|p]; cbn [round_double]; [done|..]; rewrite double_pos_int by lia; done. Qed.

Lemma num_add_int a b :
  Z.abs (a + b) ≤ MAX_SAFE_INTEGER → num_add (NumInt a) (NumInt b) = NumInt (a + b).
Proof. intros H. unfold num_add. cbn [fraction]. rewrite !Z.mul_1_r. by apply round_double_int. Qed.

Lemma num_sub_int a b :
  Z.abs (a - b) ≤ MAX_SAFE_INTEGER → num_sub (NumInt a) (NumInt b) = NumInt (a - b).
Proof. intros H. unfold num_sub. cbn [negate_num]. by rewrite num_add_int by lia. Qed.

Lemma math_max_int a b : math_max (NumInt a) (NumInt b) = NumInt (Z.max a b).
Proof. unfold math_max. cbn. destruct (Z.leb_spec a b); f_equal; lia. Qed.

Lemma math_min_int a b : math_min (NumInt a) (NumInt b) = NumInt (Z.min a b).
Proof. unfold math_min. cbn. destruct (Z.leb_spec a b); f_equal; lia. Qed.

(** [Math.ceil((p / 100) * n)] is the exact ceiling for the three percentages in use and any length
    an array can have, although [p / 100] is not exact. *)
Lemma ceil_percentage p n :
  p ∈ [50; 95; 99] → 1 ≤ n < 2 ^ 32 →
  math_ceil (num_mul (num_div (NumInt p) (NumInt 100)) (NumInt n)) = NumInt ((p * n + 99) / 100).
Proof.
  intros Hp Hn. assert (∃ m d, num_div (NumInt p) (NumInt 100) = NumFrac m d ∧ 0 < m ∧
    100 * m ≤ p * Z.pos d ∧ 2 ^ 33 * (p * Z.pos d - 100 * m) ≤ Z.pos d ∧ 0 < p ≤ 100) as (m & d & -> & Hm & H1 & H2 & Hp').
  { apply list_elem_of_In in Hp. cbn in Hp. destruct Hp as [<-|[<-|[<-|[]]]];
      (eexists _, _; split; [vm_compute; reflexivity|]; vm_compute; repeat split; (reflexivity || discriminate)). }
  unfold num_mul. cbn [fraction]. rewrite Pos.mul_1_r.
  assert (0 < m * n) as Hmn by nia. destruct (m * n) as [|r|r] eqn:Er; [lia| |lia].
  cbn [round_double]. rewrite <-Er. set (k := (p * n + 99) / 100).
  pose proof (Z.div_mod (p * n + 99) 100 ltac:(lia)) as Hd.
  pose proof (Z.mod_pos_bound (p * n + 99) 100 ltac:(lia)) as Hr.
  apply math_ceil_double_pos; [lia|lia| |nia|].
  - unfold k. apply Z.div_le_upper_bound; nia.
  - fold k in Hd. nia.
Qed.
