(* ===== verification/ChainArchive.v ===== *)
(** * The chain archive: tables and writes

    Models the tables, constraints and triggers of
    [src/postgres/migrations/chain_archive/001_chain_archive_core.ts], the records of
    [src/interfaces/chain-archive-store.ts] and the writing methods of
    [src/postgres/chain-archive-store.ts]. A constraint is a check made by the statement that
    could violate it, in the order PostgreSQL makes them: the [BEFORE] triggers, the [CHECK]s by
    name, the arbiter index of [ON CONFLICT], the other unique indexes, the foreign keys. *)

From S2P Require Import Prelude Text Json Errors Transaction Driver Hex.
From S2P Require Import Checkpoint.

Local Open Scope Z_scope.

(** ** Data *)

Inductive BlobRole :=
  | role_block_header | role_block_body | role_tx_raw | role_proof | role_verifier_key
  | role_bridge_observation.

Inductive BlockStatus := status_seen | status_canonical | status_orphaned | status_pruned.

Inductive TransactionKind := kind_regular | kind_system.

Inductive TransactionResult := result_success | result_partial_success | result_failure.

Inductive BridgeObservationKind :=
  | cnight_registration | system_parameters_d | spo_registration | other_observation.

Inductive VerifierKeyScope := scope_protocol | scope_contract.

#[export] Instance BlobRole_eq_dec : EqDecision BlobRole.
Proof. solve_decision. Defined.
#[export] Instance BlockStatus_eq_dec : EqDecision BlockStatus.
Proof. solve_decision. Defined.
#[export] Instance VerifierKeyScope_eq_dec : EqDecision VerifierKeyScope.
Proof. solve_decision. Defined.

Definition BlobRole_code (r : BlobRole) : nat :=
  match r with
  | role_block_header => 0 | role_block_body => 1 | role_tx_raw => 2 | role_proof => 3
  | role_verifier_key => 4 | role_bridge_observation => 5
  end.
Definition BlobRole_decode (n : nat) : option BlobRole :=
  [role_block_header; role_block_body; role_tx_raw; role_proof; role_verifier_key;
   role_bridge_observation] !! n.
#[export] Program Instance BlobRole_countable : Countable BlobRole :=
  inj_countable BlobRole_code BlobRole_decode _.
Next Obligation. by intros []. Qed.
#[export] Program Instance VerifierKeyScope_countable : Countable VerifierKeyScope :=
  inj_countable' (λ s, match s with scope_protocol => false | scope_contract => true end)
    (λ b, if b then scope_contract else scope_protocol) _.
Next Obligation. by intros []. Qed.

(** The role a [text] value names: [chain_blob_roles.role]'s CHECK. *)
Definition role_of_text (s : jsstr) : option BlobRole :=
  if decide (s = js "block_header") then Some role_block_header
  else if decide (s = js "block_body") then Some role_block_body
  else if decide (s = js "tx_raw") then Some role_tx_raw
  else if decide (s = js "proof") then Some role_proof
  else if decide (s = js "verifier_key") then Some role_verifier_key
  else if decide (s = js "bridge_observation") then Some role_bridge_observation
  else None.

Record BlockRecord := {
  br_net : jsstr;
  br_blockHash : jsstr;
  br_height : jsnum;
  br_parentHash : jsstr;
  br_stateRoot : jsstr;
  br_extrinsicsRoot : jsstr;
  br_author : option jsstr;
  br_headerBytes : bytes;
  br_bodyBytes : option bytes;
  br_isCanonical : bool;
  br_status : BlockStatus;
  br_finalized : bool;
}.

Record TransactionRecord := {
  tr_net : jsstr;
  tr_txHash : jsstr;
  tr_blockHeight : jsnum;
  tr_blockHash : jsstr;
  tr_position : jsnum;
  tr_kind : TransactionKind;
  tr_protocolVersion : jsnum;
  tr_result : option TransactionResult;
  tr_rawBytes : bytes;
}.

Record BridgeObservationRecord := {
  bo_net : jsstr;
  bo_blockHeight : jsnum;
  bo_blockHash : jsstr;
  bo_observationIndex : jsnum;
  bo_kind : BridgeObservationKind;
  bo_rawBytes : bytes;
}.

Record BlockBundle := {
  bb_block : BlockRecord;
  bb_transactions : list TransactionRecord;
  bb_bridgeObservations : list BridgeObservationRecord;
}.

Record VerifierKeyObservationRecord := {
  vk_vkBytes : bytes;
  vk_net : jsstr;
  vk_scope : VerifierKeyScope;
  vk_tag : jsstr;
  vk_contractAddress : option jsstr;
  vk_firstSeenHeight : jsnum;
}.

(** ** Tables *)

(** [(net, height, block_hash)]. *)
Abbreviation BlockKey := (jsstr * Z * bytes)%type.

Record BlockRow := {
  b_parent_hash : bytes;
  b_state_root : bytes;
  b_extrinsics_root : bytes;
  b_author : option bytes;
  b_header_blob_hash : bytes;
  b_body_blob_hash : option bytes;
  b_is_canonical : bool;
  b_status : BlockStatus;
  b_finalized : bool;
}.

Record TxRow := {
  t_position : Z;
  t_kind : TransactionKind;
  t_protocol_version : Z;
  t_result : option TransactionResult;
  t_raw_blob_hash : bytes;
}.

Record BridgeRow := { o_kind : BridgeObservationKind; o_raw_blob_hash : bytes }.

(** [UNIQUE NULLS NOT DISTINCT (vk_hash, net, scope, contract_address, tag)]. *)
Abbreviation VkKey := (bytes * jsstr * VerifierKeyScope * option bytes * jsstr)%type.

Record ArchiveDb := {
  chain_blobs : gmap bytes bytes;
  chain_blob_roles : gset (bytes * BlobRole);
  blocks : gmap BlockKey BlockRow;
  transactions : gmap (BlockKey * bytes) TxRow;
  bridge_observations : gmap (BlockKey * Z) BridgeRow;
  verifier_key_observations : gmap VkKey Z;
  archive_watermarks : gmap jsstr jsval;
}.

Definition empty_archive : ArchiveDb :=
  {| chain_blobs := ∅; chain_blob_roles := ∅; blocks := ∅; transactions := ∅;
     bridge_observations := ∅; verifier_key_observations := ∅; archive_watermarks := ∅ |}.

Definition with_blobs f db := {| chain_blobs := f (chain_blobs db);
  chain_blob_roles := chain_blob_roles db; blocks := blocks db; transactions := transactions db;
  bridge_observations := bridge_observations db;
  verifier_key_observations := verifier_key_observations db;
  archive_watermarks := archive_watermarks db |}.
Definition with_roles f db := {| chain_blobs := chain_blobs db;
  chain_blob_roles := f (chain_blob_roles db); blocks := blocks db; transactions := transactions db;
  bridge_observations := bridge_observations db;
  verifier_key_observations := verifier_key_observations db;
  archive_watermarks := archive_watermarks db |}.
Definition with_blocks f db := {| chain_blobs := chain_blobs db;
  chain_blob_roles := chain_blob_roles db; blocks := f (blocks db); transactions := transactions db;
  bridge_observations := bridge_observations db;
  verifier_key_observations := verifier_key_observations db;
  archive_watermarks := archive_watermarks db |}.
Definition with_transactions f db := {| chain_blobs := chain_blobs db;
  chain_blob_roles := chain_blob_roles db; blocks := blocks db; transactions := f (transactions db);
  bridge_observations := bridge_observations db;
  verifier_key_observations := verifier_key_observations db;
  archive_watermarks := archive_watermarks db |}.
Definition with_observations f db := {| chain_blobs := chain_blobs db;
  chain_blob_roles := chain_blob_roles db; blocks := blocks db; transactions := transactions db;
  bridge_observations := f (bridge_observations db);
  verifier_key_observations := verifier_key_observations db;
  archive_watermarks := archive_watermarks db |}.
Definition with_vk f db := {| chain_blobs := chain_blobs db;
  chain_blob_roles := chain_blob_roles db; blocks := blocks db; transactions := transactions db;
  bridge_observations := bridge_observations db;
  verifier_key_observations := f (verifier_key_observations db);
  archive_watermarks := archive_watermarks db |}.
Definition with_watermarks f db := {| chain_blobs := chain_blobs db;
  chain_blob_roles := chain_blob_roles db; blocks := blocks db; transactions := transactions db;
  bridge_observations := bridge_observations db;
  verifier_key_observations := verifier_key_observations db;
  archive_watermarks := f (archive_watermarks db) |}.

(** ** Constraints *)

Definition check_constraint (name : string) (ok : bool) : result thrown unit :=
  if ok then Ok tt
  else Err (pg_error "23514" "new row violates check constraint" (Some name)).

Definition unique_index (name : string) (free : bool) : result thrown unit :=
  if free then Ok tt
  else Err (pg_error "23505" "duplicate key value violates unique constraint" (Some name)).

Definition foreign_key (name : string) (found : bool) : result thrown unit :=
  if found then Ok tt
  else Err (pg_error "23503" "insert or update violates foreign key constraint" (Some name)).

Definition is_32 (b : bytes) : bool := (length b =? 32)%nat.

Definition has_blob (db : ArchiveDb) (h : bytes) : bool := bool_decide (is_Some (chain_blobs db !! h)).
Definition has_role (db : ArchiveDb) (h : bytes) (r : BlobRole) : bool :=
  bool_decide ((h, r) ∈ chain_blob_roles db).
Definition has_block (db : ArchiveDb) (k : BlockKey) : bool := bool_decide (is_Some (blocks db !! k)).

(** [chain_archive_assert_blob_role]: a [NULL] reference passes. *)
Definition chain_archive_assert_blob_role (db : ArchiveDb) (h : option bytes) (r : BlobRole)
    : result thrown unit :=
  match h with
  | None => Ok tt
  | Some h =>
      if has_role db h r then Ok tt
      else Err (pg_error "23514" "blob has no chain_blob_roles row for role"
                  (Some "chain_blob_roles_completeness"%string))
  end.

(** A nullable reference to [chain_blobs(hash)]. *)
Definition blob_reference (name : string) (db : ArchiveDb) (h : option bytes) : result thrown unit :=
  foreign_key name (match h with None => true | Some h => has_blob db h end).

(** A number bound to an integer column: what is not an integer literal of the type is refused;
    from [1e21] on a number's text is in exponent notation. *)
Definition bind_int (max : Z) (n : jsnum) : result thrown Z :=
  match n with
  | NumInt z =>
      if (- max - 1 <=? z) && (z <=? max) then Ok z
      else if Z.abs z <? 10 ^ 21
      then Err (pg_error "22003" "value is out of range for type" None)
      else Err (pg_error "22P02" "invalid input syntax for type" None)
  | _ => Err (pg_error "22P02" "invalid input syntax for type" None)
  end.
Definition POSTGRES_INTEGER_MAX : Z := 2147483647.
Definition bind_bigint (n : jsnum) : result thrown Z := bind_int POSTGRES_BIGINT_MAX n.
Definition bind_integer (n : jsnum) : result thrown Z := bind_int POSTGRES_INTEGER_MAX n.
Arguments bind_bigint : simpl never.
Arguments bind_integer : simpl never.

Lemma bind_int_ok max n z : bind_int max n = Ok z → n = NumInt z ∧ - max - 1 ≤ z ≤ max.
Proof. destruct n; cbn; [|done..]. repeat case_match; intros [= <-]. bool_to_prop. split; [done|lia]. Qed.

Lemma bind_bigint_ok n z : bind_bigint n = Ok z → n = NumInt z.
Proof. by intros []%bind_int_ok. Qed.

Lemma bind_integer_ok n z : bind_integer n = Ok z → n = NumInt z.
Proof. by intros []%bind_int_ok. Qed.

(** ** Statements on the blob pool *)

Definition sha256Hex `{!Sha256} (data : bytes) : jsstr := bufToHex (sha256 data).

(** [INSERT INTO chain_blobs .. ON CONFLICT (hash) DO NOTHING]. *)
Definition insert_blob (hash data : bytes) : act ArchiveDb unit :=
  statement (λ db,
    _ ← check_constraint "chain_blobs_hash_check" (is_32 hash);
    Ok (tt, if has_blob db hash then db else with_blobs <[hash := data]> db)).

(** [INSERT INTO chain_blob_roles .. ON CONFLICT (blob_hash, role) DO NOTHING]. *)
Definition insert_role (hash : bytes) (role : jsstr) : act ArchiveDb unit :=
  statement (λ db,
    match role_of_text role with
    | None => _ ← check_constraint "chain_blob_roles_role_check" false; Ok (tt, db)
    | Some r =>
        if has_role db hash r then Ok (tt, db)
        else
          _ ← foreign_key "chain_blob_roles_blob_hash_fkey" (has_blob db hash);
          Ok (tt, with_roles (union {[(hash, r)]}) db)
    end).

(** ** Triggers *)

Definition blocks_check_blob_roles (db : ArchiveDb) (row : BlockRow) : result thrown unit :=
  _ ← chain_archive_assert_blob_role db (Some (b_header_blob_hash row)) role_block_header;
  chain_archive_assert_blob_role db (b_body_blob_hash row) role_block_body.

Definition transactions_check_blob_roles (db : ArchiveDb) (row : TxRow) : result thrown unit :=
  chain_archive_assert_blob_role db (Some (t_raw_blob_hash row)) role_tx_raw.

Definition bridge_observations_check_blob_roles (db : ArchiveDb) (row : BridgeRow)
    : result thrown unit :=
  chain_archive_assert_blob_role db (Some (o_raw_blob_hash row)) role_bridge_observation.

Definition verifier_key_observations_check_blob_roles (db : ArchiveDb) (vk_hash : bytes)
    : result thrown unit :=
  chain_archive_assert_blob_role db (Some vk_hash) role_verifier_key.

Definition blocks_enforce_finalized_monotonic (old new : BlockRow) : result thrown unit :=
  if b_finalized old && negb (b_finalized new)
  then Err (pg_error "23514" "cannot un-finalize block" (Some "blocks_finalized_monotonic"%string))
  else Ok tt.

(** [CASE p_role WHEN .. THEN EXISTS (..)]: is some live row relying on this role of the blob? *)
Definition role_in_use (db : ArchiveDb) (h : bytes) (r : BlobRole) : bool :=
  match r with
  | role_block_header =>
      existsb (λ kr : BlockKey * BlockRow, bool_decide (b_header_blob_hash kr.2 = h))
        (map_to_list (blocks db))
  | role_block_body =>
      existsb (λ kr : BlockKey * BlockRow, bool_decide (b_body_blob_hash kr.2 = Some h))
        (map_to_list (blocks db))
  | role_tx_raw =>
      existsb (λ kr : (BlockKey * bytes) * TxRow, bool_decide (t_raw_blob_hash kr.2 = h))
        (map_to_list (transactions db))
  | role_bridge_observation =>
      existsb (λ kr : (BlockKey * Z) * BridgeRow, bool_decide (o_raw_blob_hash kr.2 = h))
        (map_to_list (bridge_observations db))
  | role_verifier_key =>
      existsb (λ kr : VkKey * Z, bool_decide (kr.1.1.1.1.1 = h))
        (map_to_list (verifier_key_observations db))
  | role_proof => false
  end.

Definition chain_archive_assert_role_removable (db : ArchiveDb) (h : bytes) (r : BlobRole)
    : result thrown unit :=
  if role_in_use db h r
  then Err (pg_error "23514" "cannot remove/change chain_blob_roles row: still referenced by a live row"
              (Some "chain_blob_roles_removal_guard"%string))
  else Ok tt.

(** [chain_blob_roles_guard_removal] on the one row an administrator deletes ([new] is [None]) or
    updates. *)
Definition chain_blob_roles_guard_removal (db : ArchiveDb) (old : bytes * BlobRole)
    (new : option (bytes * BlobRole)) : result thrown unit :=
  match new with
  | None => chain_archive_assert_role_removable db old.1 old.2
  | Some n =>
      if bool_decide (n = old) then Ok tt else chain_archive_assert_role_removable db old.1 old.2
  end.

(** [DELETE FROM chain_blob_roles] and [UPDATE chain_blob_roles SET blob_hash, role] on one row, as
    any client may issue them. *)
Definition delete_role (old : bytes * BlobRole) : act ArchiveDb unit :=
  statement (λ db,
    if has_role db old.1 old.2 then
      _ ← chain_blob_roles_guard_removal db old None;
      Ok (tt, with_roles (λ roles, roles ∖ {[old]}) db)
    else Ok (tt, db)).

Definition update_role (old new : bytes * BlobRole) : act ArchiveDb unit :=
  statement (λ db,
    if has_role db old.1 old.2 then
      _ ← chain_blob_roles_guard_removal db old (Some new);
      if bool_decide (new = old) then Ok (tt, db)
      else
        _ ← unique_index "chain_blob_roles_pkey" (negb (has_role db new.1 new.2));
        _ ← foreign_key "chain_blob_roles_blob_hash_fkey" (has_blob db new.1);
        Ok (tt, with_roles (λ roles, {[new]} ∪ roles ∖ {[old]}) db)
    else Ok (tt, db)).

(** ** Statements on [blocks], [transactions] and [bridge_observations] *)

(** The CHECKs of [blocks], by name. *)
Definition check_block (k : BlockKey) (row : BlockRow) : result thrown unit :=
  _ ← check_constraint "blocks_block_hash_check" (is_32 k.2);
  _ ← check_constraint "blocks_check"
        (Bool.eqb (bool_decide (b_status row = status_canonical)) (b_is_canonical row));
  _ ← check_constraint "blocks_check1" (negb (b_finalized row) || b_is_canonical row);
  _ ← check_constraint "blocks_extrinsics_root_check" (is_32 (b_extrinsics_root row));
  _ ← check_constraint "blocks_height_check" (0 <=? k.1.2);
  _ ← check_constraint "blocks_parent_hash_check" (is_32 (b_parent_hash row));
  check_constraint "blocks_state_root_check" (is_32 (b_state_root row)).

(** The rows of [blocks] at a height, and the index [blocks_one_canonical_per_height]. *)
Definition at_height (net : jsstr) (height : Z) (k : BlockKey) : bool :=
  bool_decide (k.1 = (net, height)).
Definition other_canonical (db : ArchiveDb) (k : BlockKey) : bool :=
  existsb (λ kr : BlockKey * BlockRow,
      at_height k.1.1 k.1.2 kr.1 && negb (bool_decide (kr.1 = k)) && b_is_canonical kr.2)
    (map_to_list (blocks db)).

(** [INSERT INTO blocks .. ON CONFLICT (net, height, block_hash) DO NOTHING]. *)
Definition insert_block (k : BlockKey) (row : BlockRow) : act ArchiveDb unit :=
  statement (λ db,
    _ ← blocks_check_blob_roles db row;
    _ ← check_block k row;
    if has_block db k then Ok (tt, db)
    else
      _ ← unique_index "blocks_one_canonical_per_height"
            (negb (b_is_canonical row && other_canonical db k));
      _ ← blob_reference "blocks_header_blob_hash_fkey" db (Some (b_header_blob_hash row));
      _ ← blob_reference "blocks_body_blob_hash_fkey" db (b_body_blob_hash row);
      Ok (tt, with_blocks <[k := row]> db)).

Definition check_transaction (k : BlockKey * bytes) (row : TxRow) : result thrown unit :=
  _ ← check_constraint "transactions_block_hash_check" (is_32 k.1.2);
  _ ← check_constraint "transactions_block_height_check" (0 <=? k.1.1.2);
  _ ← check_constraint "transactions_position_check" (0 <=? t_position row);
  _ ← check_constraint "transactions_protocol_version_check" (0 <=? t_protocol_version row);
  check_constraint "transactions_tx_hash_check" (is_32 k.2).

(** [UNIQUE (net, block_height, block_hash, position)]. *)
Definition position_taken (table : gmap (BlockKey * bytes) TxRow) (bk : BlockKey) (position : Z)
    : bool :=
  existsb (λ kr : (BlockKey * bytes) * TxRow,
      bool_decide (kr.1.1 = bk) && (t_position kr.2 =? position))
    (map_to_list table).

(** [INSERT INTO transactions .. ON CONFLICT DO NOTHING]: a conflict on either unique constraint
    drops the row. *)
Definition insert_transaction (k : BlockKey * bytes) (row : TxRow) : act ArchiveDb unit :=
  statement (λ db,
    _ ← transactions_check_blob_roles db row;
    _ ← check_transaction k row;
    if bool_decide (is_Some (transactions db !! k)) || position_taken (transactions db) k.1 (t_position row)
    then Ok (tt, db)
    else
      _ ← foreign_key "transactions_net_block_height_block_hash_fkey" (has_block db k.1);
      _ ← blob_reference "transactions_raw_blob_hash_fkey" db (Some (t_raw_blob_hash row));
      Ok (tt, with_transactions <[k := row]> db)).

Definition check_observation (k : BlockKey * Z) : result thrown unit :=
  _ ← check_constraint "bridge_observations_block_hash_check" (is_32 k.1.2);
  _ ← check_constraint "bridge_observations_block_height_check" (0 <=? k.1.1.2);
  check_constraint "bridge_observations_observation_index_check" (0 <=? k.2).

(** [INSERT INTO bridge_observations .. ON CONFLICT (.., observation_index) DO NOTHING]. *)
Definition insert_observation (k : BlockKey * Z) (row : BridgeRow) : act ArchiveDb unit :=
  statement (λ db,
    _ ← bridge_observations_check_blob_roles db row;
    _ ← check_observation k;
    if bool_decide (is_Some (bridge_observations db !! k)) then Ok (tt, db)
    else
      _ ← foreign_key "bridge_observations_net_block_height_block_hash_fkey" (has_block db k.1);
      _ ← blob_reference "bridge_observations_raw_blob_hash_fkey" db (Some (o_raw_blob_hash row));
      Ok (tt, with_observations <[k := row]> db)).

(** The CHECKs of [verifier_key_observations], by name. *)
Definition check_vk (k : VkKey) (firstSeen : Z) : result thrown unit :=
  _ ← check_constraint "verifier_key_observations_check"
        (Bool.eqb (bool_decide (k.1.1.2 = scope_contract)) (bool_decide (is_Some k.1.2)));
  check_constraint "verifier_key_observations_first_seen_height_check" (0 <=? firstSeen).

(** [INSERT INTO verifier_key_observations .. ON CONFLICT .. DO UPDATE SET first_seen_height =
    LEAST(first_seen_height, EXCLUDED.first_seen_height)]. *)
Definition upsert_vk (k : VkKey) (firstSeen : Z) : act ArchiveDb unit :=
  statement (λ db,
    _ ← verifier_key_observations_check_blob_roles db k.1.1.1.1;
    _ ← check_vk k firstSeen;
    match verifier_key_observations db !! k with
    | Some h => Ok (tt, with_vk <[k := Z.min h firstSeen]> db)
    | None =>
        _ ← blob_reference "verifier_key_observations_vk_hash_fkey" db (Some k.1.1.1.1);
        Ok (tt, with_vk <[k := firstSeen]> db)
    end).
