(* ===== verification/ChainArchiveStore.v ===== *)
(** * The chain archive: [PgChainArchiveStore]

    Models the methods of [src/postgres/chain-archive-store.ts] over the statements of
    [ChainArchive]: the shared row inserts, the transactional puts, the canonical flip, the reads
    with their row conversions, and the watermark with its monotone guard. [sql.begin] is
    [sql_begin] of [Transaction]; a statement issued outside it is its own transaction. *)

From S2P Require Import Prelude Text Json Errors Transaction Driver Hex.
From S2P Require Import Checkpoint.
From S2P Require Import ChainArchive.

Local Open Scope Z_scope.

(** [assertHex32]. *)
Definition assertHex32 (value : jsstr) (field : string) : result thrown unit :=
  if Hex32Schema value then Ok tt
  else Err (ValidationError ("PgChainArchiveStore." +:+ field) "" "expected 64 lowercase hex chars").

(** [x ? hexToBuf(x) : null] on an optional string: the empty string is falsy. *)
Definition truthy_hexToBuf (s : option jsstr) : option bytes :=
  match s with Some ((_ :: _) as s) => Some (hexToBuf s) | _ => None end.

(** [translatePostgresError(err)] in a [catch]. *)
Definition translated {S A} (m : act S A) : act S A := rethrow (λ e, translatePostgresError e None) m.

(** ** Row conversions *)

Record BlockMeta := {
  bm_net : jsstr;
  bm_blockHash : jsstr;
  bm_height : Z;
  bm_parentHash : jsstr;
  bm_stateRoot : jsstr;
  bm_extrinsicsRoot : jsstr;
  bm_author : option jsstr;
  bm_headerBlobHash : jsstr;
  bm_bodyBlobHash : option jsstr;
  bm_isCanonical : bool;
  bm_status : BlockStatus;
  bm_finalized : bool;
}.

Record TransactionMeta := {
  tm_net : jsstr;
  tm_txHash : jsstr;
  tm_blockHeight : Z;
  tm_blockHash : jsstr;
  tm_position : Z;
  tm_kind : TransactionKind;
  tm_protocolVersion : Z;
  tm_result : option TransactionResult;
  tm_rawBlobHash : jsstr;
}.

(** [Number(b)] of a [bigint]: the nearest double, ties to even. *)
Definition number_of_bigint (z : Z) : Z :=
  if Z.abs z <=? 2 ^ 53 then z
  else
    let ulp := 2 ^ (Z.log2 (Z.abs z) - 52) in
    let q := Z.abs z / ulp in
    let r := 2 * (Z.abs z mod ulp) in
    Z.sgn z * (if (r <? ulp) || ((r =? ulp) && Z.even q) then q else q + 1) * ulp.

Definition toBlockMeta (kr : BlockKey * BlockRow) : BlockMeta :=
  let '((net, height, block_hash), row) := kr in
  {| bm_net := net; bm_blockHash := bufToHex block_hash; bm_height := number_of_bigint height;
     bm_parentHash := bufToHex (b_parent_hash row); bm_stateRoot := bufToHex (b_state_root row);
     bm_extrinsicsRoot := bufToHex (b_extrinsics_root row); bm_author := bufToHex <$> b_author row;
     bm_headerBlobHash := bufToHex (b_header_blob_hash row);
     bm_bodyBlobHash := bufToHex <$> b_body_blob_hash row;
     bm_isCanonical := b_is_canonical row; bm_status := b_status row;
     bm_finalized := b_finalized row |}.

Definition toTxMeta (kr : (BlockKey * bytes) * TxRow) : TransactionMeta :=
  let '(((net, height, block_hash), tx_hash), row) := kr in
  {| tm_net := net; tm_txHash := bufToHex tx_hash; tm_blockHeight := number_of_bigint height;
     tm_blockHash := bufToHex block_hash; tm_position := t_position row; tm_kind := t_kind row;
     tm_protocolVersion := t_protocol_version row; tm_result := t_result row;
     tm_rawBlobHash := bufToHex (t_raw_blob_hash row) |}.

(** ** [ORDER BY]: [bytea] compares bytewise *)

Definition bytea_le (a b : bytes) : Prop := units_le (Byte.to_N <$> a) (Byte.to_N <$> b).
#[export] Instance bytea_le_dec : RelDecision bytea_le.
Proof. intros a b. unfold bytea_le. apply _. Defined.

(** [ORDER BY f], the order [R] on the sort key. *)
Definition ordered_by {A K} (R : relation K) (f : A → K) : relation A := λ x y, R (f x) (f y).
#[export] Instance ordered_by_dec {A K} (R : relation K) (f : A → K) `{!RelDecision R} :
  RelDecision (ordered_by R f).
Proof. intros x y. unfold ordered_by. apply _. Defined.

(** ** What the store relies on outside the repository *)

(** [sql.json(value)] as a [jsonb] parameter: JSON serialisation, which keeps a one-number object. *)
Class JsonBinding := {
  bind_json : jsval → result thrown jsval;
  bind_json_number : ∀ k n, hasPostgresUnsafeText k = false → z_number n = true →
    bind_json (JObj [(k, JNum n)]) = Ok (JObj [(k, JNum n)]);
}.

(** SHA-256 digests have 32 bytes. *)
Class Sha256Digest `{!Sha256} := sha256_length : ∀ data, length (sha256 data) = 32%nat.

(** ** [jsonb] *)

(** [value -> 'height'] when [jsonb_typeof] of it is ['number']. *)
Definition jsonb_height (v : jsval) : option jsnum :=
  match v with
  | JObj fields =>
      match list_find (λ kv : jsstr * jsval, kv.1 = js "height") fields with
      | Some (_, (_, JNum n)) => Some n
      | _ => None
      end
  | _ => None
  end.

(** [a > b] on [numeric]. *)
Definition numeric_parts (n : jsnum) : Z * positive :=
  match n with NumInt z => (z, 1%positive) | NumFrac p q => (p, q) | _ => (0, 1%positive) end.
Definition numeric_gt (a b : jsnum) : bool :=
  let '(p, q) := numeric_parts a in
  let '(p', q') := numeric_parts b in
  p' * Z.pos q <? p * Z.pos q'.

Section store.
Context {S : Type} `{!Part S ArchiveDb} `{!SqlBegin S} `{!TextBinding} `{!JsonBinding} `{!Sha256}.

(** ** Row inserts *)

(** The two inserts every blob goes through. *)
Definition insert_blob_with_role (data : bytes) (role : string) : act ArchiveDb unit :=
  insert_blob (hexToBuf (sha256Hex data)) data ;;
  insert_role (hexToBuf (sha256Hex data)) (js role).

Definition putBlobWithRole (data : bytes) (role : jsstr) : act (World S) jsstr :=
  translated (sql_begin None (on_part (
    insert_blob (hexToBuf (sha256Hex data)) data ;;
    role ← check (bind_text role);
    insert_role (hexToBuf (sha256Hex data)) role ;;
    mret (sha256Hex data)))).

Definition insert_body (bodyBytes : option bytes) : act ArchiveDb unit :=
  match bodyBytes with
  | None => mret tt
  | Some body => insert_blob_with_role body "block_body"
  end.

Definition block_row (block : BlockRecord) : BlockRow :=
  {| b_parent_hash := hexToBuf (br_parentHash block); b_state_root := hexToBuf (br_stateRoot block);
     b_extrinsics_root := hexToBuf (br_extrinsicsRoot block);
     b_author := truthy_hexToBuf (br_author block);
     b_header_blob_hash := hexToBuf (sha256Hex (br_headerBytes block));
     b_body_blob_hash := (λ body, hexToBuf (sha256Hex body)) <$> br_bodyBytes block;
     b_is_canonical := br_isCanonical block; b_status := br_status block;
     b_finalized := br_finalized block |}.

Definition insertBlockRow (block : BlockRecord) : act ArchiveDb (jsstr * option jsstr) :=
  insert_blob_with_role (br_headerBytes block) "block_header" ;;
  insert_body (br_bodyBytes block) ;;
  net ← check (bind_text (br_net block));
  height ← check (bind_bigint (br_height block));
  insert_block (net, height, hexToBuf (br_blockHash block)) (block_row block) ;;
  mret (sha256Hex (br_headerBytes block), sha256Hex <$> br_bodyBytes block).

Definition insertTransactionRow (t : TransactionRecord) : act ArchiveDb unit :=
  insert_blob_with_role (tr_rawBytes t) "tx_raw" ;;
  net ← check (bind_text (tr_net t));
  height ← check (bind_bigint (tr_blockHeight t));
  position ← check (bind_integer (tr_position t));
  protocol ← check (bind_integer (tr_protocolVersion t));
  insert_transaction ((net, height, hexToBuf (tr_blockHash t)), hexToBuf (tr_txHash t))
    {| t_position := position; t_kind := tr_kind t; t_protocol_version := protocol;
       t_result := tr_result t; t_raw_blob_hash := hexToBuf (sha256Hex (tr_rawBytes t)) |}.

Definition insertTransactionRows (txs : list TransactionRecord) : act ArchiveDb unit :=
  for_each insertTransactionRow txs.

Definition insertBridgeObservationRow (o : BridgeObservationRecord) : act ArchiveDb unit :=
  insert_blob_with_role (bo_rawBytes o) "bridge_observation" ;;
  net ← check (bind_text (bo_net o));
  height ← check (bind_bigint (bo_blockHeight o));
  index ← check (bind_integer (bo_observationIndex o));
  insert_observation ((net, height, hexToBuf (bo_blockHash o)), index)
    {| o_kind := bo_kind o; o_raw_blob_hash := hexToBuf (sha256Hex (bo_rawBytes o)) |}.

Definition insertBridgeObservationRows (obs : list BridgeObservationRecord) : act ArchiveDb unit :=
  for_each insertBridgeObservationRow obs.

(** ** Puts *)

(** The hash assertions of [putBlock] and [putBlockBundle]. *)
Definition assert_block (block : BlockRecord) (m : string) : result thrown unit :=
  _ ← assertHex32 (br_blockHash block) (m +:+ ".blockHash");
  _ ← assertHex32 (br_parentHash block) (m +:+ ".parentHash");
  _ ← assertHex32 (br_stateRoot block) (m +:+ ".stateRoot");
  _ ← assertHex32 (br_extrinsicsRoot block) (m +:+ ".extrinsicsRoot");
  match br_author block with
  | None => Ok tt
  | Some author => assertHex32 author (m +:+ ".author")
  end.

Fixpoint assert_transactions (txs : list TransactionRecord) (m : string) : result thrown unit :=
  match txs with
  | [] => Ok tt
  | t :: txs' =>
      _ ← assertHex32 (tr_txHash t) (m +:+ ".txHash");
      _ ← assertHex32 (tr_blockHash t) (m +:+ ".blockHash");
      assert_transactions txs' m
  end.

Definition putBlock (block : BlockRecord) : act (World S) (jsstr * option jsstr) :=
  check (assert_block block "putBlock") ;;
  translated (sql_begin None (on_part (insertBlockRow block))).

Definition putTransactions (txs : list TransactionRecord) : act (World S) unit :=
  match txs with
  | [] => mret tt
  | _ =>
      check (assert_transactions txs "putTransactions") ;;
      translated (sql_begin None (on_part (insertTransactionRows txs)))
  end.

Definition putBridgeObservations (obs : list BridgeObservationRecord) : act (World S) unit :=
  match obs with
  | [] => mret tt
  | _ => translated (sql_begin None (on_part (insertBridgeObservationRows obs)))
  end.

(** The callback of [putBlockBundle]; the two guards on emptiness skip loops that would be empty. *)
Definition bundle_rows (bundle : BlockBundle) : act ArchiveDb (jsstr * option jsstr) :=
  hashes ← insertBlockRow (bb_block bundle);
  (if (0 <? length (bb_transactions bundle))%nat
   then insertTransactionRows (bb_transactions bundle) else mret tt) ;;
  (if (0 <? length (bb_bridgeObservations bundle))%nat
   then insertBridgeObservationRows (bb_bridgeObservations bundle) else mret tt) ;;
  mret hashes.

Definition putBlockBundle (bundle : BlockBundle) : act (World S) (jsstr * option jsstr) :=
  check (assert_block (bb_block bundle) "putBlockBundle") ;;
  check (assert_transactions (bb_transactions bundle) "putBlockBundle.transactions") ;;
  translated (sql_begin None (on_part (bundle_rows bundle))).

Definition vk_rows (vk : VerifierKeyObservationRecord) : act ArchiveDb unit :=
  insert_blob_with_role (vk_vkBytes vk) "verifier_key" ;;
  net ← check (bind_text (vk_net vk));
  tag ← check (bind_text (vk_tag vk));
  firstSeen ← check (bind_bigint (vk_firstSeenHeight vk));
  upsert_vk (hexToBuf (sha256Hex (vk_vkBytes vk)), net, vk_scope vk,
             truthy_hexToBuf (vk_contractAddress vk), tag) firstSeen.

Definition putVerifierKeyObservation (vk : VerifierKeyObservationRecord) : act (World S) unit :=
  translated (sql_begin None (on_part (vk_rows vk))).

(** ** The canonical flip *)

Definition unmarks (k : BlockKey) (k' : BlockKey) (row : BlockRow) : bool :=
  at_height k.1.1 k.1.2 k' && b_is_canonical row && negb (bool_decide (k'.2 = k.2)).

Definition orphan (row : BlockRow) : BlockRow :=
  {| b_parent_hash := b_parent_hash row; b_state_root := b_state_root row;
     b_extrinsics_root := b_extrinsics_root row; b_author := b_author row;
     b_header_blob_hash := b_header_blob_hash row; b_body_blob_hash := b_body_blob_hash row;
     b_is_canonical := false; b_status := status_orphaned; b_finalized := b_finalized row |}.

Definition enthrone (finalized : option bool) (row : BlockRow) : BlockRow :=
  {| b_parent_hash := b_parent_hash row; b_state_root := b_state_root row;
     b_extrinsics_root := b_extrinsics_root row; b_author := b_author row;
     b_header_blob_hash := b_header_blob_hash row; b_body_blob_hash := b_body_blob_hash row;
     b_is_canonical := true; b_status := status_canonical;
     b_finalized := default (b_finalized row) finalized |}.

(** [UPDATE blocks SET is_canonical = false, status = 'orphaned' WHERE .. AND is_canonical AND
    block_hash <> ..]: the CHECK tying [finalized] to [is_canonical] guards every updated row. *)
Definition update_unmark (k : BlockKey) : act ArchiveDb unit :=
  statement (λ db,
    _ ← check_constraint "blocks_check1"
          (forallb (λ kr : BlockKey * BlockRow, negb (unmarks k kr.1 kr.2) || negb (b_finalized kr.2))
             (map_to_list (blocks db)));
    Ok (tt, with_blocks (map_imap (λ k' row, Some (if unmarks k k' row then orphan row else row))) db)).

(** [UPDATE blocks SET is_canonical = true, .. WHERE .. RETURNING block_hash]: the number of rows. *)
Definition update_mark (k : BlockKey) (finalized : option bool) : act ArchiveDb nat :=
  statement (λ db,
    match blocks db !! k with
    | None => Ok (0%nat, db)
    | Some row =>
        _ ← blocks_enforce_finalized_monotonic row (enthrone finalized row);
        _ ← unique_index "blocks_one_canonical_per_height" (negb (other_canonical db k));
        Ok (1%nat, with_blocks <[k := enthrone finalized row]> db)
    end).

Definition flip_rows (net : jsstr) (height : jsnum) (blockHash : jsstr) (finalized : option bool)
    : act ArchiveDb unit :=
  n ← check (bind_text net);
  h ← check (bind_bigint height);
  update_unmark (n, h, hexToBuf blockHash) ;;
  updated ← update_mark (n, h, hexToBuf blockHash) finalized;
  if (updated =? 0)%nat then throw (BlockNotFoundError net h blockHash) else mret tt.

(** A [BlockNotFoundError] is rethrown as it is; the translation would not change it either. *)
Definition flip_catch (e : thrown) : thrown :=
  match e with
  | TStorage (CBlockNotFound _ _ _) _ => e
  | _ => translatePostgresError e None
  end.

Definition setCanonical (net : jsstr) (height : jsnum) (blockHash : jsstr) (finalized : option bool)
    : act (World S) unit :=
  check (assertHex32 blockHash "setCanonical.blockHash") ;;
  rethrow flip_catch (sql_begin None (on_part (flip_rows net height blockHash finalized))).

(** ** Reads *)

Definition select {K V} (P : K * V → bool) (R : relation (K * V)) `{!RelDecision R}
    (t : list (K * V)) : list (K * V) := merge_sort R (filter P t).

Definition getBlocksAtHeight (net : jsstr) (height : jsnum) : act (World S) (list BlockMeta) :=
  translated (on_part (
    n ← check (bind_text net);
    h ← check (bind_bigint height);
    query (λ db, toBlockMeta <$>
      select (λ kr : BlockKey * BlockRow, at_height n h kr.1)
        (ordered_by bytea_le (λ kr, kr.1.2)) (map_to_list (blocks db))))).

Definition getCanonicalBlockAtHeight (net : jsstr) (height : jsnum) : act (World S) (option BlockMeta) :=
  translated (on_part (
    n ← check (bind_text net);
    h ← check (bind_bigint height);
    query (λ db, toBlockMeta <$> head
      (filter (λ kr : BlockKey * BlockRow, at_height n h kr.1 && b_is_canonical kr.2)
        (map_to_list (blocks db)))))).

Definition getTransactionsByHash (net txHash : jsstr) : act (World S) (list TransactionMeta) :=
  check (assertHex32 txHash "getTransactionsByHash.txHash") ;;
  translated (on_part (
    n ← check (bind_text net);
    query (λ db, toTxMeta <$>
      select (λ kr : (BlockKey * bytes) * TxRow,
          bool_decide (kr.1.1.1.1 = n) && bool_decide (kr.1.2 = hexToBuf txHash))
        (ordered_by bytea_le (λ kr, kr.1.1.2)) (map_to_list (transactions db))))).

Definition getTransactionsForBlock (net blockHash : jsstr) : act (World S) (list TransactionMeta) :=
  check (assertHex32 blockHash "getTransactionsForBlock.blockHash") ;;
  translated (on_part (
    n ← check (bind_text net);
    query (λ db, toTxMeta <$>
      select (λ kr : (BlockKey * bytes) * TxRow,
          bool_decide (kr.1.1.1.1 = n) && bool_decide (kr.1.1.2 = hexToBuf blockHash))
        (ordered_by Z.le (λ kr, t_position kr.2)) (map_to_list (transactions db))))).

Definition getCanonicalChainRange (net : jsstr) (fromHeight toHeight : jsnum)
    : act (World S) (list BlockMeta) :=
  translated (on_part (
    n ← check (bind_text net);
    lo ← check (bind_bigint fromHeight);
    hi ← check (bind_bigint toHeight);
    query (λ db, toBlockMeta <$>
      select (λ kr : BlockKey * BlockRow,
          bool_decide (kr.1.1.1 = n) && (lo <=? kr.1.1.2) && (kr.1.1.2 <=? hi) && b_is_canonical kr.2)
        (ordered_by Z.le (λ kr, kr.1.1.2)) (map_to_list (blocks db))))).

(** The lookup, then the rehash of what was read. *)
Definition read_blob (hash : jsstr) : act ArchiveDb bytes := λ db,
  match chain_blobs db !! hexToBuf hash with
  | None => (Err (BlobMissingError hash), db)
  | Some data =>
      if decide (sha256Hex data = hash) then (Ok data, db)
      else (Err (BlobIntegrityError hash (sha256Hex data)), db)
  end.

Definition getBlob (hash : jsstr) : act (World S) bytes :=
  check (assertHex32 hash "getBlob.hash") ;;
  rethrow (λ e, match e with
                | TStorage (CBlobMissing _) _ | TStorage (CBlobIntegrity _ _) _ => e
                | _ => translatePostgresError e None
                end) (on_part (read_blob hash)).

(** ** Watermarks *)

Definition getWatermark (key : jsstr) : act (World S) (option jsval) :=
  translated (on_part (
    k ← check (bind_text key);
    query (λ db, archive_watermarks db !! k))).

(** The [WHERE] of the [DO UPDATE]. *)
Definition may_replace (old new : jsval) : bool :=
  match jsonb_height old, jsonb_height new with
  | Some h, Some h' => numeric_gt h' h
  | _, _ => true
  end.

Definition upsert_cursor (key : jsstr) (value : jsval) : act ArchiveDb unit :=
  statement (λ db,
    match archive_watermarks db !! key with
    | Some old =>
        Ok (tt, if may_replace old value then with_watermarks <[key := value]> db else db)
    | None => Ok (tt, with_watermarks <[key := value]> db)
    end).

Definition setWatermark (key : jsstr) (value : jsval) : act (World S) unit :=
  translated (on_part (
    k ← check (bind_text key);
    v ← check (bind_json value);
    upsert_cursor k v)).
End store.
