(* ===== verification/ChainArchiveSpec.v ===== *)
(** * The chain archive: what its tables keep

    The invariant the constraints and triggers of the schema enforce together, the append-only
    order on archives, and the proof that every method of [PgChainArchiveStore], resolved or
    rejected, stays inside both. *)

From S2P Require Import Prelude Text Json Errors Transaction Driver Hex.
From S2P Require Import Checkpoint.
From S2P Require Import ChainArchive.
From S2P Require Import ChainArchiveStore.

Local Open Scope Z_scope.

(** ** Actions along a preorder on states *)

Section steps.
Context {S : Type} (R : relation S) `{!PreOrder R}.

(** Whatever [m] returns, it moves the state along [R]. *)
Definition steps {A} (m : act S A) : Prop := ∀ s, R s (m s).2.

Lemma steps_ret {A} (a : A) : steps (mret a).
Proof. intros s. reflexivity. Qed.

Lemma steps_check {A} (r : result thrown A) : steps (check r).
Proof. intros s. reflexivity. Qed.

Lemma steps_throw {A} (e : thrown) : steps (@throw _ _ A e).
Proof. intros s. reflexivity. Qed.

Lemma steps_query {A} (f : S → A) : steps (query f).
Proof. intros s. reflexivity. Qed.

Lemma steps_bind {A B} (m : act S A) (f : A → act S B) :
  steps m → (∀ a, steps (f a)) → steps (m ≫= f).
Proof.
  intros Hm Hf s. unfold mbind, action_bind. specialize (Hm s). destruct (m s) as [[a|e] s1]; [|done].
  etrans; [exact Hm|apply Hf].
Qed.

Lemma steps_statement {A} (f : S → result thrown (A * S)) :
  (∀ s a s', f s = Ok (a, s') → R s s') → steps (statement f).
Proof. intros Hf s. unfold statement. destruct (f s) as [[a s']|e] eqn:E; [by eapply Hf|reflexivity]. Qed.

Lemma steps_rethrow {A} g (m : act S A) : steps m → steps (rethrow g m).
Proof. intros Hm s. specialize (Hm s). unfold rethrow. by destruct (m s) as [[]]. Qed.

Lemma steps_for_each {A} (f : A → act S unit) xs : (∀ x, steps (f x)) → steps (for_each f xs).
Proof.
  intros Hf. induction xs as [|x xs IH]; [apply steps_ret|].
  apply steps_bind; [apply Hf|by intros _].
Qed.
End steps.

#[export] Hint Resolve steps_ret steps_check steps_throw steps_query steps_bind steps_rethrow
  steps_for_each : umbra.

(** A component's relation, seen from the world the component is a part of. *)
Definition on_world {S T} `{!Part S T} (R : relation T) : relation (World S) :=
  λ w w', R (part (w_db w)) (part (w_db w')).

#[export] Instance on_world_preorder {S T} `{!Part S T} (R : relation T) `{!PreOrder R} :
  PreOrder (on_world (S := S) R).
Proof.
  split; [intros w; unfold on_world; reflexivity|].
  intros w1 w2 w3 H1 H2. unfold on_world in *. by etrans.
Qed.

Lemma steps_on_part {S T} `{!Part S T} (R : relation T) `{!PreOrder R} {A} (m : act T A) :
  steps R m → steps (on_world R) (on_part (S := S) m).
Proof.
  intros Hm w. unfold on_world, on_part. specialize (Hm (part (w_db w))).
  destruct (m _) as [r t]. cbn. by rewrite part_set.
Qed.

Lemma steps_sql_begin {S T} `{!Part S T, !SqlBegin S} (R : relation T) `{!PreOrder R} {A} iso
    (m : act (World S) A) :
  steps (on_world R) m → steps (on_world R) (sql_begin iso m).
Proof.
  intros Hm w. specialize (Hm w). unfold on_world in *.
  destruct (sql_begin iso m w) as [[a|e] w'] eqn:E; cbn.
  - apply sql_begin_ok in E as (w1 & Hw & -> & _). by rewrite Hw in Hm.
  - apply sql_begin_err in E as [[_ ->]|[_ [->|[_ ->]]]]; [reflexivity..|done].
Qed.

(** ** The invariant *)

Definition wf_block (db : ArchiveDb) (k : BlockKey) (row : BlockRow) : Prop :=
  check_block k row = Ok tt ∧
  has_role db (b_header_blob_hash row) role_block_header = true ∧
  ∀ h, b_body_blob_hash row = Some h → has_role db h role_block_body = true.

Definition wf_transaction (db : ArchiveDb) (k : BlockKey * bytes) (row : TxRow) : Prop :=
  check_transaction k row = Ok tt ∧ has_block db k.1 = true ∧
  has_role db (t_raw_blob_hash row) role_tx_raw = true.

Definition wf_observation (db : ArchiveDb) (k : BlockKey * Z) (row : BridgeRow) : Prop :=
  check_observation k = Ok tt ∧ has_block db k.1 = true ∧
  has_role db (o_raw_blob_hash row) role_bridge_observation = true.

Definition wf_vk (db : ArchiveDb) (k : VkKey) (firstSeen : Z) : Prop :=
  has_role db k.1.1.1.1 role_verifier_key = true ∧ 0 ≤ firstSeen ∧
  (k.1.1.2 = scope_contract ↔ is_Some k.1.2).

Record Inv `{!Sha256} (db : ArchiveDb) : Prop := {
  inv_content : ∀ h data, chain_blobs db !! h = Some data → h = sha256 data ∧ length h = 32%nat;
  inv_roles : ∀ h r, (h, r) ∈ chain_blob_roles db → is_Some (chain_blobs db !! h);
  inv_blocks : ∀ k row, blocks db !! k = Some row → wf_block db k row;
  inv_canonical : ∀ k k' row row', blocks db !! k = Some row → blocks db !! k' = Some row' →
    k.1 = k'.1 → b_is_canonical row = true → b_is_canonical row' = true → k = k';
  inv_transactions : ∀ k row, transactions db !! k = Some row → wf_transaction db k row;
  inv_positions : ∀ k k' row row', transactions db !! k = Some row →
    transactions db !! k' = Some row' → k.1 = k'.1 → t_position row = t_position row' → k = k';
  inv_observations : ∀ k row, bridge_observations db !! k = Some row → wf_observation db k row;
  inv_vks : ∀ k h, verifier_key_observations db !! k = Some h → wf_vk db k h;
}.

(** ** The append-only order *)

(** What no operation changes in a row of [blocks]; [finalized] only ever becomes true. *)
Record block_kept (row row' : BlockRow) : Prop := {
  kept_parent : b_parent_hash row' = b_parent_hash row;
  kept_state : b_state_root row' = b_state_root row;
  kept_extrinsics : b_extrinsics_root row' = b_extrinsics_root row;
  kept_author : b_author row' = b_author row;
  kept_header : b_header_blob_hash row' = b_header_blob_hash row;
  kept_body : b_body_blob_hash row' = b_body_blob_hash row;
  kept_finalized : b_finalized row = true → b_finalized row' = true ∧ b_is_canonical row' = true;
}.

Record grows (db db' : ArchiveDb) : Prop := {
  grows_blobs : chain_blobs db ⊆ chain_blobs db';
  grows_roles : chain_blob_roles db ⊆ chain_blob_roles db';
  grows_blocks : ∀ k row, blocks db !! k = Some row →
    ∃ row', blocks db' !! k = Some row' ∧ block_kept row row';
  grows_transactions : transactions db ⊆ transactions db';
  grows_observations : bridge_observations db ⊆ bridge_observations db';
  grows_vks : ∀ k h, verifier_key_observations db !! k = Some h →
    ∃ h', verifier_key_observations db' !! k = Some h' ∧ h' ≤ h;
}.

(** From a well-formed archive, to a well-formed archive that keeps what it held. *)
Definition archive_le `{!Sha256} : relation ArchiveDb := λ db db', Inv db → Inv db' ∧ grows db db'.

(** ** Inverting the checks *)

Lemma check_constraint_ok name ok (u : unit) : check_constraint name ok = Ok u → ok = true.
Proof. by destruct ok. Qed.
Lemma unique_index_ok name free u : unique_index name free = Ok u → free = true.
Proof. by destruct free. Qed.
Lemma foreign_key_ok name found u : foreign_key name found = Ok u → found = true.
Proof. by destruct found. Qed.
Lemma assert_blob_role_ok db h r u :
  chain_archive_assert_blob_role db h r = Ok u → ∀ h', h = Some h' → has_role db h' r = true.
Proof. intros H h' ->. cbn in H. by destruct (has_role db h' r). Qed.
Lemma blocks_check_blob_roles_ok db row (u : unit) :
  blocks_check_blob_roles db row = Ok u →
  has_role db (b_header_blob_hash row) role_block_header = true ∧
  ∀ h, b_body_blob_hash row = Some h → has_role db h role_block_body = true.
Proof.
  unfold blocks_check_blob_roles, mbind, result_bind.
  destruct (chain_archive_assert_blob_role db (Some _) _) eqn:E; [|done]. intros E2.
  split; [by eapply assert_blob_role_ok|by apply (assert_blob_role_ok _ _ _ _ E2)].
Qed.

(** Run through the guards of a statement that succeeded. *)
Ltac pass_guards H :=
  unfold mbind, result_bind in H;
  repeat match type of H with
  | match ?c with Ok _ => _ | Err _ => _ end = Ok _ =>
      let E := fresh "Hok" in destruct c eqn:E; [|discriminate H]
  end;
  repeat match goal with u : unit |- _ => destruct u end;
  repeat match goal with
  | E : check_constraint _ _ = Ok _ |- _ => apply check_constraint_ok in E
  | E : unique_index _ _ = Ok _ |- _ => apply unique_index_ok in E
  | E : foreign_key _ _ = Ok _ |- _ => apply foreign_key_ok in E
  end.

(** The CHECKs of [verifier_key_observations], as facts. *)
Lemma check_vk_ok k firstSeen :
  check_vk k firstSeen = Ok tt → (k.1.1.2 = scope_contract ↔ is_Some k.1.2) ∧ 0 ≤ firstSeen.
Proof.
  intros H. unfold check_vk in H. pass_guards H. split; [|by apply Z.leb_le].
  apply Bool.eqb_prop in Hok. do 2 case_bool_decide; tauto || done.
Qed.

(** The CHECKs of [blocks], as facts about the row. *)
Lemma check_block_iff k row :
  check_block k row = Ok tt ↔
  is_32 k.2 = true ∧ (b_status row = status_canonical ↔ b_is_canonical row = true) ∧
  (b_finalized row = true → b_is_canonical row = true) ∧ is_32 (b_extrinsics_root row) = true ∧
  0 ≤ k.1.2 ∧ is_32 (b_parent_hash row) = true ∧ is_32 (b_state_root row) = true.
Proof.
  assert (Bool.eqb (bool_decide (b_status row = status_canonical)) (b_is_canonical row) = true ↔
    (b_status row = status_canonical ↔ b_is_canonical row = true)) as <-.
  { case_bool_decide; destruct (b_is_canonical row); cbn; intuition congruence. }
  assert (negb (b_finalized row) || b_is_canonical row = true ↔
    (b_finalized row = true → b_is_canonical row = true)) as <-.
  { destruct (b_finalized row), (b_is_canonical row); cbn; intuition congruence. }
  rewrite <-Z.leb_le. split.
  - intros H. unfold check_block in H. pass_guards H. tauto.
  - intros (H1 & H2 & H3 & H4 & H5 & H6 & H7). unfold check_block, mbind, result_bind.
    by rewrite H1, H2, H3, H4, H5, H6, H7.
Qed.

Lemma check_block_finalized k row :
  check_block k row = Ok tt → b_finalized row = true → b_is_canonical row = true.
Proof. rewrite check_block_iff. tauto. Qed.

(** Flipping the canonical flag and its status together keeps the CHECKs. *)
Lemma check_block_orphan k row :
  check_block k row = Ok tt → b_finalized row = false → check_block k (orphan row) = Ok tt.
Proof. rewrite !check_block_iff. cbn. intuition congruence. Qed.

Lemma check_block_enthrone k row f :
  check_block k row = Ok tt → check_block k (enthrone f row) = Ok tt.
Proof. rewrite !check_block_iff. cbn. tauto. Qed.

(** ** Monotonicity *)

Lemma has_role_mono db db' h r :
  chain_blob_roles db ⊆ chain_blob_roles db' → has_role db h r = true → has_role db' h r = true.
Proof. unfold has_role. rewrite !bool_decide_eq_true. set_solver. Qed.

Lemma has_block_mono db db' k :
  (∀ k row, blocks db !! k = Some row → ∃ row', blocks db' !! k = Some row' ∧ block_kept row row') →
  has_block db k = true → has_block db' k = true.
Proof.
  intros Hg. unfold has_block. rewrite !bool_decide_eq_true.
  intros [row Hrow]. destruct (Hg _ _ Hrow) as (row' & -> & _). eauto.
Qed.

Lemma block_kept_refl k row : check_block k row = Ok tt → block_kept row row.
Proof. intros H. split; try done. split; [done|by eapply check_block_finalized]. Qed.

Lemma block_kept_trans r1 r2 r3 : block_kept r1 r2 → block_kept r2 r3 → block_kept r1 r3.
Proof.
  intros [] []. split; try congruence. intros Hf. apply kept_finalized1. by apply kept_finalized0.
Qed.

Section spec.
Context {sha : Sha256}.
Implicit Types db : ArchiveDb.

Lemma kept_self db k row : Inv db → blocks db !! k = Some row → block_kept row row.
Proof. intros HI Hk. apply (block_kept_refl k). by apply (inv_blocks db HI). Qed.

Lemma grows_refl db : Inv db → grows db db.
Proof.
  intros HI. split; try done; [|by eauto with lia].
  intros k row Hk. exists row. split; [done|]. by eapply kept_self.
Qed.

Lemma grows_trans d1 d2 d3 : grows d1 d2 → grows d2 d3 → grows d1 d3.
Proof.
  intros [] []. split; try by etrans.
  - intros k row Hk. destruct (grows_blocks0 k row Hk) as (r2 & H2 & K2).
    destruct (grows_blocks1 k r2 H2) as (r3 & H3 & K3). exists r3. split; [done|].
    by eapply block_kept_trans.
  - intros k h Hk. destruct (grows_vks0 k h Hk) as (h2 & H2 & L2).
    destruct (grows_vks1 k h2 H2) as (h3 & H3 & L3). exists h3. split; [done|lia].
Qed.

#[export] Instance archive_le_preorder : PreOrder archive_le.
Proof.
  split.
  - intros db HI. split; [done|]. by apply grows_refl.
  - intros d1 d2 d3 H12 H23 HI. destruct (H12 HI) as [HI2 G12], (H23 HI2) as [HI3 G23].
    split; [done|]. by eapply grows_trans.
Qed.

(** ** The statements *)

(** A statement that touches no table but the pool and the roles keeps every row well formed. *)
Lemma wf_block_roles db db' k row :
  chain_blob_roles db ⊆ chain_blob_roles db' → wf_block db k row → wf_block db' k row.
Proof.
  intros Hr (Hc & Hh & Hb). split_and!; [done|by eapply has_role_mono|].
  intros h Hh'. eapply has_role_mono; eauto.
Qed.

Lemma insert_blob_le data hash :
  hash = sha256 data → steps archive_le (insert_blob hash data).
Proof.
  intros ->. apply (steps_statement _). intros db [] db' H HI. pass_guards H.
  unfold has_blob in H. case_bool_decide as Hb; simplify_eq.
  { split; [done|]. by apply grows_refl. }
  assert (chain_blobs db !! sha256 data = None) as Hn by (by apply eq_None_not_Some).
  apply Nat.eqb_eq in Hok. split.
  - destruct HI. split; cbn; try (assumption || done).
    + intros h d. rewrite lookup_insert_Some. intros [[<- <-]|[_ Hd]]; eauto.
    + intros h r Hr. rewrite lookup_insert_is_Some'. eauto.
  - destruct (grows_refl db HI). split; cbn; try (assumption || done). by apply insert_subseteq.
Qed.

Lemma insert_role_le hash role : steps archive_le (insert_role hash role).
Proof.
  apply (steps_statement _). intros db [] db' H HI.
  destruct (role_of_text role) as [r|]; [|done].
  destruct (has_role db hash r); simplify_eq; [split; [done|by apply grows_refl]|].
  pass_guards H. simplify_eq. unfold has_blob in Hok. apply bool_decide_eq_true in Hok.
  assert (chain_blob_roles db ⊆ {[(hash, r)]} ∪ chain_blob_roles db) as Hsub by set_solver.
  split; [|destruct (grows_refl db HI); split; cbn; assumption || done].
  destruct HI. split; cbn; try (assumption || done).
  - intros h r' [[= -> ->]%elem_of_singleton|]%elem_of_union; eauto.
  - intros k row Hk. eapply wf_block_roles; [exact Hsub|eauto].
  - intros k row Hk. destruct (inv_transactions0 _ _ Hk) as (? & ? & ?).
    split_and!; [done..|]. eapply has_role_mono; [|done]. done.
  - intros k row Hk. destruct (inv_observations0 _ _ Hk) as (? & ? & ?).
    split_and!; [done..|]. eapply has_role_mono; [|done]. done.
  - intros k h Hk. destruct (inv_vks0 _ _ Hk) as (? & ? & ?).
    split_and!; [|done..]. eapply has_role_mono; [|done]. done.
Qed.

(** The index [blocks_one_canonical_per_height], read as a fact about the table. *)
Lemma other_canonical_false db k k' row' :
  other_canonical db k = false → blocks db !! k' = Some row' → k'.1 = k.1 →
  b_is_canonical row' = true → k' = k.
Proof.
  intros Ho Hk' Heq Hc. destruct (decide (k' = k)) as [|Hne]; [done|].
  exfalso. assert (other_canonical db k = true) as Ht; [|congruence].
  apply existsb_exists. exists (k', row').
  split; [by apply list_elem_of_In, elem_of_map_to_list|]. cbn. unfold at_height.
  rewrite Heq, Hc. rewrite bool_decide_eq_true_2 by (by destruct k as [[]]).
  by rewrite bool_decide_eq_false_2.
Qed.

Lemma position_taken_false db bk p k' row' :
  position_taken (transactions db) bk p = false → transactions db !! k' = Some row' → k'.1 = bk →
  t_position row' ≠ p.
Proof.
  intros Ho Hk' Heq Hp. assert (position_taken (transactions db) bk p = true) as Ht; [|congruence].
  apply existsb_exists. exists (k', row').
  split; [by apply list_elem_of_In, elem_of_map_to_list|]. cbn.
  by rewrite bool_decide_eq_true_2, Hp, Z.eqb_refl.
Qed.

Lemma insert_block_le k row : steps archive_le (insert_block k row).
Proof.
  apply (steps_statement _). intros db [] db' H HI. pass_guards H.
  apply blocks_check_blob_roles_ok in Hok as [Hhead Hbody].
  unfold has_block in H. case_bool_decide as Hb; [simplify_eq; split; [done|by apply grows_refl]|].
  pass_guards H. simplify_eq.
  assert (b_is_canonical row && other_canonical db k = false) as Hidx by (by apply negb_true_iff).
  assert (blocks db !! k = None) as Hn by (by apply eq_None_not_Some).
  assert (grows db (with_blocks <[k:=row]> db)) as HG.
  { destruct (grows_refl db HI). split; cbn; try (assumption || done).
    intros k' row' Hk'. rewrite lookup_insert_ne by congruence. by apply grows_blocks0. }
  split; [|done]. destruct HI. split; cbn; try (assumption || done).
  - intros k' row'. rewrite lookup_insert_Some. intros [[<- <-]|[_ Hd]]; [|by apply inv_blocks0].
    split_and!; [done..|]. by apply Hbody.
  - intros k1 k2 r1 r2. rewrite !lookup_insert_Some.
    intros [[<- <-]|[Hn1 H1]] [[<- <-]|[Hn2 H2]] Heq Hc1 Hc2; [done| | |by eapply inv_canonical0].
    + symmetry. eapply other_canonical_false; [|done..].
      by rewrite Hc1 in Hidx.
    + eapply other_canonical_false; [|done..].
      by rewrite Hc2 in Hidx.
  - intros k' r' Hk'. destruct (inv_transactions0 _ _ Hk') as (? & ? & ?). split_and!; [done| |done].
    eapply has_block_mono; [apply HG|done].
  - intros k' r' Hk'. destruct (inv_observations0 _ _ Hk') as (? & ? & ?). split_and!; [done| |done].
    eapply has_block_mono; [apply HG|done].
Qed.

Lemma insert_transaction_le k row : steps archive_le (insert_transaction k row).
Proof.
  apply (steps_statement _). intros db [] db' H HI. pass_guards H.
  pose proof (assert_blob_role_ok _ _ _ _ Hok _ eq_refl) as Hraw.
  case_bool_decide as Hb; [simplify_eq/=; split; [done|by apply grows_refl]|cbn in H].
  destruct (position_taken (transactions db) k.1 (t_position row)) eqn:Hp;
    [simplify_eq/=; split; [done|by apply grows_refl]|].
  pass_guards H. simplify_eq.
  assert (transactions db !! k = None) as Hn by (by apply eq_None_not_Some). split.
  - destruct HI. split; cbn; try (assumption || done).
    + intros k' row'. rewrite lookup_insert_Some.
      intros [[<- <-]|[_ Hd]]; [by split_and!|by apply inv_transactions0].
    + intros k1 k2 r1 r2. rewrite !lookup_insert_Some.
      intros [[<- <-]|[Hn1 H1]] [[<- <-]|[Hn2 H2]] Heq Hpos; [done| | |by eapply inv_positions0].
      * exfalso. eapply position_taken_false; [exact Hp|exact H2|done|done].
      * exfalso. eapply position_taken_false; [exact Hp|exact H1|done|done].
  - destruct (grows_refl db HI). split; cbn; try (assumption || done). by apply insert_subseteq.
Qed.

Lemma insert_observation_le k row : steps archive_le (insert_observation k row).
Proof.
  apply (steps_statement _). intros db [] db' H HI. pass_guards H.
  pose proof (assert_blob_role_ok _ _ _ _ Hok _ eq_refl) as Hraw.
  case_bool_decide as Hb; [simplify_eq/=; split; [done|by apply grows_refl]|cbn in H].
  pass_guards H. simplify_eq.
  assert (bridge_observations db !! k = None) as Hn by (by apply eq_None_not_Some). split.
  - destruct HI. split; cbn; try (assumption || done).
    intros k' row'. rewrite lookup_insert_Some.
    intros [[<- <-]|[_ Hd]]; [by split_and!|by apply inv_observations0].
  - destruct (grows_refl db HI). split; cbn; try (assumption || done). by apply insert_subseteq.
Qed.

Lemma upsert_vk_le k firstSeen : steps archive_le (upsert_vk k firstSeen).
Proof.
  apply (steps_statement _). intros db [] db' H HI.
  pass_guards H. pose proof (assert_blob_role_ok _ _ _ _ Hok _ eq_refl) as Hvk.
  destruct (check_vk_ok _ _ Hok0) as [Hscope Hfirst].
  assert (∃ h, 0 ≤ h ∧ (∀ h0, verifier_key_observations db !! k = Some h0 → h ≤ h0) ∧
    db' = with_vk <[k := h]> db) as (h & Hpos & Hle & ->).
  { destruct (verifier_key_observations db !! k) as [h0|] eqn:Hk; pass_guards H; simplify_eq.
    - exists (Z.min h0 firstSeen). split_and!; [|intros ? [= <-]; lia|done].
      destruct (inv_vks db HI k h0 Hk) as (_ & ? & _). lia.
    - exists firstSeen. by split_and!. }
  split.
  - destruct HI. split; cbn; try (assumption || done).
    intros k' h'. rewrite lookup_insert_Some. intros [[<- <-]|[_ Hd]]; [by split_and!|by apply inv_vks0].
  - destruct (grows_refl db HI). split; cbn; try (assumption || done).
    intros k' h' Hk'. destruct (decide (k' = k)) as [->|].
    + exists h. rewrite lookup_insert_eq. split; [done|by apply Hle].
    + rewrite lookup_insert_ne by done. eauto with lia.
Qed.

(** ** Removing a role by hand *)

(** A referenced role is in use. *)
Lemma role_in_use_header db k row :
  blocks db !! k = Some row → role_in_use db (b_header_blob_hash row) role_block_header = true.
Proof.
  intros Hk. apply existsb_exists. exists (k, row). split; [by apply list_elem_of_In, elem_of_map_to_list|].
  by apply bool_decide_eq_true.
Qed.

Lemma role_in_use_body db k row h :
  blocks db !! k = Some row → b_body_blob_hash row = Some h → role_in_use db h role_block_body = true.
Proof.
  intros Hk Hh. apply existsb_exists. exists (k, row).
  split; [by apply list_elem_of_In, elem_of_map_to_list|]. by apply bool_decide_eq_true.
Qed.

Lemma role_in_use_tx db k row :
  transactions db !! k = Some row → role_in_use db (t_raw_blob_hash row) role_tx_raw = true.
Proof.
  intros Hk. apply existsb_exists. exists (k, row). split; [by apply list_elem_of_In, elem_of_map_to_list|].
  by apply bool_decide_eq_true.
Qed.

Lemma role_in_use_observation db k row :
  bridge_observations db !! k = Some row →
  role_in_use db (o_raw_blob_hash row) role_bridge_observation = true.
Proof.
  intros Hk. apply existsb_exists. exists (k, row). split; [by apply list_elem_of_In, elem_of_map_to_list|].
  by apply bool_decide_eq_true.
Qed.

Lemma role_in_use_vk db k h :
  verifier_key_observations db !! k = Some h → role_in_use db k.1.1.1.1 role_verifier_key = true.
Proof.
  intros Hk. apply existsb_exists. exists (k, h). split; [by apply list_elem_of_In, elem_of_map_to_list|].
  by apply bool_decide_eq_true.
Qed.

(** Changing the roles keeps the invariant as long as no role in use goes and each one that comes
    names a blob. *)
Lemma Inv_with_roles f db :
  Inv db →
  (∀ h r, role_in_use db h r = true → has_role db h r = true → (h, r) ∈ f (chain_blob_roles db)) →
  (∀ h r, (h, r) ∈ f (chain_blob_roles db) → is_Some (chain_blobs db !! h)) →
  Inv (with_roles f db).
Proof.
  intros HI Huse Hfk.
  assert (∀ h r, role_in_use db h r = true → has_role db h r = true →
    has_role (with_roles f db) h r = true) as Hkeep.
  { intros h r Hu Hr. apply bool_decide_eq_true. by apply Huse. }
  destruct HI. split; cbn; try (assumption || done).
  - intros k row Hk. destruct (inv_blocks0 k row Hk) as (Hc & Hh & Hb). split_and!; [done| |].
    + apply Hkeep; [by eapply role_in_use_header|done].
    + intros h Hh'. apply Hkeep; [by eapply role_in_use_body|by apply Hb].
  - intros k row Hk. destruct (inv_transactions0 k row Hk) as (Hc & Hb & Hr). split_and!; [done..|].
    apply Hkeep; [by eapply role_in_use_tx|done].
  - intros k row Hk. destruct (inv_observations0 k row Hk) as (Hc & Hb & Hr). split_and!; [done..|].
    apply Hkeep; [by eapply role_in_use_observation|done].
  - intros k h Hk. destruct (inv_vks0 k h Hk) as (Hr & Hp & Hs). split_and!; [|done..].
    apply Hkeep; [by eapply role_in_use_vk|done].
Qed.

Lemma removable_unused db h r (u : unit) :
  chain_archive_assert_role_removable db h r = Ok u → role_in_use db h r = false.
Proof. unfold chain_archive_assert_role_removable. by destruct (role_in_use db h r). Qed.

Lemma delete_role_Inv old db : Inv db → Inv (delete_role old db).2.
Proof.
  intros HI. unfold delete_role, statement. destruct (has_role db old.1 old.2); [|done].
  cbn [chain_blob_roles_guard_removal].
  destruct (chain_archive_assert_role_removable _ _ _) as [u|] eqn:E; [|done].
  apply removable_unused in E. unfold mbind, result_bind. cbn. apply Inv_with_roles; [done| |].
  - intros h r Hu Hr%bool_decide_eq_true. apply elem_of_difference. split; [done|].
    intros Heq%elem_of_singleton. subst old. cbn in E. congruence.
  - intros h r [Hr _]%elem_of_difference. by eapply (inv_roles _ HI).
Qed.

Lemma update_role_Inv old new db : Inv db → Inv (update_role old new db).2.
Proof.
  intros HI. unfold update_role, statement. destruct (has_role db old.1 old.2); [|done].
  unfold chain_blob_roles_guard_removal, mbind, result_bind.
  destruct (bool_decide (new = old)) eqn:Hnew; [done|].
  destruct (chain_archive_assert_role_removable _ _ _) as [u|] eqn:E; [|done].
  apply removable_unused in E.
  destruct (unique_index _ _); [|done].
  destruct (foreign_key _ _) as [u2|] eqn:Hfk; [|done]. apply foreign_key_ok in Hfk.
  apply bool_decide_eq_true in Hfk. cbn. apply Inv_with_roles; [done| |].
  - intros h r Hu Hr%bool_decide_eq_true. apply elem_of_union. right. apply elem_of_difference.
    split; [done|]. intros Heq%elem_of_singleton. subst old. cbn in E. congruence.
  - intros h r [Heq%elem_of_singleton|[Hr _]%elem_of_difference]%elem_of_union.
    + by subst new.
    + by eapply (inv_roles _ HI).
Qed.

(** Replacing rows of [blocks] in place: what is left to check, row by row. *)
Lemma blocks_updated db f :
  Inv db →
  (∀ k, is_Some (f (blocks db) !! k) ↔ is_Some (blocks db !! k)) →
  (∀ k row row', blocks db !! k = Some row → f (blocks db) !! k = Some row' →
     block_kept row row' ∧ check_block k row' = Ok tt) →
  (∀ k k' row row', f (blocks db) !! k = Some row → f (blocks db) !! k' = Some row' → k.1 = k'.1 →
     b_is_canonical row = true → b_is_canonical row' = true → k = k') →
  Inv (with_blocks f db) ∧ grows db (with_blocks f db).
Proof.
  intros HI Hdom Hrow Huniq.
  assert (grows db (with_blocks f db)) as HG.
  { destruct (grows_refl db HI). split; cbn; try (assumption || done).
    intros k row Hk. destruct (proj2 (Hdom k) (mk_is_Some _ _ Hk)) as [row' Hk'].
    exists row'. split; [done|]. by destruct (Hrow k row row' Hk Hk'). }
  split; [|done]. destruct HI. split; cbn; try (assumption || done).
  - intros k row' Hk'. destruct (proj1 (Hdom k) (mk_is_Some _ _ Hk')) as [row Hk].
    destruct (Hrow k row row' Hk Hk') as [Hkept Hc]. destruct (inv_blocks0 k row Hk) as (_ & Hh & Hb).
    split_and!; [done| |].
    + by rewrite (kept_header _ _ Hkept).
    + rewrite (kept_body _ _ Hkept). apply Hb.
  - intros k' r' Hk'. destruct (inv_transactions0 _ _ Hk') as (? & ? & ?). split_and!; [done| |done].
    eapply has_block_mono; [apply HG|done].
  - intros k' r' Hk'. destruct (inv_observations0 _ _ Hk') as (? & ? & ?). split_and!; [done| |done].
    eapply has_block_mono; [apply HG|done].
Qed.

Lemma update_unmark_le k : steps archive_le (update_unmark k).
Proof.
  apply (steps_statement _). intros db [] db' H HI. pass_guards H. simplify_eq.
  assert (∀ k' row, blocks db !! k' = Some row → unmarks k k' row = true → b_finalized row = false)
    as Hnf.
  { intros k' row Hk' Hu. rewrite forallb_forall in Hok. specialize (Hok (k', row)). cbn in Hok.
    rewrite Hu in Hok. cbn in Hok. apply negb_true_iff, Hok.
    by apply list_elem_of_In, elem_of_map_to_list. }
  apply blocks_updated; [done|..].
  - intros k'. rewrite map_lookup_imap. destruct (blocks db !! k'); cbn; [|done]. by split; eauto.
  - intros k' row row' Hk'. rewrite map_lookup_imap, Hk'. cbn. intros [= <-].
    destruct (inv_blocks db HI k' row Hk') as (Hc & _).
    destruct (unmarks k k' row) eqn:Hu; [|split; [by eapply kept_self|done]].
    specialize (Hnf k' row Hk' Hu). split; [|by apply check_block_orphan].
    split; try done. by rewrite Hnf.
  - intros k1 k2 r1 r2. rewrite !map_lookup_imap.
    destruct (blocks db !! k1) as [r1'|] eqn:H1, (blocks db !! k2) as [r2'|] eqn:H2; cbn; try done.
    intros [= <-] [= <-] Heq Hc1 Hc2. eapply (inv_canonical db HI); [exact H1|exact H2|done|..].
    + by destruct (unmarks k k1 r1').
    + by destruct (unmarks k k2 r2').
Qed.

Lemma update_mark_le k finalized : steps archive_le (update_mark k finalized).
Proof.
  apply (steps_statement _). intros db n db' H HI.
  destruct (blocks db !! k) as [row|] eqn:Hk.
  2:{ simplify_eq. split; [done|by apply grows_refl]. }
  pass_guards H. simplify_eq. apply negb_true_iff in Hok0.
  destruct (inv_blocks db HI k row Hk) as (Hc & _).
  apply blocks_updated; [done|..].
  - intros k'. destruct (decide (k' = k)) as [->|].
    + rewrite lookup_insert_eq, Hk. by split; eauto.
    + by rewrite lookup_insert_ne.
  - intros k' r r' Hr. rewrite lookup_insert_Some. intros [[<- <-]|[Hne Hr']]; simplify_eq.
    + split; [|by apply check_block_enthrone]. split; try done.
      intros Hf. split; [|done]. unfold blocks_enforce_finalized_monotonic in Hok.
      by destruct (b_finalized row), (b_finalized (enthrone finalized row)).
    + split; [by eapply kept_self|]. by apply (inv_blocks db HI).
  - intros k1 k2 r1 r2. rewrite !lookup_insert_Some.
    intros [[<- <-]|[Hn1 H1]] [[<- <-]|[Hn2 H2]] Heq Hc1 Hc2; [done| | |by eapply (inv_canonical db HI)].
    + symmetry. by eapply other_canonical_false.
    + by eapply other_canonical_false.
Qed.

Lemma upsert_cursor_le key value : steps archive_le (upsert_cursor key value).
Proof.
  apply (steps_statement _). intros db [] db' H HI.
  assert (db' = db ∨ db' = with_watermarks <[key := value]> db) as [->| ->].
  { destruct (archive_watermarks db !! key) as [old|]; [destruct (may_replace old value)|];
      simplify_eq; auto. }
  - split; [done|by apply grows_refl].
  - split; [destruct HI|destruct (grows_refl db HI)]; split; cbn; assumption.
Qed.
End spec.

#[export] Hint Resolve insert_role_le insert_block_le insert_transaction_le insert_observation_le
  upsert_vk_le update_unmark_le update_mark_le upsert_cursor_le : umbra.
