(* ===== verification/ChainArchiveDemo.v ===== *)
(** * The chain archive: concrete runs

    A fault-free connection over an archive of its own, a digest of 32 bytes, and two blocks on
    it: the concrete inputs the theorems of the archive are applied to. *)

From S2P Require Import Prelude Text Json Errors Transaction Driver Hex.
From S2P Require Import Checkpoint.
From S2P Require Import ChainArchive.
From S2P Require Import ChainArchiveStore.
From S2P Require Import ChainArchiveSpec.

Local Open Scope Z_scope.

(** The bytes themselves, cut or padded to 32. *)
Definition padded_digest : Sha256 := λ data, take 32 (data ++ replicate 32 Byte.x00).

Lemma padded_digest_length : @Sha256Digest padded_digest.
Proof. intros data. unfold sha256, padded_digest. rewrite length_take, length_app, length_replicate. lia. Qed.

(** JSON values as they are. *)
Definition plain_json : JsonBinding.
Proof. refine {| bind_json := Ok |}. done. Defined.

#[export] Instance demo_sha : Sha256 := padded_digest.
#[export] Instance demo_text : TextBinding := rejecting_binding.
#[export] Instance demo_json : JsonBinding := plain_json.
#[export] Instance demo_begin : SqlBegin ArchiveDb := no_faults.

Lemma archive_inv_empty {sha : Sha256} : Inv empty_archive.
Proof. by split; intros; cbn in *; simplify_map_eq; set_solver. Qed.

(** 64 times one digit. *)
Definition hash_of (c : N) : jsstr := replicate 64 c.

Definition demo_block (hash : jsstr) (canonical finalized : bool) : BlockRecord :=
  {| br_net := js "devnet"; br_blockHash := hash; br_height := NumInt 1;
     br_parentHash := hash_of 48; br_stateRoot := hash_of 49; br_extrinsicsRoot := hash_of 50;
     br_author := None; br_headerBytes := [Byte.x01]; br_bodyBytes := Some [Byte.x02];
     br_isCanonical := canonical;
     br_status := if canonical then status_canonical else status_seen;
     br_finalized := finalized |}.

Definition demo_tx (blockHash txHash : jsstr) (position : Z) (raw : bytes) : TransactionRecord :=
  {| tr_net := js "devnet"; tr_txHash := txHash; tr_blockHeight := NumInt 1;
     tr_blockHash := blockHash; tr_position := NumInt position; tr_kind := kind_regular;
     tr_protocolVersion := NumInt 7; tr_result := None; tr_rawBytes := raw |}.

Definition demo_obs (blockHash : jsstr) : BridgeObservationRecord :=
  {| bo_net := js "devnet"; bo_blockHeight := NumInt 1; bo_blockHash := blockHash;
     bo_observationIndex := NumInt 0; bo_kind := system_parameters_d; bo_rawBytes := [Byte.x03] |}.

Definition hash_a : jsstr := hash_of 97.
Definition hash_b : jsstr := hash_of 98.

Definition bundle_a : BlockBundle :=
  {| bb_block := demo_block hash_a true false;
     bb_transactions := [demo_tx hash_a (hash_of 99) 0 [Byte.x04]; demo_tx hash_a (hash_of 100) 1 [Byte.x05]];
     bb_bridgeObservations := [demo_obs hash_a] |}.

Definition archive0 : World ArchiveDb := idle_world empty_archive.
Definition archive1 : World ArchiveDb := (putBlockBundle bundle_a archive0).2.
Definition archive2 : World ArchiveDb := (putBlock (demo_block hash_b false false) archive1).2.
(** Block [a] finalized. *)
Definition archive3 : World ArchiveDb :=
  (setCanonical (js "devnet") (NumInt 1) hash_a (Some true) archive2).2.

Lemma archive1_run : (putBlockBundle bundle_a archive0).1 =
  Ok (sha256Hex [Byte.x01], Some (sha256Hex [Byte.x02])).
Proof. vm_compute. reflexivity. Qed.

Lemma archive2_run : (putBlock (demo_block hash_b false false) archive1).1 =
  Ok (sha256Hex [Byte.x01], Some (sha256Hex [Byte.x02])).
Proof. vm_compute. reflexivity. Qed.

Lemma archive3_run : (setCanonical (js "devnet") (NumInt 1) hash_a (Some true) archive2).1 = Ok tt.
Proof. vm_compute. reflexivity. Qed.

(** The worlds are compared by name before they are run. *)
#[global] Strategy 1000 [archive1 archive2 archive3].
