(* ===== verification/ChainArchiveTheorems.v ===== *)
(** * The chain archive: its invariant and its growth

    Every run of the store's methods keeps the schema's invariant and only ever adds to the
    archive: a block once archived stays as it is but for its canonical and finalized marks, and a
    finalized block is never displaced. *)

From S2P Require Import Prelude Text Json Errors Transaction Driver Hex.
From S2P Require Import Checkpoint.
From S2P Require Import ChainArchive.
From S2P Require Import ChainArchiveStore.
From S2P Require Import ChainArchiveSpec.
From S2P Require Import ChainArchiveDemo.

Local Open Scope Z_scope.

(** ** Every method stays inside the append-only order *)

Section blob_le.
Context {sha : Sha256} {tb : TextBinding}.

Lemma blob_key data : hexToBuf (sha256Hex data) = sha256 data.
Proof. apply hexToBuf_bufToHex. Qed.

Lemma insert_blob_with_role_le data role : steps archive_le (insert_blob_with_role data role).
Proof. apply steps_bind; [apply _|apply insert_blob_le, blob_key|intros _; apply insert_role_le]. Qed.
#[local] Hint Resolve insert_blob_with_role_le : umbra.

Lemma insert_body_le body : steps archive_le (insert_body body).
Proof. destruct body; cbn; [auto with umbra|apply (steps_ret _)]. Qed.
#[local] Hint Resolve insert_body_le : umbra.

End blob_le.

(** Chase the binds of a row insert. *)
Ltac chase := repeat lazymatch goal with
  | |- steps _ (insert_body _) => apply insert_body_le
  | |- steps _ (insert_blob_with_role _ _) => apply insert_blob_with_role_le
  | |- steps _ (insert_block _ _) => apply insert_block_le
  | |- steps _ (insert_transaction _ _) => apply insert_transaction_le
  | |- steps _ (insert_observation _ _) => apply insert_observation_le
  | |- steps _ (upsert_vk _ _) => apply upsert_vk_le
  | |- steps _ (update_unmark _) => apply update_unmark_le
  | |- steps _ (update_mark _ _) => apply update_mark_le
  | |- steps _ (check _) => apply (steps_check _)
  | |- steps _ (mret _) => apply (steps_ret _)
  | |- steps _ (throw _) => apply (steps_throw _)
  | |- steps _ (_ ≫= _) => apply (steps_bind _); [|intros ?]
  | |- steps _ (if _ then _ else _) => case_match
  end.

Section rows_le.
Context {sha : Sha256} {tb : TextBinding}.

Lemma insertBlockRow_le block : steps archive_le (insertBlockRow block).
Proof. unfold insertBlockRow. chase. Qed.

Lemma insertTransactionRow_le t : steps archive_le (insertTransactionRow t).
Proof. unfold insertTransactionRow. chase. Qed.

Lemma insertBridgeObservationRow_le o : steps archive_le (insertBridgeObservationRow o).
Proof. unfold insertBridgeObservationRow. chase. Qed.

Lemma insertTransactionRows_le txs : steps archive_le (insertTransactionRows txs).
Proof. apply (steps_for_each _), insertTransactionRow_le. Qed.

Lemma insertBridgeObservationRows_le obs : steps archive_le (insertBridgeObservationRows obs).
Proof. apply (steps_for_each _), insertBridgeObservationRow_le. Qed.

Lemma bundle_rows_le bundle : steps archive_le (bundle_rows bundle).
Proof.
  unfold bundle_rows. apply (steps_bind _); [apply insertBlockRow_le|intros ?].
  apply (steps_bind _); [case_match; [apply insertTransactionRows_le|apply (steps_ret _)]|intros ?].
  apply (steps_bind _); [case_match; [apply insertBridgeObservationRows_le|apply (steps_ret _)]|intros ?].
  apply (steps_ret _).
Qed.

Lemma vk_rows_le vk : steps archive_le (vk_rows vk).
Proof. unfold vk_rows. chase. Qed.

Lemma flip_rows_le net height blockHash finalized :
  steps archive_le (flip_rows net height blockHash finalized).
Proof. unfold flip_rows. chase. Qed.

Lemma read_blob_le hash : steps archive_le (read_blob hash).
Proof. intros db. unfold read_blob. repeat case_match; done. Qed.
End rows_le.

(** ** Retrying *)

(** [if (xs.length > 0) await rows(xs)] moves like the loop. *)
Lemma guarded_rows_le {sha : Sha256} {A} (m : act ArchiveDb A) (f : A) (b : bool) :
  steps archive_le m → steps archive_le (if b then m else mret f).
Proof. intros Hm. destruct b; [done|apply (steps_ret _)]. Qed.

Section retry.
Context {sha : Sha256} {tb : TextBinding}.

(** Once [m] has succeeded, running it again on any archive grown from the result returns the
    same value and changes nothing. *)
Definition retryable {A} (m : act ArchiveDb A) : Prop :=
  ∀ db a db1, Inv db → m db = (Ok a, db1) → ∀ db', grows db1 db' → m db' = (Ok a, db').

Lemma retryable_check {A} (r : result thrown A) : retryable (check r).
Proof. intros db a db1 _ [= -> <-] db' _. done. Qed.

Lemma retryable_ret {A} (a : A) : retryable (mret a).
Proof. intros db a' db1 _ [= <- <-] db' _. done. Qed.

Lemma retryable_bind {A B} (m : act ArchiveDb A) (f : A → act ArchiveDb B) :
  steps archive_le m → (∀ a, steps archive_le (f a)) →
  retryable m → (∀ a, retryable (f a)) → retryable (m ≫= f).
Proof.
  intros Lm Lf Rm Rf db b db2 HI (a & db1 & H1 & H2)%action_bind_inv db' HG.
  destruct (Lm db HI) as [HI1 _]. rewrite H1 in HI1; cbn in HI1.
  destruct (Lf a db1 HI1) as [_ HG1]. rewrite H2 in HG1; cbn in HG1.
  rewrite (action_bind_ok m f db' a db').
  - by eapply (Rf a db1).
  - eapply (Rm db); [done|exact H1|]. by eapply grows_trans.
Qed.

Lemma retryable_for_each {A} (f : A → act ArchiveDb unit) xs :
  (∀ x, steps archive_le (f x)) → (∀ x, retryable (f x)) → retryable (for_each f xs).
Proof.
  intros Lf Rf. induction xs as [|x xs IH]; [apply retryable_ret|].
  apply retryable_bind; [done| |done|by intros _]. intros _. by apply (steps_for_each _).
Qed.

Lemma has_blob_mono db db' h : grows db db' → has_blob db h = true → has_blob db' h = true.
Proof.
  intros HG. unfold has_blob. rewrite !bool_decide_eq_true. intros [d Hd].
  exists d. by eapply lookup_weaken, HG.
Qed.

Lemma assert_role_grown db db' h r :
  grows db db' → chain_archive_assert_blob_role db h r = Ok tt →
  chain_archive_assert_blob_role db' h r = Ok tt.
Proof.
  intros HG. destruct h as [h|]; [|done]. cbn. destruct (has_role db h r) eqn:Hr; [|done].
  by rewrite (has_role_mono _ _ _ _ (grows_roles _ _ HG) Hr).
Qed.

Lemma blocks_roles_grown db db' row :
  grows db db' → blocks_check_blob_roles db row = Ok tt → blocks_check_blob_roles db' row = Ok tt.
Proof.
  intros HG. unfold blocks_check_blob_roles, mbind, result_bind.
  destruct (chain_archive_assert_blob_role db (Some _) _) as [[]|] eqn:E; [|done]. intros E2.
  by rewrite !(assert_role_grown db db').
Qed.

Lemma retryable_insert_blob data : retryable (insert_blob (sha256 data) data).
Proof.
  intros db [] db1 HI H db' HG. unfold insert_blob in H. apply statement_inv in H. pass_guards H.
  unfold insert_blob, statement.
  unfold mbind, result_bind. rewrite Hok. cbn [check_constraint].
  rewrite (has_blob_mono db1 db'); [done|done|]. unfold has_blob in *.
  destruct (bool_decide _) eqn:Hb; simplify_eq; [done|]. cbn.
  apply bool_decide_eq_true. rewrite lookup_insert_eq. eauto.
Qed.

Lemma retryable_insert_role hash role : retryable (insert_role hash role).
Proof.
  intros db [] db1 HI H db' HG. unfold insert_role in H. apply statement_inv in H.
  unfold insert_role, statement.
  destruct (role_of_text role) as [r|]; [|done].
  rewrite (has_role_mono db1 db'); [done|by apply grows_roles|].
  destruct (has_role db hash r) eqn:Hr; [by simplify_eq|]. pass_guards H. simplify_eq.
  unfold has_role. cbn. apply bool_decide_eq_true. set_solver.
Qed.

Lemma retryable_insert_block k row : retryable (insert_block k row).
Proof.
  intros db [] db1 HI H0 db' HG. pose proof (insert_block_le k row db HI) as [_ HG1].
  rewrite H0 in HG1; cbn in HG1. unfold insert_block in H0. apply statement_inv in H0 as H.
  unfold insert_block, statement. pass_guards H.
  pose proof (grows_trans _ _ _ HG1 HG) as HG'.
  unfold mbind, result_bind. rewrite (blocks_roles_grown db db') by done.
  rewrite (has_block_mono db1 db'); [done|by apply grows_blocks|].
  destruct (has_block db k) eqn:Hb; [by simplify_eq|]. pass_guards H. simplify_eq.
  unfold has_block. cbn. rewrite lookup_insert_eq. by apply bool_decide_eq_true.
Qed.

(** A row with that key or that position stays there. *)
Lemma transaction_present_grown db db' k p :
  grows db db' → bool_decide (is_Some (transactions db !! k)) || position_taken (transactions db) k.1 p = true →
  bool_decide (is_Some (transactions db' !! k)) || position_taken (transactions db') k.1 p = true.
Proof.
  intros HG. rewrite !orb_true_iff, !bool_decide_eq_true. intros [[r Hr]|Hp]; [left|right].
  - exists r. eapply lookup_weaken; [done|apply HG].
  - unfold position_taken in *. apply existsb_exists in Hp as ([k' r] & Hin & Hp).
    apply existsb_exists. exists (k', r). split; [|done].
    apply list_elem_of_In, elem_of_map_to_list. apply list_elem_of_In, elem_of_map_to_list in Hin.
    eapply lookup_weaken; [done|apply HG].
Qed.

Lemma retryable_insert_transaction k row : retryable (insert_transaction k row).
Proof.
  intros db [] db1 HI H0 db' HG. pose proof (insert_transaction_le k row db HI) as [_ HG1].
  rewrite H0 in HG1; cbn in HG1. unfold insert_transaction in H0. apply statement_inv in H0 as H.
  unfold insert_transaction, statement, transactions_check_blob_roles in *. pass_guards H.
  pose proof (grows_trans _ _ _ HG1 HG) as HG'.
  unfold mbind, result_bind. rewrite !(assert_role_grown db db') by done.
  rewrite (transaction_present_grown db1 db'); [done|done|].
  destruct (_ || _) eqn:Hb; [by simplify_eq|]. pass_guards H. simplify_eq. cbn.
  rewrite lookup_insert_eq. by rewrite bool_decide_eq_true_2.
Qed.

Lemma retryable_insert_observation k row : retryable (insert_observation k row).
Proof.
  intros db [] db1 HI H0 db' HG. pose proof (insert_observation_le k row db HI) as [_ HG1].
  rewrite H0 in HG1; cbn in HG1. unfold insert_observation in H0. apply statement_inv in H0 as H.
  unfold insert_observation, statement, bridge_observations_check_blob_roles in *. pass_guards H.
  pose proof (grows_trans _ _ _ HG1 HG) as HG'.
  unfold mbind, result_bind. rewrite !(assert_role_grown db db') by done.
  assert (is_Some (bridge_observations db1 !! k)) as [r Hr].
  { case_bool_decide as Hb; [by simplify_eq|]. pass_guards H. simplify_eq. cbn.
    rewrite lookup_insert_eq. eauto. }
  rewrite bool_decide_eq_true_2; [done|]. exists r.
  eapply lookup_weaken; [done|apply HG].
Qed.

Lemma retryable_insert_blob_with_role data role : retryable (insert_blob_with_role data role).
Proof.
  unfold insert_blob_with_role. rewrite blob_key.
  apply retryable_bind; [by apply insert_blob_le|intros _; apply insert_role_le
    |apply retryable_insert_blob|intros _; apply retryable_insert_role].
Qed.

Lemma retryable_insert_body body : retryable (insert_body body).
Proof. destruct body; [apply retryable_insert_blob_with_role|apply retryable_ret]. Qed.

Ltac chase_retry := repeat lazymatch goal with
  | |- retryable (insert_blob_with_role _ _) => apply retryable_insert_blob_with_role
  | |- retryable (insert_body _) => apply retryable_insert_body
  | |- retryable (insert_block _ _) => apply retryable_insert_block
  | |- retryable (insert_transaction _ _) => apply retryable_insert_transaction
  | |- retryable (insert_observation _ _) => apply retryable_insert_observation
  | |- retryable (check _) => apply retryable_check
  | |- retryable (mret _) => apply retryable_ret
  | |- retryable (_ ≫= _) => apply retryable_bind; [chase|intros ?; chase| |intros ?]
  end.

Lemma retryable_insertBlockRow block : retryable (insertBlockRow block).
Proof.
  unfold insertBlockRow.
  chase_retry.
Qed.

Lemma retryable_insertTransactionRows txs : retryable (insertTransactionRows txs).
Proof.
  apply retryable_for_each; [apply insertTransactionRow_le|intros t]. unfold insertTransactionRow.
  chase_retry.
Qed.

Lemma retryable_insertBridgeObservationRows obs : retryable (insertBridgeObservationRows obs).
Proof.
  apply retryable_for_each; [apply insertBridgeObservationRow_le|intros o].
  unfold insertBridgeObservationRow.
  chase_retry.
Qed.

Lemma retryable_bundle_rows bundle : retryable (bundle_rows bundle).
Proof.
  unfold bundle_rows.
  apply retryable_bind; [apply insertBlockRow_le|intros ?|apply retryable_insertBlockRow|intros ?].
  - apply (steps_bind _); [apply guarded_rows_le, insertTransactionRows_le|intros ?].
    apply (steps_bind _); [apply guarded_rows_le, insertBridgeObservationRows_le|intros ?; chase].
  - apply retryable_bind; [apply guarded_rows_le, insertTransactionRows_le|intros ?|..].
    + apply (steps_bind _); [apply guarded_rows_le, insertBridgeObservationRows_le|intros ?; chase].
    + case_match; [apply retryable_insertTransactionRows|apply retryable_ret].
    + intros ?. apply retryable_bind; [|intros ?; chase| |intros ?; apply retryable_ret].
      * apply guarded_rows_le, insertBridgeObservationRows_le.
      * case_match; [apply retryable_insertBridgeObservationRows|apply retryable_ret].
Qed.
End retry.

Section archive.
Context {S : Type} {pt : Part S ArchiveDb} {sb : SqlBegin S} {tb : TextBinding} {jb : JsonBinding}
  {sha : Sha256}.
Implicit Types w : World S.

Abbreviation archive w := (part (w_db w) : ArchiveDb).

(** One call of any method, whatever its outcome. *)
Inductive archive_step : World S → World S → Prop :=
  | step_putBlobWithRole data role w : archive_step w (putBlobWithRole data role w).2
  | step_putBlock block w : archive_step w (putBlock block w).2
  | step_putTransactions txs w : archive_step w (putTransactions txs w).2
  | step_putBridgeObservations obs w : archive_step w (putBridgeObservations obs w).2
  | step_putBlockBundle bundle w : archive_step w (putBlockBundle bundle w).2
  | step_putVerifierKeyObservation vk w : archive_step w (putVerifierKeyObservation vk w).2
  | step_setCanonical net height blockHash finalized w :
      archive_step w (setCanonical net height blockHash finalized w).2
  | step_getBlocksAtHeight net height w : archive_step w (getBlocksAtHeight net height w).2
  | step_getCanonicalBlockAtHeight net height w :
      archive_step w (getCanonicalBlockAtHeight net height w).2
  | step_getTransactionsByHash net txHash w : archive_step w (getTransactionsByHash net txHash w).2
  | step_getTransactionsForBlock net blockHash w :
      archive_step w (getTransactionsForBlock net blockHash w).2
  | step_getCanonicalChainRange net lo hi w : archive_step w (getCanonicalChainRange net lo hi w).2
  | step_getBlob hash w : archive_step w (getBlob hash w).2
  | step_getWatermark key w : archive_step w (getWatermark key w).2
  | step_setWatermark key value w : archive_step w (setWatermark key value w).2.

Lemma begin_le {A} iso (m : act ArchiveDb A) g :
  steps archive_le m → steps (on_world archive_le) (rethrow g (sql_begin (S := S) iso (on_part m))).
Proof. intros Hm. apply steps_rethrow. by apply (steps_sql_begin _), (steps_on_part _). Qed.

Lemma part_le {A} (m : act ArchiveDb A) g :
  steps archive_le m → steps (on_world archive_le) (rethrow g (on_part (S := S) m)).
Proof. intros Hm. apply steps_rethrow. by apply (steps_on_part _). Qed.

Ltac world_step :=
  repeat first
    [ apply (steps_check _) | apply (steps_ret _) | apply (steps_query _)
    | apply begin_le | apply part_le | apply bundle_rows_le | apply vk_rows_le
    | apply flip_rows_le | apply read_blob_le | apply insertBlockRow_le
    | apply insertTransactionRows_le | apply insertBridgeObservationRows_le
    | apply insert_role_le | apply upsert_cursor_le | apply insert_blob_le, blob_key
    | apply (steps_bind _); [|intros ?] | case_match ].

Lemma archive_step_le w w' : archive_step w w' → on_world archive_le w w'.
Proof.
  destruct 1.
  - revert w. unfold putBlobWithRole, translated. world_step.
  - revert w. unfold putBlock, translated. world_step.
  - revert w. unfold putTransactions, translated. world_step.
  - revert w. unfold putBridgeObservations, translated. world_step.
  - revert w. unfold putBlockBundle, translated. world_step.
  - revert w. unfold putVerifierKeyObservation, translated. world_step.
  - revert w. unfold setCanonical. world_step.
  - revert w. unfold getBlocksAtHeight, translated. world_step.
  - revert w. unfold getCanonicalBlockAtHeight, translated. world_step.
  - revert w. unfold getTransactionsByHash, translated. world_step.
  - revert w. unfold getTransactionsForBlock, translated. world_step.
  - revert w. unfold getCanonicalChainRange, translated. world_step.
  - revert w. unfold getBlob. world_step.
  - revert w. unfold getWatermark, translated. world_step.
  - revert w. unfold setWatermark, translated. world_step.
Qed.

Lemma archive_steps_le w w' : rtc archive_step w w' → on_world archive_le w w'.
Proof.
  induction 1 as [w|w1 w2 w3 H12 _ IH]; [unfold on_world; reflexivity|].
  etrans; [by apply archive_step_le|done].
Qed.

(** C14. Every constraint of the schema holds of every reachable archive: whatever sequence of store
    methods ran from an empty schema, resolved or rejected, and wherever a commit was lost, each
    blob is stored under its own SHA-256, each role and each reference points at a row that
    exists, at most one block per [(net, height)] is canonical, a block is finalized only if it
    is canonical, and no two transactions of a block share a position. *)
Theorem archive_invariant w w' :
  archive w = empty_archive → rtc archive_step w w' → Inv (archive w').
Proof.
  intros He Hr. apply (archive_steps_le _ _ Hr). rewrite He.
  by split; intros; cbn in *; simplify_map_eq; set_solver.
Qed.

(** C22. The archive is append-only. Over any run of the store's methods, no blob, role,
    transaction or observation disappears or changes, a block keeps its key, its header fields
    and its blobs, and a verifier key's first-seen height only goes down. Once a block is
    finalized it stays finalized and canonical, it stays the only canonical block of its height,
    and making another block canonical there is refused. *)
Theorem archive_append_only w w' :
  Inv (archive w) → rtc archive_step w w' →
  grows (archive w) (archive w') ∧
  ∀ k row, blocks (archive w) !! k = Some row → b_finalized row = true →
    (∃ row', blocks (archive w') !! k = Some row' ∧ b_finalized row' = true ∧
       b_is_canonical row' = true) ∧
    (∀ k' row', blocks (archive w') !! k' = Some row' → k'.1 = k.1 →
       b_is_canonical row' = true → k' = k) ∧
    (∀ blockHash finalized w'', hasPostgresUnsafeText k.1.1 = false → hexToBuf blockHash ≠ k.2 →
       setCanonical k.1.1 (NumInt k.1.2) blockHash finalized w' ≠ (Ok tt, w'')).
Proof.
  intros HI Hr. destruct (archive_steps_le _ _ Hr HI) as [HI' HG]. split; [done|].
  intros k row Hk Hf. destruct (grows_blocks _ _ HG k row Hk) as (row' & Hk' & Hkept).
  destruct (kept_finalized _ _ Hkept Hf) as [Hf' Hc']. split_and!.
  - by exists row'.
  - intros k2 r2 H2 Heq Hc2. by eapply (inv_canonical _ HI').
  - intros blockHash finalized w'' Hs Hne H. unfold setCanonical in H. unfold_action_in H.
    destruct (assertHex32 blockHash _) as [[]|]; [|done].
    destruct (sql_begin _ _ w') as [[[]|e] w1] eqn:Hb; [|done].
    apply sql_begin_ok in Hb as (w2 & Hb & _). unfold on_part in Hb.
    destruct (flip_rows _ _ _ _ _) as [r t] eqn:Hfl. simplify_eq.
    unfold flip_rows in Hfl. unfold_action_in Hfl. rewrite (bind_text_safe _ Hs) in Hfl.
    destruct (bind_bigint (NumInt k.1.2)) as [h|] eqn:Hh; [|done].
    apply bind_bigint_ok in Hh as [= <-].
    destruct (update_unmark _ _) as [[[]|] db1] eqn:Hu; [|done].
    unfold update_unmark in Hu. apply statement_inv in Hu. pass_guards Hu.
    rewrite forallb_forall in Hok. specialize (Hok (k, row')). cbn in Hok.
    unfold unmarks, at_height in Hok. rewrite Hc', Hf' in Hok; cbn in Hok.
    rewrite bool_decide_eq_true_2, bool_decide_eq_false_2 in Hok; cbn in Hok; [|congruence|by destruct k as [[]]].
    discriminate Hok. by apply list_elem_of_In, elem_of_map_to_list.
Qed.
End archive.

(** ** Concrete runs *)

Lemma archive1_step : archive_step archive0 archive1.
Proof. apply step_putBlockBundle. Qed.
Lemma archive2_step : archive_step archive1 archive2.
Proof. apply step_putBlock. Qed.
Lemma archive3_step : archive_step archive2 archive3.
Proof. apply step_setCanonical. Qed.

Lemma archive_step_Inv (w w' : World ArchiveDb) :
  @archive_step ArchiveDb part_self demo_begin demo_text demo_json demo_sha w w' → Inv (w_db w) → Inv (w_db w').
Proof. intros Hs HI. by destruct (archive_step_le _ _ Hs HI). Qed.

Lemma Inv_archive1 : Inv (w_db archive1).
Proof. exact (archive_step_Inv _ _ archive1_step archive_inv_empty). Qed.
Lemma Inv_archive2 : Inv (w_db archive2).
Proof. exact (archive_step_Inv _ _ archive2_step Inv_archive1). Qed.
Lemma Inv_archive3 : Inv (w_db archive3).
Proof. exact (archive_step_Inv _ _ archive3_step Inv_archive2). Qed.

Lemma archive_invariant_witness :
  (putBlockBundle bundle_a archive0).1 = Ok (sha256Hex [Byte.x01], Some (sha256Hex [Byte.x02])) ∧
  Inv (w_db archive3).
Proof.
  split; [exact archive1_run|].
  apply (@archive_invariant ArchiveDb part_self demo_begin demo_text demo_json demo_sha
    archive0 archive3); [reflexivity|].
  eapply rtc_l; [exact archive1_step|]. eapply rtc_l; [exact archive2_step|].
  apply rtc_once, archive3_step.
Defined.

Definition key_a : BlockKey := (js "devnet", 1, hexToBuf hash_a).
Definition key_b : BlockKey := (js "devnet", 1, hexToBuf hash_b).

Definition finalized_at (w : World ArchiveDb) (k : BlockKey) : bool :=
  match blocks (w_db w) !! k with Some row => b_finalized row | None => false end.

Lemma finalized_at_spec w k :
  finalized_at w k = true → ∃ row, blocks (w_db w) !! k = Some row ∧ b_finalized row = true.
Proof. unfold finalized_at. destruct (blocks _ !! k) as [row|]; [by exists row|done]. Qed.

Lemma archive3_finalized : finalized_at archive3 key_a = true.
Proof. vm_compute. reflexivity. Qed.

Lemma archive_append_only_witness :
  ∃ row, blocks (w_db archive3) !! key_a = Some row ∧ b_finalized row = true ∧
    ∀ w'', setCanonical (js "devnet") (NumInt 1) hash_b None archive3 ≠ (Ok tt, w'').
Proof.
  destruct (finalized_at_spec _ _ archive3_finalized) as (row & Hrow & Hf).
  exists row. split; [exact Hrow|]. split; [exact Hf|]. intros w''.
  destruct (@archive_append_only ArchiveDb part_self demo_begin demo_text demo_json demo_sha
    archive3 archive3 Inv_archive3 (rtc_refl _ _)) as [_ H].
  destruct (H key_a row Hrow Hf) as (_ & _ & Hrefuse).
  apply (Hrefuse hash_b None w''); [reflexivity|]. vm_compute. discriminate.
Defined.
