(* ===== verification/ChainArchiveBundle.v ===== *)
(** * The chain archive: writing one block

    What [putBlockBundle] leaves in the archive: the block, all its transactions and all its
    observations, or nothing; and what a retry of the same bundle does. *)

From S2P Require Import Prelude Text Json Errors Transaction Driver Hex.
From S2P Require Import Checkpoint.
From S2P Require Import ChainArchive.
From S2P Require Import ChainArchiveStore.
From S2P Require Import ChainArchiveSpec.
From S2P Require Import ChainArchiveDemo.
From S2P Require Import ChainArchiveTheorems.

Local Open Scope Z_scope.

(** ** The rows of a bundle *)

(** The transactions and observations carry the block's own key, and are told apart by hash and
    position, by index. *)
Record bundle_consistent (bundle : BlockBundle) : Prop := {
  txs_belong : ∀ t, t ∈ bb_transactions bundle →
    tr_net t = br_net (bb_block bundle) ∧ tr_blockHeight t = br_height (bb_block bundle) ∧
    tr_blockHash t = br_blockHash (bb_block bundle);
  txs_hashes : NoDup ((λ t, hexToBuf (tr_txHash t)) <$> bb_transactions bundle);
  txs_positions : NoDup (tr_position <$> bb_transactions bundle);
  obs_belong : ∀ o, o ∈ bb_bridgeObservations bundle →
    bo_net o = br_net (bb_block bundle) ∧ bo_blockHeight o = br_height (bb_block bundle) ∧
    bo_blockHash o = br_blockHash (bb_block bundle);
  obs_indexes : NoDup (bo_observationIndex <$> bb_bridgeObservations bundle);
}.

(** Split a successful run into its steps. *)
Ltac split_run H :=
  repeat match type of H with
  | (check ?r ≫= _) ?s = (Ok _, _) =>
      let a := fresh "a" in let s1 := fresh "s" in let H1 := fresh "Hbind" in
      apply action_bind_inv in H as (a & s1 & H1 & H); unfold check in H1;
      apply pair_equal_spec in H1 as [H1 <-]
  | (_ ≫= _) ?s = (Ok _, _) =>
      let a := fresh "u" in let s1 := fresh "db" in let H1 := fresh "Hrun" in
      apply action_bind_inv in H as (a & s1 & H1 & H)
  end.

Section bundle.
Context {sha : Sha256} {tb : TextBinding}.
Implicit Types db : ArchiveDb.

(** The row a transaction record becomes. *)
Definition tx_stored (t : TransactionRecord) (row : TxRow) : Prop :=
  tr_position t = NumInt (t_position row) ∧
  tr_protocolVersion t = NumInt (t_protocol_version row) ∧
  t_kind row = tr_kind t ∧ t_result row = tr_result t ∧ t_raw_blob_hash row = sha256 (tr_rawBytes t).

Definition obs_stored (o : BridgeObservationRecord) (row : BridgeRow) : Prop :=
  o_kind row = bo_kind o ∧ o_raw_blob_hash row = sha256 (bo_rawBytes o).

(** Every row of the bundle is there, under the key its block binds to. *)
Definition bundle_archived (bundle : BlockBundle) (db : ArchiveDb) : Prop :=
  ∃ n h, bind_text (br_net (bb_block bundle)) = Ok n ∧ br_height (bb_block bundle) = NumInt h ∧
    let k := (n, h, hexToBuf (br_blockHash (bb_block bundle))) in
    blocks db !! k = Some (block_row (bb_block bundle)) ∧
    (∀ t, t ∈ bb_transactions bundle →
       ∃ row, transactions db !! (k, hexToBuf (tr_txHash t)) = Some row ∧ tx_stored t row) ∧
    (∀ o, o ∈ bb_bridgeObservations bundle →
       ∃ i row, bo_observationIndex o = NumInt i ∧ bridge_observations db !! (k, i) = Some row ∧
         obs_stored o row).

(** The block's key is not taken. *)
Definition bundle_fresh (bundle : BlockBundle) (db : ArchiveDb) : Prop :=
  ∀ n h, bind_text (br_net (bb_block bundle)) = Ok n → br_height (bb_block bundle) = NumInt h →
    blocks db !! (n, h, hexToBuf (br_blockHash (bb_block bundle))) = None.

(** ** Which tables each step touches *)

Definition same_rows : relation ArchiveDb := λ db db',
  blocks db' = blocks db ∧ transactions db' = transactions db ∧
  bridge_observations db' = bridge_observations db.

#[local] Instance same_rows_preorder : PreOrder same_rows.
Proof.
  split; [by intros db|]. intros d1 d2 d3 (E1 & E2 & E3) (F1 & F2 & F3). unfold same_rows.
  by rewrite F1, F2, F3, E1, E2, E3.
Qed.

Lemma insert_blob_same_rows hash data : steps same_rows (insert_blob hash data).
Proof.
  apply (steps_statement _). intros db [] db' H. pass_guards H.
  destruct (has_blob db hash); by simplify_eq.
Qed.

Lemma insert_role_same_rows hash role : steps same_rows (insert_role hash role).
Proof.
  apply (steps_statement _). intros db [] db' H. destruct (role_of_text role) as [r|]; [|done].
  destruct (has_role db hash r); [by simplify_eq|]. pass_guards H. by simplify_eq.
Qed.

Lemma insert_blob_with_role_same data role db u db1 :
  insert_blob_with_role data role db = (Ok u, db1) → same_rows db db1.
Proof.
  intros H. assert (steps same_rows (insert_blob_with_role data role)) as Hs.
  { apply (steps_bind _); [apply insert_blob_same_rows|intros _; apply insert_role_same_rows]. }
  specialize (Hs db). by rewrite H in Hs.
Qed.

Lemma insert_body_same body db u db1 : insert_body body db = (Ok u, db1) → same_rows db db1.
Proof. destruct body; [apply insert_blob_with_role_same|by intros [= _ <-]]. Qed.

Lemma insertBlockRow_ok block db hashes db1 :
  insertBlockRow block db = (Ok hashes, db1) →
  hashes = (sha256Hex (br_headerBytes block), sha256Hex <$> br_bodyBytes block) ∧
  transactions db1 = transactions db ∧ bridge_observations db1 = bridge_observations db ∧
  ∃ n h, bind_text (br_net block) = Ok n ∧ br_height block = NumInt h ∧
    let k := (n, h, hexToBuf (br_blockHash block)) in
    (blocks db !! k = None → blocks db1 !! k = Some (block_row block)).
Proof.
  intros H. unfold insertBlockRow in H. split_run H.
  apply insert_blob_with_role_same in Hrun as (B1 & T1 & O1).
  apply insert_body_same in Hrun0 as (B2 & T2 & O2). apply bind_bigint_ok in Hbind0.
  injection H as <- <-. unfold insert_block in Hrun1. apply statement_inv in Hrun1.
  split; [done|]. pass_guards Hrun1. unfold has_block in Hrun1. case_bool_decide as Hb.
  - simplify_eq. rewrite T2, O2, T1, O1. split_and!; [done..|]. exists a, a0.
    split_and!; [done..|]. cbn. intros Hn. rewrite <-B1, <-B2 in Hn.
    destruct Hb as [r Hr]. congruence.
  - pass_guards Hrun1. simplify_eq. cbn. rewrite T2, O2, T1, O1. split_and!; [done..|].
    exists a, a0. split_and!; [done..|]. cbn. by rewrite lookup_insert_eq.
Qed.

Lemma insertTransactionRow_ok t db u db1 :
  insertTransactionRow t db = (Ok u, db1) →
  blocks db1 = blocks db ∧ bridge_observations db1 = bridge_observations db ∧
  ∃ n h row, bind_text (tr_net t) = Ok n ∧ tr_blockHeight t = NumInt h ∧ tx_stored t row ∧
    let k := ((n, h, hexToBuf (tr_blockHash t)), hexToBuf (tr_txHash t)) in
    transactions db1 =
      if bool_decide (is_Some (transactions db !! k)) ||
         position_taken (transactions db) k.1 (t_position row)
      then transactions db else <[k := row]> (transactions db).
Proof.
  intros H. unfold insertTransactionRow in H. split_run H.
  apply insert_blob_with_role_same in Hrun as (B1 & T1 & O1).
  apply bind_bigint_ok in Hbind0. apply bind_integer_ok in Hbind1, Hbind2.
  unfold insert_transaction in H. apply statement_inv in H. pass_guards H.
  rewrite <-B1, <-O1.
  assert (blocks db1 = blocks db0 ∧ bridge_observations db1 = bridge_observations db0) as [-> ->].
  { destruct (_ || _); [by simplify_eq|]. pass_guards H. by simplify_eq. }
  split_and!; [done..|].
  exists a, a0, {| t_position := a1; t_kind := tr_kind t; t_protocol_version := a2;
    t_result := tr_result t; t_raw_blob_hash := hexToBuf (sha256Hex (tr_rawBytes t)) |}.
  split; [exact Hbind|]. split; [exact Hbind0|].
  split; [split_and!; [exact Hbind1|exact Hbind2|done..|cbn; apply blob_key]|].
  cbn [t_position fst] in *. rewrite <-T1.
  destruct (_ || _); [by simplify_eq|]. pass_guards H. by simplify_eq.
Qed.

Lemma insertBridgeObservationRow_ok o db u db1 :
  insertBridgeObservationRow o db = (Ok u, db1) →
  blocks db1 = blocks db ∧ transactions db1 = transactions db ∧
  ∃ n h i row, bind_text (bo_net o) = Ok n ∧ bo_blockHeight o = NumInt h ∧
    bo_observationIndex o = NumInt i ∧ obs_stored o row ∧
    let k := ((n, h, hexToBuf (bo_blockHash o)), i) in
    bridge_observations db1 =
      if bool_decide (is_Some (bridge_observations db !! k)) then bridge_observations db
      else <[k := row]> (bridge_observations db).
Proof.
  intros H. unfold insertBridgeObservationRow in H. split_run H.
  apply insert_blob_with_role_same in Hrun as (B1 & T1 & O1).
  apply bind_bigint_ok in Hbind0. apply bind_integer_ok in Hbind1.
  unfold insert_observation in H. apply statement_inv in H. pass_guards H.
  rewrite <-B1, <-T1.
  assert (blocks db1 = blocks db0 ∧ transactions db1 = transactions db0) as [-> ->].
  { case_bool_decide; [by simplify_eq|]. pass_guards H. by simplify_eq. }
  split_and!; [done..|].
  exists a, a0, a1, {| o_kind := bo_kind o; o_raw_blob_hash := hexToBuf (sha256Hex (bo_rawBytes o)) |}.
  split; [exact Hbind|]. split; [exact Hbind0|].
  split; [exact Hbind1|]. split; [split; [done|cbn; apply blob_key]|].
  cbn zeta. rewrite <-O1. destruct (bool_decide _); [by simplify_eq|]. pass_guards H. by simplify_eq.
Qed.

(** ** The two loops *)

Lemma position_free table bk p :
  (∀ k row, table !! k = Some row → k.1 = bk → t_position row ≠ p) →
  position_taken table bk p = false.
Proof.
  intros Hfree. apply not_true_iff_false. intros ([k row] & Hin & Hp)%existsb_exists.
  apply list_elem_of_In, elem_of_map_to_list in Hin. cbn in Hp.
  apply andb_true_iff in Hp as [Hk Hp]. apply bool_decide_eq_true in Hk. apply Z.eqb_eq in Hp.
  by apply (Hfree k row).
Qed.

Lemma insertTransactionRows_ok n h hash txs db db1 :
  (∀ t, t ∈ txs → bind_text (tr_net t) = Ok n ∧ tr_blockHeight t = NumInt h ∧
     hexToBuf (tr_blockHash t) = hash) →
  NoDup ((λ t, hexToBuf (tr_txHash t)) <$> txs) → NoDup (tr_position <$> txs) →
  (∀ t, t ∈ txs → transactions db !! ((n, h, hash), hexToBuf (tr_txHash t)) = None) →
  (∀ k row t, transactions db !! k = Some row → k.1 = (n, h, hash) → t ∈ txs →
     tr_position t ≠ NumInt (t_position row)) →
  insertTransactionRows txs db = (Ok tt, db1) →
  blocks db1 = blocks db ∧ bridge_observations db1 = bridge_observations db ∧
  transactions db ⊆ transactions db1 ∧
  ∀ t, t ∈ txs → ∃ row, transactions db1 !! ((n, h, hash), hexToBuf (tr_txHash t)) = Some row ∧
    tx_stored t row.
Proof.
  revert db. induction txs as [|t txs IH]; intros db Hb Hh Hp Hfree Hpos H.
  { injection H as <-. split_and!; set_solver. }
  apply for_each_cons_inv in H as (db2 & Ht & H).
  apply insertTransactionRow_ok in Ht as (B2 & O2 & n' & h' & row & En & Eh & Hst & T2).
  destruct (Hb t) as (Hn & Hht & <-); [left|]. cbn zeta in T2.
  assert (n' = n) as -> by congruence. assert (h' = h) as -> by congruence.
  rewrite (Hfree t) in T2 by left. cbn [fst] in T2. rewrite bool_decide_eq_false_2 in T2 by by intros [].
  rewrite position_free in T2.
  2:{ intros k r Hk Heq Hr. apply (Hpos k r t Hk Heq); [left|]. rewrite Hr. apply Hst. }
  cbn [orb] in T2. cbn in Hh, Hp. apply NoDup_cons in Hh as [Hh1 Hh], Hp as [Hp1 Hp].
  destruct (IH db2) as (B1 & O1 & G1 & Hall); try done.
  - intros t' Ht'. apply Hb. by right.
  - intros t' Ht'. rewrite T2, lookup_insert_ne; [apply Hfree; by right|].
    intros [= E]. apply Hh1. apply list_elem_of_fmap. by exists t'.
  - intros k r t' Hk Heq Ht'. rewrite T2 in Hk. apply lookup_insert_Some in Hk as [[<- <-]|[_ Hk]].
    + destruct Hst as (<- & _). intros E. apply Hp1, list_elem_of_fmap. by exists t'.
    + apply (Hpos k); [done|done|by right].
  - rewrite T2 in G1. split_and!; [congruence|congruence| |].
    + etrans; [|exact G1]. apply insert_subseteq, Hfree. left.
    + intros t' [->|Ht']%elem_of_cons; [|by apply Hall].
      exists row. split; [|done]. eapply lookup_weaken; [|exact G1]. by rewrite lookup_insert_eq.
Qed.

Lemma insertBridgeObservationRows_ok n h hash obs db db1 :
  (∀ o, o ∈ obs → bind_text (bo_net o) = Ok n ∧ bo_blockHeight o = NumInt h ∧
     hexToBuf (bo_blockHash o) = hash) →
  NoDup (bo_observationIndex <$> obs) →
  (∀ o i, o ∈ obs → bo_observationIndex o = NumInt i →
     bridge_observations db !! ((n, h, hash), i) = None) →
  insertBridgeObservationRows obs db = (Ok tt, db1) →
  blocks db1 = blocks db ∧ transactions db1 = transactions db ∧
  bridge_observations db ⊆ bridge_observations db1 ∧
  ∀ o, o ∈ obs → ∃ i row, bo_observationIndex o = NumInt i ∧
    bridge_observations db1 !! ((n, h, hash), i) = Some row ∧ obs_stored o row.
Proof.
  revert db. induction obs as [|o obs IH]; intros db Hb Hi Hfree H.
  { injection H as <-. split_and!; set_solver. }
  apply for_each_cons_inv in H as (db2 & Ho & H).
  apply insertBridgeObservationRow_ok in Ho as (B2 & T2 & n' & h' & i & row & En & Eh & Ei & Hst & O2).
  destruct (Hb o) as (Hn & Hht & <-); [left|]. cbn zeta in O2.
  assert (n' = n) as -> by congruence. assert (h' = h) as -> by congruence.
  rewrite (Hfree o i) in O2 by (left || done). rewrite bool_decide_eq_false_2 in O2 by by intros [].
  cbn in Hi. apply NoDup_cons in Hi as [Hi1 Hi].
  destruct (IH db2) as (B1 & T1 & G1 & Hall); try done.
  - intros o' Ho'. apply Hb. by right.
  - intros o' i' Ho' Ei'. rewrite O2, lookup_insert_ne; [apply (Hfree o'); [by right|done]|].
    intros [= E]. apply Hi1. apply list_elem_of_fmap. exists o'. split; [congruence|done].
  - rewrite O2 in G1. split_and!; [congruence|congruence| |].
    + etrans; [|exact G1]. apply insert_subseteq, (Hfree o); [left|done].
    + intros o' [->|Ho']%elem_of_cons; [|by apply Hall].
      exists i, row. split; [done|]. split; [|done].
      eapply lookup_weaken; [|exact G1]. by rewrite lookup_insert_eq.
Qed.

(** [if (xs.length > 0) await rows(xs)] is the loop. *)
Lemma skip_empty {A} (f : A → act ArchiveDb unit) xs db :
  (if (0 <? length xs)%nat then for_each f xs else mret tt) db = for_each f xs db.
Proof. by destruct xs. Qed.

Lemma bundle_rows_complete bundle db hashes db1 :
  Inv db → bundle_consistent bundle → bundle_fresh bundle db →
  bundle_rows bundle db = (Ok hashes, db1) → bundle_archived bundle db1.
Proof.
  intros HI HC HF H. unfold bundle_rows in H.
  apply action_bind_inv in H as (hs & d1 & H1 & H).
  apply action_bind_inv in H as ([] & d2 & H2 & H).
  apply action_bind_inv in H as ([] & d3 & H3 & H). injection H as _ <-.
  unfold insertTransactionRows, insertBridgeObservationRows in H2, H3. rewrite skip_empty in H2. rewrite skip_empty in H3.
  apply insertBlockRow_ok in H1 as (_ & T1 & O1 & n & h & En & Eh & Hblk). cbn zeta in Hblk.
  specialize (HF n h En Eh). specialize (Hblk HF).
  set (k := (n, h, hexToBuf (br_blockHash (bb_block bundle)))) in *.
  assert (has_block db k = false) as Hnb.
  { unfold has_block. rewrite HF. by apply bool_decide_eq_false_2; intros []. }
  eapply (insertTransactionRows_ok n h (hexToBuf (br_blockHash (bb_block bundle)))) in H2
    as (B2 & O2 & _ & Htx).
  - eapply (insertBridgeObservationRows_ok n h (hexToBuf (br_blockHash (bb_block bundle)))) in H3
      as (B3 & T3 & _ & Hob).
    + exists n, h. split; [done|]. split; [done|]. cbn zeta. fold k. rewrite B3, T3, B2.
      split; [done|]. split; [exact Htx|exact Hob].
    + intros o Ho. destruct (obs_belong _ HC o Ho) as (-> & -> & ->). done.
    + apply HC.
    + intros o i Ho Hi. apply eq_None_not_Some. intros [r Hr]. rewrite O2, O1 in Hr.
      destruct (inv_observations _ HI _ _ Hr) as (_ & Hb & _). cbn in Hb. fold k in Hb. congruence.
  - intros t Ht. destruct (txs_belong _ HC t Ht) as (-> & -> & ->). done.
  - apply HC.
  - apply HC.
  - intros t Ht. apply eq_None_not_Some. intros [r Hr]. rewrite T1 in Hr.
    destruct (inv_transactions _ HI _ _ Hr) as (_ & Hb & _). cbn in Hb. fold k in Hb. congruence.
  - intros k' r t Hr Hk _. rewrite T1 in Hr. destruct (inv_transactions _ HI _ _ Hr) as (_ & Hb & _).
    rewrite Hk in Hb. fold k in Hb. congruence.
Qed.
End bundle.

(** ** [putBlockBundle] *)

Section world.
Context {S : Type} {pt : Part S ArchiveDb} {sb : SqlBegin S} {tb : TextBinding} {jb : JsonBinding}
  {sha : Sha256}.
Implicit Types w : World S.

Abbreviation archive w := (part (w_db w) : ArchiveDb).

(** A connection that commits whatever its callback resolves with. *)
Definition commits : Prop :=
  ∀ A iso (body : act (World S) A) w a w1,
    body w = (Ok a, w1) → (sql_begin iso body w).1 = Ok a.

Lemma putBlockBundle_run bundle w r w1 :
  putBlockBundle bundle w = (r, w1) →
  archive w1 = archive w ∧ is_ok r = false ∨
  ∃ hashes, bundle_rows bundle (archive w) = (Ok hashes, archive w1) ∧
    ∀ a, r = Ok a → a = hashes.
Proof.
  intros H. unfold putBlockBundle, translated in H. unfold_action_in H.
  destruct (assert_block _ _) as [[]|]; [|simplify_eq; by left].
  destruct (assert_transactions _ _) as [[]|]; [|simplify_eq; by left].
  destruct (bundle_rows bundle (archive w)) as [b db1] eqn:Hrows.
  assert (on_part (bundle_rows bundle) w =
    (b, Build_World (set_part db1 (w_db w)) (activeTransactions w) (w_statement_timeout w))) as Hbody.
  { by apply on_part_run. }
  destruct (sql_begin _ _ w) as [[a|e] w2] eqn:Hb; simplify_eq.
  - apply sql_begin_ok in Hb as (w3 & Hw3 & Hdb & _). rewrite Hbody in Hw3.
    injection Hw3 as -> <-. right. exists a. split; [|by intros ? [= ->]].
    cbn in Hdb. by rewrite Hdb, part_set.
  - apply sql_begin_err in Hb. rewrite Hbody in Hb; cbn in Hb.
    destruct Hb as [[_ ->]|[_ [->|[Hok Hdb]]]]; [by left..|].
    destruct b as [a|]; [|done]. right. exists a. split; [|done]. by rewrite Hdb, part_set.
Qed.

(** C21. One block is archived whole or not at all. Let the block's key be free and the bundle
    consistent. If [putBlockBundle] resolves, the archive holds the block's row, the row of every
    one of its transactions and of every one of its observations, each with the values of the
    bundle. If it rejects, either the archive is unchanged or, when only the commit's outcome was
    lost, it holds all of those rows: no part of a block is ever visible alone. *)
Theorem putBlockBundle_all_or_nothing bundle w r w1 :
  Inv (archive w) → bundle_consistent bundle → bundle_fresh bundle (archive w) →
  putBlockBundle bundle w = (r, w1) →
  bundle_archived bundle (archive w1) ∨ (is_ok r = false ∧ archive w1 = archive w).
Proof.
  intros HI HC HF [[Hsame Hr]|(hashes & Hrows & _)]%putBlockBundle_run; [by right|left].
  by eapply bundle_rows_complete.
Qed.

(** C32. Retrying a block is a no-op. Once [putBlockBundle] has resolved, then after any later run
    of store methods (a canonical flip of the same block included) issuing the same bundle again
    changes nothing, and on a connection that commits it resolves with the same hashes: ingestion
    can always be retried from the last recorded height. *)
Theorem putBlockBundle_retry bundle w hashes w1 w2 :
  Inv (archive w) → putBlockBundle bundle w = (Ok hashes, w1) → rtc archive_step w1 w2 →
  archive (putBlockBundle bundle w2).2 = archive w2 ∧
  (commits → (putBlockBundle bundle w2).1 = Ok hashes).
Proof.
  intros HI H Hr. assert (archive_step w w1) as Hs.
  { replace w1 with (putBlockBundle bundle w).2 by by rewrite H. constructor. }
  destruct (archive_step_le _ _ Hs HI) as [HI1 _].
  destruct (archive_steps_le _ _ Hr HI1) as [HI2 HG].
  pose proof H as H0. apply putBlockBundle_run in H as [[_ ?]|(hs & Hrows & Heq)]; [done|].
  rewrite <-(Heq _ eq_refl) in Hrows. clear Heq hs.
  pose proof (retryable_bundle_rows bundle _ _ _ HI Hrows _ HG) as Hretry.
  split.
  - destruct (putBlockBundle bundle w2) as [r w3] eqn:H3.
    apply putBlockBundle_run in H3 as [[? _]|(hs & Hrows' & _)]; [done|]. cbn. congruence.
  - intros Hc. unfold putBlockBundle, translated in H0 |- *. unfold_action_in H0. unfold_action.
    destruct (assert_block _ _) as [[]|]; [|done].
    destruct (assert_transactions _ _) as [[]|]; [|done].
    assert (on_part (bundle_rows bundle) w2 = (Ok hashes, w2)) as Hbody.
    { by apply on_part_unchanged. }
    specialize (Hc _ None _ _ _ _ Hbody). destruct (sql_begin _ _ w2) as [r w3]; cbn in *.
    by subst r.
Qed.
End world.

(** ** Concrete runs *)

Lemma bundle_a_consistent : bundle_consistent bundle_a.
Proof.
  split.
  - intros t Ht. cbn in Ht. repeat (apply elem_of_cons in Ht as [->|Ht]; [done|]). by inv Ht.
  - apply (bool_decide_unpack _). vm_compute. exact I.
  - apply (bool_decide_unpack _). vm_compute. exact I.
  - intros o Ho. cbn in Ho. repeat (apply elem_of_cons in Ho as [->|Ho]; [done|]). by inv Ho.
  - apply (bool_decide_unpack _). vm_compute. exact I.
Qed.

Lemma bundle_a_fresh : bundle_fresh bundle_a empty_archive.
Proof. intros n h _ _. done. Qed.

Lemma putBlockBundle_all_or_nothing_witness :
  bundle_archived bundle_a (w_db archive1).
Proof.
  destruct (@putBlockBundle_all_or_nothing ArchiveDb part_self demo_begin demo_text demo_sha
    bundle_a archive0 _ archive1 archive_inv_empty bundle_a_consistent bundle_a_fresh
    (surjective_pairing _)) as [H|[H _]]; [exact H|].
  exfalso. revert H. rewrite archive1_run. discriminate.
Defined.

Lemma no_faults_commits : @commits ArchiveDb demo_begin.
Proof. intros A iso body w a w1 H. cbn. unfold begin_no_faults. by rewrite H. Qed.

Lemma archive1_pair : putBlockBundle bundle_a archive0 =
  (Ok (sha256Hex [Byte.x01], Some (sha256Hex [Byte.x02])), archive1).
Proof. rewrite <-archive1_run. apply surjective_pairing. Qed.

Lemma putBlockBundle_retry_witness :
  w_db (putBlockBundle bundle_a archive3).2 = w_db archive3 ∧
  (putBlockBundle bundle_a archive3).1 = Ok (sha256Hex [Byte.x01], Some (sha256Hex [Byte.x02])).
Proof.
  destruct (@putBlockBundle_retry ArchiveDb part_self demo_begin demo_text demo_json demo_sha
    bundle_a archive0 _ archive1 archive3 archive_inv_empty archive1_pair) as [H1 H2].
  - eapply rtc_l; [exact archive2_step|]. apply rtc_once, archive3_step.
  - split; [exact H1|]. apply H2, no_faults_commits.
Defined.
