(* ===== verification/ChainArchiveReads.v ===== *)
(** * The chain archive: the reads and the cursor

    What the ordered range read returns, the integrity of [getBlob], and the watermark that never
    goes back. *)

From S2P Require Import Prelude Text Json Errors Transaction Driver Hex.
From S2P Require Import Checkpoint.
From S2P Require Import ChainArchive.
From S2P Require Import ChainArchiveStore.
From S2P Require Import ChainArchiveSpec.
From S2P Require Import ChainArchiveDemo.
From S2P Require Import ChainArchiveTheorems.

Local Open Scope Z_scope.

(** ** Helpers *)

Lemma Inv_blocks_uniq {sha : Sha256} db k row n h :
  Inv db → blocks db !! k = Some row → k.1 = (n, h) → b_is_canonical row = true →
  filter (λ kr : BlockKey * BlockRow, at_height n h kr.1 && b_is_canonical kr.2)
    (map_to_list (blocks db)) = [(k, row)].
Proof.
  intros HI Hk Hkh Hc.
  assert (∀ kr, kr ∈ filter (λ kr : BlockKey * BlockRow, at_height n h kr.1 && b_is_canonical kr.2)
    (map_to_list (blocks db)) ↔ kr = (k, row)) as Hin.
  { intros [k' r']. rewrite list_elem_of_filter, elem_of_map_to_list. cbn. unfold at_height.
    rewrite Is_true_true, andb_true_iff, bool_decide_eq_true. split.
    - intros [[Heq Hc'] Hk']. assert (k' = k) as -> by (eapply (inv_canonical _ HI); eauto; congruence).
      congruence.
    - intros [= -> ->]. done. }
  assert (NoDup (filter (λ kr : BlockKey * BlockRow, at_height n h kr.1 && b_is_canonical kr.2)
    (map_to_list (blocks db)))) as Hnd by apply NoDup_filter, NoDup_map_to_list.
  destruct (filter _ _) as [|x [|y l]].
  - exfalso. specialize (Hin (k, row)). set_solver.
  - f_equal. apply Hin. set_solver.
  - exfalso. assert (x = (k, row)) as -> by (apply Hin; set_solver).
    assert (y = (k, row)) as -> by (apply Hin; set_solver).
    apply NoDup_cons in Hnd as [Hn _]. set_solver.
Qed.

(** The rows of an ordered read: sorted, and exactly the rows selected. *)
Lemma select_spec {K V} (P : K * V → bool) (R : relation (K * V)) `{!RelDecision R}
    `{!Transitive R, !Total R} `{Countable K} (m : gmap K V) :
  StronglySorted R (select P R (map_to_list m)) ∧ NoDup (select P R (map_to_list m)) ∧
  ∀ k v, (k, v) ∈ select P R (map_to_list m) ↔ m !! k = Some v ∧ P (k, v) = true.
Proof.
  unfold select. split_and!.
  - by apply (StronglySorted_merge_sort R).
  - rewrite merge_sort_Permutation. apply NoDup_filter, NoDup_map_to_list.
  - intros k v. rewrite merge_sort_Permutation, list_elem_of_filter, elem_of_map_to_list, Is_true_true.
    tauto.
Qed.

#[local] Instance ordered_by_trans {A K} (R : relation K) (f : A → K) `{!Transitive R} :
  Transitive (ordered_by R f).
Proof. intros x y z. unfold ordered_by. apply transitivity. Qed.
#[local] Instance ordered_by_total {A K} (R : relation K) (f : A → K) `{!Total R} :
  Total (ordered_by R f).
Proof. intros x y. unfold ordered_by. apply total, _. Qed.
#[local] Instance Zle_total : Total Z.le.
Proof. intros x y. lia. Qed.

Section reads.
Context {S : Type} {pt : Part S ArchiveDb} {sb : SqlBegin S} {tb : TextBinding} {jb : JsonBinding}
  {sha : Sha256}.
Implicit Types w : World S.

Abbreviation archive w := (part (w_db w) : ArchiveDb).

(** The canonical range read. For storable arguments [getCanonicalChainRange] leaves the store
    alone and returns, in strictly increasing order of height, exactly one entry for every
    canonical block whose height lies in the closed range, and nothing else, wherever the
    partition boundaries fall. *)
Theorem getCanonicalChainRange_spec w net lo hi :
  Inv (archive w) → hasPostgresUnsafeText net = false →
  bind_bigint (NumInt lo) = Ok lo → bind_bigint (NumInt hi) = Ok hi →
  ∃ rows : list (BlockKey * BlockRow),
    getCanonicalChainRange net (NumInt lo) (NumInt hi) w = (Ok (toBlockMeta <$> rows), w) ∧
    StronglySorted (λ x y, x.1.1.2 < y.1.1.2) rows ∧
    ∀ k row, (k, row) ∈ rows ↔
      blocks (archive w) !! k = Some row ∧ k.1.1 = net ∧ lo ≤ k.1.2 ≤ hi ∧ b_is_canonical row = true.
Proof.
  intros HI Hs Hlo Hhi.
  set (P := λ kr : BlockKey * BlockRow,
    bool_decide (kr.1.1.1 = net) && (lo <=? kr.1.1.2) && (kr.1.1.2 <=? hi) && b_is_canonical kr.2).
  set (R := ordered_by Z.le (λ kr : BlockKey * BlockRow, kr.1.1.2)).
  exists (select P R (map_to_list (blocks (archive w)))).
  destruct (select_spec P R (blocks (archive w))) as (Hsort & Hnd & Hin).
  assert (∀ k row, P (k, row) = true ↔
    k.1.1 = net ∧ lo ≤ k.1.2 ≤ hi ∧ b_is_canonical row = true) as HP.
  { intros k row. unfold P. cbn. rewrite !andb_true_iff, bool_decide_eq_true, !Z.leb_le. tauto. }
  split_and!.
  - unfold getCanonicalChainRange, translated. unfold rethrow.
    rewrite on_part_unchanged with (r := Ok (toBlockMeta <$> select P R (map_to_list (blocks (archive w))))).
    + done.
    + unfold_action. by rewrite (bind_text_safe _ Hs), Hlo, Hhi.
  - eapply StronglySorted_strict; [exact Hnd| |exact Hsort].
    intros [k r] [k' r'] Hx Hy Hne Hle. unfold R, ordered_by in Hle. cbn in *.
    apply Hin in Hx as [Hk (Hn & _ & Hc)%HP], Hy as [Hk' (Hn' & _ & Hc')%HP].
    destruct (decide (k.1.2 = k'.1.2)) as [Heq|]; [|lia]. exfalso. apply Hne.
    assert (k = k') as <-; [|congruence].
    eapply (inv_canonical _ HI); [done..| |done|done]. destruct k as [[]], k' as [[]]; cbn in *; congruence.
  - intros k row. rewrite Hin, HP. tauto.
Qed.

(** A blob is returned only if it hashes to its key. For a well-formed hash [getBlob] either
    returns the stored bytes, whose SHA-256 is that hash, or rejects: [BlobMissingError] when no
    row has the key, [BlobIntegrityError] with the recomputed hash when the row was corrupted; it
    never changes the store. On an archive only the store has written to, every blob is
    readable. *)
Theorem getBlob_tamper_evident w hash :
  Hex32Schema hash = true →
  getBlob hash w =
    (match chain_blobs (archive w) !! hexToBuf hash with
     | None => Err (BlobMissingError hash)
     | Some data => if decide (sha256Hex data = hash) then Ok data
                    else Err (BlobIntegrityError hash (sha256Hex data))
     end, w) ∧
  (∀ data w', getBlob hash w = (Ok data, w') → sha256Hex data = hash) ∧
  (Inv (archive w) → ∀ data, chain_blobs (archive w) !! hexToBuf hash = Some data →
     getBlob hash w = (Ok data, w)).
Proof.
  intros Hh. assert (getBlob hash w =
    (match chain_blobs (archive w) !! hexToBuf hash with
     | None => Err (BlobMissingError hash)
     | Some data => if decide (sha256Hex data = hash) then Ok data
                    else Err (BlobIntegrityError hash (sha256Hex data))
     end, w)) as Hg.
  { unfold getBlob, assertHex32. rewrite Hh. unfold_action.
    unfold on_part, read_blob. destruct (chain_blobs _ !! _) as [data|]; [case_decide|];
      rewrite set_part_part; by destruct w. }
  split; [done|]. rewrite Hg. split.
  - intros data w'. destruct (chain_blobs _ !! _) as [d|]; [|done]. case_decide; congruence.
  - intros HI data Hd. rewrite Hd. rewrite decide_True; [done|].
    destruct (inv_content _ HI _ _ Hd) as [Heq _]. unfold sha256Hex. rewrite <-Heq.
    by apply Hex32Schema_decode.
Qed.

(** ** The sync cursor *)

Definition height_value (h : Z) : jsval := JObj [(js "height", JNum (NumInt h))].

(** A run of [setWatermark(key, { height })] calls, from any number of overlapping syncs. *)
Fixpoint run_cursor (key : jsstr) (heights : list Z) (w : World S) : World S :=
  match heights with
  | [] => w
  | h :: hs => run_cursor key hs (setWatermark key (height_value h) w).2
  end.

Lemma setWatermark_height w key h :
  hasPostgresUnsafeText key = false →
  setWatermark key (height_value h) w =
    (Ok tt, Build_World
       (set_part (match archive_watermarks (archive w) !! key with
                  | Some old => if may_replace old (height_value h)
                                then with_watermarks <[key := height_value h]> (archive w)
                                else archive w
                  | None => with_watermarks <[key := height_value h]> (archive w)
                  end) (w_db w)) (activeTransactions w) (w_statement_timeout w)).
Proof.
  intros Hk. unfold setWatermark, translated, rethrow, on_part.
  unfold_action. rewrite (bind_text_safe _ Hk). unfold height_value.
  rewrite bind_json_number by done. unfold upsert_cursor, statement. by destruct (_ !! key).
Qed.

Lemma may_replace_heights h h' :
  may_replace (height_value h) (height_value h') = (h <? h').
Proof.
  change (may_replace (height_value h) (height_value h')) with (h * 1 <? h' * 1).
  by rewrite !Z.mul_1_r.
Qed.

Lemma getWatermark_ok w key :
  hasPostgresUnsafeText key = false →
  getWatermark key w = (Ok (archive_watermarks (archive w) !! key), w).
Proof.
  intros Hk. unfold getWatermark, translated, rethrow, on_part.
  unfold_action. rewrite (bind_text_safe _ Hk), set_part_part. by destruct w.
Qed.

(** The cursor never goes back. Whatever the order in which overlapping syncs report their
    heights, the stored cursor is the highest height reported so far, starting from the one that
    was there: a late, lower report is dropped. *)
Theorem setWatermark_monotone key heights w :
  hasPostgresUnsafeText key = false →
  (archive_watermarks (archive w) !! key = None ∨
   ∃ h, archive_watermarks (archive w) !! key = Some (height_value h)) →
  (getWatermark key (run_cursor key heights w)).1 =
    Ok (foldl (λ cur h, match cur with
                        | Some (JObj [(_, JNum (NumInt c))]) => Some (height_value (Z.max c h))
                        | _ => Some (height_value h)
                        end) (archive_watermarks (archive w) !! key) heights).
Proof.
  intros Hk. revert w. induction heights as [|h hs IH]; intros w Hw; cbn.
  { by rewrite getWatermark_ok. }
  rewrite (setWatermark_height w key h Hk). cbn.
  destruct Hw as [Hw|[c Hw]]; rewrite Hw.
  - rewrite IH; cbn; rewrite part_set; cbn; rewrite lookup_insert_eq; [done|by right; eauto].
  - rewrite may_replace_heights. destruct (Z.ltb_spec c h).
    + rewrite IH; cbn; rewrite part_set; cbn; rewrite lookup_insert_eq; [|by right; eauto].
      by rewrite Z.max_r by lia.
    + rewrite IH; cbn; rewrite part_set, Hw; [|by right; eauto]. cbn. by rewrite Z.max_l by lia.
Qed.
End reads.

(** ** Concrete runs *)

Lemma getCanonicalChainRange_spec_witness :
  ∃ rows, getCanonicalChainRange (js "devnet") (NumInt 0) (NumInt 5) archive3 =
            (Ok (toBlockMeta <$> rows), archive3) ∧
    StronglySorted (λ x y : BlockKey * BlockRow, x.1.1.2 < y.1.1.2) rows ∧
    ∃ row, (key_a, row) ∈ rows.
Proof.
  destruct (@getCanonicalChainRange_spec ArchiveDb part_self demo_text demo_sha archive3
    (js "devnet") 0 5 Inv_archive3) as (rows & H1 & H2 & H3); [reflexivity..|].
  exists rows. split; [exact H1|]. split; [exact H2|].
  destruct (finalized_at_spec _ _ archive3_finalized) as (row & Hrow & Hf).
  exists row. apply H3. split; [exact Hrow|]. split; [reflexivity|]. split; [cbn; lia|].
  destruct (inv_blocks _ Inv_archive3 _ _ Hrow) as (Hc & _). by eapply check_block_finalized.
Defined.

Lemma getBlob_tamper_evident_witness :
  Hex32Schema (sha256Hex [Byte.x01]) = true ∧
  getBlob (sha256Hex [Byte.x01]) archive1 = (Ok [Byte.x01], archive1).
Proof.
  assert (Hex32Schema (sha256Hex [Byte.x01]) = true) as Hh by (vm_compute; reflexivity).
  split; [exact Hh|].
  destruct (@getBlob_tamper_evident ArchiveDb part_self demo_sha archive1 _ Hh) as (_ & _ & H).
  apply (H Inv_archive1). vm_compute. reflexivity.
Defined.

Lemma setWatermark_monotone_witness :
  (getWatermark (js "sync_cursor:devnet")
    (run_cursor (js "sync_cursor:devnet") [3; 7; 5]%Z archive0)).1 = Ok (Some (height_value 7)).
Proof.
  rewrite (@setWatermark_monotone ArchiveDb part_self demo_text demo_json
    (js "sync_cursor:devnet") [3; 7; 5] archive0); [reflexivity|reflexivity|by left].
Defined.
