(* ===== verification/ChainArchiveFlip.v ===== *)
(** * The chain archive: the canonical flip and the upserts

    The exact outcomes of [setCanonical] on a fault-free connection, the earliest height a verifier
    key is remembered at, and the transaction [putTransactions] silently drops. *)

From S2P Require Import Prelude Text Json Errors Transaction Driver Hex.
From S2P Require Import Checkpoint.
From S2P Require Import ChainArchive.
From S2P Require Import ChainArchiveStore.
From S2P Require Import ChainArchiveSpec.
From S2P Require Import ChainArchiveDemo.
From S2P Require Import ChainArchiveTheorems.
From S2P Require Import ChainArchiveBundle.
From S2P Require Import ChainArchiveReads.

Local Open Scope Z_scope.

Section flip.
Context {tb : TextBinding} {sha : Sha256}.
Implicit Types db : ArchiveDb.

(** [blocks] after a flip onto [k]: the other canonical block of the height, if any, is orphaned,
    [k] becomes canonical, every other row is as before. *)
Definition flipped (k : BlockKey) (finalized : option bool) (k' : BlockKey) (row : BlockRow) : BlockRow :=
  if decide (k' = k) then enthrone finalized row
  else if decide (k'.1 = k.1) then (if b_is_canonical row then orphan row else row)
  else row.

(** A finalized block other than [k] holds the height. *)
Definition height_finalized (db : ArchiveDb) (k : BlockKey) : Prop :=
  ∃ k' row, blocks db !! k' = Some row ∧ k'.1 = k.1 ∧ k' ≠ k ∧ b_finalized row = true.

Lemma unmarks_spec k k' row :
  unmarks k k' row = true ↔ k'.1 = k.1 ∧ k' ≠ k ∧ b_is_canonical row = true.
Proof.
  unfold unmarks, at_height. rewrite !andb_true_iff, negb_true_iff, bool_decide_eq_true,
    bool_decide_eq_false. destruct k as [[n h] b], k' as [[n' h'] b']; cbn.
  split; [intros [[[= -> ->] ?] ?]|intros ([= -> ->] & ? & ?)]; split_and!; congruence.
Qed.

Definition unmarked (k : BlockKey) db : ArchiveDb :=
  with_blocks (map_imap (λ k' row, Some (if unmarks k k' row then orphan row else row))) db.

Lemma update_unmark_run k db :
  Inv db →
  (height_finalized db k ∧
   update_unmark k db = (Err (pg_error "23514" "new row violates check constraint"
     (Some "blocks_check1"%string)), db)) ∨
  (¬ height_finalized db k ∧ update_unmark k db = (Ok tt, unmarked k db)).
Proof.
  intros HI. unfold update_unmark, statement, mbind, result_bind.
  destruct (forallb _ _) eqn:Hall; cbn [check_constraint]; [right|left]; split; try done.
  - intros (k' & row & Hk & Heq & Hne & Hf). rewrite forallb_forall in Hall.
    specialize (Hall (k', row)). cbn in Hall. rewrite Hf, orb_false_r, negb_true_iff in Hall.
    assert (unmarks k k' row = true) as Hu.
    { apply unmarks_spec. split_and!; [done..|].
      eapply check_block_finalized; [by apply (inv_blocks _ HI)|done]. }
    rewrite Hall in Hu; [done|]. by apply list_elem_of_In, elem_of_map_to_list.
  - apply not_true_iff_false in Hall. apply dec_stable. intros Hn. apply Hall, forallb_forall.
    intros [k' row] Hin%list_elem_of_In%elem_of_map_to_list. cbn.
    destruct (unmarks k k' row) eqn:Hu; [|done]. apply unmarks_spec in Hu as (? & ? & _).
    destruct (b_finalized row) eqn:Hf; [|done]. destruct Hn. by exists k', row.
Qed.

Lemma unmarked_self k db : blocks (unmarked k db) !! k = blocks db !! k.
Proof.
  unfold unmarked; cbn. rewrite map_lookup_imap. destruct (blocks db !! k) as [row|]; [|done]. cbn.
  destruct (unmarks k k row) eqn:Hu; [|done]. by apply unmarks_spec in Hu as (_ & ? & _).
Qed.

Lemma unmarked_no_other k db : other_canonical (unmarked k db) k = false.
Proof.
  apply not_true_iff_false. intros ([k' row'] & Hin & Hp)%existsb_exists.
  apply list_elem_of_In, elem_of_map_to_list in Hin. cbn in Hin, Hp. rewrite map_lookup_imap in Hin.
  destruct (blocks db !! k') as [row|]; [|done]. cbn in Hin. injection Hin as <-.
  rewrite !andb_true_iff, negb_true_iff, bool_decide_eq_false in Hp. unfold at_height in Hp.
  rewrite bool_decide_eq_true in Hp. destruct Hp as [[Heq Hne] Hc].
  assert (k'.1 = k.1) as Heq' by (rewrite Heq; by destruct k as [[]]).
  destruct (unmarks k k' row) eqn:Hu; [done|]. apply not_true_iff_false in Hu. apply Hu.
  by apply unmarks_spec.
Qed.

(** The whole callback, case by case. *)
Lemma flip_rows_run net h blockHash finalized db :
  Inv db → hasPostgresUnsafeText net = false → bind_bigint (NumInt h) = Ok h →
  let k := (net, h, hexToBuf blockHash) in
  (height_finalized db k →
     flip_rows net (NumInt h) blockHash finalized db =
       (Err (pg_error "23514" "new row violates check constraint" (Some "blocks_check1"%string)), db)) ∧
  (¬ height_finalized db k → blocks db !! k = None →
     (flip_rows net (NumInt h) blockHash finalized db).1 = Err (BlockNotFoundError net h blockHash)) ∧
  (∀ row, ¬ height_finalized db k → blocks db !! k = Some row →
     b_finalized row = true → finalized = Some false →
     (flip_rows net (NumInt h) blockHash finalized db).1 =
       Err (pg_error "23514" "cannot un-finalize block" (Some "blocks_finalized_monotonic"%string))) ∧
  (∀ row, ¬ height_finalized db k → blocks db !! k = Some row →
     (b_finalized row = true → finalized ≠ Some false) →
     flip_rows net (NumInt h) blockHash finalized db =
       (Ok tt, with_blocks <[k := enthrone finalized row]> (unmarked k db))).
Proof.
  intros HI Hs Hb k. unfold flip_rows. unfold_action. rewrite (bind_text_safe _ Hs), Hb. fold k.
  destruct (update_unmark_run k db HI) as [[Hh ->]|[Hh ->]]; [by split_and!|].
  split; [done|]. unfold update_mark, statement, blocks_enforce_finalized_monotonic.
  rewrite unmarked_self. split_and!.
  - intros _ Hk. by rewrite Hk.
  - intros row _ Hk Hf Hfin. rewrite Hk, Hf, Hfin. done.
  - intros row _ Hk Hok. rewrite Hk, unmarked_no_other.
    destruct (b_finalized row && negb (b_finalized (enthrone finalized row))) eqn:Hbad; [|done].
    exfalso. apply andb_true_iff in Hbad as [Hf Hnf]. specialize (Hok Hf). cbn in Hnf.
    destruct finalized as [[]|]; cbn in Hnf; [done|done|by rewrite Hf in Hnf].
Qed.

Lemma flipped_lookup k finalized db row k' :
  blocks db !! k = Some row →
  blocks (with_blocks <[k := enthrone finalized row]> (unmarked k db)) !! k' =
    flipped k finalized k' <$> blocks db !! k'.
Proof.
  intros Hk. cbn. unfold flipped. destruct (decide (k' = k)) as [->|Hne].
  { by rewrite lookup_insert_eq, Hk. }
  rewrite lookup_insert_ne, map_lookup_imap by done.
  destruct (blocks db !! k') as [r|]; [|done]. cbn. f_equal.
  destruct (unmarks k k' r) eqn:Hu.
  - apply unmarks_spec in Hu as (Heq & _ & Hc). by rewrite decide_True, Hc.
  - apply not_true_iff_false in Hu. rewrite unmarks_spec in Hu.
    case_decide; [|done]. destruct (b_is_canonical r) eqn:Hc; [|done]. exfalso. by apply Hu.
Qed.
End flip.

(** ** [setCanonical] *)

Section world.
Context {S : Type} {pt : Part S ArchiveDb} {tb : TextBinding} {sha : Sha256}.
Implicit Types w : World S.

Abbreviation archive w := (part (w_db w) : ArchiveDb).
Abbreviation setCanonical := (@setCanonical S pt no_faults tb).

Lemma setCanonical_run net h blockHash finalized w r db :
  Hex32Schema blockHash = true →
  flip_rows net (NumInt h) blockHash finalized (archive w) = (r, db) →
  setCanonical net (NumInt h) blockHash finalized w =
    match r with
    | Ok u => (Ok u, Build_World (set_part db (w_db w)) (activeTransactions w) (w_statement_timeout w))
    | Err e => (Err (flip_catch e), w)
    end.
Proof.
  intros Hh Hr. unfold ChainArchiveStore.setCanonical, assertHex32. rewrite Hh. unfold_action.
  unfold begin_no_faults. erewrite on_part_run by exact Hr. destruct r; cbn; [done|]. by destruct w.
Qed.

(** The outcomes of [setCanonical]. On a well-formed archive and a fault-free connection, with
    [k] the named block: (1) if another finalized block holds the height, it is refused with
    [ChainArchiveCheckViolationError]; (2) if the block does not exist, with [BlockNotFoundError];
    (3) if it would un-finalize the block, with [ChainArchiveInvariantError]; each refusal leaves
    the store untouched. (4) Otherwise it resolves and, in one step, [k] is the canonical block of
    its height, as [getCanonicalBlockAtHeight] then reads it, its predecessor is orphaned, and
    every other row of every table is as it was. *)
Theorem setCanonical_outcomes net h blockHash finalized w :
  Inv (archive w) → hasPostgresUnsafeText net = false → bind_bigint (NumInt h) = Ok h →
  Hex32Schema blockHash = true →
  let k := (net, h, hexToBuf blockHash) in
  let run := setCanonical net (NumInt h) blockHash finalized w in
  (height_finalized (archive w) k →
     run.2 = w ∧ ∃ m cause, run.1 = Err (ChainArchiveCheckViolationError m "blocks_check1" cause)) ∧
  (¬ height_finalized (archive w) k → blocks (archive w) !! k = None →
     run = (Err (BlockNotFoundError net h blockHash), w)) ∧
  (∀ row, ¬ height_finalized (archive w) k → blocks (archive w) !! k = Some row →
     b_finalized row = true → finalized = Some false →
     run.2 = w ∧ ∃ m cause,
       run.1 = Err (ChainArchiveInvariantError m "blocks_finalized_monotonic" cause)) ∧
  (∀ row, ¬ height_finalized (archive w) k → blocks (archive w) !! k = Some row →
     (b_finalized row = true → finalized ≠ Some false) →
     run.1 = Ok tt ∧
     (∀ k', blocks (archive run.2) !! k' = flipped k finalized k' <$> blocks (archive w) !! k') ∧
     with_blocks (λ _, blocks (archive w)) (archive run.2) = archive w ∧
     getCanonicalBlockAtHeight net (NumInt h) run.2 =
       (Ok (Some (toBlockMeta (k, enthrone finalized row))), run.2)).
Proof.
  intros HI Hs Hb Hh k run.
  destruct (flip_rows_run net h blockHash finalized (archive w) HI Hs Hb) as (H1 & H2 & H3 & H4).
  fold k in H1, H2, H3, H4. subst run. split_and!.
  - intros Hf. rewrite (setCanonical_run _ _ _ _ _ _ _ Hh (H1 Hf)). split; [done|].
    eexists _, _. reflexivity.
  - intros Hf Hk. specialize (H2 Hf Hk).
    destruct (flip_rows net (NumInt h) blockHash finalized (archive w)) as [r db] eqn:Hr. cbn in H2. subst r.
    by rewrite (setCanonical_run _ _ _ _ _ _ _ Hh Hr).
  - intros row Hf Hk Hfin Hfl. specialize (H3 row Hf Hk Hfin Hfl).
    destruct (flip_rows net (NumInt h) blockHash finalized (archive w)) as [r db] eqn:Hr. cbn in H3. subst r.
    rewrite (setCanonical_run _ _ _ _ _ _ _ Hh Hr). split; [done|]. eexists _, _. reflexivity.
  - intros row Hf Hk Hok. specialize (H4 row Hf Hk Hok).
    pose proof (flip_rows_le net (NumInt h) blockHash finalized (archive w) HI) as [HI' _].
    rewrite H4 in HI'; cbn [snd] in HI'.
    rewrite (setCanonical_run _ _ _ _ _ _ _ Hh H4). cbn [fst snd w_db]. rewrite part_set.
    split; [done|]. split; [intros k'; by apply flipped_lookup|]. split; [by destruct (archive w)|].
    unfold getCanonicalBlockAtHeight, translated, rethrow, on_part. unfold_action.
    rewrite (bind_text_safe _ Hs), Hb, part_set.
    rewrite (Inv_blocks_uniq _ k (enthrone finalized row)); [|done| |done|done].
    + cbn. by rewrite set_set_part.
    + cbn. by rewrite lookup_insert_eq.
Qed.
End world.

(** A classification in use cannot be pulled from under a reference. Deleting or repointing a
    row of [chain_blob_roles] by hand, which any client may try, leaves every constraint of the
    archive true: the statement is refused with the guard's error when a block, a transaction, an
    observation or a verifier key still relies on the role, and changes nothing then. *)
Theorem role_removal_guarded (old : bytes * BlobRole) (new : option (bytes * BlobRole)) {sha : Sha256} db :
  Inv db →
  let run := match new with None => delete_role old db | Some n => update_role old n db end in
  Inv run.2 ∧
  (role_in_use db old.1 old.2 = true → new ≠ Some old → has_role db old.1 old.2 = true →
     run.2 = db ∧ ∃ m, run.1 = Err (pg_error "23514" m (Some "chain_blob_roles_removal_guard"%string))).
Proof.
  intros HI run. split.
  - subst run. destruct new; [by apply update_role_Inv|by apply delete_role_Inv].
  - intros Hu Hne Hr. subst run. destruct new as [n|]; unfold update_role, delete_role, statement,
      chain_blob_roles_guard_removal, chain_archive_assert_role_removable, mbind, result_bind; rewrite Hr.
    + rewrite bool_decide_eq_false_2 by congruence. rewrite Hu. eauto.
    + rewrite Hu. eauto.
Qed.

(** ** Two upserts *)

(** The blob inserts do not touch the observations. *)
Lemma insert_blob_with_role_vks {sha : Sha256} data role db (u : unit) db1 :
  insert_blob_with_role data role db = (Ok u, db1) →
  verifier_key_observations db1 = verifier_key_observations db.
Proof.
  unfold insert_blob_with_role. intros ([] & d1 & H1 & H2)%action_bind_inv.
  unfold insert_blob in H1. unfold insert_role in H2. apply statement_inv in H1, H2.
  pass_guards H1. transitivity (verifier_key_observations d1).
  - destruct (role_of_text _); [|done]. destruct (has_role _ _ _); [by simplify_eq|].
    pass_guards H2. by simplify_eq.
  - destruct (has_blob _ _); by simplify_eq.
Qed.

Section upserts.
Context {S : Type} {pt : Part S ArchiveDb} {sb : SqlBegin S} {tb : TextBinding} {sha : Sha256}.
Implicit Types w : World S.

Abbreviation archive w := (part (w_db w) : ArchiveDb).

(** A resolved transactional put ran its rows to the end. *)
Lemma begin_rows_ok {A} (m : act ArchiveDb A) w a w1 :
  translated (sql_begin None (on_part m)) w = (Ok a, w1) → m (archive w) = (Ok a, archive w1).
Proof.
  unfold translated, rethrow. destruct (sql_begin _ _ w) as [[b|e] w2] eqn:Hb; [|done].
  intros [= -> ->]. apply sql_begin_ok in Hb as (w3 & Hw & Hdb & _). unfold on_part in Hw.
  destruct (m (part (w_db w))) as [r t] eqn:Hm. injection Hw as -> <-. cbn in Hdb.
  by rewrite Hdb, part_set.
Qed.

(** A position taken in the block hides a transaction. [putTransactions] inserts with a bare
    [ON CONFLICT DO NOTHING], so a transaction whose position in the block is held by a
    transaction with another hash is dropped: the call resolves, and no row for it exists
    afterwards. *)
Theorem putTransactions_position_clash t n h p w w1 :
  bind_text (tr_net t) = Ok n → tr_blockHeight t = NumInt h → tr_position t = NumInt p →
  let k := (n, h, hexToBuf (tr_blockHash t)) in
  transactions (archive w) !! (k, hexToBuf (tr_txHash t)) = None →
  position_taken (transactions (archive w)) k p = true →
  putTransactions [t] w = (Ok tt, w1) →
  transactions (archive w1) = transactions (archive w) ∧
  transactions (archive w1) !! (k, hexToBuf (tr_txHash t)) = None.
Proof.
  intros Hn Hh Hp k Hk Ht H. unfold putTransactions in H. unfold mbind, action_bind in H.
  destruct (check _ w) as [[u|e] w0] eqn:Hc; [|done]. injection Hc as _ <-.
  apply begin_rows_ok in H. unfold insertTransactionRows in H.
  apply for_each_cons_inv in H as (db & H & Hdb). injection Hdb as Hdb.
  apply insertTransactionRow_ok in H as (_ & _ & n' & h' & row & En & Eh & (Ep & _) & T).
  assert (n' = n) as -> by congruence. assert (h' = h) as -> by congruence.
  assert (t_position row = p) as Hrow by congruence. cbn zeta in T.
  fold k in T. cbn [fst] in T. rewrite Hrow, Ht, orb_true_r in T. rewrite <-Hdb, T. done.
Qed.

(** A verifier key is remembered at the lowest height it was reported at. A resolved
    [putVerifierKeyObservation] leaves, for its context (key bytes, network, scope, address and
    tag), the smaller of the height already stored and the one reported, and changes no other
    context. *)
Theorem putVerifierKeyObservation_least vk n tag h w w1 :
  bind_text (vk_net vk) = Ok n → bind_text (vk_tag vk) = Ok tag →
  vk_firstSeenHeight vk = NumInt h →
  putVerifierKeyObservation vk w = (Ok tt, w1) →
  let k := (sha256 (vk_vkBytes vk), n, vk_scope vk, truthy_hexToBuf (vk_contractAddress vk), tag) in
  verifier_key_observations (archive w1) !! k =
    Some (match verifier_key_observations (archive w) !! k with Some h0 => Z.min h0 h | None => h end) ∧
  ∀ k', k' ≠ k →
    verifier_key_observations (archive w1) !! k' = verifier_key_observations (archive w) !! k'.
Proof.
  intros Hn Ht Hh H k. apply begin_rows_ok in H. unfold vk_rows in H. rewrite blob_key in H.
  apply action_bind_inv in H as (u & d1 & H1 & H).
  assert (verifier_key_observations d1 = verifier_key_observations (archive w)) as Hd.
  { apply (insert_blob_with_role_vks _ _ _ _ _ H1). }
  unfold check in H. unfold mbind, action_bind in H. rewrite Hn, Ht in H.
  destruct (bind_bigint _) as [h'|] eqn:Hb; [|done]. apply bind_bigint_ok in Hb.
  assert (h' = h) as -> by congruence. fold k in H. unfold upsert_vk in H. apply statement_inv in H.
  pass_guards H. rewrite <-Hd.
  destruct (verifier_key_observations d1 !! k) as [h0|] eqn:Hk; pass_guards H; injection H as <-; cbn;
    rewrite lookup_insert_eq; (split; [done|intros k' Hk'; by rewrite lookup_insert_ne]).
Qed.
End upserts.

(** ** Concrete runs *)

(** No row is finalized: nothing holds a height. *)
Definition none_finalized (db : ArchiveDb) : bool :=
  forallb (λ kr : BlockKey * BlockRow, negb (b_finalized kr.2)) (map_to_list (blocks db)).

Lemma none_finalized_spec db k : none_finalized db = true → ¬ height_finalized db k.
Proof.
  unfold none_finalized. rewrite forallb_forall. intros H (k' & row & Hk & _ & _ & Hf).
  specialize (H (k', row)). cbn in H. rewrite Hf in H. discriminate H.
  by apply list_elem_of_In, elem_of_map_to_list.
Qed.

Lemma archive2_none_finalized : none_finalized (w_db archive2) = true.
Proof. vm_compute. reflexivity. Qed.

Lemma archive2_b : is_Some (blocks (w_db archive2) !! key_b).
Proof. apply (bool_decide_unpack _). vm_compute. exact I. Qed.

Lemma setCanonical_outcomes_witness :
  ∃ row w', setCanonical (js "devnet") (NumInt 1) hash_b None archive2 = (Ok tt, w') ∧
    getCanonicalBlockAtHeight (js "devnet") (NumInt 1) w' =
      (Ok (Some (toBlockMeta (key_b, enthrone None row))), w').
Proof.
  destruct archive2_b as [row Hrow].
  destruct (@setCanonical_outcomes ArchiveDb part_self demo_text demo_sha
    (js "devnet") 1 hash_b None archive2 Inv_archive2) as (_ & _ & _ & H); [reflexivity..|].
  destruct (H row) as (H1 & _ & _ & H2).
  - apply none_finalized_spec, archive2_none_finalized.
  - exact Hrow.
  - discriminate.
  - exists row, (setCanonical (js "devnet") (NumInt 1) hash_b None archive2).2.
    split; [rewrite <-H1; apply surjective_pairing|exact H2].
Defined.

(** A third transaction claims the position of the first. *)
Definition late_tx : TransactionRecord := demo_tx hash_a (hash_of 101) 0 [Byte.x06].

Lemma late_tx_run : (putTransactions [late_tx] archive1).1 = Ok tt.
Proof. vm_compute. reflexivity. Qed.

Lemma putTransactions_position_clash_witness :
  (putTransactions [late_tx] archive1).1 = Ok tt ∧
  transactions (w_db (putTransactions [late_tx] archive1).2) !! (key_a, hexToBuf (hash_of 101)) = None.
Proof.
  split; [exact late_tx_run|].
  destruct (@putTransactions_position_clash ArchiveDb part_self demo_begin demo_text demo_sha
    late_tx (js "devnet") 1 0 archive1 (putTransactions [late_tx] archive1).2) as [_ H];
    [reflexivity..| | | |exact H].
  - vm_compute. reflexivity.
  - vm_compute. reflexivity.
  - rewrite <-late_tx_run. apply surjective_pairing.
Defined.

Definition demo_vk (h : Z) : VerifierKeyObservationRecord :=
  {| vk_vkBytes := [Byte.x09]; vk_net := js "devnet"; vk_scope := scope_protocol; vk_tag := js "spend";
     vk_contractAddress := None; vk_firstSeenHeight := NumInt h |}.

Lemma demo_vk_run :
  (putVerifierKeyObservation (demo_vk 9) archive0).1 = Ok tt ∧
  (putVerifierKeyObservation (demo_vk 4) (putVerifierKeyObservation (demo_vk 9) archive0).2).1 = Ok tt.
Proof. split; vm_compute; reflexivity. Qed.

Lemma putVerifierKeyObservation_least_witness :
  verifier_key_observations (w_db (putVerifierKeyObservation (demo_vk 9) archive0).2)
    !! (sha256 [Byte.x09], js "devnet", scope_protocol, None, js "spend") = Some 9.
Proof.
  destruct (@putVerifierKeyObservation_least ArchiveDb part_self demo_begin demo_text demo_sha
    (demo_vk 9) (js "devnet") (js "spend") 9 archive0
    (putVerifierKeyObservation (demo_vk 9) archive0).2) as [H _]; [reflexivity..| |exact H].
  rewrite <-(proj1 demo_vk_run). apply surjective_pairing.
Defined.

Lemma archive1_header_in_use :
  role_in_use (w_db archive1) (sha256 [Byte.x01]) role_block_header = true ∧
  has_role (w_db archive1) (sha256 [Byte.x01]) role_block_header = true.
Proof. split; vm_compute; reflexivity. Qed.

Lemma role_removal_guarded_witness :
  (delete_role (sha256 [Byte.x01], role_block_header) (w_db archive1)).2 = w_db archive1.
Proof.
  destruct (@role_removal_guarded (sha256 [Byte.x01], role_block_header) None demo_sha
    (w_db archive1) Inv_archive1) as [_ H].
  destruct archive1_header_in_use as [Hu Hr].
  destruct (H Hu) as [Hsame _]; [discriminate|exact Hr|exact Hsame].
Defined.
