(* ===== verification/ChainArchiveRoles.v ===== *)
(** * The chain archive: roles of blobs under concurrency

    Every blob a block, a transaction, an observation or a verifier key refers to has a row in
    [chain_blob_roles] for that use. No foreign key says so: the trigger on the referring tables
    looks the role up [FOR SHARE], and the trigger on [chain_blob_roles] takes its row [FOR UPDATE]
    before it looks for references
    ([src/postgres/migrations/chain_archive/001_chain_archive_core.ts]). This file runs transactions
    of the inserts of [ChainArchive] and of deletions and changes of roles at the same time, at READ
    COMMITTED: the committed tables, what each open transaction has written and the rows of
    [chain_blob_roles] it has locked, and one step per statement. A statement sees the committed rows
    and its own transaction's, the queries of its triggers included, which run after the lock is
    granted. A step that has to wait for another open transaction is not enabled. Any transaction can
    be rolled back at any moment, and one that failed only that. *)

From S2P Require Import Prelude Text Json Errors Transaction Driver Hex.
From S2P Require Import Checkpoint ChainArchive ChainArchiveSpec ChainArchiveDemo.

Local Open Scope Z_scope.

(** A row of [chain_blob_roles]. *)
Abbreviation RoleKey := (bytes * BlobRole)%type.

(** The statements that refer to blobs. *)
Inductive RefWrite :=
  | RefBlock (k : BlockKey) (row : BlockRow)
  | RefTransaction (k : BlockKey * bytes) (row : TxRow)
  | RefObservation (k : BlockKey * Z) (row : BridgeRow)
  | RefVerifierKey (k : VkKey) (firstSeen : Z).

Definition ref_statement (w : RefWrite) : act ArchiveDb unit :=
  match w with
  | RefBlock k row => insert_block k row
  | RefTransaction k row => insert_transaction k row
  | RefObservation k row => insert_observation k row
  | RefVerifierKey k firstSeen => upsert_vk k firstSeen
  end.

(** The roles its trigger locks [FOR SHARE]. *)
Definition ref_roles (w : RefWrite) : list RoleKey :=
  match w with
  | RefBlock _ row =>
      (b_header_blob_hash row, role_block_header) ::
      option_list ((λ h, (h, role_block_body)) <$> b_body_blob_hash row)
  | RefTransaction _ row => [(t_raw_blob_hash row, role_tx_raw)]
  | RefObservation _ row => [(o_raw_blob_hash row, role_bridge_observation)]
  | RefVerifierKey k _ => [(k.1.1.1.1, role_verifier_key)]
  end.

(** ** Transactions in progress *)

Record RoleTx := {
  rt_own : ArchiveDb;                (** the rows it has written, but for those of the next field *)
  rt_roles : gmap RoleKey bool;      (** the roles it has inserted ([true]) or deleted ([false]) *)
  rt_share : gset RoleKey;           (** locked [FOR SHARE] *)
  rt_excl : gset RoleKey;            (** inserted, deleted or changed *)
  rt_failed : bool;
}.

Record RoleServer := { rs_db : ArchiveDb; rs_active : gmap nat RoleTx }.

Definition role_start (db : ArchiveDb) : RoleServer := {| rs_db := db; rs_active := ∅ |}.

Definition roles_written (t : RoleTx) (b : bool) : gset RoleKey :=
  dom (filter (λ p : RoleKey * bool, p.2 = b) (rt_roles t)).

(** What a statement of the transaction sees. *)
Definition role_view (t : RoleTx) (db : ArchiveDb) : ArchiveDb :=
  {| chain_blobs := chain_blobs (rt_own t) ∪ chain_blobs db;
     chain_blob_roles := chain_blob_roles db ∖ roles_written t false ∪ roles_written t true;
     blocks := blocks (rt_own t) ∪ blocks db;
     transactions := transactions (rt_own t) ∪ transactions db;
     bridge_observations := bridge_observations (rt_own t) ∪ bridge_observations db;
     verifier_key_observations := verifier_key_observations (rt_own t) ∪ verifier_key_observations db;
     archive_watermarks := archive_watermarks db |}.

(** The row of key [k] that a statement added to a table. *)
Definition added `{Countable K} {A} (k : K) (before after own : gmap K A) : gmap K A :=
  match before !! k, after !! k with None, Some row => <[k := row]> own | _, _ => own end.

(** The transaction's rows after a statement left what it sees, [v], as [v']. *)
Definition stored_ref (w : RefWrite) (v v' own : ArchiveDb) : ArchiveDb :=
  match w with
  | RefBlock k _ => with_blocks (added k (blocks v) (blocks v')) own
  | RefTransaction k _ => with_transactions (added k (transactions v) (transactions v')) own
  | RefObservation k _ =>
      with_observations (added k (bridge_observations v) (bridge_observations v')) own
  | RefVerifierKey k _ =>
      with_vk (added k ∅ (verifier_key_observations v')) own   (** the upsert writes either way *)
  end.

Definition rt_with_own (own : ArchiveDb) (share : gset RoleKey) (t : RoleTx) : RoleTx :=
  {| rt_own := own; rt_roles := rt_roles t; rt_share := share ∪ rt_share t; rt_excl := rt_excl t;
     rt_failed := rt_failed t |}.

Definition rt_with_roles (roles : gmap RoleKey bool) (t : RoleTx) : RoleTx :=
  {| rt_own := rt_own t; rt_roles := roles ∪ rt_roles t; rt_share := rt_share t;
     rt_excl := dom roles ∪ rt_excl t; rt_failed := rt_failed t |}.

Definition rt_fail (t : RoleTx) : RoleTx :=
  {| rt_own := rt_own t; rt_roles := rt_roles t; rt_share := rt_share t; rt_excl := rt_excl t;
     rt_failed := true |}.

Definition role_with_tx (i : nat) (t : RoleTx) (g : RoleServer) : RoleServer :=
  {| rs_db := rs_db g; rs_active := <[i := t]> (rs_active g) |}.

(** ** Locks *)

(** No transaction but [i] has written the role. *)
Definition unwritten (d : RoleKey) (i : nat) (g : RoleServer) : Prop :=
  map_Forall (λ j t, j = i ∨ ¬ d ∈ rt_excl t) (rs_active g).
#[export] Instance unwritten_dec d i g : Decision (unwritten d i g).
Proof. unfold unwritten. apply _. Defined.

(** No transaction but [i] has locked it [FOR SHARE]. *)
Definition unshared (d : RoleKey) (i : nat) (g : RoleServer) : Prop :=
  map_Forall (λ j t, j = i ∨ ¬ d ∈ rt_share t) (rs_active g).
#[export] Instance unshared_dec d i g : Decision (unshared d i g).
Proof. unfold unshared. apply _. Defined.

(** The rows another open transaction has inserted that a unique index makes the statement wait for. *)
Definition index_conflict (w : RefWrite) (other : ArchiveDb) : bool :=
  match w with
  | RefBlock k row => has_block other k || b_is_canonical row && other_canonical other k
  | RefTransaction k row =>
      bool_decide (is_Some (transactions other !! k)) ||
      position_taken (transactions other) k.1 (t_position row)
  | RefObservation k _ => bool_decide (is_Some (bridge_observations other !! k))
  | RefVerifierKey k _ => bool_decide (is_Some (verifier_key_observations other !! k))
  end.

Definition index_free (w : RefWrite) (i : nat) (g : RoleServer) : Prop :=
  map_Forall (λ j t, j = i ∨ index_conflict w (rt_own t) = false) (rs_active g).
#[export] Instance index_free_dec w i g : Decision (index_free w i g).
Proof. unfold index_free. apply _. Defined.

Definition blob_free (h : bytes) (i : nat) (g : RoleServer) : Prop :=
  map_Forall (λ j t, j = i ∨ has_blob (rt_own t) h = false) (rs_active g).
#[export] Instance blob_free_dec h i g : Decision (blob_free h i g).
Proof. unfold blob_free. apply _. Defined.

(** ** Steps *)

Inductive RoleEvent :=
  | RoleBegin (i : nat)
  | RoleBlob (i : nat) (hash data : bytes)
  | RoleAdd (i : nat) (hash : bytes) (role : jsstr)
  | RoleRef (i : nat) (w : RefWrite)
  | RoleDelete (i : nat) (old : RoleKey)
  | RoleUpdate (i : nat) (old new : RoleKey)
  | RoleCommit (i : nat)
  | RoleRollback (i : nat).

Definition role_begin (i : nat) (g : RoleServer) : option RoleServer :=
  guard (rs_active g !! i = None);;
  Some (role_with_tx i {| rt_own := empty_archive; rt_roles := ∅; rt_share := ∅; rt_excl := ∅;
                          rt_failed := false |} g).

(** A statement of transaction [i]: [run] is given the transaction and what it sees, and a statement
    that rejects fails its transaction. *)
Definition role_statement (i : nat) (g : RoleServer)
    (run : RoleTx → ArchiveDb → option (result thrown RoleTx)) : option RoleServer :=
  t ← rs_active g !! i;
  guard (rt_failed t = false);;
  r ← run t (role_view t (rs_db g));
  Some (role_with_tx i (match r with Ok t' => t' | Err _ => rt_fail t end) g).

(** [INSERT INTO chain_blobs .. ON CONFLICT DO NOTHING]. *)
Definition role_blob (i : nat) (hash data : bytes) (g : RoleServer) : option RoleServer :=
  role_statement i g (λ t v,
    guard (blob_free hash i g);;
    Some (match insert_blob hash data v with
          | (Ok _, v') => Ok (rt_with_own (with_blobs (added hash (chain_blobs v) (chain_blobs v'))
                                             (rt_own t)) ∅ t)
          | (Err e, _) => Err e
          end)).

(** [INSERT INTO chain_blob_roles .. ON CONFLICT DO NOTHING] waits for a transaction that has
    inserted or deleted the row. *)
Definition role_add (i : nat) (hash : bytes) (role : jsstr) (g : RoleServer) : option RoleServer :=
  role_statement i g (λ t v,
    guard (Forall (λ r, unwritten (hash, r) i g) (option_list (role_of_text role)));;
    Some (match insert_role hash role v, role_of_text role with
          | (Ok _, _), Some r => Ok (if has_role v hash r then t else rt_with_roles {[ (hash, r) := true ]} t)
          | (Ok _, _), None => Ok t
          | (Err e, _), _ => Err e
          end)).

(** A referring insert waits for the roles it sees and locks. *)
Definition role_ref (i : nat) (w : RefWrite) (g : RoleServer) : option RoleServer :=
  role_statement i g (λ t v,
    guard (Forall (λ d, has_role v d.1 d.2 = true → unwritten d i g) (ref_roles w));;
    guard (index_free w i g);;
    Some (match ref_statement w v with
          | (Ok _, v') => Ok (rt_with_own (stored_ref w v v' (rt_own t)) (list_to_set (ref_roles w)) t)
          | (Err e, _) => Err e
          end)).

(** [DELETE] and [UPDATE] of a role it sees wait for every other transaction that has locked it. *)
Definition role_delete (i : nat) (old : RoleKey) (g : RoleServer) : option RoleServer :=
  role_statement i g (λ t v,
    guard (has_role v old.1 old.2 = true → unwritten old i g ∧ unshared old i g);;
    Some (match delete_role old v with
          | (Ok _, _) => Ok (if has_role v old.1 old.2 then rt_with_roles {[ old := false ]} t else t)
          | (Err e, _) => Err e
          end)).

Definition role_update (i : nat) (old new : RoleKey) (g : RoleServer) : option RoleServer :=
  role_statement i g (λ t v,
    guard (has_role v old.1 old.2 = true →
           unwritten old i g ∧ unshared old i g ∧ unwritten new i g);;
    Some (match update_role old new v with
          | (Ok _, _) =>
              Ok (if has_role v old.1 old.2 && negb (bool_decide (new = old))
                  then rt_with_roles {[ new := true; old := false ]} t else t)
          | (Err e, _) => Err e
          end)).

Definition role_commit (i : nat) (g : RoleServer) : option RoleServer :=
  t ← rs_active g !! i;
  guard (rt_failed t = false);;
  Some {| rs_db := role_view t (rs_db g); rs_active := delete i (rs_active g) |}.

Definition role_rollback (i : nat) (g : RoleServer) : option RoleServer :=
  guard (is_Some (rs_active g !! i));;
  Some {| rs_db := rs_db g; rs_active := delete i (rs_active g) |}.

Definition role_event (e : RoleEvent) : RoleServer → option RoleServer :=
  match e with
  | RoleBegin i => role_begin i
  | RoleBlob i hash data => role_blob i hash data
  | RoleAdd i hash role => role_add i hash role
  | RoleRef i w => role_ref i w
  | RoleDelete i old => role_delete i old
  | RoleUpdate i old new => role_update i old new
  | RoleCommit i => role_commit i
  | RoleRollback i => role_rollback i
  end.

(** A run: the events in order, each enabled when its turn comes. *)
Fixpoint role_run (es : list RoleEvent) (g : RoleServer) : option RoleServer :=
  match es with
  | [] => Some g
  | e :: es' => g' ← role_event e g; role_run es' g'
  end.

(** Every reference has its role. *)
Definition roles_complete (db : ArchiveDb) : Prop :=
  ∀ h r, role_in_use db h r = true → has_role db h r = true.

(** ** What a transaction sees *)

Lemma elem_of_roles_written t b d : d ∈ roles_written t b ↔ rt_roles t !! d = Some b.
Proof.
  unfold roles_written. rewrite elem_of_dom. split.
  - intros [b' [Hd Hb]%map_lookup_filter_Some]. cbn in Hb. by subst b'.
  - intros Hd. exists b. by apply map_lookup_filter_Some.
Qed.

Lemma elem_of_role_view t db d :
  d ∈ chain_blob_roles (role_view t db) ↔
    match rt_roles t !! d with Some b => b = true | None => d ∈ chain_blob_roles db end.
Proof.
  cbn. rewrite elem_of_union, elem_of_difference, !elem_of_roles_written.
  destruct (rt_roles t !! d) as [[]|]; naive_solver.
Qed.

Lemma has_role_elem db d : has_role db d.1 d.2 = true ↔ d ∈ chain_blob_roles db.
Proof. unfold has_role. by rewrite bool_decide_eq_true, <-surjective_pairing. Qed.

(** [role_in_use], as a proposition about the rows. *)
Definition uses (db : ArchiveDb) (h : bytes) (r : BlobRole) : Prop :=
  match r with
  | role_block_header => ∃ k row, blocks db !! k = Some row ∧ b_header_blob_hash row = h
  | role_block_body => ∃ k row, blocks db !! k = Some row ∧ b_body_blob_hash row = Some h
  | role_tx_raw => ∃ k row, transactions db !! k = Some row ∧ t_raw_blob_hash row = h
  | role_bridge_observation => ∃ k row, bridge_observations db !! k = Some row ∧ o_raw_blob_hash row = h
  | role_verifier_key => ∃ k n, verifier_key_observations db !! k = Some n ∧ k.1.1.1.1 = h
  | role_proof => False
  end.

Lemma existsb_rows `{Countable K} {A} (m : gmap K A) (P : K * A → Prop) `{∀ x, Decision (P x)} :
  existsb (λ x, bool_decide (P x)) (map_to_list m) = true ↔ ∃ k a, m !! k = Some a ∧ P (k, a).
Proof.
  rewrite existsb_exists. setoid_rewrite <-list_elem_of_In. setoid_rewrite bool_decide_eq_true. split.
  - intros ([k a] & Hin%elem_of_map_to_list & HP). eauto.
  - intros (k & a & Hk & HP). exists (k, a). by rewrite elem_of_map_to_list.
Qed.

Lemma role_in_use_spec db h r : role_in_use db h r = true ↔ uses db h r.
Proof. destruct r; cbn; rewrite ?existsb_rows; done. Qed.

(** A transaction sees what its own rows use. *)
Lemma uses_own t db h r : uses (rt_own t) h r → uses (role_view t db) h r.
Proof.
  destruct r; cbn; try done; intros (k & row & Hk & Hr); exists k, row;
    rewrite (lookup_union_Some_l _ _ _ _ Hk); done.
Qed.

(** After another transaction has committed, what a transaction sees in use was used by the rows of
    either, or both saw it before. *)
Lemma uses_commit t t' db h r :
  uses (role_view t (role_view t' db)) h r →
  uses (rt_own t) h r ∨ uses (rt_own t') h r ∨ uses (role_view t db) h r ∧ uses (role_view t' db) h r.
Proof.
  destruct r; cbn; try done; intros (k & row & Hk & Hr);
    apply lookup_union_Some_raw in Hk as [Hk|[Hn Hk]]; try (by left; eauto);
    apply lookup_union_Some_raw in Hk as [Hk|[Hn' Hk]]; try (by right; left; eauto);
    right; right; split; exists k, row; by rewrite lookup_union_r.
Qed.

(** ** The invariant *)

(** A transaction sees a complete archive, has locked the roles its own rows use and those it has
    written, and a role it has locked [FOR SHARE] is one it sees unless it has written it. *)
Record rt_ok (db : ArchiveDb) (t : RoleTx) : Prop := {
  ro_complete : roles_complete (role_view t db);
  ro_uses h r : uses (rt_own t) h r → (h, r) ∈ rt_share t;
  ro_written d : is_Some (rt_roles t !! d) → d ∈ rt_excl t;
  ro_share d : d ∈ rt_share t → d ∈ chain_blob_roles (role_view t db) ∨ d ∈ rt_excl t;
}.

(** A role that a transaction has written is locked by no other. *)
Definition roles_apart (g : RoleServer) : Prop :=
  ∀ i j ti tj d, i ≠ j → rs_active g !! i = Some ti → rs_active g !! j = Some tj →
    d ∈ rt_excl ti → ¬ d ∈ rt_excl tj ∧ ¬ d ∈ rt_share tj.

Record rs_inv (g : RoleServer) : Prop := {
  ri_complete : roles_complete (rs_db g);
  ri_tx : map_Forall (λ _, rt_ok (rs_db g)) (rs_active g);
  ri_apart : roles_apart g;
}.

Lemma rs_inv_with_tx i t t' g :
  rs_inv g → rs_active g !! i = Some t → rt_ok (rs_db g) t' →
  (∀ d, d ∈ rt_excl t' → d ∈ rt_excl t ∨ unwritten d i g ∧ unshared d i g) →
  (∀ d, d ∈ rt_share t' → d ∈ rt_share t ∨ unwritten d i g) →
  rs_inv (role_with_tx i t' g).
Proof.
  intros [Hc Ht Ha] Hi Hok He Hs. split; cbn; [done|by apply map_Forall_insert_2|].
  intros a b ta tb d Hne. cbn. rewrite !lookup_insert_Some.
  intros [[<- <-]|[Hia Hta]] [[Hib <-]|[Hib Htb]] Hd; [done| | |by eapply (Ha a b)].
  - destruct (He d Hd) as [Hold|[Hw Hsh]]; [by eapply (Ha i b)|].
    split; [by destruct (Hw b tb Htb)|by destruct (Hsh b tb Htb)].
  - subst b. split; intros Hd'.
    + destruct (He d Hd') as [Hold|[Hw _]]; [by destruct (Ha i a t ta d) as [? _]|].
      by destruct (Hw a ta Hta).
    + destruct (Hs d Hd') as [Hold|Hw]; [by destruct (Ha a i ta t d) as [_ ?]|].
      by destruct (Hw a ta Hta).
Qed.

(** ** Statements *)

Lemma role_statement_inv i g run g' :
  rs_inv g → role_statement i g run = Some g' →
  (∀ t t', rs_active g !! i = Some t → run t (role_view t (rs_db g)) = Some (Ok t') →
    rt_ok (rs_db g) t' ∧
    (∀ d, d ∈ rt_excl t' → d ∈ rt_excl t ∨ unwritten d i g ∧ unshared d i g) ∧
    (∀ d, d ∈ rt_share t' → d ∈ rt_share t ∨ unwritten d i g)) →
  rs_inv g'.
Proof.
  intros Hg He Hrun. unfold role_statement in He. enabled He as (t & Hi & He).
  enabled He as (_ & _ & He). enabled He as (r & Hr & He). injection He as <-.
  destruct r as [t'|x].
  - destruct (Hrun t t' Hi Hr) as (Hok & Hex & Hsh). by apply (rs_inv_with_tx i t).
  - apply (rs_inv_with_tx i t); try done; [|by left..].
    destruct (ri_tx _ Hg i t Hi) as [H1 H2 H3 H4]. by split.
Qed.

(** What a referring insert adds: nothing, or a row with the roles that its trigger has looked up. *)
Definition adds_row (w : RefWrite) (own own' : ArchiveDb) : Prop :=
  own' = own ∨
  match w with
  | RefBlock k row => own' = with_blocks <[k := row]> own
  | RefTransaction k row => own' = with_transactions <[k := row]> own
  | RefObservation k row => own' = with_observations <[k := row]> own
  | RefVerifierKey k _ => ∃ n, own' = with_vk <[k := n]> own
  end.

Lemma added_nothing `{Countable K} {A} (k : K) (m own : gmap K A) : added k m m own = own.
Proof. unfold added. by destruct (m !! k). Qed.

Lemma added_row `{Countable K} {A} (k : K) (m own : gmap K A) a :
  added k m (<[k := a]> m) own = own ∨ added k m (<[k := a]> m) own = <[k := a]> own.
Proof. unfold added. rewrite lookup_insert_eq. destruct (m !! k); auto. Qed.

(** The checks that a referring insert has passed. *)
Ltac open_ref H :=
  cbn [ref_statement] in H;
  unfold insert_block, insert_transaction, insert_observation, upsert_vk in H;
  apply statement_inv in H; pass_guards H.

Lemma ref_statement_roles w v v' d :
  ref_statement w v = (Ok tt, v') → d ∈ ref_roles w → d ∈ chain_blob_roles v.
Proof.
  intros Hrun Hd. apply has_role_elem.
  destruct w as [k row|k row|k row|k n]; open_ref Hrun.
  - apply blocks_check_blob_roles_ok in Hok as [Hh Hb].
    apply elem_of_cons in Hd as [->|Hd]; [done|].
    destruct (b_body_blob_hash row) as [h|] eqn:Hbody; [|by apply elem_of_nil in Hd].
    apply list_elem_of_singleton in Hd as ->. by apply Hb.
  - apply list_elem_of_singleton in Hd as ->. exact (assert_blob_role_ok _ _ _ _ Hok _ eq_refl).
  - apply list_elem_of_singleton in Hd as ->. exact (assert_blob_role_ok _ _ _ _ Hok _ eq_refl).
  - apply list_elem_of_singleton in Hd as ->. exact (assert_blob_role_ok _ _ _ _ Hok _ eq_refl).
Qed.

Lemma ref_statement_adds w v v' own :
  ref_statement w v = (Ok tt, v') → adds_row w own (stored_ref w v v' own).
Proof.
  intros Hrun. unfold adds_row. destruct w as [k row|k row|k row|k n]; open_ref Hrun; cbn [stored_ref].
  - assert (v' = v ∨ v' = with_blocks <[k := row]> v) as [->| ->]
      by (destruct (has_block v k); pass_guards Hrun; naive_solver).
    + left. unfold with_blocks. rewrite added_nothing. by destruct own.
    + unfold with_blocks. cbn. destruct (added_row k (blocks v) (blocks own) row) as [->| ->];
        [left; by destruct own|by right].
  - assert (v' = v ∨ v' = with_transactions <[k := row]> v) as [->| ->]
      by (destruct (_ || _); pass_guards Hrun; naive_solver).
    + left. unfold with_transactions. rewrite added_nothing. by destruct own.
    + unfold with_transactions. cbn. destruct (added_row k (transactions v) (transactions own) row) as [->| ->];
        [left; by destruct own|by right].
  - assert (v' = v ∨ v' = with_observations <[k := row]> v) as [->| ->]
      by (destruct (bool_decide _); pass_guards Hrun; naive_solver).
    + left. unfold with_observations. rewrite added_nothing. by destruct own.
    + unfold with_observations. cbn.
      destruct (added_row k (bridge_observations v) (bridge_observations own) row) as [->| ->];
        [left; by destruct own|by right].
  - assert (∃ m, v' = with_vk <[k := m]> v) as [m ->].
    { destruct (verifier_key_observations v !! k); pass_guards Hrun; naive_solver. }
    right. exists m. unfold with_vk, added. cbn. by rewrite lookup_empty, lookup_insert_eq.
Qed.

(** Added rows use nothing but the roles looked up. *)
Lemma adds_row_uses w own own' h r : adds_row w own own' → uses own' h r → uses own h r ∨ (h, r) ∈ ref_roles w.
Proof.
  intros [->|Hadd]; [by left|].
  destruct w as [k row|k row|k row|k n]; [| | |destruct Hadd as [m Hadd]]; subst own';
    destruct r; cbn; try (by left); intros (k' & a & [[<- <-]|[_ Hk]]%lookup_insert_Some & Hr);
    try (left; by eauto); right.
  - subst h. by left.
  - rewrite Hr. by right; left.
  - subst h. by left.
  - subst h. by left.
  - subst h. by left.
Qed.

Lemma adds_row_view w t share own' db :
  adds_row w (rt_own t) own' → adds_row w (role_view t db) (role_view (rt_with_own own' share t) db).
Proof.
  intros [->|Hadd]; [by left|right].
  destruct w as [k row|k row|k row|k n]; [| | |destruct Hadd as [m Hadd]; exists m]; subst own';
    unfold role_view, with_blocks, with_transactions, with_observations, with_vk; cbn;
    by rewrite <-insert_union_l.
Qed.

(** ** Statements keep the invariant *)

Lemma role_ref_inv i w g g' : rs_inv g → role_ref i w g = Some g' → rs_inv g'.
Proof.
  intros Hg He. apply (role_statement_inv i g _ g' Hg He). clear He g'.
  intros t t' Hi He. enabled He as (Hfree & _ & He). enabled He as (_ & _ & He).
  injection He as He. destruct (ref_statement w (role_view t (rs_db g))) as [[[]|] v'] eqn:Hrun; [|done].
  injection He as <-. pose proof (ri_tx _ Hg i t Hi) as [Hc Hu Hw Hs].
  pose proof (ref_statement_adds w _ v' (rt_own t) Hrun) as Hadd.
  set (own' := stored_ref _ _ _ _) in *.
  assert (∀ d, d ∈ ref_roles w → d ∈ chain_blob_roles (role_view t (rs_db g))) as Hroles
    by (intros d; by apply (ref_statement_roles w _ v')).
  split_and!; [split| |].
  - intros h r Hin. apply role_in_use_spec in Hin.
    apply (has_role_elem _ (h, r)).
    change (chain_blob_roles _) with (chain_blob_roles (role_view t (rs_db g))).
    apply (adds_row_uses w (role_view t (rs_db g))) in Hin as [Hin|Hin]; [| |by apply adds_row_view].
    + apply (has_role_elem _ (h, r)), Hc. by apply role_in_use_spec.
    + by apply Hroles.
  - intros h r Hin. cbn in Hin. apply (adds_row_uses w (rt_own t)) in Hin as [Hin|Hin]; [| |done];
      cbn; [set_solver|]. apply elem_of_union_l. by apply elem_of_list_to_set.
  - done.
  - cbn. intros d [Hd%elem_of_list_to_set|Hd]%elem_of_union; [left; by apply Hroles|by apply Hs].
  - by left.
  - cbn. intros d [Hd%elem_of_list_to_set|Hd]%elem_of_union; [right|by left].
    rewrite Forall_forall in Hfree. apply (Hfree d Hd), has_role_elem. by apply Hroles.
Qed.

Lemma uses_same_rows db db' h r :
  blocks db' = blocks db → transactions db' = transactions db →
  bridge_observations db' = bridge_observations db →
  verifier_key_observations db' = verifier_key_observations db → uses db' h r → uses db h r.
Proof. intros E1 E2 E3 E4. by destruct r; cbn; rewrite ?E1, ?E2, ?E3, ?E4. Qed.

Lemma role_blob_inv i hash data g g' : rs_inv g → role_blob i hash data g = Some g' → rs_inv g'.
Proof.
  intros Hg He. apply (role_statement_inv i g _ g' Hg He). clear He g'.
  intros t t' Hi He. enabled He as (_ & _ & He). injection He as He.
  destruct (insert_blob hash data _) as [[[]|] v']; [|done]. injection He as <-.
  pose proof (ri_tx _ Hg i t Hi) as [Hc Hu Hw Hs]. split_and!; [split| |].
  - intros h r Hin%role_in_use_spec. apply (Hc h r), role_in_use_spec. revert Hin. by apply uses_same_rows.
  - intros h r Hin. cbn. rewrite (left_id_L ∅ _). apply Hu. revert Hin. by apply uses_same_rows.
  - done.
  - cbn. rewrite (left_id_L ∅ _). apply Hs.
  - by left.
  - cbn. rewrite (left_id_L ∅ _). by left.
Qed.

(** Writing roles, none of those it deletes in use. *)
Lemma rt_ok_with_roles m t db :
  rt_ok db t → (∀ d, m !! d = Some false → role_in_use (role_view t db) d.1 d.2 = false) →
  rt_ok db (rt_with_roles m t).
Proof.
  intros [Hc Hu Hw Hs] Hm.
  assert (∀ d, d ∈ chain_blob_roles (role_view (rt_with_roles m t) db) ↔
    match m !! d with Some b => b = true | None => d ∈ chain_blob_roles (role_view t db) end) as Hview.
  { intros d. rewrite !elem_of_role_view. cbn [rt_with_roles rt_roles].
    destruct (m !! d) as [b|] eqn:E; [by rewrite (lookup_union_Some_l _ _ _ _ E)|].
    rewrite lookup_union_r by done. symmetry. apply elem_of_role_view. }
  split.
  - intros h r Hin. change (role_in_use (role_view t db) h r = true) in Hin.
    apply (has_role_elem _ (h, r)), Hview. destruct (m !! (h, r)) as [[]|] eqn:E; [done| |].
    + apply Hm in E. cbn in E. congruence.
    + by apply (has_role_elem _ (h, r)), Hc.
  - done.
  - intros d. cbn. rewrite lookup_union_is_Some. intros [Hd|Hd].
    + apply elem_of_union_l. by apply elem_of_dom.
    + apply elem_of_union_r. by apply Hw.
  - intros d Hd. rewrite Hview. cbn. destruct (m !! d) as [[]|] eqn:E; [by left| |].
    + right. apply elem_of_union_l, elem_of_dom. by rewrite E.
    + destruct (Hs d Hd); [by left|right; set_solver].
Qed.

(** A role that [i] does not see and that no one is writing is locked by no one. *)
Lemma unseen_unshared i t g d :
  rs_inv g → rs_active g !! i = Some t → d ∉ chain_blob_roles (role_view t (rs_db g)) →
  unwritten d i g → unshared d i g.
Proof.
  intros Hg Hi Hd Hw j tj Hj. destruct (decide (j = i)) as [|Hne]; [by left|right]. intros Hs.
  destruct (Hw j tj Hj) as [|Hnw]; [done|]. pose proof (ri_tx _ Hg j tj Hj) as Hokj.
  destruct (ro_share _ _ Hokj d Hs) as [Hv|]; [|done]. rewrite elem_of_role_view in Hv, Hd.
  destruct (rt_roles tj !! d) eqn:E; [by apply Hnw, (ro_written _ _ Hokj); rewrite E|].
  destruct (rt_roles t !! d) eqn:E'; [|done].
  destruct (ri_apart _ Hg i j t tj d) as [_ Hns]; try done.
  apply (ro_written _ _ (ri_tx _ Hg i t Hi)). by rewrite E'.
Qed.

Lemma role_add_inv i hash role g g' : rs_inv g → role_add i hash role g = Some g' → rs_inv g'.
Proof.
  intros Hg He. apply (role_statement_inv i g _ g' Hg He). clear He g'.
  intros t t' Hi He. enabled He as (Hfree & _ & He). injection He as He.
  pose proof (ri_tx _ Hg i t Hi) as Hok.
  destruct (insert_role hash role _) as [[[]|] v']; [|done].
  destruct (role_of_text role) as [r|]; cbn in He, Hfree; [|injection He as <-; split_and!; [done|by left..]].
  destruct (has_role _ hash r) eqn:Hr; injection He as <-; [split_and!; [done|by left..]|].
  apply Forall_cons in Hfree as [Hfree _]. split_and!; [|..|by left].
  - apply rt_ok_with_roles; [done|]. intros d [_ [=]]%lookup_singleton_Some.
  - cbn. intros d. rewrite dom_singleton_L. intros [->%elem_of_singleton|Hd]%elem_of_union; [right|by left].
    split; [done|]. apply (unseen_unshared i t); try done. rewrite <-has_role_elem. cbn. by rewrite Hr.
Qed.

Lemma role_delete_inv i old g g' : rs_inv g → role_delete i old g = Some g' → rs_inv g'.
Proof.
  intros Hg He. apply (role_statement_inv i g _ g' Hg He). clear He g'.
  intros t t' Hi He. enabled He as (Hfree & _ & He). injection He as He.
  pose proof (ri_tx _ Hg i t Hi) as Hok. set (v := role_view t (rs_db g)) in *.
  unfold delete_role, statement in He. destruct (has_role v old.1 old.2) eqn:Hr;
    [|injection He as <-; split_and!; [done|by left..]].
  cbn [chain_blob_roles_guard_removal] in He.
  destruct (chain_archive_assert_role_removable _ _ _) as [u|] eqn:E; [|done]. injection He as <-.
  apply removable_unused in E. split_and!; [|..|by left].
  - apply rt_ok_with_roles; [done|]. by intros d [<- _]%lookup_singleton_Some.
  - cbn. intros d. rewrite dom_singleton_L. intros [->%elem_of_singleton|Hd]%elem_of_union; [right|by left].
    by apply Hfree.
Qed.

Lemma role_update_inv i old new g g' : rs_inv g → role_update i old new g = Some g' → rs_inv g'.
Proof.
  intros Hg He. apply (role_statement_inv i g _ g' Hg He). clear He g'.
  intros t t' Hi He. enabled He as (Hfree & _ & He). injection He as He.
  pose proof (ri_tx _ Hg i t Hi) as Hok. set (v := role_view t (rs_db g)) in *.
  unfold update_role, statement in He. destruct (has_role v old.1 old.2) eqn:Hr;
    [|injection He as <-; split_and!; [done|by left..]].
  unfold chain_blob_roles_guard_removal, mbind, result_bind in He.
  destruct (bool_decide (new = old)) eqn:Hnew; cbn in He; [injection He as <-; split_and!; [done|by left..]|].
  destruct (chain_archive_assert_role_removable _ _ _) as [u|] eqn:E; [|done].
  apply removable_unused in E.
  destruct (unique_index _ _) as [u2|] eqn:Hix; [|done]. apply unique_index_ok in Hix.
  destruct (foreign_key _ _); [|done]. injection He as <-.
  destruct (Hfree eq_refl) as (Hwo & Hso & Hwn). split_and!; [|..|by left].
  - apply rt_ok_with_roles; [done|].
    intros d [[<- [=]]|[_ [<- _]%lookup_singleton_Some]]%lookup_insert_Some. done.
  - cbn. intros d. rewrite dom_insert_L, dom_singleton_L.
    intros [[->%elem_of_singleton| ->%elem_of_singleton]%elem_of_union|Hd]%elem_of_union;
      [right|by right|by left].
    split; [done|]. apply (unseen_unshared i t); try done. rewrite <-has_role_elem.
    fold v. by destruct (has_role v new.1 new.2).
Qed.

(** ** Commits *)

Lemma rt_ok_commit g i j t tj :
  rs_inv g → j ≠ i → rs_active g !! i = Some t → rs_active g !! j = Some tj →
  rt_ok (role_view t (rs_db g)) tj.
Proof.
  intros Hg Hne Hi Hj. pose proof (ri_tx _ Hg i t Hi) as Hok. pose proof (ri_tx _ Hg j tj Hj) as Hokj.
  set (db := rs_db g) in *.
  assert (∀ d, d ∈ chain_blob_roles (role_view tj db) → ¬ d ∈ rt_excl t →
    d ∈ chain_blob_roles (role_view tj (role_view t db))) as Hkeep.
  { intros d. rewrite !elem_of_role_view. intros Hd Hnw. destruct (rt_roles tj !! d); [done|].
    rewrite elem_of_role_view. destruct (rt_roles t !! d) eqn:E; [|done]. destruct Hnw. apply (ro_written _ _ Hok). by rewrite E. }
  assert (∀ d, d ∈ rt_share tj → ¬ d ∈ rt_excl t) as Hshare.
  { intros d Hd Hx. by destruct (ri_apart _ Hg i j t tj d) as [_ ?]. }
  split; [|apply Hokj..|].
  - intros h r Hin%role_in_use_spec. apply (has_role_elem _ (h, r)).
    apply uses_commit in Hin as [Hin|[Hin|Hin]].
    + apply Hkeep; [|by apply Hshare, (ro_uses _ _ Hokj)].
      apply (has_role_elem _ (h, r)), (ro_complete _ _ Hokj), role_in_use_spec. by apply uses_own.
    + apply elem_of_role_view.
      assert ((h, r) ∈ chain_blob_roles (role_view t db)) as Hd
        by (apply (has_role_elem _ (h, r)), (ro_complete _ _ Hok), role_in_use_spec; by apply uses_own).
      destruct (rt_roles tj !! (h, r)) eqn:E; [|done].
      destruct (ri_apart _ Hg j i tj t (h, r)) as [_ Hns]; try done.
      * apply (ro_written _ _ Hokj). by rewrite E.
      * destruct Hns. by apply (ro_uses _ _ Hok).
    + destruct Hin as [Hj'%role_in_use_spec Hi'%role_in_use_spec].
      apply (ro_complete _ _ Hokj), (has_role_elem _ (h, r)), elem_of_role_view in Hj'.
      apply (ro_complete _ _ Hok), (has_role_elem _ (h, r)) in Hi'. apply elem_of_role_view.
      by destruct (rt_roles tj !! (h, r)).
  - intros d Hd. destruct (ro_share _ _ Hokj d Hd) as [Hv|]; [left|by right].
    apply Hkeep; [done|]. by apply Hshare.
Qed.

(** ** Runs *)

Lemma rt_ok_begin db :
  roles_complete db →
  rt_ok db {| rt_own := empty_archive; rt_roles := ∅; rt_share := ∅; rt_excl := ∅; rt_failed := false |}.
Proof.
  intros Hdb. split; [| |intros d [b Hb]; by cbn in Hb|set_solver].
  - intros h r Hin%role_in_use_spec. apply (has_role_elem _ (h, r)), elem_of_role_view. cbn.
    rewrite lookup_empty. apply (has_role_elem _ (h, r)), Hdb, role_in_use_spec. revert Hin.
    apply uses_same_rows; cbn; by rewrite (left_id_L ∅ _).
  - intros h r Hin. by destruct r; cbn in Hin; try destruct Hin as (k & row & Hk & _).
Qed.

Lemma role_begin_inv i g g' : rs_inv g → role_begin i g = Some g' → rs_inv g'.
Proof.
  unfold role_begin. intros [Hc Ht Ha] (Hi & _ & [= <-])%bind_Some.
  split; cbn; [done|by apply map_Forall_insert_2; [apply rt_ok_begin|]|].
  intros a b ta tb x Hne. cbn. rewrite !lookup_insert_Some.
  intros [[<- <-]|[_ Hta]] [[Hib <-]|[_ Htb]]; [done| | |by eapply Ha]; cbn; set_solver.
Qed.

Lemma role_event_inv e g g' : rs_inv g → role_event e g = Some g' → rs_inv g'.
Proof.
  intros Hg. destruct e as [i|i h d|i h r|i w|i o|i o n|i|i]; cbn [role_event].
  - by apply role_begin_inv.
  - by apply role_blob_inv.
  - by apply role_add_inv.
  - by apply role_ref_inv.
  - by apply role_delete_inv.
  - by apply role_update_inv.
  - unfold role_commit. intros (t & Hi & (_ & _ & [= <-])%bind_Some)%bind_Some.
    split; cbn; [apply (ri_tx _ Hg i t Hi)| |].
    + intros j tj [Hne Hj]%lookup_delete_Some. by apply (rt_ok_commit g i j).
    + intros a b ta tb x Hne. cbn. rewrite !lookup_delete_Some. intros [_ Hta] [_ Htb].
      by eapply (ri_apart _ Hg).
  - unfold role_rollback. intros (_ & _ & [= <-])%bind_Some. destruct Hg as [Hc Ht Ha].
    split; cbn; [done|by apply map_Forall_delete|].
    intros a b ta tb x Hne. cbn. rewrite !lookup_delete_Some. intros [_ Hta] [_ Htb]. by eapply Ha.
Qed.

Lemma role_run_inv es g g' : rs_inv g → role_run es g = Some g' → rs_inv g'.
Proof.
  revert g. induction es as [|e es IH]; intros g Hg; cbn; [by intros [= <-]|].
  intros (g1 & He & Hrun)%bind_Some. eapply IH; [|done]. by eapply role_event_inv.
Qed.

Lemma rs_inv_start db : roles_complete db → rs_inv (role_start db).
Proof. intros Hdb. by split. Qed.

(** C6. No reference ever loses its role. Whatever the interleaving of transactions that insert
    blobs, roles and the rows that refer to them, and of transactions that delete or repoint roles,
    committed or rolled back at any moment, every blob that a committed block, transaction,
    observation or verifier key refers to has the role for it, and so has every one that an open
    transaction sees referred to. *)
Theorem roles_never_lost es db0 g :
  roles_complete db0 → role_run es (role_start db0) = Some g →
  roles_complete (rs_db g) ∧
  ∀ i t, rs_active g !! i = Some t → roles_complete (role_view t (rs_db g)).
Proof.
  intros Hdb Hrun. pose proof (role_run_inv es _ g (rs_inv_start db0 Hdb) Hrun) as Hg.
  split; [apply Hg|]. intros i t Hi. apply (ri_tx _ Hg i t Hi).
Qed.

(** The archive's own invariant says as much of a store that one client at a time writes. *)
Lemma Inv_roles_complete {sha : Sha256} db : Inv db → roles_complete db.
Proof.
  intros HI h r Hin%role_in_use_spec.
  destruct r; cbn in Hin; try done; destruct Hin as (k & row & Hk & Hr).
  - destruct (inv_blocks db HI k row Hk) as (_ & Hh & _). by rewrite <-Hr.
  - destruct (inv_blocks db HI k row Hk) as (_ & _ & Hb). by apply Hb.
  - destruct (inv_transactions db HI k row Hk) as (_ & _ & Ht). by rewrite <-Hr.
  - destruct (inv_vks db HI k row Hk) as (Hv & _). by rewrite <-Hr.
  - destruct (inv_observations db HI k row Hk) as (_ & _ & Ho). by rewrite <-Hr.
Qed.

(** ** The two orders of an insert and a deletion *)

Module RolesDemo.

Definition blob : bytes := replicate 32 Byte.x01.
Definition vk_key : VkKey := (blob, js "devnet", scope_protocol, None, js "tag").
Definition vk_role : RoleKey := (blob, role_verifier_key).

(** A classified blob that nothing refers to. *)
Definition classified : ArchiveDb :=
  with_roles (λ _, {[ vk_role ]}) (with_blobs (λ _, {[ blob := [Byte.x01] ]}) empty_archive).

Lemma classified_complete : roles_complete classified.
Proof. by intros h r; destruct r. Qed.

(** The insert comes first: the deletion waits, and is refused once the insert has committed. *)
Definition insert_first : list RoleEvent :=
  [RoleBegin 1; RoleBegin 2; RoleRef 1 (RefVerifierKey vk_key 7); RoleCommit 1; RoleDelete 2 vk_role;
   RoleRollback 2].

Example deletion_waits :
  role_run [RoleBegin 1; RoleBegin 2; RoleRef 1 (RefVerifierKey vk_key 7); RoleDelete 2 vk_role]
    (role_start classified) = None.
Proof. vm_compute. reflexivity. Qed.

Definition insert_first_end : RoleServer :=
  default (role_start empty_archive) (role_run insert_first (role_start classified)).

Lemma insert_first_runs : role_run insert_first (role_start classified) = Some insert_first_end.
Proof.
  assert (bool_decide (is_Some (role_run insert_first (role_start classified))) = true) as [g Hg]%bool_decide_eq_true
    by (vm_compute; reflexivity).
  unfold insert_first_end. by rewrite Hg.
Qed.

(** The deletion comes first: the insert waits, and fails once the deletion has committed. *)
Example insert_waits :
  role_run [RoleBegin 1; RoleBegin 2; RoleDelete 2 vk_role; RoleRef 1 (RefVerifierKey vk_key 7)]
    (role_start classified) = None.
Proof. vm_compute. reflexivity. Qed.

Example insert_fails :
  (λ g, (size (chain_blob_roles (rs_db g)), size (verifier_key_observations (rs_db g)),
         rt_failed <$> rs_active g !! 1%nat)) <$>
  role_run [RoleBegin 1; RoleBegin 2; RoleDelete 2 vk_role; RoleCommit 2;
            RoleRef 1 (RefVerifierKey vk_key 7)] (role_start classified) =
  Some (0%nat, 0%nat, Some true).
Proof. vm_compute. reflexivity. Qed.

Lemma roles_never_lost_witness :
  roles_complete (rs_db insert_first_end) ∧
  role_in_use (rs_db insert_first_end) blob role_verifier_key = true.
Proof.
  split; [|vm_compute; reflexivity].
  exact (proj1 (roles_never_lost insert_first classified insert_first_end classified_complete insert_first_runs)).
Defined.
End RolesDemo.
