(* ===== verification/SyncClients.v ===== *)
(** * The sync service's clients

    Models [chain-archive-sync/node-rpc-client.ts] and [chain-archive-sync/indexer-client.ts]: one
    HTTP request per call, and what each of its outcomes becomes. The answers themselves come from
    outside; they are given their declared TypeScript types, which the clients cast to without a
    check. The one field the clients do check, a header's number, is raw text here. *)

From S2P Require Import Prelude Text Json Errors Hex.

Local Open Scope Z_scope.

(** ** Requests *)

(** How [fetch] and [res.json()] settle; [Body error data]: the parsed body. *)
Inductive fetch_outcome (E T : Type) :=
  | FetchRejected (err : thrown)
  | HttpStatus (status : Z)
  | NotJson
  | Body (error : E) (data : T).
Arguments FetchRejected {E T} err.
Arguments HttpStatus {E T} status.
Arguments NotJson {E T}.
Arguments Body {E T} error data.

Definition named_error (name message : string) : thrown := TError name message None None None.

Definition NodeRpcError (message : string) : thrown := named_error "NodeRpcError" message.
Definition NodeRpcParseError (message : string) : thrown := named_error "NodeRpcParseError" message.
Definition NodeRpcInvalidHeightError (message : string) : thrown :=
  named_error "NodeRpcInvalidHeightError" message.
Definition IndexerClientError (message : string) : thrown := named_error "IndexerClientError" message.
Definition IndexerClientParseError (message : string) : thrown :=
  named_error "IndexerClientParseError" message.

(** A JSON-RPC error object, when the body has one. *)
Abbreviation rpc_outcome := (fetch_outcome (option string)).

Definition call {T} (method : string) (res : rpc_outcome T) : result thrown T :=
  match res with
  | FetchRejected _ => Err (NodeRpcError (method +:+ ": request failed"))
  | HttpStatus _ => Err (NodeRpcError (method +:+ ": HTTP error"))
  | NotJson => Err (NodeRpcParseError (method +:+ ": response body was not valid JSON"))
  | Body (Some message) _ => Err (NodeRpcError (method +:+ ": RPC error " +:+ message))
  | Body None data => Ok data
  end.

(** GraphQL errors: an absent list and an empty one are both no error. *)
Abbreviation graphql_outcome := (fetch_outcome (list string)).

Definition query_graphql {T} (res : graphql_outcome T) : result thrown T :=
  match res with
  | FetchRejected _ => Err (IndexerClientError "GraphQL request failed")
  | HttpStatus _ => Err (IndexerClientError "GraphQL HTTP error")
  | NotJson => Err (IndexerClientParseError "response body was not valid JSON")
  | Body (message :: _) _ => Err (IndexerClientError ("GraphQL error: " +:+ message))
  | Body [] data => Ok data
  end.

(** ** The node *)

(** [hd_number] is [None] when the field is missing. *)
Record SubstrateHeader := {
  hd_parentHash : jsstr;
  hd_number : option jsstr;
  hd_stateRoot : jsstr;
  hd_extrinsicsRoot : jsstr;
  hd_logs : list jsstr;
}.

Record SubstrateBlock := { sb_header : SubstrateHeader; sb_extrinsics : list jsstr }.

(** The node as a function of the request: one call's worth of answers. *)
Record Node := {
  chain_getBlockHash : Z → rpc_outcome jsstr;
  chain_getHeader : jsstr → rpc_outcome SubstrateHeader;
  chain_getBlock : jsstr → rpc_outcome SubstrateBlock;
  chain_getFinalizedHead : rpc_outcome jsstr;
}.

Definition getBlockHash (node : Node) (height : Z) : result thrown jsstr :=
  call "chain_getBlockHash" (chain_getBlockHash node height).
Definition getHeader (node : Node) (blockHash : jsstr) : result thrown SubstrateHeader :=
  call "chain_getHeader" (chain_getHeader node blockHash).
Definition getBlock (node : Node) (blockHash : jsstr) : result thrown SubstrateBlock :=
  call "chain_getBlock" (chain_getBlock node blockHash).
Definition getFinalizedHead (node : Node) : result thrown jsstr :=
  call "chain_getFinalizedHead" (chain_getFinalizedHead node).

(** ** [parseInt(s, 16)]

    White space, a sign, an optional [0x], and the longest run of digits; [None] is [NaN]. Digits
    beyond the precision of a double round to something outside the safe integers, so for the
    check that follows the exact value serves as well. *)

Definition is_js_space (c : N) : bool :=
  ((9 <=? c) && (c <=? 13) || (c =? 32) || (c =? 160) || (c =? 0x1680)
   || (0x2000 <=? c) && (c <=? 0x200A) || (c =? 0x2028) || (c =? 0x2029) || (c =? 0x202F)
   || (c =? 0x205F) || (c =? 0x3000) || (c =? 0xFEFF))%N.

Fixpoint trim_start (s : jsstr) : jsstr :=
  match s with
  | c :: r => if is_js_space c then trim_start r else s
  | [] => []
  end.

Fixpoint hex_run (acc : option Z) (s : jsstr) : option Z :=
  match s with
  | c :: r =>
      match hex_value c with
      | Some d => hex_run (Some (16 * default 0 acc + Z.of_N d)) r
      | None => acc
      end
  | [] => acc
  end.

Definition strip_0x (s : jsstr) : jsstr :=
  match s with
  | c :: d :: r => if ((c =? 48) && ((d =? 120) || (d =? 88)))%N then r else s
  | _ => s
  end.

Definition parseInt_16 (s : jsstr) : option Z :=
  match trim_start s with
  | c :: r =>
      if (c =? 45)%N then Z.opp <$> hex_run None (strip_0x r)
      else if (c =? 43)%N then hex_run None (strip_0x r)
      else hex_run None (strip_0x (c :: r))
  | [] => None
  end.

(** A missing field is converted to the text [undefined], which has no digit. *)
Definition height_of_number (number : option jsstr) : result thrown Z :=
  match parseInt_16 (default (js "undefined") number) with
  | Some height =>
      if Z.abs height <=? MAX_SAFE_INTEGER then Ok height
      else Err (NodeRpcInvalidHeightError "did not decode to a safe integer")
  | None => Err (NodeRpcInvalidHeightError "did not decode to a safe integer")
  end.

Definition getHeightOf (node : Node) (blockHash : jsstr) : result thrown Z :=
  header ← getHeader node blockHash;
  height_of_number (hd_number header).

(** ** The indexer *)

Record IndexerTransaction := {
  it_hash : jsstr;
  it_protocolVersion : jsnum;
  it_raw : jsstr;
}.

Record IndexerBlock := {
  ib_hash : jsstr;
  ib_height : jsnum;
  ib_transactions : list IndexerTransaction;
  ib_numPermissionedCandidates : jsnum;
  ib_numRegisteredCandidates : jsnum;
}.

(** [None] is a [null] block. *)
Definition Indexer : Type := Z → graphql_outcome (option IndexerBlock).

Definition getBlockByHeight (indexer : Indexer) (height : Z) : result thrown (option IndexerBlock) :=
  query_graphql (indexer height).

(** [getTipHeight]: the tip query has its own answer. *)
Definition getTipHeight (tip : graphql_outcome (option jsnum)) : result thrown jsnum :=
  data ← query_graphql tip;
  match data with
  | None => Err (IndexerClientError "indexer reports no blocks yet")
  | Some height => Ok height
  end.

(** ** Heights *)

(** Lowercase hexadecimal digits of a number. *)
Fixpoint hex_digits (fuel : nat) (n : Z) : jsstr :=
  match fuel with
  | O => [hex_digit (Z.to_N (n mod 16))]
  | S fuel' =>
      if n <? 16 then [hex_digit (Z.to_N n)]
      else hex_digits fuel' (n / 16) ++ [hex_digit (Z.to_N (n mod 16))]
  end.

(** How the node writes a block number. *)
Definition hex_number (n : Z) : jsstr := js "0x" ++ hex_digits (Z.to_nat n) n.

Lemma hex_run_app acc s t :
  forallb is_lower_hex s = true → s ≠ [] ∨ is_Some acc →
  ∃ z, hex_run acc s = Some z ∧ hex_run acc (s ++ t) = hex_run (Some z) t.
Proof.
  revert acc. induction s as [|c s IH]; intros acc; cbn.
  - intros _ [?|[z ->]]; [done|eauto].
  - intros [Hc Hs]%andb_true_iff _. destruct (hex_value_lower c Hc) as (n & _ & -> & _).
    apply IH; [done|right; eauto].
Qed.

Lemma hex_digits_spec fuel n :
  0 ≤ n ≤ Z.of_nat fuel →
  forallb is_lower_hex (hex_digits fuel n) = true ∧ hex_digits fuel n ≠ [] ∧
  hex_run None (hex_digits fuel n) = Some n.
Proof.
  revert n. induction fuel as [|fuel IH]; intros n Hn.
  { assert (n = 0) as -> by lia. by vm_compute. }
  cbn [hex_digits]. pose proof (Z.mod_pos_bound n 16 eq_refl) as Hm.
  assert (∀ d, 0 ≤ d < 16 → is_lower_hex (hex_digit (Z.to_N d)) = true ∧
    hex_value (hex_digit (Z.to_N d)) = Some (Z.to_N d)) as Hd.
  { intros d Hd. split; [apply hex_digit_lower; lia|apply hex_value_digit; lia]. }
  destruct (Z.ltb_spec n 16).
  - destruct (Hd n ltac:(lia)) as [H1 H2]. cbn. rewrite H1, H2. split_and!; [done..|]. f_equal. lia.
  - assert (0 ≤ n / 16 ≤ Z.of_nat fuel) as Hq.
    { split; [apply Z.div_pos; lia|]. pose proof (Z.div_mod n 16). lia. }
    destruct (IH (n / 16) Hq) as (I1 & I2 & I3). destruct (Hd (n mod 16) Hm) as [H1 H2].
    destruct (hex_run_app None (hex_digits fuel (n / 16)) [hex_digit (Z.to_N (n mod 16))] I1) as (z & Hz & Hr);
      [by left|]. rewrite I3 in Hz. injection Hz as <-.
    split_and!.
    + rewrite forallb_app, I1. cbn. by rewrite H1.
    + by destruct (hex_digits fuel (n / 16)).
    + rewrite Hr. cbn. rewrite H2. f_equal. pose proof (Z.div_mod n 16). lia.
Qed.

Lemma height_of_number_ok number h : height_of_number number = Ok h → Z.abs h ≤ MAX_SAFE_INTEGER.
Proof.
  unfold height_of_number. destruct (parseInt_16 _) as [z|]; [|done].
  destruct (Z.leb_spec (Z.abs z) MAX_SAFE_INTEGER); [|done]. by intros [= <-].
Qed.

Lemma getHeightOf_ok node blockHash h : getHeightOf node blockHash = Ok h → Z.abs h ≤ MAX_SAFE_INTEGER.
Proof. unfold getHeightOf. destruct (getHeader node blockHash); [apply height_of_number_ok|done]. Qed.

(** A height is only ever a safe integer. Whatever the node answers, [getHeightOf] resolves with
    a safe integer or raises; a header whose number is missing or has no hexadecimal digit raises
    [NodeRpcInvalidHeightError], never a [NaN] that would make the sync stop silently; and the
    number of a header in the node's own format, [0x] and lowercase digits, is read exactly,
    as long as it is a safe integer, and refused as invalid beyond. *)
Theorem getHeightOf_safe (node : Node) (blockHash : jsstr) :
  match getHeightOf node blockHash with
  | Ok height => Z.abs height ≤ MAX_SAFE_INTEGER
  | Err x => (∃ m, x = NodeRpcError m) ∨ (∃ m, x = NodeRpcParseError m) ∨
             (∃ m, x = NodeRpcInvalidHeightError m)
  end ∧
  height_of_number None = Err (NodeRpcInvalidHeightError "did not decode to a safe integer") ∧
  ∀ n, 0 ≤ n →
    height_of_number (Some (hex_number n)) =
      if n <=? MAX_SAFE_INTEGER then Ok n
      else Err (NodeRpcInvalidHeightError "did not decode to a safe integer").
Proof.
  split; [|split; [done|]].
  - unfold getHeightOf, getHeader. destruct (chain_getHeader node blockHash) as [e|s| |[m|] header]; cbn; eauto.
    unfold height_of_number. destruct (parseInt_16 _) as [h|]; [|eauto].
    destruct (Z.leb_spec (Z.abs h) MAX_SAFE_INTEGER); eauto.
  - intros n Hn. unfold height_of_number.
    change (default (js "undefined") (Some (hex_number n))) with (hex_number n).
    assert (parseInt_16 (hex_number n) = Some n) as ->.
    { unfold hex_number. change (parseInt_16 (js "0x" ++ ?s)) with (hex_run None s).
      apply hex_digits_spec. lia. }
    by rewrite Z.abs_eq.
Qed.

Lemma getHeightOf_safe_witness :
  height_of_number (Some (js "0x1a2b")) = Ok 6699 ∧
  height_of_number (Some (hex_number 6699)) = Ok 6699.
Proof.
  split; [vm_compute; reflexivity|].
  destruct (getHeightOf_safe {| chain_getBlockHash := λ _, NotJson; chain_getHeader := λ _, NotJson;
    chain_getBlock := λ _, NotJson; chain_getFinalizedHead := NotJson |} []) as (_ & _ & H).
  exact (H 6699 ltac:(lia)).
Defined.
