(* ===== verification/CanonicalJson.v ===== *)
(** * The canonical encodings of the sync service

    Models [stableStringify], [headerBytes] and [extrinsicsBytes] of
    [chain-archive-sync/sync-service.ts]: JSON text with the keys of every object in order, the
    bytes an archived header and body are stored and addressed under. Two values are the same
    JSON data exactly when their canonical bytes are equal. *)

From S2P Require Import Prelude Text Literals Json Errors Transaction Driver Hex Utf8 JsonText JsonTextSpec.
From S2P Require Import SyncClients.

(** ** The encoder *)

(** [Object.keys(value).sort()]: by UTF-16 code units. *)
Definition key_le {A} (x y : jsstr * A) : Prop := units_le x.1 y.1.
#[export] Instance key_le_dec {A} : RelDecision (@key_le A).
Proof. intros x y. unfold key_le. apply _. Defined.
#[export] Instance key_le_trans {A} : Transitive (@key_le A).
Proof. intros x y z. apply units_le_trans. Qed.
#[export] Instance key_le_total {A} : Total (@key_le A).
Proof. intros x y. apply units_le_total. Qed.

(** The text of a leaf, [undefined] included. *)
Definition leaf_text (v : jsval) : jsstr := default (js "undefined") (JSON_stringify v).

Fixpoint stableStringify (value : jsval) : jsstr :=
  match value with
  | JArr items => js "[" ++ join comma (stableStringify <$> items) ++ js "]"
  | JObj fields =>
      js "{" ++
      join comma ((λ kt : jsstr * jsstr, quote kt.1 ++ js ":" ++ kt.2) <$>
        merge_sort key_le ((λ kv, (kv.1, stableStringify kv.2)) <$> fields)) ++
      js "}"
  | v => leaf_text v
  end.

(** The object the node returned for a header. *)
Definition header_value (header : SubstrateHeader) : jsval :=
  JObj ([(js "parentHash", JStr (hd_parentHash header))]
        ++ (if hd_number header is Some n then [(js "number", JStr n)] else [])
        ++ [(js "stateRoot", JStr (hd_stateRoot header));
            (js "extrinsicsRoot", JStr (hd_extrinsicsRoot header));
            (js "digest", JObj [(js "logs", JArr (JStr <$> hd_logs header))])]).

Definition headerBytes (header : SubstrateHeader) : bytes :=
  TextEncoder_encode (stableStringify (header_value header)).

Definition extrinsicsBytes (extrinsics : list jsstr) : bytes :=
  TextEncoder_encode (stableStringify (JArr (JStr <$> extrinsics))).

(** ** The canonical form of a value *)

(** The value with the fields of every object in key order. *)
Fixpoint canon (v : jsval) : jsval :=
  match v with
  | JArr items => JArr (canon <$> items)
  | JObj fields => JObj (merge_sort key_le ((λ kv, (kv.1, canon kv.2)) <$> fields))
  | v => v
  end.

(** Sameness of JSON data: objects are unordered. *)
Fixpoint same_json (v w : jsval) : Prop :=
  match v, w with
  | JArr xs, JArr ys =>
      (fix same_items (xs ys : list jsval) : Prop :=
        match xs, ys with
        | [], [] => True
        | x :: xs', y :: ys' => same_json x y ∧ same_items xs' ys'
        | _, _ => False
        end) xs ys
  | JObj f, JObj g =>
      length f = length g ∧
      foldr (λ kx acc, (∃ y, (kx.1, y) ∈ g ∧ same_json kx.2 y) ∧ acc) True f
  | JArr _, _ | JObj _, _ => False
  | v, w => v = w
  end.

Lemma merge_sort_map {A B} (f : A → B) (R : relation A) (R' : relation B)
    `{!RelDecision R, !RelDecision R', !Transitive R', !Total R'} (l : list A) :
  (∀ x y, R x y ↔ R' (f x) (f y)) → Transitive R → Total R →
  (∀ x y, x ∈ f <$> l → y ∈ f <$> l → R' x y → R' y x → x = y) →
  merge_sort R' (f <$> l) = f <$> merge_sort R l.
Proof.
  intros Hf HT HTot Hanti. apply (merge_sort_unique R'); [done| |by rewrite merge_sort_Permutation].
  pose proof (StronglySorted_merge_sort R l) as Hs. induction Hs as [|x k Hs IH Hx]; [constructor|].
  csimpl. constructor; [exact IH|]. apply Forall_fmap. eapply Forall_impl; [exact Hx|]. intros y. apply Hf.
Qed.

(** A list with distinct keys is sorted by them in one way only. *)
Lemma key_le_anti {A} (l : list (jsstr * A)) :
  NoDup l.*1 → ∀ x y, x ∈ l → y ∈ l → key_le x y → key_le y x → x = y.
Proof.
  intros Hnd x y Hx Hy H1 H2. apply (NoDup_fmap_elem_inj fst l); try done. by apply units_le_antisym.
Qed.

Lemma keys_map {A B} (f : A → B) (l : list (jsstr * A)) :
  ((λ kv, (kv.1, f kv.2)) <$> l).*1 = l.*1.
Proof. induction l as [|[k x] l IH]; [done|]. csimpl. by rewrite IH. Qed.

Lemma sort_keys_map {A B} (f : A → B) (l : list (jsstr * A)) :
  NoDup l.*1 →
  merge_sort key_le ((λ kv, (kv.1, f kv.2)) <$> l) = (λ kv, (kv.1, f kv.2)) <$> merge_sort key_le l.
Proof.
  intros Hnd. apply (merge_sort_map _ key_le key_le); [done|apply _..|].
  apply key_le_anti. by rewrite keys_map.
Qed.

(** Canonical forms of plain values are plain. *)
Lemma canon_plain v : plain v = true → plain (canon v) = true.
Proof.
  revert v. apply (jsval_nested_ind (λ v, plain v = true → plain (canon v) = true)).
  - by intros [].
  - intros items IH Hp. cbn [plain canon] in *. rewrite forallb_forall in Hp |- *.
    intros x Hx%list_elem_of_In. apply list_elem_of_fmap in Hx as (y & -> & Hy).
    rewrite Forall_forall in IH. apply IH; [done|]. by apply Hp, list_elem_of_In.
  - intros fields IH Hp. cbn [plain canon] in *. apply andb_true_iff in Hp as [Hnd%bool_decide_eq_true Hp].
    apply andb_true_iff. split.
    + apply bool_decide_eq_true. rewrite (merge_sort_Permutation key_le). by rewrite keys_map.
    + rewrite forallb_forall in Hp |- *. intros x Hx%list_elem_of_In.
      rewrite (merge_sort_Permutation key_le) in Hx. apply list_elem_of_fmap in Hx as ([k y] & -> & Hy). cbn.
      pose proof (Hp (k, y)) as Hpy. rewrite <-list_elem_of_In in Hpy. specialize (Hpy Hy). cbn in Hpy.
      apply andb_true_iff in Hpy as [Hk Hpy]. rewrite Hk. rewrite Forall_forall in IH.
      by apply (IH (k, y)).
Qed.

Lemma fields_plain fields k x :
  plain (JObj fields) = true → (k, x) ∈ fields → plain x = true.
Proof.
  cbn [plain]. intros [_ Hp]%andb_true_iff Hx%list_elem_of_In. rewrite forallb_forall in Hp.
  specialize (Hp _ Hx). by apply andb_true_iff in Hp as [_ ?].
Qed.

Lemma fields_keys fields : plain (JObj fields) = true → NoDup fields.*1.
Proof. cbn [plain]. by intros [?%bool_decide_eq_true _]%andb_true_iff. Qed.

(** Canonical text is the ordinary text of the canonical form. *)
Lemma stable_canon v : plain v = true → JSON_stringify (canon v) = Some (stableStringify v).
Proof.
  revert v. apply (jsval_nested_ind (λ v, plain v = true → JSON_stringify (canon v) = Some (stableStringify v))).
  - intros [| |[]|[]| | | | | |]; try done; intros ?; done.
  - intros items IH Hp. cbn [canon stableStringify]. rewrite JSON_stringify_arr. do 4 f_equal.
    rewrite <-list_fmap_compose. apply list_fmap_ext. intros i x Hx%list_elem_of_lookup_2.
    cbn [plain] in Hp. rewrite forallb_forall in Hp. rewrite Forall_forall in IH. cbn.
    rewrite IH; [done..|]. by apply Hp, list_elem_of_In.
  - intros fields IH Hp. cbn [canon stableStringify]. rewrite JSON_stringify_obj.
    rewrite !sort_keys_map by (by apply fields_keys). rewrite <-list_fmap_compose. do 4 f_equal.
    assert (∀ kx, kx ∈ merge_sort key_le fields → JSON_stringify (canon kx.2) = Some (stableStringify kx.2)) as Hs.
    { intros [k x] Hx. rewrite (merge_sort_Permutation key_le) in Hx. rewrite Forall_forall in IH.
      apply (IH (k, x)); [done|]. by eapply fields_plain. }
    induction (merge_sort key_le fields) as [|[k x] l IHl]; [done|].
    rewrite !fmap_cons, bind_step. unfold field_text at 1. cbn [fst snd].
    pose proof (Hs (k, x) ltac:(left)) as Hk. cbn [fst snd] in Hk. rewrite Hk. cbn [app]. f_equal. apply IHl. intros kx Hkx. apply Hs. by right.
Qed.

Lemma canon_same v : ∀ w, plain v = true → plain w = true → (canon v = canon w ↔ same_json v w).
Proof.
  revert v. apply (jsval_nested_ind (λ v, ∀ w, plain v = true → plain w = true → (canon v = canon w ↔ same_json v w))).
  - intros [| | | | | | | | |]; try exact I; by intros [] _ _.
  - intros xs IH [| | | | | | | |ys|] Hv Hw; try done. cbn [canon same_json]. cbn [plain] in Hv, Hw.
    transitivity (canon <$> xs = canon <$> ys); [split; congruence|].
    revert ys Hw. induction IH as [|x xs Hx _ IH]; intros [|y ys] Hw; try done. csimpl.
    cbn in Hv, Hw. apply andb_true_iff in Hv as [Hvx Hv]. apply andb_true_iff in Hw as [Hwy Hw].
    rewrite <-(Hx y), <-(IH Hv ys) by done. split; [by intros [= -> ->]|by intros [-> ->]].
  - intros f IH [| | | | | | | | |g] Hv Hw; try done. cbn [canon same_json].
    pose proof (fields_keys _ Hv) as Nf. pose proof (fields_keys _ Hw) as Ng.
    rewrite Forall_forall in IH.
    assert (∀ P : jsstr * jsval → Prop, foldr (λ kx acc, P kx ∧ acc) True f ↔ ∀ kx, kx ∈ f → P kx) as Hfold.
    { intros P. clear. induction f as [|a f IHf]; cbn; [set_solver|]. rewrite IHf. setoid_rewrite elem_of_cons. naive_solver. }
    rewrite Hfold.
    set (cf := (λ kv : jsstr * jsval, (kv.1, canon kv.2)) <$> f).
    set (cg := (λ kv : jsstr * jsval, (kv.1, canon kv.2)) <$> g).
    assert (NoDup cf.*1) as Ncf by (unfold cf; by rewrite keys_map).
    assert (NoDup cg.*1) as Ncg by (unfold cg; by rewrite keys_map).
    split.
    + intros [= Heq]. assert (cf ≡ₚ cg) as Hp.
      { rewrite <-(merge_sort_Permutation key_le cf), <-(merge_sort_Permutation key_le cg). by rewrite Heq. }
      split. { apply Permutation_length in Hp. unfold cf, cg in Hp. by rewrite !length_fmap in Hp. }
      intros [k x] Hx. assert ((k, canon x) ∈ cg) as Hin.
      { rewrite <-Hp. apply list_elem_of_fmap. by exists (k, x). }
      apply list_elem_of_fmap in Hin as ([k' y] & [= <- Hc] & Hy). exists y. split; [done|].
      apply (IH (k, x) Hx y); [exact (fields_plain f k x Hv Hx)|exact (fields_plain g k y Hw Hy)|done].
    + intros [Hlen Hsub]. assert (cf ≡ₚ cg) as Hp.
      { apply submseteq_length_Permutation.
        - apply NoDup_submseteq; [by eapply NoDup_fmap_1|].
          intros kx Hkx. apply list_elem_of_fmap in Hkx as ([k x] & -> & Hx).
          destruct (Hsub (k, x) Hx) as (y & Hy & Hs). cbn in *.
          apply (IH (k, x) Hx y) in Hs; [|exact (fields_plain f k x Hv Hx)|exact (fields_plain g k y Hw Hy)].
          apply list_elem_of_fmap. exists (k, y). cbn in Hs. by rewrite Hs.
        - unfold cf, cg. rewrite !length_fmap. lia. }
      f_equal. apply (merge_sort_unique key_le).
      * by apply key_le_anti.
      * by apply (StronglySorted_merge_sort key_le).
      * by rewrite (merge_sort_Permutation key_le), Hp.
Qed.

(** The canonical bytes of a value decode to the value with its keys in order. *)
Lemma stable_bytes v : plain v = true →
  ∃ text, TextDecoder_decode (TextEncoder_encode (stableStringify v)) = Some text ∧
    JSON_parse text = Some (canon v).
Proof.
  intros Hp. destruct (JSON_bytes_round_trip _ (canon_plain v Hp)) as (text & Ht & Hd & Hr).
  rewrite (stable_canon v Hp) in Ht. injection Ht as <-. eauto.
Qed.

(** C28. The canonical encoding is exact. For JSON values (safe integers, distinct keys), two have the
    same canonical bytes if and only if they are the same JSON data, objects being unordered at
    every level: the encoding never depends on the order in which the node listed the fields, and
    never identifies different headers. The bytes are valid UTF-8 and parse back to the value. *)
Theorem stableStringify_canonical (v w : jsval) :
  plain v = true → plain w = true →
  (TextEncoder_encode (stableStringify v) = TextEncoder_encode (stableStringify w) ↔ same_json v w) ∧
  ∃ text, TextDecoder_decode (TextEncoder_encode (stableStringify v)) = Some text ∧
    JSON_parse text = Some (canon v).
Proof.
  intros Hv Hw. split; [|by apply stable_bytes]. rewrite <-canon_same by done. split.
  - intros Heq. destruct (stable_bytes v Hv) as (t & Hd & Hp). destruct (stable_bytes w Hw) as (t' & Hd' & Hp').
    congruence.
  - intros Heq. pose proof (stable_canon v Hv) as E1. pose proof (stable_canon w Hw) as E2. congruence.
Qed.

Definition demo_header : SubstrateHeader :=
  {| hd_parentHash := js "0x00"; hd_number := Some (js "0x1"); hd_stateRoot := js "0x01";
     hd_extrinsicsRoot := js "0x02"; hd_logs := [js "0x06"; js "0x05"] |}.

(** The same header, as another node might order it. *)
Definition demo_reordered : jsval :=
  JObj [(js "digest", JObj [(js "logs", JArr [JStr (js "0x06"); JStr (js "0x05")])]);
        (js "extrinsicsRoot", JStr (js "0x02")); (js "stateRoot", JStr (js "0x01"));
        (js "number", JStr (js "0x1")); (js "parentHash", JStr (js "0x00"))].

Lemma stableStringify_canonical_witness :
  TextEncoder_encode (stableStringify demo_reordered) = headerBytes demo_header ∧
  same_json (header_value demo_header) demo_reordered.
Proof.
  split; [vm_compute; reflexivity|].
  apply (stableStringify_canonical (header_value demo_header) demo_reordered);
    vm_compute; reflexivity.
Defined.
