(* ===== verification/SyncService.v ===== *)
(** * The chain-archive sync service

    Models [chain-archive-sync/sync-service.ts]: [ChainArchiveSyncService] over the archive store,
    with the node's and the indexer's answers to one call as data. The service's own state is the
    store's world and the in-memory D-parameter cursor, which a new instance starts without. *)

From stdpp Require Import list_numbers.
From S2P Require Import Prelude Text Literals Json Errors Transaction Driver Hex Utf8 JsonText.
From S2P Require Import Checkpoint.
From S2P Require Import ChainArchive ChainArchiveStore.
From S2P Require Import SyncClients CanonicalJson.

Local Open Scope Z_scope.

(** ** Text helpers *)

(** [hex.startsWith("0x") ? hex.slice(2) : hex]. *)
Definition hexNoPrefix (hex : jsstr) : jsstr :=
  match hex with
  | c :: d :: r => if ((c =? 48) && (d =? 120))%N then r else hex
  | _ => hex
  end.

Definition SYSTEM_TX_TAG : jsstr := js "midnight:system-transaction".

(** [rawBytes.subarray(0, TAG.length).toString("utf8") === TAG]: decoding gives ASCII characters for
    ASCII bytes only, so the bytes themselves are compared. *)
Definition is_system_transaction (rawBytes : bytes) : bool :=
  bool_decide (Byte.to_N <$> take (length SYSTEM_TX_TAG) rawBytes = SYSTEM_TX_TAG).

Fixpoint starts_with (prefix s : jsstr) : bool :=
  match prefix, s with
  | [], _ => true
  | c :: p, d :: r => (c =? d)%N && starts_with p r
  | _ :: _, [] => false
  end.

(** [e.includes(needle)]. *)
Fixpoint includes (e needle : jsstr) : bool :=
  starts_with needle e || match e with [] => false | _ :: r => includes r needle end.

Definition WATERMARK_KEY_PREFIX : jsstr := js "sync_cursor:".

Definition error (message : string) : thrown := named_error "Error" message.
Definition property_of_null : thrown := named_error "TypeError" "Cannot read properties of null".
Definition not_a_number : thrown := named_error "TypeError" "height is not a number".

(** ** The service *)

Record SyncOnceResult := {
  ingestedBlocks : Z;
  fromHeight : option Z;
  toHeight : option Z;
  targetTipHeight : Z;
}.

(** One instance over its store. *)
Record Service (S : Type) := {
  sv_world : World S;
  lastDParameterJson : option jsstr;
}.
Arguments sv_world {S} _.
Arguments lastDParameterJson {S} _.
Arguments Build_Service {S} _ _.

Section service.
Context {S : Type} {pt : Part S ArchiveDb} {sb : SqlBegin S} {tb : TextBinding} {jb : JsonBinding}
  {sha : Sha256}.
(** The network the instance archives, and the answers of one call. *)
Context (net : jsstr) (node : Node) (indexer : Indexer).

Definition on_store {A} (m : act (World S) A) : act (Service S) A := λ s,
  let '(r, w) := m (sv_world s) in (r, Build_Service w (lastDParameterJson s)).

Definition watermarkKey : jsstr := WATERMARK_KEY_PREFIX ++ net.

(** [(wm as { height: number }).height]. Only [syncOnce] writes this key, with an integer; what
    JavaScript's arithmetic would make of anything else is not followed further. *)
Definition height_of_watermark (wm : jsval) : result thrown (option Z) :=
  match wm with
  | JNull | JUndefined => Err property_of_null
  | JObj fields =>
      match list_find (λ kv : jsstr * jsval, kv.1 = js "height") fields with
      | Some (_, (_, JNum (NumInt h))) => Ok (Some h)
      | Some _ => Err not_a_number
      | None => Ok None
      end
  | _ => Ok None
  end.

Definition getSyncedHeight : act (World S) (option Z) :=
  wm ← getWatermark watermarkKey;
  match wm with
  | None => mret None
  | Some parsed => check (height_of_watermark parsed)
  end.

(** ** Building the records of a block *)

Definition transaction_kind (rawBytes : bytes) : TransactionKind :=
  if is_system_transaction rawBytes then kind_system else kind_regular.

(** One element of the [map], at its position. *)
Definition transaction_record (height : Z) (blockHash : jsstr) (nodeExtrinsicHexes : list jsstr)
    (position : nat) (tx : IndexerTransaction) : result thrown TransactionRecord :=
  let rawHex := hexNoPrefix (it_raw tx) in
  let rawBytes := hexToBuf rawHex in
  let kind := transaction_kind rawBytes in
  if (if kind is kind_regular then true else false) && negb (existsb (λ e, includes e rawHex) nodeExtrinsicHexes)
  then Err (error "indexer bytes not present in node block body")
  else Ok {| tr_net := net; tr_txHash := hexNoPrefix (it_hash tx); tr_blockHeight := NumInt height;
             tr_blockHash := blockHash; tr_position := NumInt (Z.of_nat position); tr_kind := kind;
             tr_protocolVersion := it_protocolVersion tx; tr_result := None; tr_rawBytes := rawBytes |}.

Fixpoint transaction_records (height : Z) (blockHash : jsstr) (hexes : list jsstr) (position : nat)
    (txs : list IndexerTransaction) : result thrown (list TransactionRecord) :=
  match txs with
  | [] => Ok []
  | tx :: txs' =>
      record ← transaction_record height blockHash hexes position tx;
      records ← transaction_records height blockHash hexes (Datatypes.S position) txs';
      Ok (record :: records)
  end.

Definition buildTransactionRecords (height : Z) (blockHash : jsstr) (nodeExtrinsics : list jsstr)
    (indexerBlock : IndexerBlock) : result thrown (list TransactionRecord) :=
  if decide (hexNoPrefix (ib_hash indexerBlock) = blockHash)
  then transaction_records height blockHash (hexNoPrefix <$> nodeExtrinsics) 0 (ib_transactions indexerBlock)
  else Err (error "indexer/node block-hash mismatch").

Definition d_parameter_json (indexerBlock : IndexerBlock) : jsstr :=
  default (js "undefined") (JSON_stringify (JObj
    [(js "numPermissionedCandidates", JNum (ib_numPermissionedCandidates indexerBlock));
     (js "numRegisteredCandidates", JNum (ib_numRegisteredCandidates indexerBlock))])).

(** The records, and the value the dedup cursor takes once they are durable. *)
Definition buildBridgeObservationRecords (last : option jsstr) (height : Z) (blockHash : jsstr)
    (indexerBlock : IndexerBlock) : list BridgeObservationRecord * option jsstr :=
  let json := d_parameter_json indexerBlock in
  if decide (last = Some json) then ([], None)
  else ([{| bo_net := net; bo_blockHeight := NumInt height; bo_blockHash := blockHash;
            bo_observationIndex := NumInt 0; bo_kind := system_parameters_d;
            bo_rawBytes := TextEncoder_encode json |}], Some json).

Definition block_record (height : Z) (blockHash : jsstr) (block : SubstrateBlock) : BlockRecord :=
  let header := sb_header block in
  {| br_net := net; br_blockHash := blockHash; br_height := NumInt height;
     br_parentHash := hexNoPrefix (hd_parentHash header);
     br_stateRoot := hexNoPrefix (hd_stateRoot header);
     br_extrinsicsRoot := hexNoPrefix (hd_extrinsicsRoot header); br_author := None;
     br_headerBytes := headerBytes header;
     br_bodyBytes := Some (extrinsicsBytes (sb_extrinsics block));
     br_isCanonical := true; br_status := status_canonical; br_finalized := true |}.

(** Everything [ingestOneBlock] does before its only write: the fetches, and the records built from
    what they returned. No store is in sight. *)
Definition fetch_bundle (last : option jsstr) (height : Z) : result thrown (BlockBundle * option jsstr) :=
  hash ← getBlockHash node height;
  let blockHash := hexNoPrefix hash in
  block ← getBlock node (js "0x" ++ blockHash);
  indexerBlock ← getBlockByHeight indexer height;
  match indexerBlock with
  | None => Err (error "indexer has not yet synced this height; retry later")
  | Some indexerBlock =>
      transactions ← buildTransactionRecords height blockHash (sb_extrinsics block) indexerBlock;
      let '(bridgeObservations, newDParameterJson) :=
        buildBridgeObservationRecords last height blockHash indexerBlock in
      Ok ({| bb_block := block_record height blockHash block; bb_transactions := transactions;
             bb_bridgeObservations := bridgeObservations |}, newDParameterJson)
  end.

Definition remember (newDParameterJson : option jsstr) : act (Service S) unit := λ s,
  (Ok tt, match newDParameterJson with
          | Some json => Build_Service (sv_world s) (Some json)
          | None => s
          end).

Definition ingestOneBlock (height : Z) : act (Service S) unit := λ s,
  (fetched ← check (fetch_bundle (lastDParameterJson s) height);
   on_store (putBlockBundle fetched.1) ;;
   remember fetched.2) s.

(** ** The sync round *)

Definition sync_height (height : Z) : act (Service S) unit :=
  ingestOneBlock height ;;
  on_store (setWatermark watermarkKey (JObj [(js "height", JNum (NumInt height))])).

(** The heights of the loop [for (height = lo; height <= hi; height++)]. *)
Definition heights_between (lo hi : Z) : list Z := seqZ lo (hi - lo + 1).

Definition syncOnce (maxBlocks : option Z) : act (Service S) SyncOnceResult :=
  finalizedHash ← check (getFinalizedHead node);
  targetTipHeight ← check (getHeightOf node finalizedHash);
  synced ← on_store getSyncedHeight;
  let startHeight := match synced with None => 0 | Some h => h + 1 end in
  if targetTipHeight <? startHeight then
    mret {| ingestedBlocks := 0; fromHeight := None; toHeight := None;
            targetTipHeight := targetTipHeight |}
  else
    let endHeight := Z.min targetTipHeight (startHeight + default 100 maxBlocks - 1) in
    for_each sync_height (heights_between startHeight endHeight) ;;
    mret {| ingestedBlocks := Z.of_nat (length (heights_between startHeight endHeight));
            fromHeight := Some startHeight; toHeight := Some endHeight;
            targetTipHeight := targetTipHeight |}.
End service.
