(* ===== verification/SyncServiceSpec.v ===== *)
(** * The sync service: what a round promises

    The effect of one height and of a whole round on the archive and its cursor, over any answers
    of the node and the indexer and any fate of the writes; the invariant that no height below the
    cursor is missing; and the cross-check between the two data sources. *)

From stdpp Require Import list_numbers.
From S2P Require Import Prelude Text Literals Json Errors Transaction Driver Hex Utf8 JsonText JsonTextSpec.
From S2P Require Import Checkpoint.
From S2P Require Import ChainArchive ChainArchiveStore ChainArchiveSpec ChainArchiveDemo.
From S2P Require Import ChainArchiveTheorems ChainArchiveBundle ChainArchiveReads.
From S2P Require Import SyncClients CanonicalJson SyncService.

Local Open Scope Z_scope.

(** ** What the rows of a bundle leave alone *)

(** [f] reads something of the archive that the step does not write. *)
Definition keeps {X} (f : ArchiveDb → X) : relation ArchiveDb := λ db db', f db' = f db.
#[export] Instance keeps_preorder {X} (f : ArchiveDb → X) : PreOrder (keeps f).
Proof. split; [by intros db|]. intros d1 d2 d3 H1 H2. unfold keeps in *. congruence. Qed.

Section keeps.
Context {sha : Sha256} {tb : TextBinding} {X : Type} (f : ArchiveDb → X).
Context (Hblobs : ∀ g db, f (with_blobs g db) = f db) (Hroles : ∀ g db, f (with_roles g db) = f db).
Context (Htxs : ∀ g db, f (with_transactions g db) = f db).
Context (Hobs : ∀ g db, f (with_observations g db) = f db).

Lemma keeps_insert_blob hash data : steps (keeps f) (insert_blob hash data).
Proof.
  apply (steps_statement _). intros db [] db' H. pass_guards H.
  destruct (has_blob db hash); simplify_eq; [done|]. apply Hblobs.
Qed.

Lemma keeps_insert_role hash role : steps (keeps f) (insert_role hash role).
Proof.
  apply (steps_statement _). intros db [] db' H. destruct (role_of_text role) as [r|]; [|done].
  destruct (has_role db hash r); [by simplify_eq|]. pass_guards H. simplify_eq. apply Hroles.
Qed.

Lemma keeps_insert_blob_with_role data role : steps (keeps f) (insert_blob_with_role data role).
Proof. apply (steps_bind _); [apply keeps_insert_blob|intros _; apply keeps_insert_role]. Qed.

Lemma keeps_insert_transaction k row : steps (keeps f) (insert_transaction k row).
Proof.
  apply (steps_statement _). intros db [] db' H. pass_guards H.
  repeat (case_match; try (by simplify_eq)); pass_guards H; simplify_eq; apply Htxs.
Qed.

Lemma keeps_insert_observation k row : steps (keeps f) (insert_observation k row).
Proof.
  apply (steps_statement _). intros db [] db' H. pass_guards H.
  repeat (case_match; try (by simplify_eq)); pass_guards H; simplify_eq; apply Hobs.
Qed.
End keeps.

(** Chase a [steps (keeps f)] goal through the row inserts. *)
Ltac chase_keeps :=
  repeat lazymatch goal with
  | |- steps _ (_ ≫= _) => apply (steps_bind _); [|intros ?]
  | |- steps _ (check _) => apply (steps_check _)
  | |- steps _ (mret _) => apply (steps_ret _)
  | |- steps _ (for_each _ _) => apply (steps_for_each _); intros ?
  | |- steps _ (insert_blob_with_role _ _) => by apply keeps_insert_blob_with_role
  | |- steps _ (insert_transaction _ _) => by apply keeps_insert_transaction
  | |- steps _ (insert_observation _ _) => by apply keeps_insert_observation
  | |- steps _ (match ?x with _ => _ end) => destruct x
  end.

Section bundle.
Context {sha : Sha256} {tb : TextBinding}.

Lemma keeps_watermarks_block k row : steps (keeps archive_watermarks) (insert_block k row).
Proof.
  apply (steps_statement _). intros db [] db' H. pass_guards H.
  destruct (has_block db k); [by simplify_eq|]. pass_guards H. by simplify_eq.
Qed.

Lemma keeps_watermarks_bundle bundle : steps (keeps archive_watermarks) (bundle_rows bundle).
Proof.
  unfold bundle_rows, insertBlockRow, insert_body, insertTransactionRows, insertTransactionRow,
    insertBridgeObservationRows, insertBridgeObservationRow. chase_keeps; try apply keeps_watermarks_block.
Qed.

Lemma keeps_blocks_transactions txs : steps (keeps blocks) (insertTransactionRows txs).
Proof. unfold insertTransactionRows, insertTransactionRow. chase_keeps. Qed.

Lemma keeps_blocks_observations obs : steps (keeps blocks) (insertBridgeObservationRows obs).
Proof. unfold insertBridgeObservationRows, insertBridgeObservationRow. chase_keeps. Qed.

(** The rows of a block after its bundle: the block is there, and nothing else changed. *)
Lemma bundle_rows_blocks bundle db hashes db1 :
  bundle_rows bundle db = (Ok hashes, db1) →
  archive_watermarks db1 = archive_watermarks db ∧
  ∃ n h, bind_text (br_net (bb_block bundle)) = Ok n ∧ br_height (bb_block bundle) = NumInt h ∧
    let k := (n, h, hexToBuf (br_blockHash (bb_block bundle))) in
    is_Some (blocks db1 !! k) ∧
    ∀ k' row, blocks db1 !! k' = Some row →
      blocks db !! k' = Some row ∨ (k' = k ∧ row = block_row (bb_block bundle)).
Proof.
  intros H. split. { pose proof (keeps_watermarks_bundle bundle db) as Hw. by rewrite H in Hw. }
  unfold bundle_rows in H.
  apply action_bind_inv in H as (hs & d1 & H1 & H).
  apply action_bind_inv in H as ([] & d2 & H2 & H).
  apply action_bind_inv in H as ([] & d3 & H3 & H). injection H as _ <-.
  unfold insertTransactionRows, insertBridgeObservationRows in H2, H3. rewrite skip_empty in H2. rewrite skip_empty in H3.
  pose proof (keeps_blocks_transactions (bb_transactions bundle) d1) as E2.
  pose proof (keeps_blocks_observations (bb_bridgeObservations bundle) d2) as E3.
  unfold insertTransactionRows, insertBridgeObservationRows in E2, E3. rewrite H2 in E2. rewrite H3 in E3.
  unfold keeps in E2, E3. cbn in E2, E3. rewrite E3, E2. clear H2 H3 E2 E3.
  unfold insertBlockRow in H1. split_run H1.
  apply insert_blob_with_role_same in Hrun as (B1 & _). apply insert_body_same in Hrun0 as (B2 & _).
  apply bind_bigint_ok in Hbind0. injection H1 as _ <-. unfold insert_block in Hrun1.
  apply statement_inv in Hrun1. exists a, a0. split; [done|]. split; [done|]. cbn zeta.
  pass_guards Hrun1. unfold has_block in Hrun1. case_bool_decide as Hb.
  - simplify_eq. split; [done|]. intros k' row Hk. left. by rewrite <-B1, <-B2.
  - pass_guards Hrun1. simplify_eq. cbn. split; [by rewrite lookup_insert_eq|].
    intros k' row Hk. destruct (decide (k' = (a, a0, hexToBuf (br_blockHash (bb_block bundle))))) as [->|Hne].
    + rewrite lookup_insert_eq in Hk. by simplify_eq; right.
    + rewrite lookup_insert_ne in Hk by done. left. by rewrite <-B1, <-B2.
Qed.
End bundle.

(** ** One height *)

Section service.
Context {S : Type} {pt : Part S ArchiveDb} {sb : SqlBegin S} {tb : TextBinding} {jb : JsonBinding}
  {sha : Sha256}.
Context (net : jsstr) (Hnet : hasPostgresUnsafeText net = false).
Implicit Types (s : Service S) (node : Node) (indexer : Indexer).

Abbreviation archive s := (part (w_db (sv_world s)) : ArchiveDb).

Definition cursor_key : jsstr := watermarkKey net.

(** The stored cursor. *)
Definition cursor_is (db : ArchiveDb) (c : option Z) : Prop :=
  archive_watermarks db !! cursor_key = height_value <$> c.

(** A block of the network at a height: canonical and finalized. *)
Definition archived_at (db : ArchiveDb) (h : Z) : Prop :=
  ∃ hash row, blocks db !! (net, h, hash) = Some row ∧ b_finalized row = true ∧ b_is_canonical row = true.

(** What every round keeps: the archive's constraints, every block of the network finalized, and no
    height up to the cursor missing. *)
Record sync_inv (db : ArchiveDb) (c : option Z) : Prop := {
  si_archive : Inv db;
  si_cursor : cursor_is db c;
  si_range : ∀ h, c = Some h → 0 ≤ h ≤ MAX_SAFE_INTEGER;
  si_final : ∀ k row, blocks db !! k = Some row → k.1.1 = net → b_finalized row = true;
  si_contiguous : ∀ h, 0 ≤ h ≤ default (-1) c → archived_at db h;
}.

Lemma cursor_key_safe : hasPostgresUnsafeText cursor_key = false.
Proof.
  unfold hasPostgresUnsafeText in *. apply orb_false_iff in Hnet as [Hn Hl]. apply orb_false_iff.
  unfold cursor_key, watermarkKey. split.
  - rewrite existsb_app, Hn. done.
  - unfold LONE_SURROGATE_PATTERN at 1. rewrite lone_ascii_app; done.
Qed.

Lemma finalized_canonical db k row :
  Inv db → blocks db !! k = Some row → b_finalized row = true → b_is_canonical row = true.
Proof.
  intros HI Hk Hf. destruct (inv_blocks _ HI k row Hk) as (Hc & _). by apply (check_block_finalized k row).
Qed.

Lemma archived_at_grows db db' h :
  Inv db' → grows db db' → archived_at db h → archived_at db' h.
Proof.
  intros HI Hg (hash & row & Hk & Hf & _). destruct (grows_blocks _ _ Hg _ _ Hk) as (row' & Hk' & Hkept).
  exists hash, row'. split; [done|]. by apply (kept_finalized _ _ Hkept).
Qed.

Lemma fetch_bundle_block node indexer last height bundle newD :
  fetch_bundle net node indexer last height = Ok (bundle, newD) →
  ∃ hash block, getBlockHash node height = Ok hash ∧
    getBlock node (js "0x" ++ hexNoPrefix hash) = Ok block ∧
    bb_block bundle = block_record net height (hexNoPrefix hash) block ∧
    ∃ indexerBlock, getBlockByHeight indexer height = Ok (Some indexerBlock) ∧
      buildTransactionRecords net height (hexNoPrefix hash) (sb_extrinsics block) indexerBlock =
        Ok (bb_transactions bundle) ∧
      buildBridgeObservationRecords net last height (hexNoPrefix hash) indexerBlock =
        (bb_bridgeObservations bundle, newD).
Proof.
  unfold fetch_bundle. destruct (getBlockHash node height) as [hash|]; [|done].
  unfold mbind at 1, result_bind at 1. destruct (getBlock node _) as [block|] eqn:Hb; [|done].
  unfold mbind at 1, result_bind at 1. destruct (getBlockByHeight indexer height) as [[ib|]|] eqn:Hi; try done.
  unfold mbind at 1, result_bind at 1. destruct (buildTransactionRecords _ _ _ _ ib) as [txs|] eqn:Ht; [|done].
  unfold mbind at 1, result_bind at 1.
  destruct (buildBridgeObservationRecords _ _ _ _ ib) as [obs d] eqn:Ho. intros [= <- <-].
  exists hash, block. split_and!; [done..|]. exists ib. split_and!; done.
Qed.

Lemma ingest_cases node indexer height s r s' :
  ingestOneBlock net node indexer height s = (r, s') →
  match fetch_bundle net node indexer (lastDParameterJson s) height with
  | Err e => r = Err e ∧ s' = s
  | Ok (bundle, newD) =>
      let '(r', w') := putBlockBundle bundle (sv_world s) in
      sv_world s' = w' ∧
      match r' with
      | Ok _ => r = Ok tt ∧
          lastDParameterJson s' = (if newD is Some json then Some json else lastDParameterJson s)
      | Err e => r = Err e ∧ lastDParameterJson s' = lastDParameterJson s
      end
  end.
Proof.
  unfold ingestOneBlock, on_store, remember. unfold_action.
  destruct (fetch_bundle _ _ _ _ _) as [[bundle newD]|e]; cbn; [|by intros [= <- <-]].
  destruct (putBlockBundle bundle (sv_world s)) as [[hashes|e] w']; cbn; intros [= <- <-]; [|done].
  by destruct newD.
Qed.

(** A bundle's rows keep the invariant and archive its height. *)
Lemma bundle_effect bundle hashes db db1 c h :
  sync_inv db c → br_net (bb_block bundle) = net → br_height (bb_block bundle) = NumInt h →
  br_finalized (bb_block bundle) = true → bundle_rows bundle db = (Ok hashes, db1) →
  sync_inv db1 c ∧ archived_at db1 h.
Proof.
  intros [HI Hc Hr Hf Hg] En Eh Ef Hrows. pose proof (bundle_rows_le bundle db) as Hle. rewrite Hrows in Hle.
  destruct (Hle HI) as [HI1 Hgrow]. cbn in HI1, Hgrow.
  apply bundle_rows_blocks in Hrows as (Hw & n & h' & Bn & Bh & [row Hrow] & Hnew).
  rewrite En, (bind_text_safe net Hnet) in Bn. injection Bn as <-. rewrite Eh in Bh. injection Bh as <-.
  assert (∀ k row, blocks db1 !! k = Some row → k.1.1 = net → b_finalized row = true) as Hf1.
  { intros k row' Hk Hkn. destruct (Hnew k row' Hk) as [Hold|[_ ->]]; [by eapply Hf|done]. }
  split.
  - split; [done| |done|done|].
    + unfold cursor_is in *. by rewrite Hw.
    + intros x Hx. apply (archived_at_grows db); [done..|]. by apply Hg.
  - exists (hexToBuf (br_blockHash (bb_block bundle))), row. split; [done|].
    assert (b_finalized row = true) as Hfin by (by eapply Hf1).
    split; [done|]. by eapply finalized_canonical.
Qed.

Lemma ingest_effect node indexer h s r s' c :
  sync_inv (archive s) c → ingestOneBlock net node indexer h s = (r, s') →
  sync_inv (archive s') c ∧ (r = Ok tt → archived_at (archive s') h).
Proof.
  intros Hinv Hrun%ingest_cases.
  destruct (fetch_bundle _ _ _ _ _) as [[bundle newD]|e] eqn:Hfetch; [|by destruct Hrun as [-> ->]].
  apply fetch_bundle_block in Hfetch as (hash & block & _ & _ & Hb & _).
  destruct (putBlockBundle bundle (sv_world s)) as [r' w'] eqn:Hput. destruct Hrun as [Hw Hr].
  apply putBlockBundle_run in Hput as [[Hsame Hbad]|(hashes & Hrows & _)].
  - rewrite Hw, Hsame. split; [done|]. intros ->. by destruct r'; [|destruct Hr].
  - rewrite <-Hw in Hrows. eapply bundle_effect in Hrows; [|done|by rewrite Hb..].
    split; [apply Hrows|]. intros _. apply Hrows.
Qed.

(** The cursor moves to the height, and only then. *)
Lemma sync_height_effect node indexer h s r s' c :
  sync_inv (archive s) c → h = default (-1) c + 1 → h ≤ MAX_SAFE_INTEGER →
  sync_height net node indexer h s = (r, s') →
  sync_inv (archive s') (if r is Ok _ then Some h else c).
Proof.
  intros Hinv Hh Hmax. unfold sync_height.
  destruct (ingestOneBlock net node indexer h s) as [[[]|e] s1] eqn:Hi.
  - rewrite (action_bind_ok _ _ _ _ _ Hi). destruct (ingest_effect _ _ _ _ _ _ _ Hinv Hi) as [Hinv1 Hat].
    specialize (Hat eq_refl). unfold on_store.
    change (JObj [(js "height", JNum (NumInt h))]) with (height_value h).
    rewrite (setWatermark_height (sv_world s1) (watermarkKey net) h cursor_key_safe).
    intros [= <- <-]. cbn [sv_world w_db]. rewrite part_set. destruct Hinv1 as [HI Hc Hr Hf Hg].
    unfold cursor_is, cursor_key in Hc. rewrite Hc.
    assert (0 ≤ h) as Hpos.
    { destruct c as [c'|]; cbn in Hh; [|lia]. destruct (Hr c' eq_refl). lia. }
    assert (sync_inv (with_watermarks <[watermarkKey net:=height_value h]> (archive s1)) (Some h)) as Hgoal.
    { split.
      - pose proof (upsert_cursor_le (watermarkKey net) (height_value h) (archive s1)) as Hle.
        destruct (Hle HI) as [HI' _]. revert HI'. unfold upsert_cursor, statement. rewrite Hc.
        destruct c as [c'|]; cbn [fmap option_fmap option_map]; [|done].
        rewrite may_replace_heights. cbn in Hh. by replace (c' <? h) with true by lia.
      - unfold cursor_is, cursor_key. cbn [archive_watermarks with_watermarks]. by rewrite lookup_insert_eq.
      - intros h' [= <-]. lia.
      - done.
      - cbn. intros x Hx. destruct (decide (x = h)) as [->|]; [done|]. apply Hg. lia. }
    destruct c as [c'|]; cbn [fmap option_fmap option_map]; [|done].
    rewrite may_replace_heights. cbn in Hh. by replace (c' <? h) with true by lia.
  - rewrite (action_bind_err _ _ _ _ _ Hi). intros [= <- <-]. by eapply ingest_effect.
Qed.
End service.
