(* ===== verification/SyncServiceTheorems.v ===== *)
(** * The sync service: its theorems

    No gaps below the cursor over any history of rounds and restarts, the arithmetic of a round,
    the all-or-nothing ingestion of a height with its deduplicated observation, and the
    cross-check of every archived transaction against the node's own block. *)

From stdpp Require Import list_numbers.
From S2P Require Import Prelude Text Literals Json Errors Transaction Driver Hex Utf8 JsonText JsonTextSpec.
From S2P Require Import Checkpoint.
From S2P Require Import ChainArchive ChainArchiveStore ChainArchiveSpec ChainArchiveDemo.
From S2P Require Import ChainArchiveTheorems ChainArchiveBundle ChainArchiveReads.
From S2P Require Import SyncClients CanonicalJson SyncService SyncServiceSpec.

Local Open Scope Z_scope.

Section theorems.
Context {S : Type} {pt : Part S ArchiveDb} {sb : SqlBegin S} {tb : TextBinding} {jb : JsonBinding}
  {sha : Sha256}.
Context (net : jsstr) (Hnet : hasPostgresUnsafeText net = false).
Implicit Types (s : Service S) (node : Node) (indexer : Indexer).

Abbreviation archive s := (part (w_db (sv_world s)) : ArchiveDb).

(** The height below which nothing is missing, [-1] before the first block. *)
Definition synced_to (c : option Z) : Z := default (-1) c.

Lemma sync_loop node indexer n : ∀ lo c s r s',
  sync_inv net (archive s) c → lo = synced_to c + 1 → lo + Z.of_nat n - 1 ≤ MAX_SAFE_INTEGER →
  for_each (sync_height net node indexer) (seqZ lo (Z.of_nat n)) s = (r, s') →
  ∃ c', sync_inv net (archive s') c' ∧ synced_to c ≤ synced_to c' ∧
    match r with
    | Ok _ => synced_to c' = lo + Z.of_nat n - 1
    | Err _ => synced_to c' < lo + Z.of_nat n - 1
    end.
Proof.
  induction n as [|n IH]; intros lo c s r s' Hinv Hlo Hmax.
  { intros [= <- <-]. exists c. split; [done|]. lia. }
  rewrite seqZ_cons by lia. replace (Z.pred (Z.of_nat (Datatypes.S n))) with (Z.of_nat n) by lia. cbn [for_each].
  destruct (sync_height net node indexer lo s) as [[[]|e] s1] eqn:Hs.
  - rewrite (action_bind_ok _ _ _ _ _ Hs).
    eapply sync_height_effect in Hs; [|done..|lia]. cbv iota in Hs. intros Hrest.
    eapply (IH (Z.succ lo) (Some lo)) in Hrest; [|done|by cbn|lia].
    destruct Hrest as (c' & Hc' & Hle & Hr). exists c'. cbn in Hle. split; [done|]. split; [lia|].
    destruct r; lia.
  - rewrite (action_bind_err _ _ _ _ _ Hs). intros [= <- <-].
    eapply sync_height_effect in Hs; [|done..|lia]. exists c. split; [done|]. lia.
Qed.

Lemma height_of_watermark_value h : height_of_watermark (height_value h) = Ok (Some h).
Proof. reflexivity. Qed.

Lemma getSyncedHeight_cursor w c :
  cursor_is net (part (w_db w)) c → getSyncedHeight (S := S) net w = (Ok c, w).
Proof.
  intros Hc. unfold getSyncedHeight.
  rewrite (action_bind_ok _ _ _ _ _ (getWatermark_ok w (watermarkKey net) (cursor_key_safe net Hnet))).
  unfold cursor_is, cursor_key in Hc. rewrite Hc. destruct c as [h|]; [|done].
  cbn [fmap option_fmap option_map]. unfold check. by rewrite height_of_watermark_value.
Qed.

(** What a round returns and where it leaves the cursor, started at [start]. *)
Definition round_result (start : Z) (maxBlocks : option Z) (c' : option Z) (res : SyncOnceResult) : Prop :=
  let tip := targetTipHeight res in
  let last := Z.min tip (start + default 100 maxBlocks - 1) in
  Z.abs tip ≤ MAX_SAFE_INTEGER ∧
  if tip <? start
  then res = {| ingestedBlocks := 0; fromHeight := None; toHeight := None; targetTipHeight := tip |} ∧
       synced_to c' = start - 1
  else ingestedBlocks res = Z.max 0 (last - start + 1) ∧ fromHeight res = Some start ∧
       toHeight res = Some last ∧ synced_to c' = start - 1 + ingestedBlocks res.

Lemma syncOnce_effect node indexer maxBlocks s r s' c :
  sync_inv net (archive s) c → syncOnce net node indexer maxBlocks s = (r, s') →
  ∃ c', sync_inv net (archive s') c' ∧ synced_to c ≤ synced_to c' ∧
    match r with Ok res => round_result (synced_to c + 1) maxBlocks c' res | Err _ => True end.
Proof.
  intros Hinv. unfold syncOnce.
  destruct (getFinalizedHead node) as [hash|e].
  2:{ intros [= <- <-]. exists c. split; [done|]. split; [lia|done]. }
  rewrite (action_bind_ok (check (Ok hash)) _ s hash s) by done.
  destruct (getHeightOf node hash) as [tip|e] eqn:Htip.
  2:{ intros [= <- <-]. exists c. split; [done|]. split; [lia|done]. }
  rewrite (action_bind_ok (check (Ok tip)) _ s tip s) by done.
  assert (on_store (getSyncedHeight net) s = (Ok c, s)) as Hget.
  { unfold on_store. rewrite (getSyncedHeight_cursor (sv_world s) c) by apply Hinv. by destruct s. }
  rewrite (action_bind_ok _ _ _ _ _ Hget).
  assert (match c with None => 0 | Some h => h + 1 end = synced_to c + 1) as -> by by destruct c.
  pose proof (getHeightOf_ok _ _ _ Htip) as Hsafe.
  assert (-1 ≤ synced_to c) as Hc.
  { destruct c as [h|]; cbn; [|lia]. pose proof (si_range _ _ _ Hinv h eq_refl). lia. }
  destruct (tip <? synced_to c + 1) eqn:Hlt.
  { intros [= <- <-]. exists c. split; [done|]. split; [lia|]. split; [done|]. cbn. rewrite Hlt.
    split; [done|lia]. }
  apply Z.ltb_ge in Hlt. set (hi := Z.min tip (synced_to c + 1 + default 100 maxBlocks - 1)).
  unfold heights_between. set (n := Z.to_nat (hi - (synced_to c + 1) + 1)).
  assert (seqZ (synced_to c + 1) (hi - (synced_to c + 1) + 1) = seqZ (synced_to c + 1) (Z.of_nat n)) as ->.
  { unfold seqZ. f_equal. f_equal. lia. }
  destruct (for_each (sync_height net node indexer) (seqZ (synced_to c + 1) (Z.of_nat n)) s) as [[[]|e] s1] eqn:Hloop.
  - rewrite (action_bind_ok _ _ _ _ _ Hloop). intros [= <- <-].
    eapply (sync_loop _ _ _ _ c) in Hloop as (c' & Hc' & Hle & Hr); [|done|done|lia].
    exists c'. split; [done|]. split; [done|]. split; [done|]. cbn [targetTipHeight ingestedBlocks fromHeight toHeight].
    fold hi. rewrite (proj2 (Z.ltb_ge _ _)) by lia. rewrite length_seqZ. split_and!; [|done|done|]; lia.
  - rewrite (action_bind_err _ _ _ _ _ Hloop). intros [= <- <-].
    eapply (sync_loop _ _ _ _ c) in Hloop as (c' & Hc' & Hle & Hr); [|done|done|lia].
    exists c'. done.
Qed.

(** Rounds with whatever answers, and restarts, which lose the instance's memory. *)
Inductive sync_step : Service S → Service S → Prop :=
  | sync_round node indexer maxBlocks s : sync_step s (syncOnce net node indexer maxBlocks s).2
  | sync_restart s : sync_step s (Build_Service (sv_world s) None).

(** C8. The cursor never passes a missing block. From an archive with no gap below its cursor (the
    empty one, say), after any number of rounds, whatever the node and the indexer answered,
    whichever writes failed or lost their acknowledgement, with restarts in between: every height
    from 0 to the cursor has its canonical, finalized block, the archive's own constraints hold,
    and the cursor has not gone back. *)
Theorem sync_no_gaps s s' c :
  sync_inv net (archive s) c → rtc sync_step s s' →
  ∃ c', sync_inv net (archive s') c' ∧ synced_to c ≤ synced_to c' ∧
    ∀ h, 0 ≤ h ≤ synced_to c' → archived_at net (archive s') h.
Proof.
  intros Hinv Hs. revert c Hinv.
  enough (∀ c, sync_inv net (archive s) c → ∃ c', sync_inv net (archive s') c' ∧ synced_to c ≤ synced_to c') as H.
  { intros c (c' & Hc' & Hle)%H. exists c'. split; [done|]. split; [done|]. apply Hc'. }
  induction Hs as [s|s1 s2 s3 H12 _ IH]; intros c Hinv; [by exists c|].
  destruct H12 as [node indexer maxBlocks s|s].
  - destruct (syncOnce net node indexer maxBlocks s) as [r s4] eqn:Hrun.
    destruct (syncOnce_effect _ _ _ _ _ _ _ Hinv Hrun) as (c1 & Hinv1 & Hle1 & _).
    destruct (IH c1 Hinv1) as (c2 & ? & ?). exists c2. split; [done|lia].
  - by apply IH.
Qed.

(** The arithmetic of a round. A round that resolves starts right after the cursor, stops at the
    finalized tip or after [maxBlocks] (100 by default) heights, whichever comes first, reports
    exactly the heights it archived, and leaves the cursor on the last of them; when the tip is
    not above the cursor it does nothing and says so. All heights are safe integers. *)
Theorem syncOnce_result node indexer maxBlocks s res s' c :
  sync_inv net (archive s) c → syncOnce net node indexer maxBlocks s = (Ok res, s') →
  ∃ c', cursor_is net (archive s') c' ∧ round_result (synced_to c + 1) maxBlocks c' res ∧
    0 ≤ ingestedBlocks res ≤ Z.max 0 (default 100 maxBlocks) ∧
    synced_to c' ≤ Z.max (synced_to c) (targetTipHeight res).
Proof.
  intros Hinv Hrun. destruct (syncOnce_effect _ _ _ _ _ _ _ Hinv Hrun) as (c' & Hinv' & _ & Hres).
  exists c'. split; [apply Hinv'|]. split; [done|]. destruct Hres as [_ Hres].
  destruct (Z.ltb_spec (targetTipHeight res) (synced_to c + 1)).
  - destruct Hres as [-> Hc]. cbn. lia.
  - destruct Hres as (-> & _ & _ & ->). lia.
Qed.

(** ** The records of a block *)

Lemma transaction_records_lookup height blockHash hexes pos txs records :
  transaction_records net height blockHash hexes pos txs = Ok records →
  Forall2 (λ (tx : IndexerTransaction) (t : TransactionRecord), ∃ i,
    transaction_record net height blockHash hexes i tx = Ok t) txs records ∧
  ∀ i t, records !! i = Some t → tr_position t = NumInt (Z.of_nat (pos + i)).
Proof.
  clear Hnet. revert pos records. induction txs as [|tx txs IH]; intros pos records; cbn.
  { intros [= <-]. split; [constructor|done]. }
  unfold mbind, result_bind. destruct (transaction_record _ _ _ _ pos tx) as [t|] eqn:Ht; [|done].
  destruct (transaction_records _ _ _ _ _ txs) as [ts|] eqn:Hts; [|done]. intros [= <-].
  destruct (IH _ _ Hts) as [H1 H2]. split; [constructor; [by exists pos|done]|].
  intros [|i] t'; cbn.
  - intros [= <-]. unfold transaction_record in Ht. destruct (_ && _); [done|]. injection Ht as <-. cbn. do 2 f_equal. lia.
  - intros Hi. rewrite (H2 i t' Hi). do 2 f_equal. lia.
Qed.

Lemma positions_distinct (records : list TransactionRecord) :
  (∀ i t, records !! i = Some t → tr_position t = NumInt (Z.of_nat i)) → NoDup (tr_position <$> records).
Proof.
  clear Hnet. intros H. apply NoDup_alt. intros i j x Hi Hj. rewrite list_lookup_fmap in Hi, Hj.
  apply fmap_Some in Hi as (t & Ht & ->). apply fmap_Some in Hj as (t' & Ht' & He).
  rewrite (H _ _ Ht), (H _ _ Ht') in He. injection He as He. lia.
Qed.

(** The bundle of a height is consistent, given distinct transaction hashes. *)
Lemma fetched_consistent node indexer last h bundle newD :
  fetch_bundle net node indexer last h = Ok (bundle, newD) →
  NoDup ((λ t, hexToBuf (tr_txHash t)) <$> bb_transactions bundle) → bundle_consistent bundle.
Proof.
  intros (hash & block & _ & _ & Hb & ib & _ & Htx & Hobs)%fetch_bundle_block Hnd.
  unfold buildTransactionRecords in Htx. case_decide; [|done].
  apply transaction_records_lookup in Htx as [Hrec Hpos]. cbn in Hpos.
  assert (bb_bridgeObservations bundle = [] ∨ ∃ j, bb_bridgeObservations bundle =
    [{| bo_net := net; bo_blockHeight := NumInt h; bo_blockHash := hexNoPrefix hash;
        bo_observationIndex := NumInt 0; bo_kind := system_parameters_d;
        bo_rawBytes := TextEncoder_encode j |}]) as Ho.
  { unfold buildBridgeObservationRecords in Hobs. case_decide; injection Hobs as <- <-; eauto. }
  split.
  - intros t (i & Hi)%list_elem_of_lookup. rewrite Hb. cbn.
    destruct (Forall2_lookup_r _ _ _ _ _ Hrec Hi) as (tx & _ & j & Ht).
    unfold transaction_record in Ht. destruct (_ && _); [done|]. by injection Ht as <-.
  - done.
  - by apply positions_distinct.
  - intros o Hin. rewrite Hb. destruct Ho as [Ho|[j Ho]]; rewrite Ho in Hin; [by apply not_elem_of_nil in Hin|].
    apply list_elem_of_singleton in Hin as ->. done.
  - destruct Ho as [->|[j ->]]; [constructor|]. apply NoDup_singleton.
Qed.

(** A height is ingested whole or not at all, and is safe to retry. If anything fails before the
    write (a client error, an indexer that lags behind or disagrees with the node, a transaction
    the node's block does not contain) nothing has changed at all. Otherwise the block, its
    transactions and its observation are archived together or not at all, and the deduplication
    cursor advances only if the write resolved: after a failure the next attempt, given the same
    answers, builds the same bundle again, the observation included. *)
Theorem ingest_all_or_nothing node indexer h s r s' :
  Inv (archive s) → ingestOneBlock net node indexer h s = (r, s') →
  match fetch_bundle net node indexer (lastDParameterJson s) h with
  | Err e => r = Err e ∧ s' = s
  | Ok (bundle, newD) =>
      (bundle_fresh bundle (archive s) →
       NoDup ((λ t, hexToBuf (tr_txHash t)) <$> bb_transactions bundle) →
       bundle_archived bundle (archive s') ∨ (is_ok r = false ∧ archive s' = archive s)) ∧
      (is_ok r = true → ∀ json, newD = Some json → lastDParameterJson s' = Some json) ∧
      (is_ok r = false → fetch_bundle net node indexer (lastDParameterJson s') h = Ok (bundle, newD))
  end.
Proof.
  intros HI Hrun%ingest_cases. destruct (fetch_bundle _ _ _ _ _) as [[bundle newD]|e] eqn:Hf; [|done].
  destruct (putBlockBundle bundle (sv_world s)) as [r' w'] eqn:Hput. destruct Hrun as [Hw Hr].
  split_and!.
  - intros Hfresh Hnd. apply putBlockBundle_run in Hput as [[Hsame Hbad]|(hashes & Hrows & _)].
    + right. rewrite Hw. destruct r'; [done|]. destruct Hr as [-> _]. done.
    + left. rewrite Hw. eapply bundle_rows_complete; [done| |done|done]. by eapply fetched_consistent.
  - intros Hok json ->. destruct r' as [a|e]; destruct Hr as [-> Hr]; [done|discriminate Hok].
  - intros Hok. destruct r' as [a|e]; destruct Hr as [-> Hr]; [done|]. by rewrite Hr.
Qed.

Lemma starts_with_spec p u : starts_with p u = true ↔ ∃ b, u = p ++ b.
Proof.
  revert u. induction p as [|c p IH]; intros u; cbn; [split; [by exists u|done]|].
  destruct u as [|d u]; [split; [done|by intros [??]]|].
  rewrite andb_true_iff, N.eqb_eq, IH. split.
  - intros [-> [b ->]]. by exists b.
  - intros [b [= -> ->]]. eauto.
Qed.

Lemma includes_spec e needle : includes e needle = true ↔ ∃ a b, e = a ++ needle ++ b.
Proof.
  induction e as [|c e IH]; cbn; rewrite orb_true_iff, starts_with_spec.
  - split.
    + intros [[b Hb]|?]; [|done]. by exists [], b.
    + intros (a & b & H). left. exists []. destruct a; [|done]. cbn in H. destruct needle; [done|done].
  - rewrite IH. split.
    + intros [[b ->]|(a & b & ->)]; [by exists [], b|by exists (c :: a), b].
    + intros ([|d a] & b & H); [left; by exists b|]. injection H as -> ->. right. by exists a, b.
Qed.

(** C29. Every archived transaction is vouched for by both sources. The records of a height are the
    indexer's transactions of the block the node reports under that height, one each and in
    order, under the indexer's hashes and raw bytes; a regular one's raw bytes occur inside one of
    the extrinsics of the node's own block, and a system one carries the system-transaction tag. *)
Theorem transactions_cross_checked node indexer last h bundle newD :
  fetch_bundle net node indexer last h = Ok (bundle, newD) →
  ∃ hash block ib, getBlockHash node h = Ok hash ∧ getBlock node (js "0x" ++ hexNoPrefix hash) = Ok block ∧
    getBlockByHeight indexer h = Ok (Some ib) ∧ hexNoPrefix (ib_hash ib) = hexNoPrefix hash ∧
    length (bb_transactions bundle) = length (ib_transactions ib) ∧
    ∀ i t, bb_transactions bundle !! i = Some t → ∃ tx, ib_transactions ib !! i = Some tx ∧
      tr_position t = NumInt (Z.of_nat i) ∧ tr_txHash t = hexNoPrefix (it_hash tx) ∧
      tr_rawBytes t = hexToBuf (hexNoPrefix (it_raw tx)) ∧
      (tr_kind t = kind_system ∧ SYSTEM_TX_TAG `prefix_of` (Byte.to_N <$> tr_rawBytes t) ∨
       tr_kind t = kind_regular ∧ ∃ extrinsic before after, extrinsic ∈ sb_extrinsics block ∧
         hexNoPrefix extrinsic = before ++ hexNoPrefix (it_raw tx) ++ after).
Proof.
  intros (hash & block & Hh & Hbl & _ & ib & Hib & Htx & _)%fetch_bundle_block.
  exists hash, block, ib. split; [done|]. split; [done|]. split; [done|].
  unfold buildTransactionRecords in Htx. case_decide as Hm; [|done]. split; [done|].
  apply transaction_records_lookup in Htx as [Hrec Hpos]. cbn in Hpos.
  split. { symmetry. by eapply Forall2_length. }
  intros i t Hi. destruct (Forall2_lookup_r _ _ _ _ _ Hrec Hi) as (tx & Htx & j & Ht).
  exists tx. split; [done|]. split; [by apply Hpos|].
  unfold transaction_record in Ht. destruct (_ && _) eqn:Hk; [done|]. injection Ht as <-.
  cbn [tr_txHash tr_rawBytes tr_kind]. split; [done|]. split; [done|].
  unfold transaction_kind, is_system_transaction in *. case_bool_decide as Hs.
  - left. split; [done|]. exists (Byte.to_N <$> drop (length SYSTEM_TX_TAG) (hexToBuf (hexNoPrefix (it_raw tx)))).
    rewrite <-(take_drop (length SYSTEM_TX_TAG) (hexToBuf _)) at 1. by rewrite fmap_app, Hs.
  - right. split; [done|]. cbn in Hk. apply negb_false_iff, existsb_exists in Hk as (e & He & Hinc).
    apply list_elem_of_In, list_elem_of_fmap in He as (ext & -> & Hext).
    apply includes_spec in Hinc as (a & b & Hab). by exists ext, a, b.
Qed.
End theorems.

(** ** Witnesses: two heights from a cooperative node, then an indexer that lags *)

Definition demo_hash (height : Z) : jsstr := hash_of (if height =? 0 then 97%N else 98%N).

Definition demo_tx_raw : jsstr := js "c0ffee".

Definition demo_node : Node :=
  {| chain_getBlockHash := λ height, Body None (js "0x" ++ demo_hash height);
     chain_getHeader := λ _, Body None demo_header;
     chain_getBlock := λ _, Body None
       {| sb_header := {| hd_parentHash := js "0x" ++ hash_of 48; hd_number := Some (js "0x1");
                          hd_stateRoot := js "0x" ++ hash_of 49;
                          hd_extrinsicsRoot := js "0x" ++ hash_of 50; hd_logs := [] |};
          sb_extrinsics := [js "0xaa" ++ demo_tx_raw] |};
     chain_getFinalizedHead := Body None (js "0x00") |}.

Definition demo_indexer (known : Z) : Indexer := λ height,
  if height <=? known then
    Body [] (Some {| ib_hash := demo_hash height; ib_height := NumInt height;
      ib_transactions := [{| it_hash := hash_of (if height =? 0 then 99%N else 100%N);
                             it_protocolVersion := NumInt 8; it_raw := demo_tx_raw |}];
      ib_numPermissionedCandidates := NumInt 3; ib_numRegisteredCandidates := NumInt 0 |})
  else Body [] None.

Definition demo_net : jsstr := js "devnet".
Definition service0 : Service ArchiveDb := Build_Service archive0 None.
(** The indexer knows height 0 only; then it has caught up. *)
Definition service1 : Service ArchiveDb := (syncOnce demo_net demo_node (demo_indexer 0) None service0).2.
Definition service2 : Service ArchiveDb := (syncOnce demo_net demo_node (demo_indexer 1) None service1).2.

Lemma service1_run : is_ok (syncOnce demo_net demo_node (demo_indexer 0) None service0).1 = false.
Proof. vm_compute. reflexivity. Qed.

Definition demo_result : SyncOnceResult :=
  {| ingestedBlocks := 1; fromHeight := Some 1; toHeight := Some 1; targetTipHeight := 1 |}.

Lemma service2_run : (syncOnce demo_net demo_node (demo_indexer 1) None service1).1 = Ok demo_result.
Proof. vm_compute. reflexivity. Qed.

#[global] Strategy 1000 [service1 service2].

Lemma sync_inv_empty : sync_inv demo_net (w_db (sv_world service0)) None.
Proof.
  split; [apply archive_inv_empty|done|done|..].
  - intros k row Hk. done.
  - cbn. intros h ?. lia.
Qed.

Lemma service1_inv : ∃ c, sync_inv demo_net (w_db (sv_world service1)) c ∧ c = Some 0.
Proof.
  destruct (syncOnce_effect (S := ArchiveDb) (pt := part_self) demo_net eq_refl demo_node (demo_indexer 0) None service0 _ service1 None
    sync_inv_empty (surjective_pairing _)) as (c & Hc & _).
  exists c. split; [done|]. destruct Hc as [_ Hcur _ _ _]. unfold cursor_is in Hcur.
  assert (archive_watermarks (w_db (sv_world service1)) !! cursor_key demo_net = Some (height_value 0)) as E
    by (vm_compute; reflexivity).
  assert (height_value <$> c = Some (height_value 0)) as Hv by exact (eq_trans (eq_sym Hcur) E).
  destruct c as [h|]; [|discriminate Hv]. injection Hv as ->. done.
Qed.

Lemma sync_no_gaps_witness :
  rtc (sync_step demo_net) service0 service2 ∧
  ∃ c', sync_inv demo_net (w_db (sv_world service2)) c' ∧ -1 ≤ synced_to c'.
Proof.
  assert (rtc (sync_step demo_net) service0 service2) as Hs.
  { eapply rtc_l; [exact (sync_round demo_net demo_node (demo_indexer 0) None service0)|].
    eapply rtc_l; [exact (sync_round demo_net demo_node (demo_indexer 1) None service1)|]. apply rtc_refl. }
  split; [exact Hs|].
  destruct (sync_no_gaps (S := ArchiveDb) (pt := part_self) demo_net eq_refl service0 service2 None sync_inv_empty Hs) as (c' & Hc' & Hle & _).
  exists c'. split; [exact Hc'|exact Hle].
Defined.

Lemma syncOnce_result_witness :
  (syncOnce demo_net demo_node (demo_indexer 1) None service1).1 = Ok demo_result ∧
  ∃ c', cursor_is demo_net (w_db (sv_world service2)) c' ∧ synced_to c' ≤ 1.
Proof.
  split; [exact service2_run|]. destruct service1_inv as (c & Hinv & ->).
  destruct (syncOnce_result (S := ArchiveDb) (pt := part_self) demo_net eq_refl demo_node (demo_indexer 1) None service1 demo_result service2
    (Some 0) Hinv) as (c' & Hc' & _ & _ & Hle).
  - exact (eq_trans (surjective_pairing _) (f_equal (λ r, (r, service2)) service2_run)).
  - exists c'. split; [exact Hc'|exact Hle].
Defined.

Definition demo_fetch : result thrown (BlockBundle * option jsstr) :=
  fetch_bundle demo_net demo_node (demo_indexer 1) None 0.
Definition demo_ingest : result thrown unit * Service ArchiveDb :=
  ingestOneBlock demo_net demo_node (demo_indexer 1) 0 service0.

Lemma demo_fetched : ∃ bundle json, demo_fetch = Ok (bundle, Some json).
Proof. eexists _, _. vm_compute. reflexivity. Qed.

Lemma demo_ingested : demo_ingest.1 = Ok tt.
Proof. vm_compute. reflexivity. Qed.

Lemma ingest_all_or_nothing_witness :
  demo_ingest.1 = Ok tt ∧
  ∃ bundle json, demo_fetch = Ok (bundle, Some json) ∧ lastDParameterJson demo_ingest.2 = Some json.
Proof.
  split; [exact demo_ingested|]. destruct demo_fetched as (bundle & json & Hf).
  exists bundle, json. split; [exact Hf|].
  pose proof (ingest_all_or_nothing (S := ArchiveDb) (pt := part_self) demo_net demo_node (demo_indexer 1) 0 service0 demo_ingest.1 demo_ingest.2
    archive_inv_empty (surjective_pairing _)) as H.
  assert (fetch_bundle demo_net demo_node (demo_indexer 1) (lastDParameterJson service0) 0 =
    Ok (bundle, Some json)) as E by exact Hf. rewrite E in H. destruct H as (_ & H & _).
  apply H; [|reflexivity]. rewrite demo_ingested. reflexivity.
Defined.

Lemma transactions_cross_checked_witness :
  ∃ bundle newD, demo_fetch = Ok (bundle, newD) ∧
  ∃ hash, getBlockHash demo_node 0 = Ok hash ∧ length (bb_transactions bundle) = 1%nat.
Proof.
  destruct demo_fetched as (bundle & json & Hf). exists bundle, (Some json). split; [exact Hf|].
  destruct (transactions_cross_checked demo_net demo_node (demo_indexer 1) None 0 bundle (Some json) Hf)
    as (hash & block & ib & Hh & _ & Hib & _ & Hlen & _).
  exists hash. split; [exact Hh|]. rewrite Hlen. vm_compute in Hib. injection Hib as <-. reflexivity.
Defined.
