(* ===== verification/Client.v ===== *)
(** * The connection factory

    Models [src/postgres/client.ts]: the checks on the schema name, the connection string and the
    timeouts, and the configuration [createClient] hands to the driver. *)

From S2P Require Import Prelude Text Json Errors SyncClients.

Local Open Scope Z_scope.

(** ** Identifiers *)

Definition is_lower (c : N) : bool := ((97 <=? c) && (c <=? 122))%N.
Definition is_ident_unit (c : N) : bool :=
  (is_lower c || ((48 <=? c) && (c <=? 57)) || (c =? underscore))%N.

(** [/^[a-z_][a-z0-9_]*$/]. *)
Definition SCHEMA_NAME_PATTERN (s : jsstr) : bool :=
  match s with
  | c :: r => (is_lower c || (c =? underscore)%N) && forallb is_ident_unit r
  | [] => false
  end.

Definition POSTGRES_MAX_IDENTIFIER_BYTES : nat := 63.

Definition plain_error (message : string) : thrown := named_error "Error" message.

Definition assertValidSchemaName (schema : jsstr) : result thrown unit :=
  if negb (SCHEMA_NAME_PATTERN schema) then Err (plain_error "invalid schema name")
  else if (POSTGRES_MAX_IDENTIFIER_BYTES <? length schema)%nat
  then Err (plain_error "invalid schema name: exceeds PostgreSQL's 63-byte identifier limit")
  else Ok tt.

(** ** The connection string *)

Definition RESERVED_PARAMETERS : list jsstr :=
  [js "search_path"; js "statement_timeout"; js "lock_timeout"; js "idle_in_transaction_session_timeout"].

(** Case folding of the [i] flag, which never equates a non-ASCII unit with an ASCII one. *)
Definition fold_case (c : N) : N := if ((65 <=? c) && (c <=? 90))%N then (c + 32)%N else c.

Fixpoint folded_prefix (p s : jsstr) : bool :=
  match p, s with
  | [], _ => true
  | c :: p', d :: s' => (c =? fold_case d)%N && folded_prefix p' s'
  | _ :: _, [] => false
  end.

(** [/[?&]param=/i.test(connectionString)]. *)
Fixpoint sets_parameter (param s : jsstr) : bool :=
  match s with
  | [] => false
  | c :: r =>
      (((c =? 63) || (c =? 38))%N && folded_prefix (param ++ js "=") r) || sets_parameter param r
  end.

Definition assertNoConflictingSearchPath (connectionString : jsstr) : result thrown unit :=
  if existsb (λ param, sets_parameter param connectionString) RESERVED_PARAMETERS
  then Err (plain_error "connectionString must not set a reserved query parameter") else Ok tt.

(** ** Options *)

Record UmbraDBConnectionOptions := {
  co_connectionString : option jsstr;
  co_schema : option jsstr;
  co_maxConnections : option jsnum;
  co_connectTimeout : option jsnum;
  co_statementTimeoutMs : option jsnum;
  co_lockTimeoutMs : option jsnum;
  co_idleInTxTimeoutMs : option jsnum;
}.

Definition DEFAULT_SCHEMA : jsstr := js "umbradb".
Definition DEFAULT_STATEMENT_TIMEOUT_MS : Z := 120000.
Definition DEFAULT_LOCK_TIMEOUT_MS : Z := 30000.
Definition DEFAULT_IDLE_IN_TX_TIMEOUT_MS : Z := 120000.
Definition POSTGRES_INT4_MAX : Z := 2147483647.

(** [Number.isInteger(value) && 0 < value <= 2147483647], or absent. *)
Definition timeout_ok (value : option jsnum) : bool :=
  match value with
  | None => true
  | Some (NumInt z) => (0 <? z) && (z <=? POSTGRES_INT4_MAX)
  | Some _ => false
  end.

Definition assert_timeout (value : option jsnum) : result thrown unit :=
  if timeout_ok value then Ok tt
  else Err (plain_error "invalid timeout: must be a positive integer number of milliseconds").

(** The configuration of the driver's client. [max] and [connect_timeout] are absent, not
    [undefined], when their option is. *)
Record ClientConfig := {
  cf_url : option jsstr;
  cf_max : option jsnum;
  cf_connect_timeout : option jsnum;
  cf_search_path : jsstr;
  cf_statement_timeout : jsnum;
  cf_lock_timeout : jsnum;
  cf_idle_in_transaction_session_timeout : jsnum;
  cf_umbradbSchema : jsstr;
}.

Definition createClient (opts : UmbraDBConnectionOptions) : result thrown ClientConfig :=
  let schema := default DEFAULT_SCHEMA (co_schema opts) in
  _ ← assertValidSchemaName schema;
  _ ← match co_connectionString opts with
      | Some connectionString => assertNoConflictingSearchPath connectionString
      | None => Ok tt
      end;
  _ ← assert_timeout (co_statementTimeoutMs opts);
  _ ← assert_timeout (co_lockTimeoutMs opts);
  _ ← assert_timeout (co_idleInTxTimeoutMs opts);
  Ok {| cf_url := co_connectionString opts; cf_max := co_maxConnections opts;
        cf_connect_timeout := co_connectTimeout opts; cf_search_path := schema;
        cf_statement_timeout := default (NumInt DEFAULT_STATEMENT_TIMEOUT_MS) (co_statementTimeoutMs opts);
        cf_lock_timeout := default (NumInt DEFAULT_LOCK_TIMEOUT_MS) (co_lockTimeoutMs opts);
        cf_idle_in_transaction_session_timeout :=
          default (NumInt DEFAULT_IDLE_IN_TX_TIMEOUT_MS) (co_idleInTxTimeoutMs opts);
        cf_umbradbSchema := schema |}.

(** ** What is accepted *)

(** A name PostgreSQL stores untruncated and unquoted. *)
Definition schema_name (s : jsstr) : Prop :=
  (∃ c r, s = c :: r ∧ (is_lower c = true ∨ c = underscore) ∧ Forall (λ d, is_ident_unit d = true) r) ∧
  (length s ≤ 63)%nat.

Lemma forallb_Forall_true {A} (f : A → bool) (l : list A) :
  forallb f l = true ↔ Forall (λ x, f x = true) l.
Proof. rewrite forallb_forall, Forall_forall. by setoid_rewrite list_elem_of_In. Qed.

Lemma assertValidSchemaName_exact s : assertValidSchemaName s = Ok tt ↔ schema_name s.
Proof.
  unfold assertValidSchemaName, schema_name, SCHEMA_NAME_PATTERN, POSTGRES_MAX_IDENTIFIER_BYTES.
  destruct s as [|c r]; [split; [done|by intros [(? & ? & ? & _) _]]|].
  destruct ((is_lower c || (c =? underscore)%N) && forallb is_ident_unit r) eqn:E; cbn [negb].
  - apply andb_true_iff in E as [Hc Hr]. apply orb_true_iff in Hc. rewrite N.eqb_eq in Hc.
    apply forallb_Forall_true in Hr.
    destruct (Nat.ltb_spec 63 (length (c :: r))); (split; [|intros [_ ?]]); try done; try lia.
    intros _. split; [by exists c, r|lia].
  - split; [done|]. intros [(c' & r' & [= <- <-] & Hc & Hr) _]. exfalso.
    apply forallb_Forall_true in Hr. rewrite Hr, andb_true_r in E. apply orb_false_iff in E as [E1 E2]. apply N.eqb_neq in E2.
    destruct Hc; congruence.
Qed.

Lemma timeout_ok_spec v :
  timeout_ok v = true ↔ ∀ n, v = Some n → ∃ z, n = NumInt z ∧ 0 < z ≤ POSTGRES_INT4_MAX.
Proof.
  destruct v as [[z| | |]|]; cbn.
  - rewrite andb_true_iff, Z.ltb_lt, Z.leb_le. split.
    + intros ? n [= <-]. eauto.
    + intros H. by destruct (H _ eq_refl) as (z' & [= <-] & ?).
  - split; [done|]. intros H. by destruct (H _ eq_refl) as (? & ? & _).
  - split; [done|]. intros H. by destruct (H _ eq_refl) as (? & ? & _).
  - split; [done|]. intros H. by destruct (H _ eq_refl) as (? & ? & _).
  - by split.
Qed.

(** The timeouts of every client are bounded. [createClient] accepts its options exactly when the
    schema name is a plain identifier of at most 63 bytes, the connection string sets none of the
    four parameters it controls, and each timeout that is given is an integer from 1 to the int4
    maximum; it then configures the driver with that schema as search path and published schema,
    and with three timeouts that are each such an integer, so that none is ever disabled. *)
Theorem createClient_bounded (opts : UmbraDBConnectionOptions) :
  match createClient opts with
  | Ok cfg =>
      schema_name (cf_search_path cfg) ∧ cf_umbradbSchema cfg = cf_search_path cfg ∧
      (∀ url param, cf_url cfg = Some url → param ∈ RESERVED_PARAMETERS → sets_parameter param url = false) ∧
      Forall (λ t, ∃ z, t = NumInt z ∧ 0 < z ≤ POSTGRES_INT4_MAX)
        [cf_statement_timeout cfg; cf_lock_timeout cfg; cf_idle_in_transaction_session_timeout cfg]
  | Err _ =>
      ¬ schema_name (default DEFAULT_SCHEMA (co_schema opts)) ∨
      (∃ url param, co_connectionString opts = Some url ∧ param ∈ RESERVED_PARAMETERS ∧
         sets_parameter param url = true) ∨
      Exists (λ t, timeout_ok t = false)
        [co_statementTimeoutMs opts; co_lockTimeoutMs opts; co_idleInTxTimeoutMs opts]
  end.
Proof.
  unfold createClient. cbv zeta.
  destruct (assertValidSchemaName (default DEFAULT_SCHEMA (co_schema opts))) as [[]|e] eqn:Hs.
  2:{ left. rewrite <-assertValidSchemaName_exact. congruence. }
  apply assertValidSchemaName_exact in Hs. unfold mbind, result_bind.
  destruct (match co_connectionString opts with
            | Some connectionString => assertNoConflictingSearchPath connectionString
            | None => Ok tt end) as [[]|e] eqn:Hu.
  2:{ right; left. destruct (co_connectionString opts) as [url|]; [|done].
      unfold assertNoConflictingSearchPath in Hu.
      destruct (existsb (λ param, sets_parameter param url) RESERVED_PARAMETERS) eqn:Hx; [|done].
      apply existsb_exists in Hx as (param & Hin & Hset). exists url, param. by rewrite list_elem_of_In. }
  unfold assert_timeout.
  destruct (timeout_ok (co_statementTimeoutMs opts)) eqn:H1; [|by right; right; left].
  destruct (timeout_ok (co_lockTimeoutMs opts)) eqn:H2; [|by right; right; right; left].
  destruct (timeout_ok (co_idleInTxTimeoutMs opts)) eqn:H3; [|by right; right; right; right; left].
  cbn. split; [done|]. split; [done|]. split.
  - intros url param Hurl Hin. rewrite Hurl in Hu. unfold assertNoConflictingSearchPath in Hu.
    destruct (existsb _ _) eqn:Hx in Hu; [done|]. apply not_true_iff_false. intros Ht.
    apply not_true_iff_false in Hx. apply Hx, existsb_exists. exists param. by rewrite <-list_elem_of_In.
  - assert (∀ v d, timeout_ok v = true → 0 < d ≤ POSTGRES_INT4_MAX →
      ∃ z, default (NumInt d) v = NumInt z ∧ 0 < z ≤ POSTGRES_INT4_MAX) as Hd.
    { intros [n|] d Hv Hd; [|by exists d]. by apply timeout_ok_spec with (n := n) in Hv. }
    repeat constructor; by apply Hd.
Qed.
