(* ===== verification/Rollover.v ===== *)
(** * Height partitions and the rollover of the default one

    Models [src/postgres/chain-archive-rollover.ts], with the partitions the schema starts with
    ([createHeightPartitions] of [migrations/chain_archive/001_chain_archive_core.ts] and
    [partition-config.ts]). The catalog of the three partitioned tables is explicit: for each, its
    relations by name, with the rows they hold, the bound they are attached under and the foreign
    key to [blocks] they carry. The DDL statements act on it with PostgreSQL's own refusals; any
    statement may also fail from outside. *)

From S2P Require Import Prelude Text Literals Json Errors SyncClients Client.

Local Open Scope Z_scope.

(** ** The catalog *)

Inductive RolloverTable := T_blocks | T_transactions | T_bridge_observations.

#[export] Instance RolloverTable_eq_dec : EqDecision RolloverTable.
Proof. solve_decision. Defined.

(** [ROLLOVER_TABLES]. *)
Definition ROLLOVER_TABLES : list RolloverTable := [T_blocks; T_transactions; T_bridge_observations].

Definition table_name (t : RolloverTable) : jsstr :=
  match t with
  | T_blocks => js "blocks"
  | T_transactions => js "transactions"
  | T_bridge_observations => js "bridge_observations"
  end.

(** [FOR VALUES FROM (lo) TO (hi)], or [DEFAULT]. *)
Inductive Bound := Range (lo hi : Z) | Default.
#[export] Instance Bound_eq_dec : EqDecision Bound.
Proof. solve_decision. Defined.

(** A row by its height and the block it is or refers to. *)
Abbreviation Row := (Z * bytes)%type.

(** [rl_bound]: [None] when the relation is not attached to its parent; [rl_fk]: the name of its
    foreign key to [blocks]. *)
Record Relation := { rl_rows : list Row; rl_bound : option Bound; rl_fk : option jsstr }.

(** The relations of one partitioned table, by name. Names begin with the table's own, so the
    three tables never compete for one. *)
Abbreviation Hierarchy := (gmap jsstr Relation).

Record Catalog := { ct_blocks : Hierarchy; ct_transactions : Hierarchy; ct_bridge_observations : Hierarchy }.

Definition hier (t : RolloverTable) (c : Catalog) : Hierarchy :=
  match t with
  | T_blocks => ct_blocks c
  | T_transactions => ct_transactions c
  | T_bridge_observations => ct_bridge_observations c
  end.

Definition set_hier (t : RolloverTable) (h : Hierarchy) (c : Catalog) : Catalog :=
  match t with
  | T_blocks => {| ct_blocks := h; ct_transactions := ct_transactions c;
                   ct_bridge_observations := ct_bridge_observations c |}
  | T_transactions => {| ct_blocks := ct_blocks c; ct_transactions := h;
                         ct_bridge_observations := ct_bridge_observations c |}
  | T_bridge_observations => {| ct_blocks := ct_blocks c; ct_transactions := ct_transactions c;
                                ct_bridge_observations := h |}
  end.

Definition default_name (t : RolloverTable) : jsstr := table_name t ++ js "_default".
Definition staging_name (t : RolloverTable) : jsstr := table_name t ++ js "_default_staging".
Definition part_name (t : RolloverTable) (suffix : jsstr) : jsstr := table_name t ++ js "_" ++ suffix.

(** ** DDL statements *)

Definition undefined_table : thrown := pg_error "42P01" "relation does not exist" None.
Definition duplicate_table : thrown := pg_error "42P07" "relation already exists" None.
Definition not_a_partition : thrown := pg_error "42P01" "relation is not a partition" None.
Definition still_referenced : thrown :=
  pg_error "23503" "removing partition violates foreign key constraint" None.
Definition undefined_constraint : thrown := pg_error "42704" "constraint does not exist" None.
Definition would_overlap : thrown := pg_error "42P17" "partition would overlap" None.
Definition bound_violated : thrown := pg_error "23514" "partition constraint is violated by some row" None.
Definition fk_violated : thrown := pg_error "23503" "violates foreign key constraint" None.

(** The rows of a table: those of its attached partitions. *)
Definition attached (r : Relation) : bool := if rl_bound r is Some _ then true else false.
Definition attached_rows (h : Hierarchy) : list Row :=
  map_to_list h ≫= λ nr, if attached nr.2 then rl_rows nr.2 else [].

(** A relation of [h] with a foreign key to [blocks] has a row that refers to [row]. *)
Definition references (h : Hierarchy) (row : Row) : bool :=
  existsb (λ nr : jsstr * Relation,
    (if rl_fk nr.2 is Some _ then true else false) && bool_decide (row ∈ rl_rows nr.2)) (map_to_list h).

Definition referenced (c : Catalog) (row : Row) : bool :=
  references (ct_transactions c) row || references (ct_bridge_observations c) row.

(** [ALTER TABLE t DETACH PARTITION name]: a partition of [blocks] whose rows are still referenced
    is refused. The detached table keeps its foreign key. *)
Definition detach (t : RolloverTable) (name : jsstr) (c : Catalog) : result thrown Catalog :=
  match hier t c !! name with
  | None => Err undefined_table
  | Some r =>
      if negb (attached r) then Err not_a_partition
      else if bool_decide (t = T_blocks) && existsb (referenced c) (rl_rows r) then Err still_referenced
      else Ok (set_hier t (<[name := {| rl_rows := rl_rows r; rl_bound := None; rl_fk := rl_fk r |}]>
                            (hier t c)) c)
  end.

(** [ALTER TABLE name DROP CONSTRAINT fk]. *)
Definition drop_constraint (t : RolloverTable) (name fk : jsstr) (c : Catalog) : result thrown Catalog :=
  match hier t c !! name with
  | None => Err undefined_table
  | Some r =>
      if attached r then Err (pg_error "42P16" "cannot drop inherited constraint" None)
      else if bool_decide (rl_fk r = Some fk)
      then Ok (set_hier t (<[name := {| rl_rows := rl_rows r; rl_bound := rl_bound r; rl_fk := None |}]>
                            (hier t c)) c)
      else Err undefined_constraint
  end.

(** [ALTER TABLE name RENAME TO name']. *)
Definition rename (t : RolloverTable) (name name' : jsstr) (c : Catalog) : result thrown Catalog :=
  match hier t c !! name, hier t c !! name' with
  | None, _ => Err undefined_table
  | Some _, Some _ => Err duplicate_table
  | Some r, None => Ok (set_hier t (<[name' := r]> (delete name (hier t c))) c)
  end.

Definition overlaps (lo hi : Z) (b : Bound) : bool :=
  match b with Range lo' hi' => (lo <? hi') && (lo' <? hi) | Default => false end.

Definition in_range (lo hi : Z) (row : Row) : bool := (lo <=? row.1) && (row.1 <? hi).

(** A relation that keeps a range from being attached: another range that overlaps it, or the
    default partition holding a row of it. *)
Definition in_the_way (lo hi : Z) (r : Relation) : bool :=
  match rl_bound r with
  | None => false
  | Some (Range lo' hi') => overlaps lo hi (Range lo' hi')
  | Some Default => existsb (in_range lo hi) (rl_rows r)
  end.

(** [ALTER TABLE t ATTACH PARTITION name FOR VALUES FROM (lo) TO (hi)]: the rows must satisfy the
    bound and, for the children of [blocks], the foreign key, which the partition inherits under
    the name the server gives it. *)
Definition attach (fk_name : jsstr → jsstr) (t : RolloverTable) (name : jsstr) (lo hi : Z) (c : Catalog)
    : result thrown Catalog :=
  match hier t c !! name with
  | None => Err undefined_table
  | Some r =>
      if attached r then Err (pg_error "42809" "relation is already a partition" None)
      else if existsb (λ nr : jsstr * Relation, in_the_way lo hi nr.2) (map_to_list (hier t c))
      then Err would_overlap
      else if negb (forallb (in_range lo hi) (rl_rows r)) then Err bound_violated
      else if negb (bool_decide (t = T_blocks))
              && negb (forallb (λ row, bool_decide (row ∈ attached_rows (ct_blocks c))) (rl_rows r))
      then Err fk_violated
      else Ok (set_hier t
        (<[name := {| rl_rows := rl_rows r; rl_bound := Some (Range lo hi);
                      rl_fk := if bool_decide (t = T_blocks) then None else Some (fk_name name) |}]>
          (hier t c)) c)
  end.

Definition is_default (r : Relation) : bool := bool_decide (rl_bound r = Some Default).

(** [CREATE TABLE name PARTITION OF t DEFAULT], on a table with no row outside its ranges. *)
Definition create_default (fk_name : jsstr → jsstr) (t : RolloverTable) (name : jsstr) (c : Catalog)
    : result thrown Catalog :=
  match hier t c !! name with
  | Some _ => Err duplicate_table
  | None =>
      if existsb (λ nr : jsstr * Relation, is_default nr.2) (map_to_list (hier t c))
      then Err would_overlap
      else Ok (set_hier t
        (<[name := {| rl_rows := []; rl_bound := Some Default;
                      rl_fk := if bool_decide (t = T_blocks) then None else Some (fk_name name) |}]>
          (hier t c)) c)
  end.

(** ** One reserved connection *)

(** [cn_faults]: for each statement to come, the failure that comes from outside, if any;
    [cn_commit_lands]: whether a [COMMIT] whose acknowledgement is lost took effect. *)
Record Connection := {
  cn_catalog : Catalog;
  cn_faults : list (option thrown);
  cn_commit_lands : bool;
}.

Definition with_catalog (c : Catalog) (s : Connection) : Connection :=
  {| cn_catalog := c; cn_faults := cn_faults s; cn_commit_lands := cn_commit_lands s |}.

(** Send one statement: what happens to it on the way. *)
Definition send : act Connection unit := λ s,
  match cn_faults s with
  | [] => (Ok tt, s)
  | f :: fs =>
      let s' := {| cn_catalog := cn_catalog s; cn_faults := fs; cn_commit_lands := cn_commit_lands s |} in
      (if f is Some e then Err e else Ok tt, s')
  end.

Definition execute (f : Catalog → result thrown Catalog) : act Connection unit :=
  send ;;
  statement (λ s, match f (cn_catalog s) with
                  | Ok c => Ok (tt, with_catalog c s)
                  | Err e => Err e
                  end).

Definition select_from {A} (f : Catalog → result thrown A) : act Connection A :=
  send ;; statement (λ s, match f (cn_catalog s) with Ok a => Ok (a, s) | Err e => Err e end).

(** [BEGIN], the body, [COMMIT]; a failure, of the [COMMIT] too, is followed by [ROLLBACK] and
    rethrown. What the connection can no longer roll back, the server does. *)
Definition in_transaction (body : act Connection unit) : act Connection unit := λ s,
  match send s with
  | (Err e, s1) => (Err e, s1)
  | (Ok _, s1) =>
      match body s1 with
      | (Err e, s2) => (Err e, with_catalog (cn_catalog s1) s2)
      | (Ok _, s2) =>
          match send s2 with
          | (Ok _, s3) => (Ok tt, s3)
          | (Err e, s3) =>
              (Err e, if cn_commit_lands s3 then s3 else with_catalog (cn_catalog s1) s3)
          end
      end
  end.

(** ** The rollover *)

(** [lo] and [hi] come from the caller unchecked. *)
Record RolloverBucket := { bk_lo : jsval; bk_hi : jsval; bk_suffix : jsstr }.

(** [/^[a-z][a-z0-9_]*$/]. *)
Definition PARTITION_SUFFIX_PATTERN (s : jsstr) : bool :=
  match s with
  | c :: r => is_lower c && forallb is_ident_unit r
  | [] => false
  end.

Definition LONGEST_TABLE_PREFIX : nat := length (js "bridge_observations_").

Definition assertValidPartitionSuffix (suffix : jsstr) : result thrown unit :=
  if negb (PARTITION_SUFFIX_PATTERN suffix) then Err (plain_error "invalid rollover partition suffix")
  else if (POSTGRES_MAX_IDENTIFIER_BYTES <? LONGEST_TABLE_PREFIX + length suffix)%nat
  then Err (plain_error "invalid rollover partition suffix: identifier limit")
  else Ok tt.

(** A number that is a non-negative safe integer. *)
Definition bucket_bound (value : jsval) : result thrown Z :=
  match value with
  | JNum (NumInt z) =>
      if (Z.abs z <=? MAX_SAFE_INTEGER) && (0 <=? z) then Ok z
      else Err (plain_error "invalid rollover bucket bound")
  | _ => Err (plain_error "invalid rollover bucket bound")
  end.

(** The bounds, once they are known to be fit for the DDL. *)
Definition assertValidBucketBounds (bucket : RolloverBucket) : result thrown (Z * Z) :=
  lo ← bucket_bound (bk_lo bucket);
  hi ← bucket_bound (bk_hi bucket);
  if hi <=? lo then Err (plain_error "invalid rollover bucket: lo must be < hi") else Ok (lo, hi).

(** The foreign key of [name] to [blocks], from [pg_constraint]. *)
Definition getFkConstraintName (t : RolloverTable) (name : jsstr) (c : Catalog) : result thrown (option jsstr) :=
  Ok (r ← hier t c !! name; rl_fk r).

(** [min(height)] and [max(height)] of the default partition, absent when it is empty. *)
Definition assertDefaultSpanFitsOneBucket (t : RolloverTable) (lo hi : Z) (c : Catalog) : result thrown unit :=
  match hier t c !! default_name t with
  | None => Err undefined_table
  | Some r =>
      match rl_rows r with
      | [] => Ok tt
      | row :: rows =>
          let minH := foldr Z.min row.1 rows.*1 in
          let maxH := foldr Z.max row.1 rows.*1 in
          if (minH <? lo) || (hi <=? maxH)
          then Err (plain_error "default partition holds rows outside the target bucket") else Ok tt
      end
  end.

(** The bound expression of an attached partition; two expressions are equal texts exactly when the
    bounds are equal. *)
Definition attachedPartitionBound (t : RolloverTable) (name : jsstr) (c : Catalog) : result thrown (option Bound) :=
  Ok (r ← hier t c !! name; rl_bound r).

Definition partially_applied : thrown := plain_error "rollover suffix is PARTIALLY applied".
Definition different_bounds : thrown := plain_error "rollover suffix already exists with DIFFERENT bounds".

(** The decision on the three bounds found. *)
Definition already_applied (lo hi : Z) (bounds : list (option Bound)) : result thrown bool :=
  let found := omap id bounds in
  if bool_decide (found = []) then Ok false
  else if (length found <? length ROLLOVER_TABLES)%nat then Err partially_applied
  else if existsb (λ b, negb (bool_decide (b = Range lo hi))) found then Err different_bounds
  else Ok true.

Section rollover.
Context (fk_name : jsstr → jsstr).

(** The three catalog queries of [Promise.all], which one connection answers in order. *)
Definition rolloverAlreadyApplied (suffix : jsstr) (lo hi : Z) : act Connection bool :=
  b1 ← select_from (attachedPartitionBound T_blocks (part_name T_blocks suffix));
  b2 ← select_from (attachedPartitionBound T_transactions (part_name T_transactions suffix));
  b3 ← select_from (attachedPartitionBound T_bridge_observations (part_name T_bridge_observations suffix));
  check (already_applied lo hi [b1; b2; b3]).

(** Step (b) for one child. *)
Definition drop_child_fk (t : RolloverTable) : act Connection unit :=
  fk ← select_from (getFkConstraintName t (default_name t));
  match fk with
  | Some name => execute (drop_constraint t (default_name t) name)
  | None => mret tt
  end.

(** Step (e) for one table. *)
Definition reattach (t : RolloverTable) (suffix : jsstr) (lo hi : Z) : act Connection unit :=
  execute (rename t (staging_name t) (part_name t suffix)) ;;
  execute (attach fk_name t (part_name t suffix) lo hi).

(** Steps (a) to (f). *)
Definition rollover_steps (suffix : jsstr) (lo hi : Z) : act Connection unit :=
  execute (detach T_transactions (default_name T_transactions)) ;;
  execute (detach T_bridge_observations (default_name T_bridge_observations)) ;;
  drop_child_fk T_transactions ;;
  drop_child_fk T_bridge_observations ;;
  execute (detach T_blocks (default_name T_blocks)) ;;
  execute (rename T_blocks (default_name T_blocks) (staging_name T_blocks)) ;;
  execute (rename T_transactions (default_name T_transactions) (staging_name T_transactions)) ;;
  execute (rename T_bridge_observations (default_name T_bridge_observations)
             (staging_name T_bridge_observations)) ;;
  reattach T_blocks suffix lo hi ;;
  reattach T_transactions suffix lo hi ;;
  reattach T_bridge_observations suffix lo hi ;;
  execute (create_default fk_name T_blocks (default_name T_blocks)) ;;
  execute (create_default fk_name T_transactions (default_name T_transactions)) ;;
  execute (create_default fk_name T_bridge_observations (default_name T_bridge_observations)).

(** What runs on the reserved connection. *)
Definition rollover_reserved (suffix : jsstr) (lo hi : Z) : act Connection unit :=
  applied ← rolloverAlreadyApplied suffix lo hi;
  if (applied : bool) then mret tt
  else
    select_from (assertDefaultSpanFitsOneBucket T_blocks lo hi) ;;
    select_from (assertDefaultSpanFitsOneBucket T_transactions lo hi) ;;
    select_from (assertDefaultSpanFitsOneBucket T_bridge_observations lo hi) ;;
    in_transaction (rollover_steps suffix lo hi).

(** [reserve_fault]: how [sql.reserve()] fails, if it does. *)
Definition rolloverDefaultPartition (schema : jsstr) (bucket : RolloverBucket)
    (reserve_fault : option thrown) : act Connection unit :=
  check (assertValidSchemaName schema) ;;
  check (assertValidPartitionSuffix (bk_suffix bucket)) ;;
  bounds ← check (assertValidBucketBounds bucket);
  rethrow (λ e, translatePostgresError e None)
    (match reserve_fault with
     | Some e => throw e
     | None => rollover_reserved (bk_suffix bucket) bounds.1 bounds.2
     end).
End rollover.

(** ** The partitions the schema starts with *)

Definition CHAIN_ARCHIVE_HEIGHT_PARTITION_SIZE : Z := 1000000.
Definition CHAIN_ARCHIVE_PRECREATED_PARTITIONS : Z := 5.

Definition bounded_name (t : RolloverTable) (i : Z) : jsstr :=
  table_name t ++ js "_p" ++ decimal i.

(** The loop of [createHeightPartitions], and the default after it. *)
Fixpoint precreated (t : RolloverTable) (n : nat) : list (jsstr * Bound) :=
  match n with
  | O => []
  | S n' => precreated t n' ++
      [(bounded_name t (Z.of_nat n'),
        Range (Z.of_nat n' * CHAIN_ARCHIVE_HEIGHT_PARTITION_SIZE)
              ((Z.of_nat n' + 1) * CHAIN_ARCHIVE_HEIGHT_PARTITION_SIZE))]
  end.

Definition createHeightPartitions (t : RolloverTable) : list (jsstr * Bound) :=
  precreated t (Z.to_nat CHAIN_ARCHIVE_PRECREATED_PARTITIONS) ++ [(default_name t, Default)].
