(* ===== verification/RolloverSpec.v ===== *)
(** * The rollover: what it does to the partitions

    The run on the connection against its plan on the catalog, the effect of a plan that went
    through on each of the three tables, and the outcomes of a whole rollover. *)

From S2P Require Import Prelude Text Literals Json Errors SyncClients Client Rollover.

Local Open Scope Z_scope.

(** ** The connection and the catalog *)

(** What the statements do to the catalog when nothing fails from outside. *)
Definition plan_execute (f : Catalog → result thrown Catalog) : act Catalog unit := λ c,
  match f c with Ok c' => (Ok tt, c') | Err e => (Err e, c) end.
Definition plan_select {A} (f : Catalog → result thrown A) : act Catalog A := λ c, (f c, c).

(** [m] on a connection does what [p] does to its catalog, unless it fails from outside. *)
Definition runs {A} (m : act Connection A) (p : act Catalog A) : Prop :=
  (∀ s a s', m s = (Ok a, s') → p (cn_catalog s) = (Ok a, cn_catalog s')) ∧
  (∀ s a c, cn_faults s = [] → p (cn_catalog s) = (Ok a, c) → m s = (Ok a, with_catalog c s)).

Lemma with_catalog_id s : with_catalog (cn_catalog s) s = s.
Proof. by destruct s. Qed.

Lemma send_ok s u s' : send s = (Ok u, s') → cn_catalog s' = cn_catalog s.
Proof. unfold send. destruct (cn_faults s) as [|[e|] fs]; by intros [= _ <-]. Qed.

Lemma send_free s : cn_faults s = [] → send s = (Ok tt, s).
Proof. unfold send. by intros ->. Qed.

Lemma runs_execute f : runs (execute f) (plan_execute f).
Proof.
  unfold execute, plan_execute. split.
  - intros s [] s' ([] & s1 & Hs & H)%action_bind_inv. apply send_ok in Hs. unfold statement in H. rewrite Hs in H.
    destruct (f (cn_catalog s)); [|done]. by injection H as <-.
  - intros s [] c Hf Hp. rewrite (action_bind_ok _ _ _ _ _ (send_free s Hf)). unfold statement.
    destruct (f (cn_catalog s)); [|done]. by injection Hp as <-.
Qed.

Lemma runs_select {A} (f : Catalog → result thrown A) : runs (select_from f) (plan_select f).
Proof.
  unfold select_from, plan_select. split.
  - intros s a s' ([] & s1 & Hs & H)%action_bind_inv. apply send_ok in Hs. unfold statement in H. rewrite Hs in H.
    destruct (f (cn_catalog s)); [|done]. injection H as <- <-. by rewrite Hs.
  - intros s a c Hf Hp. rewrite (action_bind_ok _ _ _ _ _ (send_free s Hf)). unfold statement.
    injection Hp as Hp <-. by rewrite Hp, with_catalog_id.
Qed.

Lemma runs_check {A} (r : result thrown A) : runs (check r) (check r).
Proof.
  split; unfold check; [by intros s a s' [= -> <-]|]. intros s a c _ [= -> <-]. by rewrite with_catalog_id.
Qed.

Lemma runs_ret {A} (a : A) : runs (mret a) (mret a).
Proof. exact (runs_check (Ok a)). Qed.

Lemma runs_bind {A B} (m : act Connection A) p (f : A → act Connection B) q :
  runs m p → (∀ a, runs (f a) (q a)) → runs (m ≫= f) (p ≫= q).
Proof.
  intros [M1 M2] F. split.
  - intros s b s' (a & s1 & Hm & Hf)%action_bind_inv.
    rewrite (action_bind_ok _ _ _ _ _ (M1 _ _ _ Hm)). by apply (F a).
  - intros s b c Hs (a & c1 & Hp & Hq)%action_bind_inv.
    rewrite (action_bind_ok _ _ _ _ _ (M2 _ _ _ Hs Hp)).
    apply (proj2 (F a) (with_catalog c1 s)) in Hq; [|done]. rewrite Hq. done.
Qed.

(** ** The plan *)

Section plan.
Context (fk_name : jsstr → jsstr).

Definition plan_drop_child_fk (t : RolloverTable) : act Catalog unit :=
  fk ← plan_select (getFkConstraintName t (default_name t));
  match fk with
  | Some name => plan_execute (drop_constraint t (default_name t) name)
  | None => mret tt
  end.

Definition plan_reattach (t : RolloverTable) (suffix : jsstr) (lo hi : Z) : act Catalog unit :=
  plan_execute (rename t (staging_name t) (part_name t suffix)) ;;
  plan_execute (attach fk_name t (part_name t suffix) lo hi).

Definition plan_steps (suffix : jsstr) (lo hi : Z) : act Catalog unit :=
  plan_execute (detach T_transactions (default_name T_transactions)) ;;
  plan_execute (detach T_bridge_observations (default_name T_bridge_observations)) ;;
  plan_drop_child_fk T_transactions ;;
  plan_drop_child_fk T_bridge_observations ;;
  plan_execute (detach T_blocks (default_name T_blocks)) ;;
  plan_execute (rename T_blocks (default_name T_blocks) (staging_name T_blocks)) ;;
  plan_execute (rename T_transactions (default_name T_transactions) (staging_name T_transactions)) ;;
  plan_execute (rename T_bridge_observations (default_name T_bridge_observations)
                  (staging_name T_bridge_observations)) ;;
  plan_reattach T_blocks suffix lo hi ;;
  plan_reattach T_transactions suffix lo hi ;;
  plan_reattach T_bridge_observations suffix lo hi ;;
  plan_execute (create_default fk_name T_blocks (default_name T_blocks)) ;;
  plan_execute (create_default fk_name T_transactions (default_name T_transactions)) ;;
  plan_execute (create_default fk_name T_bridge_observations (default_name T_bridge_observations)).

Lemma runs_drop_child_fk t : runs (drop_child_fk t) (plan_drop_child_fk t).
Proof.
  apply runs_bind; [apply runs_select|]. intros [name|]; [apply runs_execute|apply runs_ret].
Qed.

Lemma runs_reattach t suffix lo hi : runs (reattach fk_name t suffix lo hi) (plan_reattach t suffix lo hi).
Proof. apply runs_bind; [|intros _]; apply runs_execute. Qed.

Lemma runs_steps suffix lo hi : runs (rollover_steps fk_name suffix lo hi) (plan_steps suffix lo hi).
Proof.
  unfold rollover_steps, plan_steps.
  repeat (apply runs_bind; [first [apply runs_execute|apply runs_drop_child_fk|apply runs_reattach]|intros _]).
  apply runs_execute.
Qed.

(** ** Where the rows go *)

(** The relation a rollover attaches, and the one it leaves behind. *)
Definition rolled_partition (t : RolloverTable) (suffix : jsstr) (lo hi : Z) (r : Relation) : Relation :=
  {| rl_rows := rl_rows r; rl_bound := Some (Range lo hi);
     rl_fk := if bool_decide (t = T_blocks) then None else Some (fk_name (part_name t suffix)) |}.

Definition fresh_default (t : RolloverTable) : Relation :=
  {| rl_rows := []; rl_bound := Some Default;
     rl_fk := if bool_decide (t = T_blocks) then None else Some (fk_name (default_name t)) |}.

(** One table, before and after: the default partition became the bucket's partition and a new,
    empty default took its place. *)
Definition rolled_table (t : RolloverTable) (suffix : jsstr) (lo hi : Z) (h h' : Hierarchy) : Prop :=
  ∃ r, h !! default_name t = Some r ∧ attached r = true ∧
    h !! staging_name t = None ∧ h !! part_name t suffix = None ∧
    part_name t suffix ≠ default_name t ∧
    forallb (in_range lo hi) (rl_rows r) = true ∧
    (∀ n r', n ≠ default_name t → h !! n = Some r' → in_the_way lo hi r' = false) ∧
    h' = <[default_name t := fresh_default t]> (<[part_name t suffix := rolled_partition t suffix lo hi r]> h).

Definition rolled (suffix : jsstr) (lo hi : Z) (c c' : Catalog) : Prop :=
  ∀ t, rolled_table t suffix lo hi (hier t c) (hier t c').

(** The seven changes of one hierarchy, composed. *)
Lemma table_effect (h : Hierarchy) d s p r1 r2 new fresh :
  d ≠ s → is_Some (h !! d) →
  (<[d := r2]> (<[d := r1]> h)) !! s = None →
  (<[s := r2]> (delete d (<[d := r2]> (<[d := r1]> h)))) !! p = None →
  (<[p := new]> (<[p := r2]> (delete s (<[s := r2]> (delete d (<[d := r2]> (<[d := r1]> h))))))) !! d = None →
  h !! s = None ∧ h !! p = None ∧ p ≠ d ∧
  <[d := fresh]> (<[p := new]> (<[p := r2]> (delete s (<[s := r2]> (delete d (<[d := r2]> (<[d := r1]> h)))))))
    = <[d := fresh]> (<[p := new]> h).
Proof.
  intros Hds [r Hd] Hs Hp Hd'.
  assert (p ≠ d) as Hpd by (intros ->; simplify_map_eq).
  assert (p ≠ s) as Hps by (intros ->; simplify_map_eq).
  split; [by simplify_map_eq|]. split; [by simplify_map_eq|]. split; [done|].
  apply map_eq. intros n. destruct (decide (n = d)) as [->|]; [by simplify_map_eq|].
  destruct (decide (n = p)) as [->|]; [by simplify_map_eq|].
  destruct (decide (n = s)) as [->|]; simplify_map_eq; done.
Qed.
End plan.

(** ** What the steps did, when they went through *)

Definition detached_relation (r : Relation) : Relation :=
  {| rl_rows := rl_rows r; rl_bound := None; rl_fk := rl_fk r |}.
Definition unlinked_relation (r : Relation) : Relation :=
  {| rl_rows := rl_rows r; rl_bound := None; rl_fk := None |}.

Lemma plan_execute_ok f c u c' : plan_execute f c = (Ok u, c') → f c = Ok c'.
Proof. unfold plan_execute. destruct (f c); [|done]. by intros [= _ ->]. Qed.

Lemma set_hier_same t c : set_hier t (hier t c) c = c.
Proof. by destruct t, c. Qed.

Lemma detach_inv t n c c' : detach t n c = Ok c' → ∃ r, hier t c !! n = Some r ∧ attached r = true ∧
  c' = set_hier t (<[n := detached_relation r]> (hier t c)) c.
Proof.
  unfold detach. destruct (hier t c !! n) as [r|]; [|done]. destruct (attached r) eqn:Ha; [|done]. simpl.
  destruct (_ && _); [done|]. intros [= <-]. by exists r.
Qed.

Lemma rename_inv t n n' c c' : rename t n n' c = Ok c' → ∃ r, hier t c !! n = Some r ∧
  hier t c !! n' = None ∧ c' = set_hier t (<[n' := r]> (delete n (hier t c))) c.
Proof.
  unfold rename. destruct (hier t c !! n) as [r|]; [|done]. destruct (hier t c !! n') eqn:Hn; [done|].
  intros [= <-]. by exists r.
Qed.

Lemma drop_child_fk_inv t c u c' r : plan_drop_child_fk t c = (Ok u, c') →
  hier t c !! default_name t = Some r → attached r = false →
  c' = set_hier t (<[default_name t := unlinked_relation r]> (hier t c)) c.
Proof.
  intros (fk & c1 & Hs & H)%action_bind_inv Hr Ha. injection Hs as <- <-. rewrite Hr in H. simpl in H.
  assert (rl_bound r = None) as Hb by (by unfold attached in Ha; destruct (rl_bound r)).
  destruct (rl_fk r) as [fk|] eqn:Hfk.
  - apply plan_execute_ok in H. unfold drop_constraint in H. rewrite Hr, Ha, Hfk, bool_decide_true in H by done.
    injection H as <-. unfold unlinked_relation. by rewrite Hb.
  - injection H as _ <-. rewrite insert_id, set_hier_same; [done|]. rewrite Hr. f_equal.
    destruct r; simpl in *. unfold unlinked_relation. simpl. by subst.
Qed.

Implicit Types (t : RolloverTable) (suffix n : jsstr) (lo hi : Z) (c : Catalog) (h : Hierarchy) (r : Relation).

Lemma none_in_hierarchy (P : Relation → bool) h :
  existsb (λ nr : jsstr * Relation, P nr.2) (map_to_list h) = false ↔ ∀ n r, h !! n = Some r → P r = false.
Proof.
  split.
  - intros H n r Hr. destruct (P r) eqn:E; [|done]. enough (existsb (λ nr : jsstr * Relation, P nr.2) (map_to_list h) = true)
      by congruence.
    apply existsb_exists. exists (n, r). split; [|done]. by apply list_elem_of_In, elem_of_map_to_list.
  - intros H. apply not_true_iff_false. intros ([n r] & Hr%list_elem_of_In%elem_of_map_to_list & E)%existsb_exists.
    simpl in E. by rewrite (H _ _ Hr) in E.
Qed.

Section effects.
Context (fk_name : jsstr → jsstr).

Lemma attach_inv t n (lo hi : Z) c c' : attach fk_name t n lo hi c = Ok c' → ∃ r, hier t c !! n = Some r ∧
  (∀ n' r', hier t c !! n' = Some r' → in_the_way lo hi r' = false) ∧
  forallb (in_range lo hi) (rl_rows r) = true ∧
  c' = set_hier t (<[n := {| rl_rows := rl_rows r; rl_bound := Some (Range lo hi);
         rl_fk := if bool_decide (t = T_blocks) then None else Some (fk_name n) |}]> (hier t c)) c.
Proof.
  unfold attach. destruct (hier t c !! n) as [r|]; [|done]. destruct (attached r); [done|].
  destruct (existsb _ _) eqn:Hw; [done|]. destruct (forallb _ _) eqn:Hr; [|done]. simpl.
  destruct (_ && _); [done|]. intros [= <-]. exists r. split_and!; [done| |done..].
  by apply (none_in_hierarchy (in_the_way lo hi)).
Qed.

Lemma create_default_inv t c c' : create_default fk_name t (default_name t) c = Ok c' →
  hier t c !! default_name t = None ∧
  c' = set_hier t (<[default_name t := fresh_default fk_name t]> (hier t c)) c.
Proof.
  unfold create_default. destruct (hier t c !! default_name t); [done|].
  destruct (existsb _ _); [done|]. by intros [= <-].
Qed.

Lemma reattach_inv t (suffix : jsstr) (lo hi : Z) c u c' : plan_reattach fk_name t suffix lo hi c = (Ok u, c') → ∃ r,
  hier t c !! staging_name t = Some r ∧ hier t c !! part_name t suffix = None ∧
  (∀ n r', (<[part_name t suffix := r]> (delete (staging_name t) (hier t c))) !! n = Some r' →
    in_the_way lo hi r' = false) ∧
  forallb (in_range lo hi) (rl_rows r) = true ∧
  c' = set_hier t (<[part_name t suffix := rolled_partition fk_name t suffix lo hi r]>
         (<[part_name t suffix := r]> (delete (staging_name t) (hier t c)))) c.
Proof.
  intros ([] & c1 & H1%plan_execute_ok & H2%plan_execute_ok)%action_bind_inv.
  apply rename_inv in H1 as (r & Hs & Hp & ->). apply attach_inv in H2 as (r' & Hr & Hway & Hrows & ->).
  exists r. destruct t; cbn [hier set_hier ct_blocks ct_transactions ct_bridge_observations] in *;
    rewrite lookup_insert_eq in Hr; by injection Hr as <-.
Qed.

(** A table through all its steps: with [r2] for the relation once detached (and unlinked). *)
Lemma table_rolled t (suffix : jsstr) (lo hi : Z) (h : Hierarchy) (r r1 r2 r3 : Relation) :
  h !! default_name t = Some r → attached r = true → rl_rows r2 = rl_rows r →
  (<[default_name t := r2]> (<[default_name t := r1]> h)) !! staging_name t = None →
  (<[staging_name t := r2]> (delete (default_name t) (<[default_name t := r2]> (<[default_name t := r1]> h))))
    !! staging_name t = Some r3 →
  (<[staging_name t := r2]> (delete (default_name t) (<[default_name t := r2]> (<[default_name t := r1]> h))))
    !! part_name t suffix = None →
  (∀ n r', (<[part_name t suffix := r3]> (delete (staging_name t) (<[staging_name t := r2]>
    (delete (default_name t) (<[default_name t := r2]> (<[default_name t := r1]> h)))))) !! n = Some r' →
    in_the_way lo hi r' = false) →
  forallb (in_range lo hi) (rl_rows r3) = true →
  (<[part_name t suffix := rolled_partition fk_name t suffix lo hi r3]> (<[part_name t suffix := r3]>
    (delete (staging_name t) (<[staging_name t := r2]> (delete (default_name t)
      (<[default_name t := r2]> (<[default_name t := r1]> h))))))) !! default_name t = None →
  rolled_table fk_name t suffix lo hi h
    (<[default_name t := fresh_default fk_name t]>
      (<[part_name t suffix := rolled_partition fk_name t suffix lo hi r3]> (<[part_name t suffix := r3]>
        (delete (staging_name t) (<[staging_name t := r2]> (delete (default_name t)
          (<[default_name t := r2]> (<[default_name t := r1]> h)))))))).
Proof.
  intros Hd Ha Hrows Hs Hs3 Hp Hway Hin Hd'. rewrite lookup_insert_eq in Hs3. injection Hs3 as <-.
  destruct (table_effect h (default_name t) (staging_name t) (part_name t suffix) r1 r2
    (rolled_partition fk_name t suffix lo hi r2) (fresh_default fk_name t)) as (Es & Ep & Epd & E);
    [by destruct t|by eexists|done..|].
  exists r. split_and!; [done..|by rewrite <-Hrows| |].
  { intros n r' Hn Hr'. apply (Hway n). rewrite !lookup_insert_ne, !lookup_delete_ne, !lookup_insert_ne, lookup_delete_ne,
      !lookup_insert_ne; congruence. }
  rewrite E. unfold rolled_partition. by rewrite Hrows.
Qed.

Ltac plan_hier := cbn [hier set_hier ct_blocks ct_transactions ct_bridge_observations] in *.

(** The steps went through: every table was rolled. *)
Lemma plan_steps_rolled (suffix : jsstr) (lo hi : Z) c c' :
  plan_steps fk_name suffix lo hi c = (Ok tt, c') → rolled fk_name suffix lo hi c c'.
Proof.
  destruct c as [hb ht ho]. unfold plan_steps.
  intros ([] & c1 & (rt & Ht & At & ->)%plan_execute_ok%detach_inv & H)%action_bind_inv.
  apply action_bind_inv in H as ([] & c2 & (ro & Ho & Ao & ->)%plan_execute_ok%detach_inv & H). plan_hier.
  apply action_bind_inv in H as ([] & c3 & H3 & H).
  apply (drop_child_fk_inv _ _ _ _ (detached_relation rt)) in H3 as ->; plan_hier; [|apply lookup_insert_eq|done].
  apply action_bind_inv in H as ([] & c4 & H4 & H).
  apply (drop_child_fk_inv _ _ _ _ (detached_relation ro)) in H4 as ->; plan_hier; [|apply lookup_insert_eq|done].
  apply action_bind_inv in H as ([] & c5 & (rb & Hb & Ab & ->)%plan_execute_ok%detach_inv & H). plan_hier.
  apply action_bind_inv in H as ([] & c6 & (rb' & Hb' & Sb & ->)%plan_execute_ok%rename_inv & H). plan_hier.
  apply action_bind_inv in H as ([] & c7 & (rt' & Ht' & St & ->)%plan_execute_ok%rename_inv & H). plan_hier.
  apply action_bind_inv in H as ([] & c8 & (ro' & Ho' & So & ->)%plan_execute_ok%rename_inv & H). plan_hier.
  rewrite lookup_insert_eq in Hb', Ht', Ho'. injection Hb' as <-. injection Ht' as <-. injection Ho' as <-.
  apply action_bind_inv in H as ([] & c9 & (sb & Hsb & Pb & Wb & Ib & ->)%reattach_inv & H). plan_hier.
  apply action_bind_inv in H as ([] & c10 & (st & Hst & Pt & Wt & It & ->)%reattach_inv & H). plan_hier.
  apply action_bind_inv in H as ([] & c11 & (so & Hso & Po & Wo & Io & ->)%reattach_inv & H). plan_hier.
  apply action_bind_inv in H as ([] & c12 & (Db & ->)%plan_execute_ok%create_default_inv & H). plan_hier.
  apply action_bind_inv in H as ([] & c13 & (Dt & ->)%plan_execute_ok%create_default_inv & H). plan_hier.
  apply plan_execute_ok, create_default_inv in H as (Do & ->). plan_hier.
  rewrite <-(insert_insert_eq hb (default_name T_blocks) (detached_relation rb) (detached_relation rb)) in *.
  intros []; plan_hier; by eapply table_rolled.
Qed.
End effects.

(** ** All or nothing *)

(** What a statement that only reads leaves: the catalog it found. *)
Definition reads {A} (m : act Connection A) : Prop :=
  ∀ s out s', m s = (out, s') → cn_catalog s' = cn_catalog s.

Lemma send_reads : reads send.
Proof. intros s out s'. unfold send. by destruct (cn_faults s) as [|[e|] fs]; intros [= <- <-]. Qed.

Lemma reads_bind {A B} (m : act Connection A) (f : A → act Connection B) :
  reads m → (∀ a, reads (f a)) → reads (m ≫= f).
Proof.
  intros Hm Hf s out s'. rewrite action_bind_step. destruct (m s) as [[a|e] s1] eqn:E; [|intros [= _ <-]; by eapply Hm].
  intros H. etrans; [by eapply Hf|by eapply Hm].
Qed.

Lemma reads_check {A} (res : result thrown A) : reads (check res).
Proof. intros s out s'. unfold check. by intros [= _ <-]. Qed.

Lemma select_reads {A} (f : Catalog → result thrown A) : reads (select_from f).
Proof.
  apply reads_bind; [apply send_reads|]. intros _ s out s'. unfold statement.
  destruct (f (cn_catalog s)); by intros [= _ <-].
Qed.

#[local] Hint Resolve send_reads reads_bind reads_check @select_reads : core.

Section outcomes.
Context (fk_name : jsstr → jsstr).

Lemma rolloverAlreadyApplied_reads suffix lo hi : reads (rolloverAlreadyApplied suffix lo hi).
Proof. unfold rolloverAlreadyApplied. repeat (apply reads_bind; [apply select_reads|intros ?]). apply reads_check. Qed.

(** The three partitions of the bucket are there. *)
Definition applied suffix lo hi (c : Catalog) : Prop :=
  ∀ t, ∃ r, hier t c !! part_name t suffix = Some r ∧ rl_bound r = Some (Range lo hi).

Lemma already_applied_true lo hi b1 b2 b3 : already_applied lo hi [b1; b2; b3] = Ok true →
  b1 = Some (Range lo hi) ∧ b2 = Some (Range lo hi) ∧ b3 = Some (Range lo hi).
Proof.
  unfold already_applied. destruct b1 as [b1|], b2 as [b2|], b3 as [b3|]; try done. simpl.
  repeat (case_bool_decide; [|done]). by subst.
Qed.

(** The check, on the catalog alone. *)
Definition plan_already_applied suffix lo hi : act Catalog bool :=
  b1 ← plan_select (attachedPartitionBound T_blocks (part_name T_blocks suffix));
  b2 ← plan_select (attachedPartitionBound T_transactions (part_name T_transactions suffix));
  b3 ← plan_select (attachedPartitionBound T_bridge_observations (part_name T_bridge_observations suffix));
  check (already_applied lo hi [b1; b2; b3]).

Lemma runs_already_applied suffix lo hi :
  runs (rolloverAlreadyApplied suffix lo hi) (plan_already_applied suffix lo hi).
Proof. repeat (apply runs_bind; [apply runs_select|intros ?]). apply runs_check. Qed.

Lemma already_applied_all lo hi :
  already_applied lo hi [Some (Range lo hi); Some (Range lo hi); Some (Range lo hi)] = Ok true.
Proof. unfold already_applied. simpl. by rewrite !bool_decide_true. Qed.

(** On the catalog the check finds a bucket exactly when it is there. *)
Lemma plan_already_applied_spec suffix lo hi c :
  plan_already_applied suffix lo hi c = (Ok true, c) ↔ applied suffix lo hi c.
Proof.
  unfold plan_already_applied, plan_select, attachedPartitionBound. rewrite !action_bind_step. unfold check. split.
  - intros [= H]. apply already_applied_true in H as (H1 & H2 & H3).
    intros t. destruct t;
      [apply bind_Some in H1 as (r & ? & ?)|apply bind_Some in H2 as (r & ? & ?)|apply bind_Some in H3 as (r & ? & ?)];
      by exists r.
  - intros H. pose proof (H T_blocks) as (r1 & H1 & E1). pose proof (H T_transactions) as (r2 & H2 & E2).
    pose proof (H T_bridge_observations) as (r3 & H3 & E3). rewrite H1, H2, H3. simpl. rewrite E1, E2, E3.
    by rewrite already_applied_all.
Qed.

Lemma rolloverAlreadyApplied_true suffix lo hi s s' :
  rolloverAlreadyApplied suffix lo hi s = (Ok true, s') → applied suffix lo hi (cn_catalog s).
Proof.
  intros H. pose proof (rolloverAlreadyApplied_reads _ _ _ _ _ _ H) as Hc.
  apply runs_already_applied in H. rewrite Hc in H. by apply plan_already_applied_spec.
Qed.

(** What can become of the catalog. *)
Definition outcome suffix lo hi (c c' : Catalog) (lands : bool) (out : result thrown unit) : Prop :=
  match out with
  | Ok _ => (c' = c ∧ applied suffix lo hi c) ∨ rolled fk_name suffix lo hi c c'
  | Err _ => c' = c ∨ (lands = true ∧ rolled fk_name suffix lo hi c c')
  end.

Lemma in_transaction_outcome suffix lo hi s out s' :
  in_transaction (rollover_steps fk_name suffix lo hi) s = (out, s') →
  outcome suffix lo hi (cn_catalog s) (cn_catalog s') (cn_commit_lands s') out.
Proof.
  unfold in_transaction. destruct (send s) as [[[]|e] s1] eqn:Hs; [|intros [= <- <-]; left; by eapply send_reads].
  apply send_reads in Hs. destruct (rollover_steps _ _ _ _ s1) as [[[]|e] s2] eqn:Hb; [|by intros [= <- <-]; left].
  apply (runs_steps fk_name), plan_steps_rolled in Hb. rewrite Hs in Hb.
  destruct (send s2) as [[[]|e] s3] eqn:Hc; apply send_reads in Hc; rewrite <-Hc in Hb; intros [= <- <-]; [by right|].
  destruct (cn_commit_lands s3) eqn:Hl; [by right|by left].
Qed.

Lemma rollover_reserved_outcome suffix lo hi s out s' :
  rollover_reserved fk_name suffix lo hi s = (out, s') →
  outcome suffix lo hi (cn_catalog s) (cn_catalog s') (cn_commit_lands s') out.
Proof.
  unfold rollover_reserved. rewrite action_bind_step.
  destruct (rolloverAlreadyApplied suffix lo hi s) as [[[]|e] s1] eqn:Ha.
  - intros [= <- <-]. left. split; [by eapply rolloverAlreadyApplied_reads|by eapply rolloverAlreadyApplied_true].
  - apply rolloverAlreadyApplied_reads in Ha as <-. rewrite action_bind_step.
    destruct (select_from _ s1) as [[u|e] s2] eqn:H2; apply select_reads in H2 as <-; [|by intros [= <- <-]; left].
    rewrite action_bind_step. destruct (select_from _ s2) as [[u'|e] s3] eqn:H3; apply select_reads in H3 as <-;
      [|by intros [= <- <-]; left].
    rewrite action_bind_step. destruct (select_from _ s3) as [[u''|e] s4] eqn:H4; apply select_reads in H4 as <-;
      [|by intros [= <- <-]; left].
    apply in_transaction_outcome.
  - apply rolloverAlreadyApplied_reads in Ha as <-. intros [= <- <-]. by left.
Qed.

Lemma rollover_outcome schema bucket reserve_fault s :
  let out := rolloverDefaultPartition fk_name schema bucket reserve_fault s in
  match out.1, assertValidBucketBounds bucket with
  | Ok _, Ok (lo, hi) | Err _, Ok (lo, hi) =>
      outcome (bk_suffix bucket) lo hi (cn_catalog s) (cn_catalog out.2) (cn_commit_lands out.2) out.1
  | Ok _, Err _ => False
  | Err _, Err _ => out.2 = s
  end.
Proof.
  intros out. subst out. destruct (rolloverDefaultPartition fk_name schema bucket reserve_fault s) as [o s'] eqn:E.
  unfold rolloverDefaultPartition in E. cbn [fst snd]. rewrite action_bind_step in E. unfold check at 1 in E.
  destruct (assertValidSchemaName schema) as [[]|e]; cycle 1.
  { injection E as <- <-. by destruct (assertValidBucketBounds bucket) as [[]|]; [left|]. }
  rewrite action_bind_step in E. unfold check at 1 in E.
  destruct (assertValidPartitionSuffix (bk_suffix bucket)) as [[]|e]; cycle 1.
  { injection E as <- <-. by destruct (assertValidBucketBounds bucket) as [[]|]; [left|]. }
  rewrite action_bind_step in E. unfold check at 1 in E.
  destruct (assertValidBucketBounds bucket) as [[lo hi]|e]; [|by injection E as <- <-].
  unfold rethrow in E. destruct reserve_fault as [e|]; [injection E as <- <-; by left|]. cbn [fst snd] in E.
  destruct (rollover_reserved fk_name (bk_suffix bucket) lo hi s) as [[[]|e] s1] eqn:H; injection E as <- <-;
    apply rollover_reserved_outcome in H; exact H.
Qed.
End outcomes.
