(* ===== verification/RolloverTheorems.v ===== *)
(** * The rollover: its theorems

    A rollover is all or nothing, keeps the rows and what makes the three tables partitioned
    consistently, is a no-op when repeated, goes through when its preconditions hold; and the
    partitions the schema starts with route every height. *)

From S2P Require Import Prelude Text Literals Json Errors SyncClients Client Rollover RolloverSpec.

Local Open Scope Z_scope.

Implicit Types (t : RolloverTable) (suffix n : jsstr) (lo hi : Z) (c : Catalog) (h : Hierarchy) (r : Relation).

(** ** A well-partitioned table *)

(** At each height at most one place: the ranges of the partitions attached do not overlap, each
    partition holds rows of its own range, and the default those of none. *)
Record hierarchy_ok t h : Prop := {
  ok_disjoint n1 n2 r1 r2 lo1 hi1 lo2 hi2 :
    h !! n1 = Some r1 → h !! n2 = Some r2 → n1 ≠ n2 →
    rl_bound r1 = Some (Range lo1 hi1) → rl_bound r2 = Some (Range lo2 hi2) →
    overlaps lo1 hi1 (Range lo2 hi2) = false;
  ok_ranges n r lo hi :
    h !! n = Some r → rl_bound r = Some (Range lo hi) → forallb (in_range lo hi) (rl_rows r) = true;
  ok_default_name n r : h !! n = Some r → rl_bound r = Some Default → n = default_name t;
  ok_default_rows n r row n' r' lo hi :
    h !! n = Some r → rl_bound r = Some Default → row ∈ rl_rows r →
    h !! n' = Some r' → rl_bound r' = Some (Range lo hi) → in_range lo hi row = false;
}.

(** And every row of a child refers to a row of [blocks]. *)
Definition catalog_ok (c : Catalog) : Prop :=
  (∀ t, hierarchy_ok t (hier t c)) ∧ (∀ t, attached_rows (hier t c) ⊆ attached_rows (ct_blocks c)).

Lemma overlaps_sym lo hi lo' hi' : overlaps lo hi (Range lo' hi') = overlaps lo' hi' (Range lo hi).
Proof. unfold overlaps. apply andb_comm. Qed.

Lemma in_range_overlaps lo hi lo' hi' row :
  in_range lo hi row = true → in_range lo' hi' row = true → overlaps lo hi (Range lo' hi') = true.
Proof. unfold in_range, overlaps. intros. apply andb_true_intro. split; lia. Qed.

Definition shown (r : Relation) : list Row := if attached r then rl_rows r else [].

Lemma attached_rows_insert n r h :
  h !! n = None → attached_rows (<[n := r]> h) ≡ₚ shown r ++ attached_rows h.
Proof. intros Hn. unfold attached_rows. by rewrite map_to_list_insert by done. Qed.

Lemma elem_of_attached_rows h row :
  row ∈ attached_rows h ↔ ∃ n r, h !! n = Some r ∧ attached r = true ∧ row ∈ rl_rows r.
Proof.
  unfold attached_rows. rewrite list_elem_of_bind. split.
  - intros ([n r] & Hr & Hin%elem_of_map_to_list). simpl in Hr. exists n, r.
    destruct (attached r); [done|by apply not_elem_of_nil in Hr].
  - intros (n & r & Hn & Ha & Hr). exists (n, r). simpl. rewrite Ha. split; [done|by apply elem_of_map_to_list].
Qed.

Section theorems.
Context (fk_name : jsstr → jsstr).

Lemma rolled_rows t suffix lo hi h h' :
  rolled_table fk_name t suffix lo hi h h' → attached_rows h' ≡ₚ attached_rows h.
Proof.
  intros (r & Hd & Ha & _ & Hp & Hpd & _ & _ & ->).
  assert (h = <[default_name t := r]> (delete (default_name t) h)) as Eh by (by rewrite insert_delete_id).
  assert (delete (default_name t) h !! default_name t = None) as Hd0 by apply lookup_delete_eq.
  assert (delete (default_name t) h !! part_name t suffix = None) as Hp0 by (by rewrite lookup_delete_ne).
  revert Eh Hd0 Hp0. generalize (delete (default_name t) h). intros h0 -> Hd0 Hp0.
  rewrite (insert_insert_ne _ (part_name t suffix) (default_name t)), insert_insert_eq by done.
  rewrite (attached_rows_insert (default_name t)) by (by rewrite lookup_insert_ne).
  rewrite !attached_rows_insert by done.
  unfold shown. by rewrite Ha.
Qed.

Lemma rolled_hierarchy_ok t suffix lo hi h h' :
  hierarchy_ok t h → rolled_table fk_name t suffix lo hi h h' → hierarchy_ok t h'.
Proof.
  intros [Hdis Hran Hname Hdef] (r & Hd & Ha & _ & Hp & Hpd & Hin & Hway & ->).
  assert (∀ n r' b, (<[default_name t := fresh_default fk_name t]>
      (<[part_name t suffix := rolled_partition fk_name t suffix lo hi r]> h)) !! n = Some r' → rl_bound r' = Some b →
    (n = default_name t ∧ r' = fresh_default fk_name t ∧ b = Default) ∨
    (n = part_name t suffix ∧ b = Range lo hi ∧ rl_rows r' = rl_rows r) ∨
    (n ≠ default_name t ∧ n ≠ part_name t suffix ∧ h !! n = Some r')) as Hcase.
  { intros n r' b. destruct (decide (n = default_name t)) as [->|];
      [rewrite lookup_insert_eq; intros [= <-] [= <-]; by left|rewrite lookup_insert_ne by done].
    destruct (decide (n = part_name t suffix)) as [->|];
      [rewrite lookup_insert_eq; intros [= <-] [= <-]; right; by left|rewrite lookup_insert_ne by done].
    intros. by right; right. }
  assert (∀ n r' lo' hi', n ≠ default_name t → h !! n = Some r' → rl_bound r' = Some (Range lo' hi') →
    overlaps lo hi (Range lo' hi') = false) as Hfree.
  { intros n r' lo' hi' Hn Hr Hb. specialize (Hway n r' Hn Hr). unfold in_the_way in Hway. by rewrite Hb in Hway. }
  split.
  - intros n1 n2 r1 r2 lo1 hi1 lo2 hi2 H1 H2 Hne B1 B2.
    destruct (Hcase _ _ _ H1 B1) as [(_ & _ & [=])|[(-> & [= -> ->] & _)|(D1 & P1 & L1)]],
      (Hcase _ _ _ H2 B2) as [(_ & _ & [=])|[(-> & [= -> ->] & _)|(D2 & P2 & L2)]]; [done|by eauto| |by eauto].
    rewrite overlaps_sym. by eauto.
  - intros n r' lo' hi' H B. destruct (Hcase _ _ _ H B) as [(_ & _ & [=])|[(-> & [= -> ->] & ->)|(D & P & L)]];
      [done|by eauto].
  - intros n r' H B. destruct (Hcase _ _ _ H B) as [(-> & _)|[(_ & [=] & _)|(D & P & L)]]; [done|by eauto].
  - intros n r' row n' r'' lo' hi' H B Hrow. destruct (Hcase _ _ _ H B) as [(_ & -> & _)|[(_ & [=] & _)|(D & P & L)]].
    + by apply not_elem_of_nil in Hrow.
    + by destruct D; eauto.
Qed.

Lemma rolled_catalog_ok suffix lo hi c c' :
  catalog_ok c → rolled fk_name suffix lo hi c c' → catalog_ok c'.
Proof.
  intros [Hok Hfk] Hr. split; [intros t; by eapply rolled_hierarchy_ok|].
  intros t. rewrite (rolled_rows _ _ _ _ _ _ (Hr t)), (rolled_rows _ _ _ _ _ _ (Hr T_blocks)). apply Hfk.
Qed.

Lemma rolled_applied suffix lo hi c c' : rolled fk_name suffix lo hi c c' → applied suffix lo hi c'.
Proof.
  intros Hr t. destruct (Hr t) as (r & _ & _ & _ & _ & Hpd & _ & _ & ->).
  exists (rolled_partition fk_name t suffix lo hi r). by rewrite lookup_insert_ne, lookup_insert_eq.
Qed.

(** A bucket that is attached holds every row of its heights. *)
Lemma bucket_holds suffix lo hi c t row :
  catalog_ok c → applied suffix lo hi c → row ∈ attached_rows (hier t c) → in_range lo hi row = true →
  ∃ r, hier t c !! part_name t suffix = Some r ∧ row ∈ rl_rows r.
Proof.
  intros [Hok _] Happ (n & r & Hn & Ha & Hrow)%elem_of_attached_rows Hin. destruct (Happ t) as (p & Hp & Hb).
  destruct (Hok t) as [Hdis Hran Hname Hdef]. destruct (rl_bound r) as [[lo' hi'|]|] eqn:Hbr; cycle 1.
  - by rewrite (Hdef _ _ _ _ _ _ _ Hn Hbr Hrow Hp Hb) in Hin.
  - unfold attached in Ha. by rewrite Hbr in Ha.
  - destruct (decide (n = part_name t suffix)) as [->|Hne]; [eauto|].
    specialize (Hran _ _ _ _ Hn Hbr). rewrite forallb_forall in Hran. apply list_elem_of_In, Hran in Hrow.
    pose proof (Hdis _ _ _ _ _ _ _ _ Hn Hp Hne Hbr Hb) as Hov. by rewrite (in_range_overlaps _ _ _ _ row) in Hov.
Qed.

(** C16. A rollover is all or nothing. However it ends - refused, resolved, failed at any statement
    or at its [COMMIT] - the catalog is either exactly what it was or all three tables were
    rolled: the default partition, rows and all, became the bucket's partition and a new, empty
    default took its place. Resolved means rolled, or found already applied with the same bounds;
    failed means unchanged, unless the acknowledgement of a [COMMIT] that took effect was lost. *)
Theorem rollover_atomic schema bucket reserve_fault s :
  let out := rolloverDefaultPartition fk_name schema bucket reserve_fault s in
  match out.1, assertValidBucketBounds bucket with
  | Ok _, Ok (lo, hi) | Err _, Ok (lo, hi) =>
      outcome fk_name (bk_suffix bucket) lo hi (cn_catalog s) (cn_catalog out.2) (cn_commit_lands out.2) out.1
  | Ok _, Err _ => False
  | Err _, Err _ => out.2 = s
  end.
Proof. apply rollover_outcome. Qed.

(** C23. Whatever the outcome, a rollover of a well-partitioned catalog leaves one: the ranges do
    not overlap, every partition holds rows of its own range and the default those of none, every
    child's row refers to a row of [blocks]; and each of the three tables has the rows it had.
    When it resolves, the bucket's partitions are attached and hold every row of its heights. *)
Theorem rollover_keeps_catalog schema bucket reserve_fault s :
  catalog_ok (cn_catalog s) →
  let out := rolloverDefaultPartition fk_name schema bucket reserve_fault s in
  let c' := cn_catalog out.2 in
  catalog_ok c' ∧
  (∀ t, attached_rows (hier t c') ≡ₚ attached_rows (hier t (cn_catalog s))) ∧
  (out.1 = Ok tt → ∃ lo hi, assertValidBucketBounds bucket = Ok (lo, hi) ∧ applied (bk_suffix bucket) lo hi c' ∧
    ∀ t row, row ∈ attached_rows (hier t c') → in_range lo hi row = true →
      ∃ r, hier t c' !! part_name t (bk_suffix bucket) = Some r ∧ row ∈ rl_rows r).
Proof.
  intros Hok out c'. pose proof (rollover_outcome fk_name schema bucket reserve_fault s) as H.
  subst c'. fold out in H. cbn zeta in H. destruct (assertValidBucketBounds bucket) as [[lo hi]|e].
  - assert (cn_catalog out.2 = cn_catalog s ∨ rolled fk_name (bk_suffix bucket) lo hi (cn_catalog s) (cn_catalog out.2))
      as Hc by (destruct out.1; destruct H as [H|H]; naive_solver).
    assert (catalog_ok (cn_catalog out.2)) as Hok'.
    { destruct Hc as [->|Hr]; [done|by eapply rolled_catalog_ok]. }
    split; [done|]. split; [intros t; destruct Hc as [->|Hr]; [done|by eapply rolled_rows]|].
    intros Ho. exists lo, hi. split; [done|]. assert (applied (bk_suffix bucket) lo hi (cn_catalog out.2)) as Happ.
    { rewrite Ho in H. destruct H as [[-> ?]|Hr]; [done|by eapply rolled_applied]. }
    split; [done|]. intros t row. by apply bucket_holds.
  - destruct out.1 eqn:Ho; [done|]. by rewrite H.
Qed.

(** Where the bucket is there, a rollover of it reads and changes nothing. *)
Lemma applied_noop suffix lo hi s :
  applied suffix lo hi (cn_catalog s) →
  cn_catalog (rollover_reserved fk_name suffix lo hi s).2 = cn_catalog s ∧
  (cn_faults s = [] → rollover_reserved fk_name suffix lo hi s = (Ok tt, s)).
Proof.
  intros Happ%plan_already_applied_spec. unfold rollover_reserved. split.
  - rewrite action_bind_step. destruct (rolloverAlreadyApplied suffix lo hi s) as [[[]|e] s1] eqn:H;
      [by eapply rolloverAlreadyApplied_reads| |by eapply rolloverAlreadyApplied_reads].
    apply runs_already_applied in H. by rewrite H in Happ.
  - intros Hf. apply (proj2 (runs_already_applied suffix lo hi)) in Happ; [|done].
    rewrite with_catalog_id in Happ. by rewrite (action_bind_ok _ _ _ _ _ Happ).
Qed.

(** Repeating a rollover that resolved is a no-op: on any connection that finds the catalog it
    left, it changes nothing, whatever fails, and with no failure it resolves. *)
Theorem rollover_idempotent schema bucket reserve_fault s again s2 :
  (rolloverDefaultPartition fk_name schema bucket reserve_fault s).1 = Ok tt →
  cn_catalog s2 = cn_catalog (rolloverDefaultPartition fk_name schema bucket reserve_fault s).2 →
  cn_catalog (rolloverDefaultPartition fk_name schema bucket again s2).2 = cn_catalog s2 ∧
  (again = None → cn_faults s2 = [] → rolloverDefaultPartition fk_name schema bucket again s2 = (Ok tt, s2)).
Proof.
  intros Ho Hc. pose proof (rollover_outcome fk_name schema bucket reserve_fault s) as H. cbn zeta in H.
  rewrite Ho in H. destruct (assertValidBucketBounds bucket) as [[lo hi]|e] eqn:Hb; [|done].
  assert (applied (bk_suffix bucket) lo hi (cn_catalog s2)) as [Hn Hok]%applied_noop.
  { rewrite Hc. destruct H as [[-> ?]|Hr]; [done|by eapply rolled_applied]. }
  clear H Hc. unfold rolloverDefaultPartition, check, mbind, action_bind in *. rewrite Hb in *.
  destruct (assertValidSchemaName schema) as [[]|]; [|done].
  destruct (assertValidPartitionSuffix _) as [[]|]; [|done].
  clear Ho. unfold rethrow. cbn [fst snd]. split.
  - destruct again as [e|]; [done|]. by destruct (rollover_reserved _ _ _ _ s2) as [[[]|e] s'].
  - intros -> Hf. by rewrite (Hok Hf).
Qed.

(** ** When a rollover goes through *)

(** What the rollover needs: an attached default in each table, holding rows of the bucket only; the
    names it gives free; no range of a partition in the bucket's; and foreign keys on attached
    partitions only. *)
Record ready suffix lo hi (c : Catalog) : Prop := {
  ready_ok : catalog_ok c;
  ready_default t : ∃ r, hier t c !! default_name t = Some r ∧ rl_bound r = Some Default ∧
    forallb (in_range lo hi) (rl_rows r) = true;
  ready_staging t : hier t c !! staging_name t = None;
  ready_name t : hier t c !! part_name t suffix = None ∧ part_name t suffix ≠ staging_name t;
  ready_range t n r lo' hi' : hier t c !! n = Some r → rl_bound r = Some (Range lo' hi') →
    overlaps lo hi (Range lo' hi') = false;
  ready_fk t n r : hier t c !! n = Some r → attached r = false → rl_fk r = None;
}.

Lemma hier_set_same t h c : hier t (set_hier t h c) = h.
Proof. by destruct t, c. Qed.

Lemma set_hier_twice t h h' c : set_hier t h (set_hier t h' c) = set_hier t h c.
Proof. by destruct t, c. Qed.

Lemma plan_execute_run f c c' : f c = Ok c' → plan_execute f c = (Ok tt, c').
Proof. unfold plan_execute. by intros ->. Qed.

Lemma run_detach t c r :
  hier t c !! default_name t = Some r → attached r = true →
  (t = T_blocks → existsb (referenced c) (rl_rows r) = false) →
  plan_execute (detach t (default_name t)) c
    = (Ok tt, set_hier t (<[default_name t := detached_relation r]> (hier t c)) c).
Proof.
  intros Hr Ha Href. apply plan_execute_run. unfold detach. rewrite Hr, Ha. simpl. case_bool_decide; simpl;
    [by rewrite Href|done].
Qed.

Lemma run_drop t c h r :
  hier t c = <[default_name t := detached_relation r]> h →
  plan_drop_child_fk t c = (Ok tt, set_hier t (<[default_name t := unlinked_relation r]> h) c).
Proof.
  intros Hc. unfold plan_drop_child_fk.
  assert (hier t c !! default_name t = Some (detached_relation r)) as Hr by (rewrite Hc; apply lookup_insert_eq).
  rewrite action_bind_step. unfold plan_select, getFkConstraintName. rewrite Hr. simpl.
  destruct (rl_fk r) as [fk|] eqn:Hfk.
  - apply plan_execute_run. unfold drop_constraint. rewrite Hr. simpl. rewrite bool_decide_true by done.
    by rewrite Hc, insert_insert_eq.
  - assert (unlinked_relation r = detached_relation r) as -> by (unfold detached_relation; by rewrite Hfk).
    by rewrite <-Hc, set_hier_same.
Qed.

Lemma run_stage t c h r :
  hier t c = <[default_name t := r]> h → h !! staging_name t = None →
  plan_execute (rename t (default_name t) (staging_name t)) c
    = (Ok tt, set_hier t (<[staging_name t := r]> (delete (default_name t) h)) c).
Proof.
  intros Hc Hs. apply plan_execute_run. unfold rename. rewrite Hc, lookup_insert_eq, lookup_insert_ne by (by destruct t).
  by rewrite Hs, delete_insert_eq.
Qed.

(** What [ATTACH] finds no fault with. *)
Lemma run_attach t c h n r lo hi :
  hier t c = <[n := r]> h → rl_bound r = None → forallb (in_range lo hi) (rl_rows r) = true →
  (∀ n' r', h !! n' = Some r' → in_the_way lo hi r' = false) →
  (t ≠ T_blocks → rl_rows r ⊆ attached_rows (ct_blocks c)) →
  plan_execute (attach fk_name t n lo hi) c
    = (Ok tt, set_hier t (<[n := {| rl_rows := rl_rows r; rl_bound := Some (Range lo hi);
        rl_fk := if bool_decide (t = T_blocks) then None else Some (fk_name n) |}]> h) c).
Proof.
  intros Hc Hb Hrows Hway Hfk. apply plan_execute_run. unfold attach. rewrite Hc, lookup_insert_eq.
  unfold attached. rewrite Hb. rewrite (proj2 (none_in_hierarchy (in_the_way lo hi) _)), Hrows; cycle 1.
  { intros n' r' [[<- <-]|[_ ?]]%lookup_insert_Some; [unfold in_the_way; by rewrite Hb|eauto]. }
  rewrite insert_insert_eq. simpl. case_bool_decide; [done|]. simpl.
  rewrite (proj2 (forallb_forall _ _)); [done|]. intros row Hrow%list_elem_of_In. apply bool_decide_eq_true_2. by apply Hfk.
Qed.

Lemma run_reattach t suffix lo hi c h r :
  hier t c = <[staging_name t := r]> (delete (default_name t) h) → h !! staging_name t = None →
  h !! part_name t suffix = None → part_name t suffix ≠ staging_name t → rl_bound r = None →
  forallb (in_range lo hi) (rl_rows r) = true →
  (∀ n' r', delete (default_name t) h !! n' = Some r' → in_the_way lo hi r' = false) →
  (t ≠ T_blocks → rl_rows r ⊆ attached_rows (ct_blocks c)) →
  plan_reattach fk_name t suffix lo hi c
    = (Ok tt, set_hier t (<[part_name t suffix := rolled_partition fk_name t suffix lo hi r]>
                            (delete (default_name t) h)) c).
Proof.
  intros Hc Hs Hp Hne Hb Hrows Hway Hfk. unfold plan_reattach.
  assert (delete (default_name t) h !! part_name t suffix = None) as Hp' by (apply lookup_delete_None; by right).
  assert (delete (default_name t) h !! staging_name t = None) as Hs' by (apply lookup_delete_None; by right).
  rewrite (action_bind_ok _ _ _ tt (set_hier t (<[part_name t suffix := r]> (delete (default_name t) h)) c)); cycle 1.
  { apply plan_execute_run. unfold rename. rewrite Hc, lookup_insert_eq, lookup_insert_ne, Hp' by done.
    by rewrite delete_insert_id. }
  rewrite (run_attach t _ (delete (default_name t) h) _ r); [|by apply hier_set_same|done..|].
  - by rewrite set_hier_twice.
  - intros Ht. by destruct t; [done|apply Hfk..].
Qed.

Lemma run_create t c h :
  hier t c = h → h !! default_name t = None → (∀ n r, h !! n = Some r → is_default r = false) →
  plan_execute (create_default fk_name t (default_name t)) c
    = (Ok tt, set_hier t (<[default_name t := fresh_default fk_name t]> h) c).
Proof.
  intros Hc Hd Hnd. apply plan_execute_run. unfold create_default. rewrite Hc, Hd.
  by rewrite (proj2 (none_in_hierarchy is_default _)).
Qed.

(** Once the defaults of the children are unlinked, nothing refers to a row of the bucket. *)
Lemma bucket_unreferenced t h r row lo hi :
  hierarchy_ok t h → (∀ n r lo' hi', h !! n = Some r → rl_bound r = Some (Range lo' hi') →
    overlaps lo hi (Range lo' hi') = false) →
  (∀ n r, h !! n = Some r → attached r = false → rl_fk r = None) → in_range lo hi row = true →
  references (<[default_name t := unlinked_relation r]> h) row = false.
Proof.
  intros [_ Hran Hname _] Hfree Hfk Hin.
  pose (refers := λ r, (if rl_fk r is Some _ then true else false) && bool_decide (row ∈ rl_rows r)).
  apply (proj2 (none_in_hierarchy refers _)). unfold refers.
  intros n r' [[<- <-]|[Hn Hr]]%lookup_insert_Some; [done|].
  destruct (rl_fk r') as [fk|] eqn:Efk; [|done]. simpl. apply bool_decide_eq_false_2. intros Hrow.
  destruct (rl_bound r') as [[lo' hi'|]|] eqn:Hb.
  - specialize (Hran _ _ _ _ Hr Hb). rewrite forallb_forall in Hran. apply list_elem_of_In, Hran in Hrow.
    pose proof (Hfree _ _ _ _ Hr Hb) as Hov. by rewrite (in_range_overlaps _ _ _ _ row) in Hov.
  - by destruct Hn; symmetry; eapply Hname.
  - rewrite (Hfk _ _ Hr) in Efk; [done|]. unfold attached. by rewrite Hb.
Qed.

Lemma moved_rows h d p r r' :
  h !! d = Some r → attached r = true → h !! p = None → attached r' = true → rl_rows r' = rl_rows r →
  attached_rows (<[p := r']> (delete d h)) ≡ₚ attached_rows h.
Proof.
  intros Hd Ha Hp Ha' Hr'. rewrite <-(insert_delete_id h d r Hd) at 2.
  rewrite !attached_rows_insert; [|apply lookup_delete_eq|apply lookup_delete_None; by right].
  unfold shown. by rewrite Ha, Ha', Hr'.
Qed.

Lemma nothing_in_the_way suffix lo hi c t n r :
  ready suffix lo hi c → delete (default_name t) (hier t c) !! n = Some r → in_the_way lo hi r = false.
Proof.
  intros [[Hok _] _ _ _ Hran _] [Hn Hr]%lookup_delete_Some. unfold in_the_way.
  destruct (rl_bound r) as [[lo' hi'|]|] eqn:Hb; [by eapply Hran| |done].
  destruct Hn. symmetry. by eapply ok_default_name.
Qed.

Lemma one_default suffix lo hi c t n r' x :
  ready suffix lo hi c → is_default x = false →
  <[part_name t suffix := x]> (delete (default_name t) (hier t c)) !! n = Some r' → is_default r' = false.
Proof.
  intros [[Hok _] _ _ _ _ _] Hx [[_ <-]|[_ [Hn Hr]%lookup_delete_Some]]%lookup_insert_Some; [done|].
  apply bool_decide_eq_false_2. intros Hb. destruct Hn. symmetry. by eapply ok_default_name.
Qed.

(** One step of the plan, by the lemma [lem] with what depends on the catalog left to [tac]. *)
Tactic Notation "plan_step" uconstr(lem) "by" tactic3(tac) :=
  erewrite action_bind_ok by (refine lem; first [done|exact eq_refl|tac]);
  cbn [set_hier hier ct_blocks ct_transactions ct_bridge_observations].

Lemma plan_steps_go suffix lo hi c :
  ready suffix lo hi c → ∃ c', plan_steps fk_name suffix lo hi c = (Ok tt, c').
Proof.
  intros Hready. pose proof (nothing_in_the_way suffix lo hi c) as Hway. pose proof (one_default suffix lo hi c) as Hone.
  destruct (ready_default _ _ _ _ Hready T_blocks) as (rb & Lb & Bb & Ib).
  destruct (ready_default _ _ _ _ Hready T_transactions) as (rt & Lt & Bt & It).
  destruct (ready_default _ _ _ _ Hready T_bridge_observations) as (ro & Lo & Bo & Io).
  assert (∀ r, rl_bound r = Some Default → attached r = true) as Hatt by (intros r E; unfold attached; by rewrite E).
  pose proof (ready_staging _ _ _ _ Hready) as Hs. pose proof (ready_name _ _ _ _ Hready) as Hp.
  assert (∀ t, part_name t suffix ≠ default_name t) as Hpd.
  { intros t E. destruct (ready_default _ _ _ _ Hready t) as (r & L & _). destruct (Hp t) as [Hn _]. rewrite E in Hn. congruence. }
  assert (∀ t r row, t ≠ T_blocks → row ∈ rl_rows rb →
    references (<[default_name t := unlinked_relation r]> (hier t c)) row = false) as Href.
  { intros t r row Ht Hrow. destruct (proj1 (ready_ok _ _ _ _ Hready) t) as [] eqn:Hok.
    eapply bucket_unreferenced; [apply (proj1 (ready_ok _ _ _ _ Hready))|apply (ready_range _ _ _ _ Hready)|
      apply (ready_fk _ _ _ _ Hready)|]. rewrite forallb_forall in Ib. by apply Ib, list_elem_of_In. }
  assert (∀ t r, hier t c !! default_name t = Some r → attached r = true → rl_rows r ⊆ attached_rows (ct_blocks c)) as Hfk.
  { intros t r Hr Ha row Hrow. apply (proj2 (ready_ok _ _ _ _ Hready) t), elem_of_attached_rows. eauto. }
  assert (attached_rows (<[part_name T_blocks suffix := rolled_partition fk_name T_blocks suffix lo hi (detached_relation rb)]>
    (delete (default_name T_blocks) (ct_blocks c))) ≡ₚ attached_rows (ct_blocks c)) as Hmoved.
  { eapply moved_rows; [exact Lb|by apply Hatt|by apply Hp|done..]. }
  assert (∀ t x h, <[part_name t suffix := x]> (delete (default_name t) h) !! default_name t = None) as Hgone.
  { intros t x h. rewrite lookup_insert_ne by done. apply lookup_delete_eq. }
  unfold plan_steps. destruct c as [hb ht ho].
  assert (∀ t r, t ≠ T_blocks → hier t {| ct_blocks := hb; ct_transactions := ht; ct_bridge_observations := ho |}
      !! default_name t = Some r → attached r = true →
    rl_rows r ⊆ attached_rows (<[part_name T_blocks suffix := rolled_partition fk_name T_blocks suffix lo hi
      (detached_relation rb)]> (delete (default_name T_blocks) hb))) as Hfk'.
  { intros t r _ Hr Ha. rewrite Hmoved. by eapply Hfk. }
  assert (existsb (referenced {| ct_blocks := hb;
      ct_transactions := <[default_name T_transactions := unlinked_relation rt]> ht;
      ct_bridge_observations := <[default_name T_bridge_observations := unlinked_relation ro]> ho |}) (rl_rows rb) = false)
    as Hunref.
  { apply not_true_iff_false. intros (row & Hrow%list_elem_of_In & E)%existsb_exists. unfold referenced in E.
    simpl in E. by rewrite (Href T_transactions), (Href T_bridge_observations) in E. }
  plan_step (run_detach T_transactions _ rt _ (Hatt _ Bt) _) by exact Lt.
  plan_step (run_detach T_bridge_observations _ ro _ (Hatt _ Bo) _) by exact Lo.
  plan_step (run_drop T_transactions _ ht rt _) by idtac. plan_step (run_drop T_bridge_observations _ ho ro _) by idtac.
  plan_step (run_detach T_blocks _ rb _ (Hatt _ Bb) (λ _, _)) by first [exact Lb|exact Hunref].
  plan_step (run_stage T_blocks _ hb (detached_relation rb) _ (Hs T_blocks)) by idtac.
  plan_step (run_stage T_transactions _ ht (unlinked_relation rt) _ (Hs T_transactions)) by idtac.
  plan_step (run_stage T_bridge_observations _ ho (unlinked_relation ro) _ (Hs T_bridge_observations)) by idtac.
  plan_step (run_reattach T_blocks suffix lo hi _ hb (detached_relation rb) _ (Hs T_blocks)
    (proj1 (Hp T_blocks)) (proj2 (Hp T_blocks)) eq_refl Ib (λ n r, Hway T_blocks n r Hready) _) by idtac.
  plan_step (run_reattach T_transactions suffix lo hi _ ht (unlinked_relation rt) _ (Hs T_transactions)
    (proj1 (Hp T_transactions)) (proj2 (Hp T_transactions)) eq_refl It (λ n r, Hway T_transactions n r Hready)
    (λ E, _)) by exact (Hfk' T_transactions rt E Lt (Hatt _ Bt)).
  plan_step (run_reattach T_bridge_observations suffix lo hi _ ho (unlinked_relation ro) _ (Hs T_bridge_observations)
    (proj1 (Hp T_bridge_observations)) (proj2 (Hp T_bridge_observations)) eq_refl Io
    (λ n r, Hway T_bridge_observations n r Hready) (λ E, _)) by exact (Hfk' T_bridge_observations ro E Lo (Hatt _ Bo)).
  plan_step (run_create T_blocks _ _ eq_refl _ _) by first [by apply Hgone|by intros n r'; apply (Hone T_blocks)].
  plan_step (run_create T_transactions _ _ eq_refl _ _)
    by first [by apply Hgone|by intros n r'; apply (Hone T_transactions)].
  eexists. apply run_create; [done|by apply Hgone|by intros n r'; apply (Hone T_bridge_observations)].
Qed.

(** The pre-flight check, on a default that holds rows of the bucket only. *)
Lemma span_fits t lo hi c r :
  hier t c !! default_name t = Some r → forallb (in_range lo hi) (rl_rows r) = true →
  assertDefaultSpanFitsOneBucket t lo hi c = Ok tt.
Proof.
  intros Hr Hin. unfold assertDefaultSpanFitsOneBucket. rewrite Hr. destruct (rl_rows r) as [|row rows]; [done|].
  simpl in Hin. apply andb_prop in Hin as [Hrow Hrows]. unfold in_range in Hrow.
  assert (lo <= foldr Z.min row.1 rows.*1 ∧ foldr Z.max row.1 rows.*1 < hi) as [Hmin Hmax].
  { induction rows as [|row' rows IH]; [simpl; lia|]. rewrite fmap_cons. cbn [foldr forallb] in *.
    apply andb_prop in Hrows as [H1 H2]. unfold in_range in H1.
    specialize (IH H2). lia. }
  rewrite (proj2 (orb_false_iff _ _)); [done|split; lia].
Qed.

Lemma ready_preflight suffix lo hi s :
  ready suffix lo hi (cn_catalog s) → cn_faults s = [] →
  ∃ s', rollover_reserved fk_name suffix lo hi s = (Ok tt, s') ∧
    rolled fk_name suffix lo hi (cn_catalog s) (cn_catalog s').
Proof.
  intros Hready Hf. destruct (plan_steps_go _ _ _ _ Hready) as [c' Hgo].
  assert (rolloverAlreadyApplied suffix lo hi s = (Ok false, s)) as Hnot.
  { rewrite <-(with_catalog_id s) at 2. apply runs_already_applied; [done|].
    unfold plan_already_applied, plan_select, attachedPartitionBound. rewrite !action_bind_step.
    by rewrite !(proj1 (ready_name _ _ _ _ Hready _)). }
  assert (∀ t, select_from (assertDefaultSpanFitsOneBucket t lo hi) s = (Ok tt, s)) as Hspan.
  { intros t. destruct (ready_default _ _ _ _ Hready t) as (r & Hr & _ & Hin). unfold select_from.
    rewrite (action_bind_ok _ _ _ _ _ (send_free s Hf)). unfold statement. by rewrite (span_fits _ _ _ _ _ Hr Hin). }
  exists (with_catalog c' s). split; [|by apply plan_steps_rolled].
  unfold rollover_reserved. rewrite (action_bind_ok _ _ _ _ _ Hnot), !(action_bind_ok _ _ _ _ _ (Hspan _)).
  unfold in_transaction. rewrite (send_free s Hf), (proj2 (runs_steps fk_name suffix lo hi) s tt c' Hf Hgo).
  by rewrite send_free.
Qed.

(** C24. A rollover goes through: with inputs that pass validation and no failure from outside, when
    each default partition holds rows of the bucket only, the bucket's range is free of other
    partitions and its names are not taken, every [DETACH], [RENAME] and [ATTACH] is accepted in
    the order the code runs them - the children before [blocks], [blocks] before the children - and
    the rollover resolves with all three tables rolled. *)
Theorem rollover_goes_through schema bucket lo hi s :
  assertValidSchemaName schema = Ok tt → assertValidPartitionSuffix (bk_suffix bucket) = Ok tt →
  assertValidBucketBounds bucket = Ok (lo, hi) → ready (bk_suffix bucket) lo hi (cn_catalog s) → cn_faults s = [] →
  ∃ s', rolloverDefaultPartition fk_name schema bucket None s = (Ok tt, s') ∧
    rolled fk_name (bk_suffix bucket) lo hi (cn_catalog s) (cn_catalog s').
Proof.
  intros Hs Hp Hb Hready Hf. destruct (ready_preflight _ _ _ _ Hready Hf) as (s' & Hrun & Hr).
  exists s'. split; [|done]. unfold rolloverDefaultPartition, check, mbind, action_bind, rethrow.
  rewrite Hs, Hp, Hb. cbn [fst snd]. by rewrite Hrun.
Qed.
End theorems.

(** ** The partitions the schema starts with *)

Definition contains (b : Bound) (height : Z) : bool :=
  match b with Range lo hi => (lo <=? height) && (height <? hi) | Default => false end.

Lemma precreated_route t (k : nat) height :
  filter (λ nb, contains nb.2 height = true) (precreated t k) =
  if (0 <=? height) && (height <? Z.of_nat k * CHAIN_ARCHIVE_HEIGHT_PARTITION_SIZE) then
    let i := height / CHAIN_ARCHIVE_HEIGHT_PARTITION_SIZE in
    [(bounded_name t i, Range (i * CHAIN_ARCHIVE_HEIGHT_PARTITION_SIZE) ((i + 1) * CHAIN_ARCHIVE_HEIGHT_PARTITION_SIZE))]
  else [].
Proof.
  assert (0 < CHAIN_ARCHIVE_HEIGHT_PARTITION_SIZE) as Hsize by done.
  induction k as [|k IH]; [simpl; by destruct (_ && _) eqn:E; [lia|]|].
  cbn [precreated]. rewrite filter_app, IH. clear IH. rewrite filter_cons, filter_nil. cbn [snd contains].
  destruct (decide _) as [E|E], ((0 <=? height) && (height <? Z.of_nat k * _)) eqn:E1,
    ((0 <=? height) && (height <? Z.of_nat (S k) * _)) eqn:E2; try lia; [|done..].
  assert (height / CHAIN_ARCHIVE_HEIGHT_PARTITION_SIZE = Z.of_nat k) as Hi.
  { symmetry. apply (Z.div_unique_pos _ _ _ (height - Z.of_nat k * CHAIN_ARCHIVE_HEIGHT_PARTITION_SIZE)); lia. }
  cbv zeta. by rewrite Hi.
Qed.

(** The partitions a schema starts with route every height: below the last precreated bound,
    into the one partition whose number is the height divided by the partition size; beyond it (and
    below zero), into no range, so into the one default partition, which is the last. *)
Theorem createHeightPartitions_route t height :
  filter (λ nb, contains nb.2 height = true) (createHeightPartitions t) =
    (if (0 <=? height) && (height <? CHAIN_ARCHIVE_PRECREATED_PARTITIONS * CHAIN_ARCHIVE_HEIGHT_PARTITION_SIZE) then
      let i := height / CHAIN_ARCHIVE_HEIGHT_PARTITION_SIZE in
      [(bounded_name t i,
        Range (i * CHAIN_ARCHIVE_HEIGHT_PARTITION_SIZE) ((i + 1) * CHAIN_ARCHIVE_HEIGHT_PARTITION_SIZE))]
    else []) ∧
  filter (λ nb, nb.2 = Default) (createHeightPartitions t) = [(default_name t, Default)].
Proof.
  split; [|by destruct t]. unfold createHeightPartitions.
  rewrite filter_app, precreated_route, Z2Nat.id by done. by rewrite app_nil_r.
Qed.

(** ** A catalog, concretely *)

(** What makes a listed hierarchy a good one, entry by entry and pair by pair. *)
Definition entry_ok t (e : jsstr * Relation) : bool :=
  match rl_bound e.2 with
  | Some (Range lo hi) => forallb (in_range lo hi) (rl_rows e.2)
  | Some Default => bool_decide (e.1 = default_name t)
  | None => true
  end.
Definition pair_ok (e1 e2 : jsstr * Relation) : bool :=
  match rl_bound e1.2, rl_bound e2.2 with
  | Some (Range lo1 hi1), Some (Range lo2 hi2) =>
      bool_decide (e1.1 = e2.1) || negb (overlaps lo1 hi1 (Range lo2 hi2))
  | Some Default, Some (Range lo hi) => forallb (λ row, negb (in_range lo hi row)) (rl_rows e1.2)
  | _, _ => true
  end.
Definition entries_ok t (l : list (jsstr * Relation)) : bool :=
  forallb (entry_ok t) l && forallb (λ e1, forallb (pair_ok e1) l) l.

Lemma listed_entry (P : jsstr * Relation → bool) l n r :
  forallb P l = true → (list_to_map l : Hierarchy) !! n = Some r → P (n, r) = true.
Proof. intros HP Hn%elem_of_list_to_map_2. rewrite forallb_forall in HP. by apply HP, list_elem_of_In. Qed.

Lemma entries_ok_hierarchy t l : entries_ok t l = true → hierarchy_ok t (list_to_map l).
Proof.
  intros [He Hp]%andb_prop.
  assert (∀ n1 n2 r1 r2, (list_to_map l : Hierarchy) !! n1 = Some r1 → (list_to_map l : Hierarchy) !! n2 = Some r2 →
    pair_ok (n1, r1) (n2, r2) = true) as Hpair.
  { intros n1 n2 r1 r2 H1 H2. by apply (listed_entry _ _ _ _ (listed_entry _ _ _ _ Hp H1)). }
  split.
  - intros n1 n2 r1 r2 lo1 hi1 lo2 hi2 H1 H2 Hne B1 B2. specialize (Hpair _ _ _ _ H1 H2). unfold pair_ok in Hpair; cbn [fst snd] in Hpair.
    rewrite B1, B2, bool_decide_false in Hpair by done. by apply negb_true_iff.
  - intros n r lo hi Hr B. pose proof (listed_entry _ _ _ _ He Hr) as H. unfold entry_ok in H; cbn [fst snd] in H. by rewrite B in H.
  - intros n r Hr B. pose proof (listed_entry _ _ _ _ He Hr) as H. unfold entry_ok in H; cbn [fst snd] in H. rewrite B in H.
    by apply bool_decide_eq_true in H.
  - intros n r row n' r' lo hi Hr B Hrow Hr' B'. specialize (Hpair _ _ _ _ Hr Hr'). unfold pair_ok in Hpair; cbn [fst snd] in Hpair.
    rewrite B, B', forallb_forall in Hpair. apply list_elem_of_In, Hpair in Hrow. by apply negb_true_iff.
Qed.

(** The tables as the schema starts them, with [rows] in the default partition. *)
Definition started (fk_name : jsstr → jsstr) t (rows : list Row) : list (jsstr * Relation) :=
  (λ nb : jsstr * Bound, (nb.1, {| rl_rows := if bool_decide (nb.2 = Default) then rows else []; rl_bound := Some nb.2;
     rl_fk := if bool_decide (t = T_blocks) then None else Some (fk_name nb.1) |})) <$> createHeightPartitions t.

Definition demo_fk (name : jsstr) : jsstr := name ++ js "_block_fkey".

(** Block [5000001] overflowed into the default, with a transaction. *)
Definition demo_row : Row := (5000001, [Byte.x01]).
Definition demo_catalog : Catalog := {|
  ct_blocks := list_to_map (started demo_fk T_blocks [demo_row; (5000002, [Byte.x02])]);
  ct_transactions := list_to_map (started demo_fk T_transactions [demo_row]);
  ct_bridge_observations := list_to_map (started demo_fk T_bridge_observations []);
|}.
Definition demo_bucket : RolloverBucket :=
  {| bk_lo := JNum (NumInt 5000000); bk_hi := JNum (NumInt 6000000); bk_suffix := js "p5" |}.
Definition demo_connection : Connection :=
  {| cn_catalog := demo_catalog; cn_faults := []; cn_commit_lands := true |}.
Definition demo_schema : jsstr := js "chain_archive".

Definition demo_rows t : list Row :=
  match t with
  | T_blocks => [demo_row; (5000002, [Byte.x02])]
  | T_transactions => [demo_row]
  | T_bridge_observations => []
  end.

Lemma demo_hier t : hier t demo_catalog = list_to_map (started demo_fk t (demo_rows t)).
Proof. by destruct t. Qed.

Lemma demo_ok : catalog_ok demo_catalog.
Proof.
  split; [intros t; rewrite demo_hier; apply entries_ok_hierarchy; destruct t; by vm_compute|].
  intros t row. change (ct_blocks demo_catalog) with (hier T_blocks demo_catalog).
  assert (bool_decide (Forall (λ row, row ∈ attached_rows (hier T_blocks demo_catalog))
    (attached_rows (hier t demo_catalog))) = true) as H by (destruct t; by vm_compute).
  apply bool_decide_eq_true in H. rewrite Forall_forall in H. apply H.
Qed.

Lemma demo_ready : ready (js "p5") 5000000 6000000 demo_catalog.
Proof.
  split; [exact demo_ok|..].
  - intros t. exists {| rl_rows := demo_rows t; rl_bound := Some Default;
      rl_fk := if bool_decide (t = T_blocks) then None else Some (demo_fk (default_name t)) |}.
    split; [|split; [done|]]; destruct t; by vm_compute.
  - intros t. destruct t; by vm_compute.
  - intros t. split; destruct t; by vm_compute.
  - intros t n r lo' hi' Hr B. rewrite demo_hier in Hr.
    pose (free := λ e : jsstr * Relation,
      match rl_bound e.2 with Some (Range lo hi) => negb (overlaps 5000000 6000000 (Range lo hi)) | _ => true end).
    assert (free (n, r) = true) as H by (eapply (listed_entry free); [|exact Hr]; clear Hr; destruct t; by vm_compute).
    unfold free in H; cbn [fst snd] in H. rewrite B in H. by apply negb_true_iff.
  - intros t n r Hr Ha. rewrite demo_hier in Hr.
    assert (attached r = true) as E 
      by (eapply (listed_entry (λ e, attached e.2)); [|exact Hr]; clear Hr; destruct t; by vm_compute).
    by rewrite E in Ha.
Qed.

Definition demo_done : result thrown unit * Connection :=
  rolloverDefaultPartition demo_fk demo_schema demo_bucket None demo_connection.
Lemma demo_resolves : demo_done.1 = Ok tt.
Proof. by vm_compute. Qed.

Lemma rollover_keeps_catalog_witness :
  catalog_ok (cn_catalog demo_done.2) ∧
  ∃ r, hier T_blocks (cn_catalog demo_done.2) !! part_name T_blocks (bk_suffix demo_bucket) = Some r ∧
    demo_row ∈ rl_rows r.
Proof.
  destruct (rollover_keeps_catalog demo_fk demo_schema demo_bucket None demo_connection demo_ok) as (Hok & Hrows & Hin).
  split; [exact Hok|]. destruct (Hin demo_resolves) as (lo & hi & Hb & _ & Hrow).
  assert (lo = 5000000 ∧ hi = 6000000) as [-> ->] by (vm_compute in Hb; by injection Hb as <- <-).
  apply (Hrow T_blocks demo_row); [|exact eq_refl]. rewrite Hrows. apply (bool_decide_eq_true_1 (demo_row ∈ attached_rows (hier T_blocks demo_catalog))). by vm_compute.
Defined.

Lemma rollover_idempotent_witness :
  rolloverDefaultPartition demo_fk demo_schema demo_bucket None
    {| cn_catalog := cn_catalog demo_done.2; cn_faults := []; cn_commit_lands := false |}
  = (Ok tt, {| cn_catalog := cn_catalog demo_done.2; cn_faults := []; cn_commit_lands := false |}).
Proof.
  exact (proj2 (rollover_idempotent demo_fk demo_schema demo_bucket None demo_connection None
    {| cn_catalog := cn_catalog demo_done.2; cn_faults := []; cn_commit_lands := false |} demo_resolves eq_refl)
    eq_refl eq_refl).
Defined.

Lemma rollover_goes_through_witness :
  ∃ s', rolloverDefaultPartition demo_fk demo_schema demo_bucket None demo_connection = (Ok tt, s') ∧
    rolled demo_fk (js "p5") 5000000 6000000 demo_catalog (cn_catalog s').
Proof.
  exact (rollover_goes_through demo_fk demo_schema demo_bucket 5000000 6000000 demo_connection
    eq_refl eq_refl eq_refl demo_ready eq_refl).
Defined.
