(* ===== verification/ReplayDecoder.v ===== *)
(** * The replay decoder

    Models [chain-archive-sync/tx-replay-decoder.ts], which reads zswap, unshielded and dust fields
    back from an archived transaction payload. The deserializers are those of the package
    [@midnight-ntwrk/ledger-v8], which the caller passes in: they are a parameter, and so are the
    leaf values of the objects they return, with what [String], [Number] and [BigInt] make of them.
    The loops over those objects, the numbering and the tag checks are the module's own. *)

From S2P Require Import Prelude Text Json Errors Transaction Checkpoint.
From S2P Require Import Hex SyncService.

Local Open Scope Z_scope.

(** ** The self-tag *)

Definition SYSTEM_TX_TAG_PREFIX : jsstr := js "midnight:system-transaction".
Definition STANDARD_TX_TAG_PREFIX : jsstr := js "midnight:transaction".

(** [Buffer.from(..).toString("latin1")] maps each byte to the code unit of the same value. *)
Definition tagOf (rawBytes : bytes) : jsstr :=
  Byte.to_N <$> take (length STANDARD_TX_TAG_PREFIX + 8) rawBytes.

Definition isSystemTransaction (rawBytes : bytes) : bool :=
  starts_with SYSTEM_TX_TAG_PREFIX (tagOf rawBytes).

Definition isStandardTransaction (rawBytes : bytes) : bool :=
  let tag := tagOf rawBytes in
  starts_with STANDARD_TX_TAG_PREFIX tag && negb (starts_with SYSTEM_TX_TAG_PREFIX tag).

(** ** What the module returns *)

Inductive Section_ := guaranteed | fallible.

Record DecodedZswapOutput := {
  dzo_section : Section_;
  dzo_segmentId : option jsnum;
  dzo_commitment : jsstr;
  dzo_contractAddress : option jsstr;
}.

Record DecodedZswapInput := {
  dzi_section : Section_;
  dzi_segmentId : option jsnum;
  dzi_nullifier : jsstr;
  dzi_contractAddress : option jsstr;
}.

Record DecodedUnshieldedOutput := {
  duo_segmentId : jsnum;
  duo_intentHash : jsstr;
  duo_outputIndex : Z;
  duo_section : Section_;
  duo_owner : jsstr;
  duo_tokenType : jsstr;
  duo_value : Z;
}.

Record DecodedDustSpend := {
  dds_segmentId : jsnum;
  dds_vFee : Z;
  dds_oldNullifier : jsstr;
  dds_newCommitment : jsstr;
}.

Record DecodedDustRegistration := {
  ddr_segmentId : jsnum;
  ddr_nightKey : jsstr;
  ddr_dustAddress : option jsstr;
  ddr_allowFeePayment : Z;
}.

Inductive TxKind := system | standard.

(** The arrays a decode fills. *)
Record Arrays := {
  zswapOutputs : list DecodedZswapOutput;
  zswapInputs : list DecodedZswapInput;
  unshieldedOutputs : list DecodedUnshieldedOutput;
  dustSpends : list DecodedDustSpend;
  dustRegistrations : list DecodedDustRegistration;
}.

Definition no_arrays : Arrays :=
  {| zswapOutputs := []; zswapInputs := []; unshieldedOutputs := []; dustSpends := [];
     dustRegistrations := [] |}.

Record DecodedArchivedTransaction := {
  da_kind : TxKind;
  da_transactionHash : option jsstr;
  da_systemDescription : option jsstr;
  da_arrays : Arrays;
}.

Definition push_output (x : DecodedZswapOutput) (a : Arrays) : Arrays :=
  {| zswapOutputs := zswapOutputs a ++ [x]; zswapInputs := zswapInputs a;
     unshieldedOutputs := unshieldedOutputs a; dustSpends := dustSpends a;
     dustRegistrations := dustRegistrations a |}.
Definition push_input (x : DecodedZswapInput) (a : Arrays) : Arrays :=
  {| zswapOutputs := zswapOutputs a; zswapInputs := zswapInputs a ++ [x];
     unshieldedOutputs := unshieldedOutputs a; dustSpends := dustSpends a;
     dustRegistrations := dustRegistrations a |}.
Definition push_unshielded (x : DecodedUnshieldedOutput) (a : Arrays) : Arrays :=
  {| zswapOutputs := zswapOutputs a; zswapInputs := zswapInputs a;
     unshieldedOutputs := unshieldedOutputs a ++ [x]; dustSpends := dustSpends a;
     dustRegistrations := dustRegistrations a |}.
Definition push_spend (x : DecodedDustSpend) (a : Arrays) : Arrays :=
  {| zswapOutputs := zswapOutputs a; zswapInputs := zswapInputs a;
     unshieldedOutputs := unshieldedOutputs a; dustSpends := dustSpends a ++ [x];
     dustRegistrations := dustRegistrations a |}.
Definition push_registration (x : DecodedDustRegistration) (a : Arrays) : Arrays :=
  {| zswapOutputs := zswapOutputs a; zswapInputs := zswapInputs a;
     unshieldedOutputs := unshieldedOutputs a; dustSpends := dustSpends a;
     dustRegistrations := dustRegistrations a ++ [x] |}.

(** [for (const x of xs) { body }], where the body can throw. *)
Fixpoint for_of {A S} (body : A → S → result thrown S) (xs : list A) (acc : S) : result thrown S :=
  match xs with
  | [] => Ok acc
  | x :: xs' => acc' ← body x acc; for_of body xs' acc'
  end.

(** ** The ledger package *)

(** Leaf values, and the conversions the module applies to them. *)
Class LedgerValues (V : Type) := {
  js_String : V → result thrown jsstr;
  js_Number : V → result thrown jsnum;
  js_BigInt : V → result thrown Z;
  is_undefined : V → bool;
}.

Section ledger.
Context {V : Type}.

Record ZswapOutput := { zo_commitment : V; zo_contractAddress : V }.
Record ZswapInput := { zi_nullifier : V; zi_contractAddress : V }.
Record ZswapOffer := { zf_outputs : list ZswapOutput; zf_inputs : list ZswapInput }.
Record UtxoOutput := { uo_owner : V; uo_type : V; uo_value : V }.
Record DustSpend := { ds_vFee : V; ds_oldNullifier : V; ds_newCommitment : V }.
Record DustRegistration := { dr_nightKey : V; dr_dustAddress : V; dr_allowFeePayment : V }.
Record DustActions := { da_spends : list DustSpend; da_registrations : list DustRegistration }.

(** [None] stands for [undefined] and for [null]: the module treats them alike. *)
Record Intent := {
  intentHash : jsnum → result thrown V;
  guaranteedUnshieldedOffer : option (list UtxoOutput);
  fallibleUnshieldedOffer : option (list UtxoOutput);
  dustActions : option DustActions;
}.

Record LedgerTransaction := {
  guaranteedOffer : option ZswapOffer;
  fallibleOffer : option (list (V * option ZswapOffer));
  intents : option (list (V * Intent));
  transactionHash : result thrown V;
}.
End ledger.

Arguments ZswapOutput : clear implicits.
Arguments ZswapInput : clear implicits.
Arguments ZswapOffer : clear implicits.
Arguments UtxoOutput : clear implicits.
Arguments DustSpend : clear implicits.
Arguments DustRegistration : clear implicits.
Arguments DustActions : clear implicits.
Arguments Intent : clear implicits.
Arguments LedgerTransaction : clear implicits.

(** The loaded module: its two deserializers, the second called with its three marker strings. *)
Class LedgerV8 (V : Type) := {
  SystemTransaction_deserialize : bytes → result thrown V;
  Transaction_deserialize : jsstr → jsstr → jsstr → bytes → result thrown (LedgerTransaction V);
}.

Section decode.
Context {V : Type} `{!LedgerValues V} `{!LedgerV8 V}.

(** [x === undefined ? undefined : String(x)] *)
Definition optional_String (v : V) : result thrown (option jsstr) :=
  if is_undefined v then Ok None else s ← js_String v; Ok (Some s).

Definition decode_output (section : Section_) (segmentId : option jsnum) (out : ZswapOutput V)
    : result thrown DecodedZswapOutput :=
  commitment ← js_String (zo_commitment out);
  contractAddress ← optional_String (zo_contractAddress out);
  Ok {| dzo_section := section; dzo_segmentId := segmentId; dzo_commitment := commitment;
        dzo_contractAddress := contractAddress |}.

Definition decode_input (section : Section_) (segmentId : option jsnum) (inp : ZswapInput V)
    : result thrown DecodedZswapInput :=
  nullifier ← js_String (zi_nullifier inp);
  contractAddress ← optional_String (zi_contractAddress inp);
  Ok {| dzi_section := section; dzi_segmentId := segmentId; dzi_nullifier := nullifier;
        dzi_contractAddress := contractAddress |}.

Definition collectOffer (offer : option (ZswapOffer V)) (section : Section_)
    (segmentId : option jsnum) (a : Arrays) : result thrown Arrays :=
  match offer with
  | None => Ok a
  | Some offer =>
      a1 ← for_of (λ out a, x ← decode_output section segmentId out; Ok (push_output x a))
             (zf_outputs offer) a;
      for_of (λ inp a, x ← decode_input section segmentId inp; Ok (push_input x a))
        (zf_inputs offer) a1
  end.

Definition collect_fallible (tx : LedgerTransaction V) (a : Arrays) : result thrown Arrays :=
  match fallibleOffer tx with
  | None => Ok a
  | Some offers =>
      for_of (λ '(segmentId, offer) a,
        n ← js_Number segmentId; collectOffer offer fallible (Some n) a) offers a
  end.

Definition decode_unshielded (segmentId : jsnum) (hash : jsstr) (outputIndex : Z)
    (section : Section_) (out : UtxoOutput V) : result thrown DecodedUnshieldedOutput :=
  owner ← js_String (uo_owner out);
  tokenType ← js_String (uo_type out);
  value ← js_BigInt (uo_value out);
  Ok {| duo_segmentId := segmentId; duo_intentHash := hash; duo_outputIndex := outputIndex;
        duo_section := section; duo_owner := owner; duo_tokenType := tokenType; duo_value := value |}.

(** The inner loop, with the counter [outputIndex] beside the arrays. *)
Definition collect_unshielded (segmentId : jsnum) (hash : jsstr) (section : Section_)
    (offer : option (list (UtxoOutput V))) (st : Z * Arrays) : result thrown (Z * Arrays) :=
  match offer with
  | None => Ok st
  | Some outputs =>
      for_of (λ out '(outputIndex, a),
        x ← decode_unshielded segmentId hash outputIndex section out;
        Ok (outputIndex + 1, push_unshielded x a)) outputs st
  end.

Definition decode_spend (segmentId : jsnum) (spend : DustSpend V) : result thrown DecodedDustSpend :=
  vFee ← js_BigInt (ds_vFee spend);
  oldNullifier ← js_String (ds_oldNullifier spend);
  newCommitment ← js_String (ds_newCommitment spend);
  Ok {| dds_segmentId := segmentId; dds_vFee := vFee; dds_oldNullifier := oldNullifier;
        dds_newCommitment := newCommitment |}.

Definition decode_registration (segmentId : jsnum) (reg : DustRegistration V)
    : result thrown DecodedDustRegistration :=
  nightKey ← js_String (dr_nightKey reg);
  dustAddress ← optional_String (dr_dustAddress reg);
  allowFeePayment ← js_BigInt (dr_allowFeePayment reg);
  Ok {| ddr_segmentId := segmentId; ddr_nightKey := nightKey; ddr_dustAddress := dustAddress;
        ddr_allowFeePayment := allowFeePayment |}.

Definition collect_dust (segmentId : jsnum) (dust : option (DustActions V)) (a : Arrays)
    : result thrown Arrays :=
  match dust with
  | None => Ok a
  | Some dust =>
      a1 ← for_of (λ spend a, x ← decode_spend segmentId spend; Ok (push_spend x a)) (da_spends dust) a;
      for_of (λ reg a, x ← decode_registration segmentId reg; Ok (push_registration x a))
        (da_registrations dust) a1
  end.

Definition collect_intent (entry : V * Intent V) (a : Arrays) : result thrown Arrays :=
  let '(segmentIdRaw, intent) := entry in
  segmentId ← js_Number segmentIdRaw;
  hashValue ← intentHash intent segmentId;
  hash ← js_String hashValue;
  st1 ← collect_unshielded segmentId hash guaranteed (guaranteedUnshieldedOffer intent) (0, a);
  st2 ← collect_unshielded segmentId hash fallible (fallibleUnshieldedOffer intent) st1;
  collect_dust segmentId (dustActions intent) st2.2.

Definition collect_intents (tx : LedgerTransaction V) (a : Arrays) : result thrown Arrays :=
  match intents tx with
  | None => Ok a
  | Some entries => for_of collect_intent entries a
  end.

Definition unknown_tag : thrown :=
  error "decodeArchivedTransaction: bytes carry neither self-tag".

Definition decode_standard (rawBytes : bytes) : result thrown DecodedArchivedTransaction :=
  tx ← Transaction_deserialize (js "signature") (js "proof") (js "binding") rawBytes;
  a1 ← collectOffer (guaranteedOffer tx) guaranteed None no_arrays;
  a2 ← collect_fallible tx a1;
  a3 ← collect_intents tx a2;
  hashValue ← transactionHash tx;
  hash ← js_String hashValue;
  Ok {| da_kind := standard; da_transactionHash := Some hash; da_systemDescription := None;
        da_arrays := a3 |}.

Definition decodeArchivedTransaction (rawBytes : bytes) : result thrown DecodedArchivedTransaction :=
  if isSystemTransaction rawBytes then
    sysTx ← SystemTransaction_deserialize rawBytes;
    description ← js_String sysTx;
    Ok {| da_kind := system; da_transactionHash := None; da_systemDescription := Some description;
          da_arrays := no_arrays |}
  else if negb (isStandardTransaction rawBytes) then Err unknown_tag
  else decode_standard rawBytes.
End decode.

(** ** Finding the package *)

(** The environment, the file system and [node:path] are parameters. *)
Class Host := {
  env_HOME : option jsstr;
  env_MIDNIGHT_WALLET_REPO : option jsstr;
  homedir : jsstr;
  path_join : list jsstr → jsstr;
  existsSync : jsstr → bool;
}.

Section host.
Context `{!Host}.

Definition midnightWalletRepoCandidates : list jsstr :=
  let home := default homedir env_HOME in
  option_list env_MIDNIGHT_WALLET_REPO ++
  [path_join [home; js "midnight"; js "midnight-wallet"];
   path_join [home; js "repos"; js "midnight-wallet"]].

Definition ledger_entry (root : jsstr) : jsstr :=
  path_join [root; js "node_modules"; js "@midnight-ntwrk"; js "ledger-v8";
             js "midnight_ledger_wasm_fs.js"].

Fixpoint first_entry (roots : list jsstr) : option jsstr :=
  match roots with
  | [] => None
  | root :: roots' =>
      let entry := ledger_entry root in
      if existsSync entry then Some entry else first_entry roots'
  end.

Definition ledgerV8EntryPath : option jsstr := first_entry midnightWalletRepoCandidates.

(** [import(pathToFileURL(entry).href)] is the loader's; the outcome is its entry. *)
Definition loadLedgerV8 {M} (import : jsstr → result thrown M) : result thrown M :=
  match ledgerV8EntryPath with
  | None => Err (error "loadLedgerV8: no built midnight-wallet checkout found")
  | Some entry => import entry
  end.
End host.
