(* ===== verification/ReplayDecoderSpec.v ===== *)
(** * The replay decoder: what a decode returns

    A transaction's objects laid out as one list of items in the order the module visits them; a
    decode is the item-by-item decode of that list, errors included. *)

From S2P Require Import Prelude Text Json Errors Transaction Checkpoint.
From S2P Require Import Hex Utf8 SyncService ReplayDecoder.

Local Open Scope Z_scope.

(** ** Tags *)

Lemma starts_with_take (p s : jsstr) : starts_with p s = bool_decide (take (length p) s = p).
Proof.
  revert s. induction p as [|c p IH]; intros [|d s]; cbn.
  - by rewrite bool_decide_true.
  - by rewrite bool_decide_true.
  - by rewrite bool_decide_false.
  - rewrite IH. destruct (N.eqb_spec c d) as [->|Hne]; cbn.
    + repeat case_bool_decide; congruence.
    + symmetry. apply bool_decide_eq_false. congruence.
Qed.

Lemma tag_prefix p rawBytes :
  (length p ≤ length STANDARD_TX_TAG_PREFIX + 8)%nat →
  starts_with p (tagOf rawBytes) = bool_decide (Byte.to_N <$> take (length p) rawBytes = p).
Proof.
  intros Hlen. rewrite starts_with_take. unfold tagOf.
  by rewrite <-fmap_take, take_take, Nat.min_l by exact Hlen.
Qed.

(** ** Items *)

Section items.
Context {V : Type} `{HV : !LedgerValues V} `{HL : !LedgerV8 V}.
Abbreviation Offer := (ZswapOffer V).

Inductive Item :=
  | IOutput (section : Section_) (segment : option V) (out : ZswapOutput V)
  | IInput (section : Section_) (segment : option V) (inp : ZswapInput V)
  | ISegment (segment : V)
  | IIntent (segment : V) (intent : Intent V)
  | IUnshielded (segment : V) (intent : Intent V) (index : Z) (section : Section_) (out : UtxoOutput V)
  | ISpend (segment : V) (spend : DustSpend V)
  | IRegistration (segment : V) (reg : DustRegistration V).

Inductive DecodedItem :=
  | DOutput (x : DecodedZswapOutput)
  | DInput (x : DecodedZswapInput)
  | DUnshielded (x : DecodedUnshieldedOutput)
  | DSpend (x : DecodedDustSpend)
  | DRegistration (x : DecodedDustRegistration)
  | DHeader.

Definition optional_Number (segment : option V) : result thrown (option jsnum) :=
  match segment with None => Ok None | Some v => n ← js_Number v; Ok (Some n) end.

Definition intent_hash (segment : V) (intent : Intent V) : result thrown (jsnum * jsstr) :=
  n ← js_Number segment; v ← intentHash intent n; h ← js_String v; Ok (n, h).

Definition decode_item (item : Item) : result thrown DecodedItem :=
  match item with
  | IOutput section segment out =>
      n ← optional_Number segment; x ← decode_output section n out; Ok (DOutput x)
  | IInput section segment inp =>
      n ← optional_Number segment; x ← decode_input section n inp; Ok (DInput x)
  | ISegment segment => _ ← js_Number segment; Ok DHeader
  | IIntent segment intent => _ ← intent_hash segment intent; Ok DHeader
  | IUnshielded segment intent index section out =>
      '(n, h) ← intent_hash segment intent;
      x ← decode_unshielded n h index section out; Ok (DUnshielded x)
  | ISpend segment spend => n ← js_Number segment; x ← decode_spend n spend; Ok (DSpend x)
  | IRegistration segment reg =>
      n ← js_Number segment; x ← decode_registration n reg; Ok (DRegistration x)
  end.

(** An offer: its outputs, then its inputs. *)
Definition offer_items (section : Section_) (segment : option V) (offer : option Offer) : list Item :=
  match offer with
  | None => []
  | Some offer => (IOutput section segment <$> zf_outputs offer) ++
                  (IInput section segment <$> zf_inputs offer)
  end.

(** An intent's unshielded outputs, the guaranteed section first. *)
Definition intent_outputs (intent : Intent V) : list (Section_ * UtxoOutput V) :=
  (pair guaranteed <$> default [] (guaranteedUnshieldedOffer intent)) ++
  (pair fallible <$> default [] (fallibleUnshieldedOffer intent)).

Definition intent_items (entry : V * Intent V) : list Item :=
  let '(segment, intent) := entry in
  IIntent segment intent ::
  imap (λ i '(section, out), IUnshielded segment intent (Z.of_nat i) section out) (intent_outputs intent) ++
  match dustActions intent with
  | None => []
  | Some dust => (ISpend segment <$> da_spends dust) ++ (IRegistration segment <$> da_registrations dust)
  end.

(** The whole transaction: the guaranteed offer, the fallible segments, the intents. *)
Definition items (tx : LedgerTransaction V) : list Item :=
  offer_items guaranteed None (guaranteedOffer tx) ++
  (default [] (fallibleOffer tx) ≫= λ '(segment, offer),
     ISegment segment :: offer_items fallible (Some segment) offer) ++
  (default [] (intents tx) ≫= intent_items).

Definition push (a : Arrays) (d : DecodedItem) : Arrays :=
  match d with
  | DOutput x => push_output x a
  | DInput x => push_input x a
  | DUnshielded x => push_unshielded x a
  | DSpend x => push_spend x a
  | DRegistration x => push_registration x a
  | DHeader => a
  end.

(** The arrays of a list of decoded items: each array has its kind's items in order. *)
Definition arrays_of (ds : list DecodedItem) : Arrays :=
  {| zswapOutputs := omap (λ d, if d is DOutput x then Some x else None) ds;
     zswapInputs := omap (λ d, if d is DInput x then Some x else None) ds;
     unshieldedOutputs := omap (λ d, if d is DUnshielded x then Some x else None) ds;
     dustSpends := omap (λ d, if d is DSpend x then Some x else None) ds;
     dustRegistrations := omap (λ d, if d is DRegistration x then Some x else None) ds |}.

Lemma foldl_push ds a :
  foldl push a ds =
    {| zswapOutputs := zswapOutputs a ++ zswapOutputs (arrays_of ds);
       zswapInputs := zswapInputs a ++ zswapInputs (arrays_of ds);
       unshieldedOutputs := unshieldedOutputs a ++ unshieldedOutputs (arrays_of ds);
       dustSpends := dustSpends a ++ dustSpends (arrays_of ds);
       dustRegistrations := dustRegistrations a ++ dustRegistrations (arrays_of ds) |}.
Proof.
  revert a. induction ds as [|d ds IH]; intros a; cbn.
  - rewrite !app_nil_r. by destruct a.
  - rewrite IH. destruct d; cbn; by rewrite <-?(assoc_L (++)).
Qed.

(** ** The loops *)

Lemma map_result_app {E A B} (f : A → result E B) xs ys :
  map_result f (xs ++ ys) = (x ← map_result f xs; y ← map_result f ys; Ok (x ++ y)).
Proof.
  induction xs as [|a xs IH]; unfold_action; [by destruct (map_result f ys)|].
  destruct (f a); [|done]. rewrite IH. unfold_action. destruct (map_result f xs); [|done].
  by destruct (map_result f ys).
Qed.

(** A piece of the code that decodes [its] and pushes the results, or fails as they do. *)
Definition collects (m : Arrays → result thrown Arrays) (its : list Item) : Prop :=
  ∀ a, m a = (ds ← map_result decode_item its; Ok (foldl push a ds)).

Lemma collects_seq m1 m2 i1 i2 :
  collects m1 i1 → collects m2 i2 → collects (λ a, a1 ← m1 a; m2 a1) (i1 ++ i2).
Proof.
  intros H1 H2 a. rewrite H1, map_result_app. unfold_action.
  destruct (map_result decode_item i1) as [ds1|]; [|done]. rewrite H2. unfold_action.
  destruct (map_result decode_item i2) as [ds2|]; [|done]. by rewrite foldl_app.
Qed.

Lemma collects_for_of {A} (body : A → Arrays → result thrown Arrays) (its : A → list Item) xs :
  (∀ x, collects (body x) (its x)) → collects (for_of body xs) (xs ≫= its).
Proof.
  intros Hb. induction xs as [|x xs IH]; [by intros a|]. by apply (collects_seq (body x)).
Qed.

Lemma collects_one {A B} (dec : A → result thrown B) (push1 : B → Arrays → Arrays) (D : B → DecodedItem)
    (it : A → Item) xs :
  (∀ x, decode_item (it x) = (y ← dec x; Ok (D y))) → (∀ y a, push a (D y) = push1 y a) →
  collects (for_of (λ x a, y ← dec x; Ok (push1 y a)) xs) (it <$> xs).
Proof.
  intros Hdec Hpush.
  assert (it <$> xs = xs ≫= (λ x, [it x])) as -> by (induction xs as [|x xs IH]; cbn; by rewrite ?IH).
  apply collects_for_of. intros x a. unfold_action. rewrite Hdec. unfold_action.
  destruct (dec x); [|done]. cbn. by rewrite Hpush.
Qed.

Lemma collects_offer section segment n offer :
  optional_Number segment = Ok n →
  collects (collectOffer offer section n) (offer_items section segment offer).
Proof.
  intros Hn. destruct offer as [offer|]; [|by intros a].
  apply collects_seq.
  - apply (collects_one _ push_output DOutput); [|done]. intros x. cbn. by rewrite Hn.
  - apply (collects_one _ push_input DInput); [|done]. intros x. cbn. by rewrite Hn.
Qed.

(** A leading item that decodes to nothing but may fail. *)
Lemma collects_header {A} (r : result thrown A) (m : A → Arrays → result thrown Arrays) it its :
  decode_item it = (_ ← r; Ok DHeader) → (∀ x, r = Ok x → collects (m x) its) →
  collects (λ a, x ← r; m x a) (it :: its).
Proof.
  intros Hit Hm a. cbn. rewrite Hit. unfold_action. destruct r as [x|e]; [|done].
  rewrite (Hm x eq_refl). unfold_action. by destruct (map_result decode_item its).
Qed.

Lemma collects_fallible tx :
  collects (collect_fallible tx)
    (default [] (fallibleOffer tx) ≫= λ '(segment, offer),
       ISegment segment :: offer_items fallible (Some segment) offer).
Proof.
  unfold collect_fallible. destruct (fallibleOffer tx) as [offers|]; cbn; [|by intros a].
  apply collects_for_of. intros [segment offer].
  apply (collects_header (js_Number segment)); [done|]. intros n Hn.
  apply collects_offer. cbn. by rewrite Hn.
Qed.

(** The counter runs on from one section to the next. *)
Lemma collect_unshielded_items segment intent n h section offer k a :
  intent_hash segment intent = Ok (n, h) →
  collect_unshielded n h section offer (k, a) =
    (ds ← map_result decode_item
            (imap (λ i out, IUnshielded segment intent (k + Z.of_nat i) section out) (default [] offer));
     Ok (k + Z.of_nat (length (default [] offer)), foldl push a ds)).
Proof.
  intros Hh. destruct offer as [outputs|]; unfold_action; [|by rewrite Z.add_0_r].
  revert k a. induction outputs as [|out outputs IH]; intros k a; unfold_action; [by rewrite Z.add_0_r|].
  rewrite Hh, Z.add_0_r. unfold_action.
  destruct (decode_unshielded n h k section out) as [x|]; [|done].
  rewrite IH. unfold_action. unfold compose.
  rewrite (imap_ext (λ i out, IUnshielded segment intent (k + Z.of_nat (S i)) section out)
             (λ i out, IUnshielded segment intent (k + 1 + Z.of_nat i) section out))
    by (intros i y _; cbn; f_equal; lia).
  destruct (map_result _ _) as [ds|]; [|done]. do 2 f_equal. lia.
Qed.

Lemma intent_outputs_items segment intent :
  imap (λ i '(section, out), IUnshielded segment intent (Z.of_nat i) section out) (intent_outputs intent) =
  imap (λ i out, IUnshielded segment intent (0 + Z.of_nat i) guaranteed out)
    (default [] (guaranteedUnshieldedOffer intent)) ++
  imap (λ i out, IUnshielded segment intent
                   (Z.of_nat (length (default [] (guaranteedUnshieldedOffer intent))) + Z.of_nat i)
                   fallible out)
    (default [] (fallibleUnshieldedOffer intent)).
Proof.
  unfold intent_outputs. rewrite imap_app, !imap_fmap. f_equal.
  apply imap_ext. intros i out _. unfold compose. f_equal. rewrite length_fmap. lia.
Qed.

Lemma collects_dust segment n dust :
  js_Number segment = Ok n →
  collects (collect_dust n dust)
    (match dust with
     | None => []
     | Some dust => (ISpend segment <$> da_spends dust) ++ (IRegistration segment <$> da_registrations dust)
     end).
Proof.
  intros Hn. destruct dust as [dust|]; [|by intros a]. apply collects_seq.
  - apply (collects_one _ push_spend DSpend); [|done]. intros x. cbn. by rewrite Hn.
  - apply (collects_one _ push_registration DRegistration); [|done]. intros x. cbn. by rewrite Hn.
Qed.

Lemma collects_intent entry : collects (collect_intent entry) (intent_items entry).
Proof.
  destruct entry as [segment intent]. cbn [intent_items].
  assert (∀ n h, intent_hash segment intent = Ok (n, h) → js_Number segment = Ok n) as Hnum.
  { intros n h. unfold intent_hash. unfold_action. destruct (js_Number segment) as [n'|]; [|done].
    destruct (intentHash intent n'); [|done]. destruct (js_String _); [|done]. by intros [= <- _]. }
  set (body := λ (x : jsnum * jsstr) (a : Arrays),
    st1 ← collect_unshielded x.1 x.2 guaranteed (guaranteedUnshieldedOffer intent) (0, a);
    st2 ← collect_unshielded x.1 x.2 fallible (fallibleUnshieldedOffer intent) st1;
    collect_dust x.1 (dustActions intent) st2.2).
  assert (∀ a, collect_intent (segment, intent) a = (x ← intent_hash segment intent; body x a)) as Heq.
  { intros a. unfold collect_intent, intent_hash. unfold_action. destruct (js_Number segment); [|done].
    destruct (intentHash intent _); [|done]. by destruct (js_String _). }
  match goal with |- collects _ ?its => enough (collects (λ a, x ← intent_hash segment intent; body x a) its)
    as Hc by (intros a; rewrite Heq; apply Hc) end.
  apply (collects_header (intent_hash segment intent) body); [done|]. unfold body.
  intros [n h] Hh a. cbn [fst snd]. rewrite intent_outputs_items, <-(assoc_L (++)), !map_result_app.
  rewrite (collect_unshielded_items segment intent) by done. unfold_action.
  destruct (map_result decode_item (imap _ (default [] (guaranteedUnshieldedOffer intent)))) as [ds1|];
    [|done].
  rewrite (collect_unshielded_items segment intent) by done. unfold_action. rewrite Z.add_0_l.
  destruct (map_result decode_item (imap _ (default [] (fallibleUnshieldedOffer intent)))) as [ds2|];
    [|done].
  cbn [snd]. rewrite (collects_dust segment n) by eauto. unfold_action.
  destruct (map_result decode_item _) as [ds3|]; [|done]. by rewrite !foldl_app.
Qed.

Lemma collects_intents tx : collects (collect_intents tx) (default [] (intents tx) ≫= intent_items).
Proof.
  unfold collect_intents. destruct (intents tx) as [entries|]; cbn; [|by intros a].
  apply collects_for_of, collects_intent.
Qed.

(** ** Claims *)

(** The archive and the decoder agree on what a payload is, and the two tags never overlap. The
    decoder classifies by the payload's leading bytes alone: a payload is a system transaction
    exactly when it starts with the system tag, which is also what the sync service decides when it
    stores it, and a standard one exactly when it starts with the other; the twenty-eight bytes it
    looks at are enough for both. A payload with neither tag is refused before the ledger package
    sees it, and a payload with one of them is given to that tag's deserializer and no other. *)
Theorem payload_classification rawBytes :
  (isSystemTransaction rawBytes = true ↔
     Byte.to_N <$> take (length SYSTEM_TX_TAG_PREFIX) rawBytes = SYSTEM_TX_TAG_PREFIX) ∧
  (isStandardTransaction rawBytes = true ↔
     Byte.to_N <$> take (length STANDARD_TX_TAG_PREFIX) rawBytes = STANDARD_TX_TAG_PREFIX) ∧
  isSystemTransaction rawBytes = is_system_transaction rawBytes ∧
  isSystemTransaction rawBytes && isStandardTransaction rawBytes = false ∧
  decodeArchivedTransaction rawBytes =
    if isSystemTransaction rawBytes then
      sysTx ← SystemTransaction_deserialize rawBytes;
      description ← js_String sysTx;
      Ok {| da_kind := system; da_transactionHash := None; da_systemDescription := Some description;
            da_arrays := no_arrays |}
    else if isStandardTransaction rawBytes then decode_standard rawBytes
    else Err unknown_tag.
Proof.
  assert (isSystemTransaction rawBytes = is_system_transaction rawBytes) as Hsys
    by (apply tag_prefix; vm_compute; lia).
  assert (starts_with STANDARD_TX_TAG_PREFIX (tagOf rawBytes) =
    bool_decide (Byte.to_N <$> take (length STANDARD_TX_TAG_PREFIX) rawBytes = STANDARD_TX_TAG_PREFIX))
    as Hstd by (apply tag_prefix; vm_compute; lia).
  assert (starts_with STANDARD_TX_TAG_PREFIX (tagOf rawBytes) = true →
          starts_with SYSTEM_TX_TAG_PREFIX (tagOf rawBytes) = false) as Hex.
  { generalize (tagOf rawBytes). intros t H.
    rewrite !starts_with_take in *. apply bool_decide_eq_true in H. apply bool_decide_eq_false.
    intros H'. assert (take 10 t = take 10 STANDARD_TX_TAG_PREFIX) as H1
      by (rewrite <-H, take_take; f_equal; vm_compute; done).
    assert (take 10 t = take 10 SYSTEM_TX_TAG_PREFIX) as H2
      by (rewrite <-H', take_take; f_equal; vm_compute; done).
    rewrite H1 in H2. vm_compute in H2. discriminate. }
  split_and!.
  - rewrite Hsys. unfold is_system_transaction. by rewrite bool_decide_eq_true.
  - unfold isStandardTransaction. split.
    + intros [H _]%andb_true_iff. rewrite Hstd in H. by apply bool_decide_eq_true in H.
    + intros H. assert (starts_with STANDARD_TX_TAG_PREFIX (tagOf rawBytes) = true) as Ht
        by (rewrite Hstd; by apply bool_decide_eq_true).
      by rewrite Ht, (Hex Ht).
  - done.
  - unfold isStandardTransaction, isSystemTransaction.
    destruct (starts_with SYSTEM_TX_TAG_PREFIX _); [by rewrite andb_false_r|done].
  - unfold decodeArchivedTransaction. destruct (isSystemTransaction rawBytes); [done|].
    by destruct (isStandardTransaction rawBytes).
Qed.

(** C27. A decode loses nothing, invents nothing and reorders nothing. Decoding a standard transaction
    is decoding, one by one, the items of the deserialized transaction in their order (the guaranteed
    offer, the fallible segments, the intents; outputs before inputs, unshielded outputs before dust
    actions), failing with the first item's error if one fails; each array of the result holds the
    decoded items of its kind, all of them, in that order. An intent's unshielded outputs are
    numbered 0, 1, 2, ... across its guaranteed and then its fallible section. *)
Theorem decode_standard_exact rawBytes :
  decode_standard rawBytes =
    (tx ← Transaction_deserialize (js "signature") (js "proof") (js "binding") rawBytes;
     ds ← map_result decode_item (items tx);
     hashValue ← transactionHash tx;
     hash ← js_String hashValue;
     Ok {| da_kind := standard; da_transactionHash := Some hash; da_systemDescription := None;
           da_arrays := arrays_of ds |}).
Proof.
  unfold decode_standard. unfold mbind at 1 4, result_bind at 1 4.
  destruct (Transaction_deserialize _ _ _ rawBytes) as [tx|e]; [|done].
  assert (collects (λ a, a1 ← collectOffer (guaranteedOffer tx) guaranteed None a;
    a2 ← collect_fallible tx a1; collect_intents tx a2) (items tx)) as Hall.
  { apply (collects_seq (collectOffer (guaranteedOffer tx) guaranteed None)); [by apply collects_offer|].
    apply collects_seq; [apply collects_fallible|apply collects_intents]. }
  specialize (Hall no_arrays). cbn beta in Hall. revert Hall. unfold_action.
  destruct (collectOffer (guaranteedOffer tx) guaranteed None no_arrays) as [a1|].
  - destruct (collect_fallible tx a1) as [a2|].
    + destruct (collect_intents tx a2) as [a3|], (map_result decode_item (items tx)) as [ds|];
        intros [= ->]; [|done]. by rewrite foldl_push.
    + destruct (map_result decode_item (items tx)); by intros [= ->].
  - destruct (map_result decode_item (items tx)); by intros [= ->].
Qed.
End items.

(** ** The package is found where it is *)

Section host.
Context `{HH : !Host}.

Lemma first_entry_spec roots :
  match first_entry roots with
  | Some entry => ∃ k, ledger_entry <$> roots !! k = Some entry ∧ existsSync entry = true ∧
                       ∀ j root, (j < k)%nat → roots !! j = Some root → existsSync (ledger_entry root) = false
  | None => ∀ root, root ∈ roots → existsSync (ledger_entry root) = false
  end.
Proof.
  induction roots as [|root roots IH]; cbn; [by intros root ?%not_elem_of_nil|].
  destruct (existsSync (ledger_entry root)) eqn:He.
  - exists 0%nat. split_and!; [done|done|lia].
  - destruct (first_entry roots) as [entry|].
    + destruct IH as (k & Hk & Hx & Hb). exists (S k). split_and!; [done|done|].
      intros [|j] root' Hj Hr; cbn in Hr; [by simplify_eq|]. eapply Hb; [|done]. lia.
    + intros root' [->|Hr]%elem_of_cons; [done|]. by apply IH.
Qed.
End host.

(** ** A concrete decode *)

Module ReplayDemo.
(** Leaf values as the text or the integer they convert to. *)
Inductive leaf := Text (s : jsstr) | Int (z : Z) | Undefined.

#[export] Instance leaf_values : LedgerValues leaf := {
  js_String v := match v with Text s => Ok s | Int z => Ok [Z.to_N z] | Undefined => Ok (js "undefined") end;
  js_Number v := match v with Int z => Ok (NumInt z) | _ => Err unknown_tag end;
  js_BigInt v := match v with Int z => Ok z | _ => Err unknown_tag end;
  is_undefined v := match v with Undefined => true | _ => false end;
}.

Definition utxo (owner : string) (value : Z) : UtxoOutput leaf :=
  {| uo_owner := Text (js owner); uo_type := Text (js "00"); uo_value := Int value |}.

Definition transaction : LedgerTransaction leaf :=
  {| guaranteedOffer := None; fallibleOffer := Some [(Int 2, None)];
     intents := Some [(Int 1, {| intentHash := λ _, Ok (Text (js "abc"));
                                 guaranteedUnshieldedOffer := Some [utxo "a" 5];
                                 fallibleUnshieldedOffer := Some [utxo "b" 6; utxo "c" 7];
                                 dustActions := None |})];
     transactionHash := Ok (Text (js "ff")) |}.

#[export] Instance ledger : LedgerV8 leaf := {
  SystemTransaction_deserialize _ := Err unknown_tag;
  Transaction_deserialize _ _ _ _ := Ok transaction;
}.

Definition payload : bytes :=
  TextEncoder_encode (js "midnight:transaction[v9](signature[v1],proof,pedersen-schnorr)").

Example decoded_indices :
  match decodeArchivedTransaction payload with
  | Ok d => (λ o, (duo_section o, duo_outputIndex o, duo_value o)) <$> unshieldedOutputs (da_arrays d)
  | Err _ => []
  end = [(guaranteed, 0, 5); (fallible, 1, 6); (fallible, 2, 7)].
Proof. vm_compute. reflexivity. Qed.
End ReplayDemo.
