(* ===== verification/DurabilityProbe.v ===== *)
(** * The durability probe

    Models [src/postgres/durability-probe.ts]: the classification of the server's settings, the
    detection of a transaction pooler, and the probe that reads and judges them on one reserved
    connection. What the server answers is a parameter of the run. *)

From S2P Require Import Prelude Text Literals Json Errors Driver.

Local Open Scope Z_scope.

(** ** The classifiers *)

(** [kind] is ["lost-tail"] for every warning. *)
Record DurabilityWarning := { wn_setting : string; wn_value : string; wn_message : string }.
Record DurabilityViolation := { vi_setting : string; vi_value : string; vi_message : string }.

Definition classifyFsync (value : string) : option DurabilityViolation :=
  if String.eqb value "off"
  then Some {| vi_setting := "fsync"; vi_value := value;
    vi_message := "fsync=off lets PostgreSQL skip flushing WAL and data to disk, so an OS crash or power loss "
      +:+ "can leave the database arbitrarily corrupted — not merely missing a recent tail. UmbraDB "
      +:+ "refuses to run migrations against it. Set fsync=on." |}
  else None.

Definition classifyFullPageWrites (value : string) (allowOff : bool) : option DurabilityViolation :=
  if String.eqb value "off" && negb allowOff
  then Some {| vi_setting := "full_page_writes"; vi_value := value;
    vi_message := "full_page_writes=off risks torn pages on crash recovery — a page half-written across an OS "
      +:+ "crash cannot be reconstructed from the WAL — which can corrupt committed data. UmbraDB "
      +:+ "refuses by default. Set full_page_writes=on, or pass durability.allowFullPageWritesOff only "
      +:+ "if the storage layer guarantees atomic 8 kB page writes." |}
  else None.

Definition classifySynchronousCommit (value : string) : option DurabilityWarning :=
  if String.eqb value "off"
  then Some {| wn_setting := "synchronous_commit"; wn_value := value;
    wn_message := "synchronous_commit=off acknowledges a commit before its WAL is flushed, so an OS crash or "
      +:+ "power loss can silently lose a bounded tail of already-acknowledged transactions (it does "
      +:+ "not corrupt the database). This is a recoverable trade an operator may accept deliberately, "
      +:+ "so UmbraDB warns rather than refuses. Use local/remote_write/remote_apply/on to guarantee no "
      +:+ "acknowledged commit is lost on a primary." |}
  else None.

(** The class keeps, of each violation, the setting and its value: the message is made of them. *)
Definition DurabilityContractError (violations : list DurabilityViolation) : thrown :=
  TStorage (CDurabilityContract ((λ v, (vi_setting v, vi_value v)) <$> violations)) None.
Definition TransactionPoolerDetectedError : thrown := TStorage CTransactionPoolerDetected None.

Definition assertNoTransactionPooler (acquired : bool) (visibleCount : Z) : result thrown unit :=
  if negb acquired then Ok tt
  else if visibleCount <? 1 then Err TransactionPoolerDetectedError else Ok tt.

(** ** The probe *)

(** What the server answers. A failed [pg_try_advisory_lock] takes no lock. *)
Record ProbeServer := {
  pv_reserve : option thrown;                    (** how [sql.reserve()] fails *)
  pv_setting : string → result thrown string;    (** [current_setting(name)] *)
  pv_pid : result thrown Z;
  pv_acquired : result thrown bool;
  pv_visible : result thrown Z;
  pv_unlocks : bool;                             (** the final unlock gets through *)
}.

(** The reserved connection: the sentinel locks it holds, and whether it is checked out. *)
Record ProbeSession := { pb_sentinels : nat; pb_reserved : bool }.

Definition pooler_probe_locks (n : nat) (s : ProbeSession) : ProbeSession :=
  {| pb_sentinels := n; pb_reserved := pb_reserved s |}.

Section probe.
Context (server : ProbeServer).

(** The unlock of the [finally]: its failure is swallowed. *)
Definition probe_unlock (s : ProbeSession) : ProbeSession :=
  if pv_unlocks server then pooler_probe_locks (pred (pb_sentinels s)) s else s.

Definition probeAdvisoryLockVisibility : act ProbeSession (bool * Z) :=
  _ ← check (pv_pid server);
  acquired ← (λ s, (pv_acquired server,
                    if pv_acquired server is Ok true then pooler_probe_locks (S (pb_sentinels s)) s else s));
  if negb acquired then mret (false, 0)
  else λ s, match pv_visible server with
            | Ok visible => (Ok (true, visible), probe_unlock s)
            | Err e => (Err e, probe_unlock s)
            end.

Definition probe_violations (fsync fullPageWrites : string) (allowOff : bool) : list DurabilityViolation :=
  option_list (classifyFsync fsync) ++ option_list (classifyFullPageWrites fullPageWrites allowOff).

(** On the reserved connection. *)
Definition probe_reserved (allowFullPageWritesOff : option bool) : act ProbeSession (list DurabilityWarning) :=
  fsync ← check (pv_setting server "fsync");
  synchronousCommit ← check (pv_setting server "synchronous_commit");
  fullPageWrites ← check (pv_setting server "full_page_writes");
  let violations := probe_violations fsync fullPageWrites (default false allowFullPageWritesOff) in
  let warnings := option_list (classifySynchronousCommit synchronousCommit) in
  (if bool_decide (violations = []) then mret tt else throw (DurabilityContractError violations)) ;;
  visibility ← probeAdvisoryLockVisibility;
  check (assertNoTransactionPooler visibility.1 visibility.2) ;;
  mret warnings.

Definition probeDurability (allowFullPageWritesOff : option bool) : act ProbeSession (list DurabilityWarning) := λ s,
  match pv_reserve server with
  | Some e => (Err e, s)
  | None =>
      let (out, s') := probe_reserved allowFullPageWritesOff {| pb_sentinels := pb_sentinels s; pb_reserved := true |} in
      (out, {| pb_sentinels := pb_sentinels s'; pb_reserved := false |})
  end.
End probe.

(** ** What it decides *)

Lemma option_list_nil {A} (o : option A) : option_list o = [] ↔ o = None.
Proof. by destruct o. Qed.

Lemma probe_violations_none fsync fpw allowOff :
  probe_violations fsync fpw allowOff = [] ↔ fsync ≠ "off" ∧ (fpw ≠ "off" ∨ allowOff = true).
Proof.
  unfold probe_violations. rewrite app_nil, !option_list_nil. unfold classifyFsync, classifyFullPageWrites.
  destruct (String.eqb_spec fsync "off"), (String.eqb_spec fpw "off"), allowOff; naive_solver.
Qed.
