(* ===== verification/Migrations.v ===== *)
(** * The migrations of the wallet schema

    Models [src/postgres/migrations/000_schema.ts] to [006_ckpt_chunks_size_bytes.ts]: what each
    [up] does to the objects of one schema, and the lineage they form. A statement meets
    PostgreSQL's refusals - a name taken, a table missing, an operator class the search path does
    not show. What the tables, constraints and triggers then do is modelled with the components that
    use them. *)

From S2P Require Import Prelude Text Literals Json Errors.

Local Open Scope Z_scope.

(** ** The objects of a schema *)

(** Tables, partitions and indexes share one name space. A partition has its bounds, or is the
    default one. *)
Inductive Relation_ :=
  | Table (columns : list (string * string)) (constraints : list string) (fillfactor : option Z)
  | Partition (parent : string) (bounds : option (Z * Z))
  | Index (on_table definition : string).

(** A schema on a search path, or one that is not. *)
Inductive SearchEntry := OwnSchema | Public | Elsewhere.
#[export] Instance SearchEntry_eq_dec : EqDecision SearchEntry.
Proof. solve_decision. Defined.

(** One schema of one database. [db_migrations]: the names in [_migrations], oldest first, once
    that table exists. [db_triggers]: by table and name, the function each runs. [db_btree_gist]:
    the schema the extension is installed in. *)
Record Database := {
  db_schema : bool;
  db_migrations : option (list string);
  db_relations : gmap string Relation_;
  db_functions : gset string;
  db_triggers : gmap (string * string) string;
  db_btree_gist : option SearchEntry;
}.

Definition with_migrations (names : option (list string)) (d : Database) : Database :=
  {| db_schema := db_schema d; db_migrations := names; db_relations := db_relations d;
     db_functions := db_functions d; db_triggers := db_triggers d; db_btree_gist := db_btree_gist d |}.
Definition with_relations (relations : gmap string Relation_) (d : Database) : Database :=
  {| db_schema := db_schema d; db_migrations := db_migrations d; db_relations := relations;
     db_functions := db_functions d; db_triggers := db_triggers d; db_btree_gist := db_btree_gist d |}.

(** ** Statements *)

(** A statement, under the search path of the session. *)
Abbreviation ddl := (list SearchEntry → Database → result thrown Database).

Definition no_such_schema : thrown := pg_error "3F000" "schema does not exist" None.
Definition no_such_table : thrown := pg_error "42P01" "relation does not exist" None.
Definition object_exists : thrown := pg_error "42P07" "relation already exists" None.
Definition no_operator_class : thrown :=
  pg_error "42704" "data type text has no default operator class for access method gist" None.

(** A statement that leaves the schema alone. *)
Definition no_effect : ddl := λ _ d, Ok d.

Definition create_schema_if_not_exists : ddl := λ _ d,
  Ok {| db_schema := true; db_migrations := db_migrations d; db_relations := db_relations d;
        db_functions := db_functions d; db_triggers := db_triggers d; db_btree_gist := db_btree_gist d |}.

Definition create_migrations_table : ddl := λ _ d,
  if negb (db_schema d) then Err no_such_schema
  else if db_migrations d is Some _ then Err object_exists
  else Ok (with_migrations (Some []) d).

(** [CREATE EXTENSION IF NOT EXISTS btree_gist]: into the first schema of the search path. *)
Definition create_btree_gist : ddl := λ path d,
  match db_btree_gist d, path with
  | Some _, _ => Ok d
  | None, [] => Err no_such_schema
  | None, e :: _ =>
      Ok {| db_schema := db_schema d; db_migrations := db_migrations d; db_relations := db_relations d;
            db_functions := db_functions d; db_triggers := db_triggers d; db_btree_gist := Some e |}
  end.

Definition is_table (d : Database) (name : string) : bool :=
  if db_relations d !! name is Some (Table _ _ _) then true else false.

Definition create (name : string) (relation : Relation_) (d : Database) : result thrown Database :=
  if negb (db_schema d) then Err no_such_schema
  else if db_relations d !! name is Some _ then Err object_exists
  else Ok (with_relations (<[name := relation]> (db_relations d)) d).

(** [references]: the tables its foreign keys name. *)
Definition create_table (name : string) (columns : list (string * string)) (constraints references : list string)
    (fillfactor : option Z) : ddl := λ _ d,
  if forallb (is_table d) references then create name (Table columns constraints fillfactor) d
  else Err no_such_table.

(** A table whose exclusion constraint compares text with [gist]. *)
Definition create_gist_table (name : string) (columns : list (string * string)) (constraints : list string)
    : ddl := λ path d,
  match db_btree_gist d with
  | Some e => if bool_decide (e ∈ path) then create_table name columns constraints [] None path d
              else Err no_operator_class
  | None => Err no_operator_class
  end.

Definition create_index (name on_table definition : string) : ddl := λ _ d,
  if is_table d on_table then create name (Index on_table definition) d else Err no_such_table.

Definition create_or_replace_function (name : string) : ddl := λ _ d,
  if negb (db_schema d) then Err no_such_schema
  else Ok {| db_schema := db_schema d; db_migrations := db_migrations d; db_relations := db_relations d;
             db_functions := {[name]} ∪ db_functions d; db_triggers := db_triggers d;
             db_btree_gist := db_btree_gist d |}.

Definition create_trigger (name on_table function : string) : ddl := λ _ d,
  if negb (is_table d on_table) then Err no_such_table
  else if negb (bool_decide (function ∈ db_functions d))
  then Err (pg_error "42883" "function does not exist" None)
  else if db_triggers d !! (on_table, name) is Some _ then Err (pg_error "42710" "trigger already exists" None)
  else Ok {| db_schema := db_schema d; db_migrations := db_migrations d; db_relations := db_relations d;
             db_functions := db_functions d; db_triggers := <[(on_table, name) := function]> (db_triggers d);
             db_btree_gist := db_btree_gist d |}.

Definition alter_fillfactor (name : string) (n : Z) : ddl := λ _ d,
  match db_relations d !! name with
  | Some (Table columns constraints _) =>
      Ok (with_relations (<[name := Table columns constraints (Some n)]> (db_relations d)) d)
  | _ => Err no_such_table
  end.

Definition add_column (name column definition : string) : ddl := λ _ d,
  match db_relations d !! name with
  | Some (Table columns constraints fillfactor) =>
      if bool_decide (column ∈ columns.*1) then Err (pg_error "42701" "column already exists" None)
      else Ok (with_relations (<[name := Table (columns ++ [(column, definition)]) constraints fillfactor]>
                               (db_relations d)) d)
  | _ => Err no_such_table
  end.

(** ** The lineage *)

(** [m_up]: the statements its [up] sends, in order. *)
Record Migration := { m_name : string; m_up : list ddl }.

Definition migration000 : Migration :=
  {| m_name := "000_schema"; m_up := [create_schema_if_not_exists; create_migrations_table] |}.

Definition migration001 : Migration := {| m_name := "001_temporal_kv"; m_up := [
  no_effect;
  create_btree_gist;
  create_table "kv_current"
    [("ns", "text NOT NULL"); ("scope", "text NOT NULL"); ("key", "text NOT NULL"); ("value", "jsonb NOT NULL");
     ("version", "bigint NOT NULL");
     ("updated_at", "timestamptz NOT NULL DEFAULT date_trunc('milliseconds', clock_timestamp())");
     ("updated_xact", "bigint NOT NULL DEFAULT txid_current()")]
    ["PRIMARY KEY (ns, scope, key)"] [] None;
  create_gist_table "kv_history"
    [("id", "bigserial PRIMARY KEY"); ("ns", "text NOT NULL"); ("scope", "text NOT NULL"); ("key", "text NOT NULL");
     ("value", "jsonb NOT NULL"); ("version", "bigint NOT NULL"); ("valid_from", "timestamptz NOT NULL");
     ("valid_to", "timestamptz NOT NULL");
     ("validity", "tstzrange GENERATED ALWAYS AS (tstzrange(valid_from, valid_to, '[)')) STORED")]
    ["CONSTRAINT kv_history_range CHECK (valid_from < valid_to)";
     "CONSTRAINT kv_history_no_overlap EXCLUDE USING gist (ns WITH =, scope WITH =, key WITH =, validity WITH &&)"];
  create_index "kv_history_lookup" "kv_history" "(ns, scope, key, valid_from)";
  create_index "kv_history_by_version" "kv_history" "(ns, scope, key, version)";
  create_or_replace_function "kv_current_history_trigger";
  create_trigger "kv_current_history_bu" "kv_current" "kv_current_history_trigger"] |}.

Definition migration002 : Migration := {| m_name := "002_checkpoint_store"; m_up := [
  create_table "ckpt_chunks"
    [("hash", "bytea PRIMARY KEY"); ("data", "bytea NOT NULL"); ("created_at", "timestamptz NOT NULL DEFAULT now()")]
    [] [] None;
  create_table "ckpt_manifests"
    [("id", "bigserial PRIMARY KEY"); ("w", "text NOT NULL"); ("net", "text NOT NULL"); ("seq", "bigint NOT NULL");
     ("complete", "boolean NOT NULL DEFAULT false"); ("manifest_hash", "bytea NOT NULL"); ("label", "text");
     ("created_at", "timestamptz NOT NULL DEFAULT now()")]
    [] [] None;
  create_index "ckpt_manifests_lookup" "ckpt_manifests" "(w, net, complete, seq DESC)";
  create_table "ckpt_manifest_chunks"
    [("manifest_id", "bigint NOT NULL REFERENCES ckpt_manifests(id) ON DELETE CASCADE");
     ("position", "integer NOT NULL"); ("chunk_hash", "bytea NOT NULL REFERENCES ckpt_chunks(hash)")]
    ["PRIMARY KEY (manifest_id, position)"] ["ckpt_manifests"; "ckpt_chunks"] None;
  create_index "ckpt_manifest_chunks_by_hash" "ckpt_manifest_chunks" "(chunk_hash)";
  create_table "ckpt_sequence_counters"
    [("w", "text NOT NULL"); ("net", "text NOT NULL"); ("next_seq", "bigint NOT NULL DEFAULT 2")]
    ["PRIMARY KEY (w, net)"] [] None] |}.

Definition migration003 : Migration := {| m_name := "003_watermarks"; m_up := [
  create_table "watermarks"
    [("kind", "text NOT NULL"); ("key", "text NOT NULL"); ("value", "jsonb NOT NULL");
     ("updated_at", "timestamptz NOT NULL DEFAULT now()")]
    ["PRIMARY KEY (kind, key)"] [] (Some 90)] |}.

Definition migration004 : Migration := {| m_name := "004_transaction_history"; m_up := [
  create_table "transaction_history"
    [("wallet_id", "text NOT NULL"); ("tx_hash", "text NOT NULL"); ("entry", "jsonb NOT NULL");
     ("identifiers", "text[] NOT NULL DEFAULT '{}'"); ("lifecycle", "text NOT NULL");
     ("updated_at", "timestamptz NOT NULL DEFAULT now()")]
    ["PRIMARY KEY (wallet_id, tx_hash)"] [] None;
  create_index "transaction_history_identifiers_gin" "transaction_history" "USING gin (identifiers)"] |}.

Definition migration005 : Migration :=
  {| m_name := "005_kv_current_fillfactor"; m_up := [alter_fillfactor "kv_current" 90] |}.

Definition migration006 : Migration := {| m_name := "006_ckpt_chunks_size_bytes"; m_up := [
  add_column "ckpt_chunks" "size_bytes" "integer GENERATED ALWAYS AS (octet_length(data)) STORED"] |}.

Definition tier1WalletMigrations : list Migration :=
  [migration000; migration001; migration002; migration003; migration004; migration005; migration006].
