(* ===== verification/Migrate.v ===== *)
(** * The migration runner

    Models [src/postgres/migrate.ts]: the transaction driven by hand on a reserved connection, the
    schema-scoped advisory lock, the bounded wait for it, and the loop that applies what is not
    recorded yet. Every statement can fail from outside: refused, seen to fail after the server
    granted what it asked, or with the connection lost before or after it took effect. *)

From S2P Require Import Prelude Text Literals Json Errors Driver SyncClients Client DurabilityProbe Migrations.

Local Open Scope Z_scope.

(** ** The reserved connection *)

Inductive Fault :=
  | Refused (e : thrown)      (** the statement has no effect *)
  | Late (e : thrown)         (** nor here, but for a lock granted before the failure *)
  | Lost (e : thrown)         (** the connection is gone, the statement without effect *)
  | LostAfter (e : thrown).   (** the connection is gone, after the statement took effect *)

(** [ss_db]: the schema as the session sees it; [ss_tx]: what was committed when its open
    transaction began; [ss_aborted]: a statement of it failed. [ss_locks]: how often the session
    holds the migration lock. [ss_contender]: another session holds it; how the wait then ends.
    [ss_path]: the search path that was set, if one is. [ss_faults]: what happens to the statements
    to come. [lockHeld]: the variable of [runMigrationsImpl]. *)
Record Session := {
  ss_db : Database;
  ss_tx : option Database;
  ss_aborted : bool;
  ss_locks : nat;
  ss_contender : option thrown;
  ss_path : option (list SearchEntry);
  ss_alive : bool;
  ss_reserved : bool;
  ss_faults : list (option Fault);
  lockHeld : bool;
}.

Definition set_db (d : Database) (s : Session) : Session :=
  {| ss_db := d; ss_tx := ss_tx s; ss_aborted := ss_aborted s; ss_locks := ss_locks s;
     ss_contender := ss_contender s; ss_path := ss_path s; ss_alive := ss_alive s;
     ss_reserved := ss_reserved s; ss_faults := ss_faults s; lockHeld := lockHeld s |}.
Definition set_tx (d : Database) (tx : option Database) (s : Session) : Session :=
  {| ss_db := d; ss_tx := tx; ss_aborted := false; ss_locks := ss_locks s;
     ss_contender := ss_contender s; ss_path := ss_path s; ss_alive := ss_alive s;
     ss_reserved := ss_reserved s; ss_faults := ss_faults s; lockHeld := lockHeld s |}.
Definition set_locks (n : nat) (s : Session) : Session :=
  {| ss_db := ss_db s; ss_tx := ss_tx s; ss_aborted := ss_aborted s; ss_locks := n;
     ss_contender := ss_contender s; ss_path := ss_path s; ss_alive := ss_alive s;
     ss_reserved := ss_reserved s; ss_faults := ss_faults s; lockHeld := lockHeld s |}.
Definition set_path (path : option (list SearchEntry)) (s : Session) : Session :=
  {| ss_db := ss_db s; ss_tx := ss_tx s; ss_aborted := ss_aborted s; ss_locks := ss_locks s;
     ss_contender := ss_contender s; ss_path := path; ss_alive := ss_alive s;
     ss_reserved := ss_reserved s; ss_faults := ss_faults s; lockHeld := lockHeld s |}.
Definition set_faults (faults : list (option Fault)) (s : Session) : Session :=
  {| ss_db := ss_db s; ss_tx := ss_tx s; ss_aborted := ss_aborted s; ss_locks := ss_locks s;
     ss_contender := ss_contender s; ss_path := ss_path s; ss_alive := ss_alive s;
     ss_reserved := ss_reserved s; ss_faults := faults; lockHeld := lockHeld s |}.
Definition set_reserved (reserved : bool) (s : Session) : Session :=
  {| ss_db := ss_db s; ss_tx := ss_tx s; ss_aborted := ss_aborted s; ss_locks := ss_locks s;
     ss_contender := ss_contender s; ss_path := ss_path s; ss_alive := ss_alive s;
     ss_reserved := reserved; ss_faults := ss_faults s; lockHeld := lockHeld s |}.
Definition set_lockHeld (held : bool) (s : Session) : Session :=
  {| ss_db := ss_db s; ss_tx := ss_tx s; ss_aborted := ss_aborted s; ss_locks := ss_locks s;
     ss_contender := ss_contender s; ss_path := ss_path s; ss_alive := ss_alive s;
     ss_reserved := ss_reserved s; ss_faults := ss_faults s; lockHeld := held |}.

(** What the other sessions see. *)
Definition committed (s : Session) : Database := default (ss_db s) (ss_tx s).

(** A failed statement aborts the transaction it is in. *)
Definition fail (s : Session) : Session :=
  {| ss_db := ss_db s; ss_tx := ss_tx s; ss_aborted := bool_decide (is_Some (ss_tx s)) || ss_aborted s;
     ss_locks := ss_locks s; ss_contender := ss_contender s; ss_path := ss_path s; ss_alive := ss_alive s;
     ss_reserved := ss_reserved s; ss_faults := ss_faults s; lockHeld := lockHeld s |}.

(** The server ends the session: the transaction is rolled back, the locks go. *)
Definition lose (s : Session) : Session :=
  {| ss_db := committed s; ss_tx := None; ss_aborted := false; ss_locks := O;
     ss_contender := ss_contender s; ss_path := None; ss_alive := false;
     ss_reserved := ss_reserved s; ss_faults := ss_faults s; lockHeld := lockHeld s |}.

Definition connection_closed : thrown :=
  TError "Error" "write CONNECTION_CLOSED" (Some "CONNECTION_CLOSED") None None.
Definition in_failed_transaction : thrown := pg_error "25P02" "current transaction is aborted" None.

(** ** Statements *)

(** What a statement does on the server. [control]: allowed in an aborted transaction. *)
Definition server (control : bool) (f : Session → result thrown Session) (s : Session) : result thrown Session :=
  if ss_aborted s && negb control then Err in_failed_transaction else f s.

Definition served (r : result thrown Session) (s : Session) : Session := if r is Ok s' then s' else fail s.

Definition run (control : bool) (f : Session → result thrown Session) : act Session unit := λ s,
  if negb (ss_alive s) then (Err connection_closed, s)
  else
    let s1 := set_faults (tail (ss_faults s)) s in
    let r := server control f s1 in
    match ss_faults s with
    | Some (Refused e) :: _ => (Err e, fail s1)
    | Some (Late e) :: _ => (Err e, set_locks (ss_locks (served r s1)) (fail s1))
    | Some (Lost e) :: _ => (Err e, lose s1)
    | Some (LostAfter e) :: _ => (Err e, lose (served r s1))
    | _ => match r with Ok s' => (Ok tt, s') | Err e => (Err e, fail s1) end
    end.

Definition BEGIN : act Session unit := run false (λ s, Ok (set_tx (ss_db s) (Some (ss_db s)) s)).
(** Of an aborted transaction, [COMMIT] makes a rollback. *)
Definition COMMIT : act Session unit :=
  run true (λ s, Ok (set_tx (if ss_aborted s then committed s else ss_db s) None s)).
Definition ROLLBACK : act Session unit := run true (λ s, Ok (set_tx (committed s) None s)).

(** [set_config('lock_timeout', .., true)]: gone with the transaction. *)
Definition set_local_lock_timeout : act Session unit := run false Ok.

(** [select pg_advisory_lock(1, hashtext(schema))]. *)
Definition advisory_lock : act Session unit := run false (λ s,
  if ss_contender s is Some e then Err e else Ok (set_locks (S (ss_locks s)) s)).
(** [select pg_advisory_unlock(1, hashtext(schema))]. *)
Definition advisory_unlock : act Session unit := run false (λ s, Ok (set_locks (pred (ss_locks s)) s)).

Definition set_search_path : act Session unit := run false (λ s, Ok (set_path (Some [OwnSchema; Public]) s)).
Definition reset_search_path : act Session unit := run false (λ s, Ok (set_path None s)).

(** The search path of a session on which none was set: [createClient] gives the schema alone. *)
Definition current_path (s : Session) : list SearchEntry := default [OwnSchema] (ss_path s).

Definition on_schema (f : ddl) : act Session unit := run false (λ s,
  match f (current_path s) (ss_db s) with Ok d => Ok (set_db d s) | Err e => Err e end).

(** A query of the schema. *)
Definition read {A} (f : Database → result thrown A) : act Session A := λ s,
  match run false (λ s', match f (ss_db s') with Ok _ => Ok s' | Err e => Err e end) s with
  | (Ok _, s') => match f (ss_db s) with Ok a => (Ok a, s') | Err e => (Err e, s') end
  | (Err e, s') => (Err e, s')
  end.

(** [insert into _migrations (name) values (..)]. *)
Definition insert_name (name : string) : ddl := λ _ d,
  match db_migrations d with
  | None => Err no_such_table
  | Some names =>
      if bool_decide (name ∈ names)
      then Err (pg_error "23505" "duplicate key value violates unique constraint" (Some "_migrations_pkey"))
      else Ok (with_migrations (Some (names ++ [name])) d)
  end.

(** [to_regclass(schema || '._migrations') is not null]. *)
Definition bootstrapped (d : Database) : result thrown bool := Ok (bool_decide (is_Some (db_migrations d))).

(** [select 1 from _migrations where name = ..]. *)
Definition is_applied (name : string) (d : Database) : result thrown bool :=
  match db_migrations d with
  | None => Err no_such_table
  | Some names => Ok (bool_decide (name ∈ names))
  end.

(** ** The runner *)

(** [try { m } finally { fin }]: a failure of [fin] replaces what [m] gave. *)
Definition try_finally {S A} (m : act S A) (fin : act S unit) : act S A := λ s,
  let (r, s1) := m s in
  match fin s1 with
  | (Ok _, s2) => (r, s2)
  | (Err e, s2) => (Err e, s2)
  end.

(** The [try] of [withReservedTransaction]: the error of the body or of the [COMMIT] is rethrown,
    unless the [ROLLBACK] fails too. *)
Definition commit_or_rollback (fn : act Session unit) : act Session unit := λ s,
  match (fn ;; COMMIT) s with
  | (Ok _, s1) => (Ok tt, s1)
  | (Err err, s1) =>
      match ROLLBACK s1 with
      | (Ok _, s2) => (Err err, s2)
      | (Err e, s2) => (Err e, s2)
      end
  end.

Definition withReservedTransaction (fn : act Session unit) : act Session unit :=
  BEGIN ;; commit_or_rollback fn.

Record RunMigrationsOptions := {
  ro_schema : jsstr;
  ro_migrations : option (list Migration);
  ro_allowFullPageWritesOff : option bool;
  ro_migrationLockTimeoutMs : option jsnum;
}.

Definition DEFAULT_MIGRATION_LOCK_TIMEOUT_MS : Z := 30000.

Definition MigrationLockTimeoutError (schema : jsstr) (timeoutMs : Z) (cause : thrown) : thrown :=
  TStorage (CMigrationLockTimeout schema timeoutMs) (Some cause).

Definition invalid_lock_timeout (boundary : string) : thrown :=
  ValidationError boundary "migrationLockTimeoutMs" "must be a positive integer number of milliseconds".

(** The acquire bound, validated again where it is used. *)
Definition acquireBoundMs (opts : RunMigrationsOptions) : result thrown Z :=
  match default (NumInt DEFAULT_MIGRATION_LOCK_TIMEOUT_MS) (ro_migrationLockTimeoutMs opts) with
  | NumInt z => if timeout_ok (Some (NumInt z)) then Ok z
                else Err (invalid_lock_timeout "invalid migrationLockTimeoutMs")
  | _ => Err (invalid_lock_timeout "invalid migrationLockTimeoutMs")
  end.

(** [lockHeld = true]. *)
Definition note_lock : act Session unit := λ s, (Ok tt, set_lockHeld true s).

(** The transaction that takes the lock; [lockHeld] is set inside it. *)
Definition take_migration_lock : act Session unit :=
  withReservedTransaction
    (set_local_lock_timeout ;; advisory_lock ;; note_lock).

Definition acquire_catch (schema : jsstr) (ms : Z) (err : thrown) : thrown :=
  if isLockTimeout err || isStatementTimeout err then MigrationLockTimeoutError schema ms err else err.

(** One migration and its record, in one transaction. *)
Definition run_migration (m : Migration) : act Session unit :=
  withReservedTransaction (for_each on_schema (m_up m) ;; on_schema (insert_name (m_name m))).

(** [lineage[0]!] of an empty lineage is [undefined], which has no [up]. *)
Definition undefined_migration : thrown := named_error "TypeError" "Cannot read properties of undefined".

Definition bootstrap_lineage (lineage : list Migration) : act Session unit :=
  exists_ ← read bootstrapped;
  if (exists_ : bool) then mret tt
  else match lineage with
       | bootstrap :: _ => run_migration bootstrap
       | [] => withReservedTransaction (throw undefined_migration)
       end.

Definition apply_unless_recorded (m : Migration) : act Session unit :=
  applied ← read (is_applied (m_name m));
  if (applied : bool) then mret tt else run_migration m.

Definition apply_lineage (lineage : list Migration) : act Session unit :=
  bootstrap_lineage lineage ;; for_each apply_unless_recorded (tail lineage).

(** The body of the outer [try]. *)
Definition locked_migrations (opts : RunMigrationsOptions) : act Session unit :=
  ms ← check (acquireBoundMs opts);
  rethrow (acquire_catch (ro_schema opts) ms) take_migration_lock ;;
  set_search_path ;;
  try_finally (apply_lineage (default tier1WalletMigrations (ro_migrations opts))) reset_search_path.

(** Its [finally]: unlock, and release whatever happens. *)
Definition unlock_if_held : act Session unit := λ s, if lockHeld s then advisory_unlock s else (Ok tt, s).

Definition runMigrationsImpl (opts : RunMigrationsOptions) (reserve_fault : option thrown) : act Session unit := λ s,
  match reserve_fault with
  | Some e => (Err e, s)
  | None =>
      let (r, s') := try_finally (locked_migrations opts) unlock_if_held (set_lockHeld false (set_reserved true s)) in
      (r, set_reserved false s')
  end.

Definition migrations_guard (opts : RunMigrationsOptions) : result thrown unit :=
  match assertValidSchemaName (ro_schema opts) with
  | Err _ => Err (ValidationError "invalid schema name for runMigrations" "schema" "invalid schema name")
  | Ok _ =>
      if timeout_ok (ro_migrationLockTimeoutMs opts) then Ok tt
      else Err (invalid_lock_timeout "invalid migrationLockTimeoutMs for runMigrations")
  end.

(** [probe_server]: what the probe's own connection meets. [at_use]: the caller's options as they
    are after the probe was awaited. A warning callback is told and cannot interfere. *)
Definition runMigrations (opts at_use : RunMigrationsOptions) (probe_server : ProbeServer)
    (reserve_fault : option thrown) : act (ProbeSession * Session) unit := λ ps,
  match migrations_guard opts with
  | Err e => (Err e, ps)
  | Ok _ =>
      match probeDurability probe_server (ro_allowFullPageWritesOff opts) ps.1 with
      | (Err e, p) => (Err (translatePostgresError e None), (p, ps.2))
      | (Ok _, p) =>
          let (r, s) := rethrow (λ e, translatePostgresError e None) (runMigrationsImpl at_use reserve_fault) ps.2 in
          (r, (p, s))
      end
  end.
