(* ===== verification/MigrateSpec.v ===== *)
(** * The migration runner: statements, transactions and the loop

    How each statement changes what is committed, that a transaction is its plan or nothing, and
    where the loop ends when it starts at a stage of the lineage. *)

From S2P Require Import Prelude Text Literals Json Errors Driver SyncClients Client DurabilityProbe Migrations Migrate.

Local Open Scope Z_scope.

Implicit Types (s : Session) (d : Database) (m : Migration).

(** ** Statements *)

Definition next (s : Session) : Session := set_faults (tail (ss_faults s)) s.

Lemma run_inv control f s u s' :
  run control f s = (Ok u, s') → ss_alive s = true ∧ server control f (next s) = Ok s'.
Proof.
  unfold run. destruct (ss_alive s); [|done]. simpl. fold (next s).
  destruct (ss_faults s) as [|[[]|] fs]; try done;
    (destruct (server _ _ _); [by intros [= _ <-]|done]).
Qed.

(** A statement whose effect no one else sees leaves what is committed as it was. *)
Lemma run_committed control f s out s' :
  run control f s = (out, s') → (∀ s1, server control f (next s) = Ok s1 → committed s1 = committed s) →
  committed s' = committed s.
Proof.
  unfold run. intros H Hf. destruct (ss_alive s); [|by injection H as _ <-]. simpl in H. fold (next s) in H.
  assert (committed (served (server control f (next s)) (next s)) = committed s) as Hs.
  { destruct (server control f (next s)) eqn:E; [by apply Hf|done]. }
  destruct (ss_faults s) as [|[[]|] fs]; try (injection H as _ <-; done || exact Hs);
    destruct (server control f (next s)) eqn:E; injection H as _ <-; (by apply Hf) || done.
Qed.

Lemma server_ok control f s s' : server control f s = Ok s' → f s = Ok s' ∧ (control = false → ss_aborted s = false).
Proof. unfold server. destruct (ss_aborted s), control; simpl; intros; by split. Qed.

(** With no failure from outside, on a live connection, a statement does what the server does. *)
Definition calm (s : Session) : Prop := ss_faults s = [] ∧ ss_alive s = true.

Lemma run_calm control f s :
  calm s → run control f s = match server control f s with Ok s' => (Ok tt, s') | Err e => (Err e, fail s) end.
Proof.
  intros [Hf Ha]. unfold run. rewrite Ha, Hf. simpl.
  replace (set_faults [] s) with s by (destruct s; simpl in *; by subst). done.
Qed.

(** The statements that no one else sees. *)
Lemma BEGIN_committed s out s' : BEGIN s = (out, s') → committed s' = ss_db s ∨ ss_tx s ≠ None.
Proof.
  intros H. destruct (ss_tx s) eqn:Ht; [by right|left].
  assert (committed s = ss_db s) as <- by (unfold committed; by rewrite Ht).
  eapply run_committed; [exact H|]. intros s1 [[= <-] _]%server_ok. unfold committed. simpl. by rewrite Ht.
Qed.

Lemma ROLLBACK_committed s out s' : ROLLBACK s = (out, s') → committed s' = committed s.
Proof. intros H. eapply run_committed; [exact H|]. by intros s1 [[= <-] _]%server_ok. Qed.

Lemma local_committed (f : Session → result thrown Session) s out s' :
  (∀ s1 s2, f s1 = Ok s2 → committed s2 = committed s1) → run false f s = (out, s') → committed s' = committed s.
Proof. intros Hf H. eapply run_committed; [exact H|]. intros s1 [E _]%server_ok. by rewrite (Hf _ _ E). Qed.

Lemma unlock_committed s out s' : unlock_if_held s = (out, s') → committed s' = committed s.
Proof.
  unfold unlock_if_held. destruct (lockHeld s); [|by intros [= _ <-]]. apply local_committed. by intros s1 s2 [= <-].
Qed.

Lemma reset_committed s out s' : reset_search_path s = (out, s') → committed s' = committed s.
Proof. apply local_committed. by intros s1 s2 [= <-]. Qed.

Lemma set_path_committed s out s' : set_search_path s = (out, s') → committed s' = committed s.
Proof. apply local_committed. by intros s1 s2 [= <-]. Qed.

Lemma read_spec {A} (f : Database → result thrown A) s out s' :
  read f s = (out, s') →
  match out with
  | Ok a => f (ss_db s) = Ok a ∧ s' = next s ∧ ss_alive s = true ∧ ss_aborted s = false
  | Err _ => committed s' = committed s
  end.
Proof.
  unfold read. destruct (run _ _ s) as [[u|e] s1] eqn:H.
  - apply run_inv in H as (Ha & [H Hab]%server_ok). simpl in H, Hab. destruct (f (ss_db s)) eqn:E; [|done].
    injection H as <-. intros [= <- <-]. by rewrite Hab.
  - intros [= <- <-]. revert H. apply local_committed. intros s2 s3. destruct (f (ss_db s2)); [by intros [= ->]|done].
Qed.

(** ** Transactions *)

(** In a transaction, a body does [plan] to the schema, or leaves what is committed alone. *)
Definition body_does (body : act Session unit) (plan : ddl) : Prop := ∀ s c out s',
  ss_tx s = Some c → ss_aborted s = false → body s = (out, s') →
  match out with
  | Ok _ => ss_tx s' = Some c ∧ ss_aborted s' = false ∧ ss_path s' = ss_path s ∧
            plan (current_path s) (ss_db s) = Ok (ss_db s')
  | Err _ => committed s' = c
  end.

Lemma on_schema_does (f : ddl) : body_does (on_schema f) f.
Proof.
  intros s c out s' Ht Ha H. destruct out as [u|e].
  - apply run_inv in H as (_ & [H _]%server_ok). simpl in H. unfold current_path in *. simpl in H.
    destruct (f _ _); [|done]. by injection H as <-.
  - assert (c = committed s) as -> by (unfold committed; by rewrite Ht). eapply run_committed; [exact H|].
    intros s1 [E _]%server_ok. unfold current_path in E. simpl in E. destruct (f _ _); [|done]. injection E as <-.
    unfold committed. simpl. by rewrite Ht.
Qed.

(** The plans of two bodies, one after the other. *)
Definition plan_seq (p q : ddl) : ddl := λ path d, d' ← p path d; q path d'.
Definition plan_all (ups : list ddl) : ddl := foldr plan_seq no_effect ups.

Lemma does_seq body body' p q : body_does body p → body_does body' q → body_does (body ;; body') (plan_seq p q).
Proof.
  intros B1 B2 s c out s' Ht Ha H. rewrite action_bind_step in H.
  destruct (body s) as [[u|e] s1] eqn:E; [|injection H as <- <-; exact (B1 _ _ _ _ Ht Ha E)].
  destruct (B1 _ _ _ _ Ht Ha E) as (Ht1 & Ha1 & Hp1 & Hd1). pose proof (B2 _ _ _ _ Ht1 Ha1 H) as H2.
  destruct out as [u'|e]; [|done]. destruct H2 as (Ht2 & Ha2 & Hp2 & Hd2).
  split; [done|]. split; [done|]. split; [congruence|]. unfold plan_seq. rewrite Hd1. simpl.
  unfold current_path in *. by rewrite <-Hp1.
Qed.

Lemma does_all ups : body_does (for_each on_schema ups) (plan_all ups).
Proof.
  induction ups as [|f ups IH]; [|apply does_seq; [apply on_schema_does|exact IH]].
  intros s c out s' Ht Ha [= <- <-]. done.
Qed.

Lemma commit_committed s c out s' :
  ss_tx s = Some c → ss_aborted s = false → COMMIT s = (out, s') →
  match out with
  | Ok _ => ss_tx s' = None ∧ ss_aborted s' = false ∧ ss_path s' = ss_path s ∧ ss_db s' = ss_db s
  | Err _ => committed s' = c ∨ committed s' = ss_db s
  end.
Proof.
  intros Ht Ha H. destruct out as [u|e].
  - apply run_inv in H as (_ & [H _]%server_ok). simpl in H. rewrite Ha in H. by injection H as <-.
  - unfold COMMIT, run in H. destruct (ss_alive s); [|injection H as _ <-; left; unfold committed; by rewrite Ht].
    simpl in H. unfold server in H. simpl in H. rewrite andb_false_r, Ha in H.
    destruct (ss_faults s) as [|[[]|] fs]; injection H as _ <-; unfold lose, committed; simpl; rewrite ?Ht; first [by left|by right].
Qed.

(** A transaction: done, or not done at all; a failure leaves it done only if the acknowledgement
    of the [COMMIT] was lost. *)
Lemma transaction_spec body plan s out s' :
  body_does body plan → ss_tx s = None → withReservedTransaction body s = (out, s') →
  match out with
  | Ok _ => ss_tx s' = None ∧ ss_path s' = ss_path s ∧ plan (current_path s) (ss_db s) = Ok (ss_db s')
  | Err _ => committed s' = ss_db s ∨ plan (current_path s) (ss_db s) = Ok (committed s')
  end.
Proof.
  intros Hbody Ht H. unfold withReservedTransaction in H. rewrite action_bind_step in H.
  destruct (BEGIN s) as [[u|e] s1] eqn:E1; cycle 1.
  { injection H as <- <-. left. by destruct (BEGIN_committed _ _ _ E1). }
  apply run_inv in E1 as (_ & [[= <-] _]%server_ok). unfold commit_or_rollback in H. rewrite action_bind_step in H.
  set (s1 := set_tx _ _ _) in H.
  destruct (body s1) as [[u'|e] s2] eqn:E2; pose proof (Hbody s1 (ss_db s) _ _ eq_refl eq_refl E2) as Hb; cbn iota beta in Hb.
  - destruct Hb as (Ht2 & Ha2 & Hp2 & Hd2). destruct (COMMIT s2) as [[u''|e] s3] eqn:E3;
      pose proof (commit_committed _ _ _ _ Ht2 Ha2 E3) as Hc; cbn iota beta in Hc.
    + injection H as <- <-. destruct Hc as (? & _ & Hp3 & Hd3). split; [done|]. split; [by rewrite Hp3, Hp2|]. by rewrite Hd3.
    + destruct (ROLLBACK s3) as [[]] eqn:E4; injection H as <- <-; apply ROLLBACK_committed in E4 as ->;
        (destruct Hc as [->| ->]; [by left|right; exact Hd2]).
  - destruct (ROLLBACK s2) as [[]] eqn:E4; injection H as <- <-; apply ROLLBACK_committed in E4 as ->; by left.
Qed.

(** A statement that touches neither the schema nor the transaction. *)
Lemma quiet_does (f : Session → result thrown Session) :
  (∀ s s', f s = Ok s' → ss_db s' = ss_db s ∧ ss_tx s' = ss_tx s ∧ ss_aborted s' = ss_aborted s ∧ ss_path s' = ss_path s) →
  body_does (run false f) no_effect.
Proof.
  intros Hf s c out s' Ht Ha H. destruct out as [u|e].
  - apply run_inv in H as (_ & [H _]%server_ok). apply Hf in H as (Hd & Ht' & Ha' & Hp). simpl in *.
    unfold no_effect. rewrite Hd, Ht', Ha', Hp. done.
  - assert (c = committed s) as -> by (unfold committed; by rewrite Ht). eapply run_committed; [exact H|].
    intros s1 [E _]%server_ok. apply Hf in E as (Hd & Ht' & _). unfold committed. by rewrite Hd, Ht'.
Qed.

Lemma note_lock_does : body_does note_lock no_effect.
Proof. intros s c out s' Ht Ha [= <- <-]. by unfold no_effect. Qed.

Lemma take_lock_spec s out s' :
  ss_tx s = None → take_migration_lock s = (out, s') →
  match out with
  | Ok _ => ss_tx s' = None ∧ ss_path s' = ss_path s ∧ ss_db s' = ss_db s
  | Err _ => committed s' = ss_db s
  end.
Proof.
  intros Ht H. apply (transaction_spec _ (plan_seq no_effect (plan_seq no_effect no_effect))) in H; [|clear|done].
  - destruct out; [destruct H as (? & ? & [= ->])|destruct H as [->|[= ->]]]; done.
  - apply does_seq; [|apply does_seq; [|apply note_lock_does]]; apply quiet_does; intros s s'; [by intros [= <-]|].
    destruct (ss_contender s); [done|by intros [= <-]].
Qed.

(** ** The lineage *)

Definition apply_one (m : Migration) : ddl := plan_seq (plan_all (m_up m)) (insert_name (m_name m)).

Lemma run_migration_spec m s out s' :
  ss_tx s = None → run_migration m s = (out, s') →
  match out with
  | Ok _ => ss_tx s' = None ∧ ss_path s' = ss_path s ∧ apply_one m (current_path s) (ss_db s) = Ok (ss_db s')
  | Err _ => committed s' = ss_db s ∨ apply_one m (current_path s) (ss_db s) = Ok (committed s')
  end.
Proof. apply transaction_spec, does_seq; [apply does_all|apply on_schema_does]. Qed.

(** The migrations run on the search path [runMigrations] sets. *)
Definition migration_path : list SearchEntry := [OwnSchema; Public].

(** The schema after the first [k] migrations. *)
Fixpoint after (lineage : list Migration) (d : Database) : result thrown Database :=
  match lineage with
  | [] => Ok d
  | m :: rest => d' ← apply_one m migration_path d; after rest d'
  end.

(** What the runner relies on in a lineage: distinct names, a first migration that creates
    [_migrations], empty, and others that leave it alone. *)
Class Lineage (lineage : list Migration) : Prop := {
  lineage_names : NoDup (m_name <$> lineage);
  lineage_bootstrap : ∃ m rest, lineage = m :: rest ∧ ∀ path d d',
    plan_all (m_up m) path d = Ok d' → db_migrations d = None → db_migrations d' = Some [];
  lineage_rest m path d d' :
    m ∈ tail lineage → plan_all (m_up m) path d = Ok d' → db_migrations d' = db_migrations d;
}.

Section lineage.
Context (lineage : list Migration) `{!Lineage lineage} (d0 : Database) (Hcold : db_migrations d0 = None).

Definition stage (k : nat) (d : Database) : Prop := after (take k lineage) d0 = Ok d.

Lemma after_app l1 l2 d : after (l1 ++ l2) d = (d' ← after l1 d; after l2 d').
Proof.
  revert d. induction l1 as [|m l1 IH]; intros d; [done|]. simpl.
  destruct (apply_one m migration_path d) as [d'|]; [apply IH|done].
Qed.

Lemma stage_S k m d d' :
  lineage !! k = Some m → stage k d → apply_one m migration_path d = Ok d' → stage (S k) d'.
Proof.
  intros Hm Hk Hd. unfold stage. rewrite (take_S_r _ _ _ Hm), after_app, Hk. simpl. by rewrite Hd.
Qed.

Lemma apply_one_names m path d d' names :
  (∀ d1, plan_all (m_up m) path d = Ok d1 → db_migrations d1 = Some names) →
  apply_one m path d = Ok d' → db_migrations d' = Some (names ++ [m_name m]).
Proof.
  intros Hups. unfold apply_one, plan_seq. destruct (plan_all _ _ _) as [d1|]; [|done]. simpl.
  unfold insert_name. rewrite (Hups d1) by done. case_bool_decide; [done|]. by intros [= <-].
Qed.

(** [_migrations] records exactly the migrations applied. *)
Lemma stage_names k d : stage k d →
  db_migrations d = match k with O => None | _ => Some (m_name <$> take k lineage) end.
Proof.
  revert d. induction k as [|k IH]; intros d Hk; [unfold stage in Hk; simpl in Hk; by injection Hk as <-|].
  destruct (lineage !! k) as [m|] eqn:Hm; cycle 1.
  { apply lookup_ge_None in Hm. unfold stage in Hk. rewrite take_ge in Hk by lia.
    assert (stage k d) as Hk' by (unfold stage; rewrite take_ge by lia; done). rewrite (IH _ Hk'). destruct k as [|k].
    - destruct lineage_bootstrap as (m & rest & -> & _). simpl in Hm. lia.
    - by rewrite !take_ge by lia. }
  unfold stage in Hk. rewrite (take_S_r _ _ _ Hm), after_app in Hk.
  destruct (after (take k lineage) d0) as [d1|] eqn:Hd1; [|done]. simpl in Hk.
  destruct (apply_one m migration_path d1) as [d2|] eqn:Hd2; [|done]. injection Hk as ->.
  rewrite (take_S_r _ _ _ Hm), fmap_app. simpl. specialize (IH _ Hd1). destruct k as [|k].
  - rewrite take_0. simpl. eapply (apply_one_names _ _ _ _ []); [|exact Hd2]. intros d' Hd'.
    destruct lineage_bootstrap as (b & rest & -> & Hb). simpl in Hm. injection Hm as ->. by eapply Hb.
  - eapply apply_one_names; [|exact Hd2]. intros d' Hd'. rewrite <-IH. eapply lineage_rest; [|exact Hd'].
    destruct lineage_bootstrap as (b & rest & -> & _). simpl in *. by eapply list_elem_of_lookup_2.
Qed.

(** Between migrations: no transaction open, the search path set, the schema at a stage. *)
Definition at_stage (k : nat) (s : Session) : Prop :=
  ss_tx s = None ∧ ss_path s = Some migration_path ∧ stage k (ss_db s).

(** How a part of the loop ends, started at stage [k]: at stage [k'], or failed somewhere further. *)
Definition reaches (k k' : nat) (out : result thrown unit) (s' : Session) : Prop :=
  match out with
  | Ok _ => at_stage k' s'
  | Err _ => ∃ k'', (k ≤ k'' ≤ length lineage)%nat ∧ stage k'' (committed s')
  end.

Lemma at_stage_committed k s : at_stage k s → stage k (committed s).
Proof. intros (Ht & _ & Hk). unfold committed. by rewrite Ht. Qed.

(** A migration that is next in line. *)
Lemma run_migration_stage k m s out s' :
  at_stage k s → lineage !! k = Some m → run_migration m s = (out, s') → reaches k (S k) out s'.
Proof.
  intros (Ht & Hp & Hk) Hm H. apply run_migration_spec in H; [|done]. unfold current_path in H. rewrite Hp in H.
  pose proof (lookup_lt_Some _ _ _ Hm) as Hlt. destruct out as [u|e].
  - destruct H as (Ht' & Hp' & Hd). split; [done|]. split; [congruence|]. by eapply stage_S.
  - destruct H as [E|Hd]; [exists k; rewrite E; split; [lia|done]|]. exists (S k). split; [lia|]. by eapply stage_S.
Qed.

Lemma recorded_iff j k m names :
  lineage !! j = Some m → names = m_name <$> take k lineage → m_name m ∈ names ↔ (j < k)%nat.
Proof.
  intros Hm ->. rewrite list_elem_of_fmap. split.
  - intros (m' & Hn & (i & Hi)%list_elem_of_lookup). apply lookup_take_Some in Hi as [Hi Hik].
    enough (i = j) by lia. pose proof lineage_names as Hnd. eapply NoDup_lookup in Hnd; [exact Hnd|by rewrite list_lookup_fmap, Hi|].
    by rewrite list_lookup_fmap, Hm, <-Hn.
  - intros Hjk. exists m. split; [done|]. apply list_elem_of_lookup. exists j. by apply lookup_take_Some.
Qed.

Lemma apply_unless_recorded_stage j k m s out s' :
  at_stage k s → lineage !! j = Some m → (1 ≤ j ≤ k)%nat → (k ≤ length lineage)%nat →
  apply_unless_recorded m s = (out, s') → reaches k (max k (S j)) out s'.
Proof.
  intros Hs Hm Hj Hlen H. unfold apply_unless_recorded in H. rewrite action_bind_step in H.
  destruct (read (is_applied (m_name m)) s) as [[applied|e] s1] eqn:E; apply read_spec in E; cycle 1.
  { injection H as <- <-. exists k. split; [lia|]. rewrite E. by apply at_stage_committed. }
  destruct E as (Happ & -> & _). unfold is_applied in Happ. destruct Hs as (Ht & Hp & Hk).
  rewrite (stage_names _ _ Hk) in Happ. destruct k as [|k]; [lia|]. injection Happ as <-.
  assert (at_stage (S k) (next s)) as Hs by done. case_bool_decide as Hin.
  - injection H as <- <-. apply (recorded_iff j (S k)) in Hin; [|done..]. by rewrite Nat.max_l by lia.
  - rewrite (recorded_iff j (S k) m) in Hin by done. assert (j = S k) as -> by lia.
    rewrite Nat.max_r by lia. by eapply run_migration_stage.
Qed.

Lemma loop_stage (l : list Migration) j k s out s' :
  l = drop j lineage → at_stage k s → (1 ≤ j ≤ k)%nat → (k ≤ length lineage)%nat →
  for_each apply_unless_recorded l s = (out, s') → reaches k (length lineage) out s'.
Proof.
  revert j k s. induction l as [|m l IH]; intros j k s Hl Hs Hj Hlen H.
  - injection H as <- <-. assert (length (drop j lineage) = O) as E by (by rewrite <-Hl). rewrite length_drop in E.
    by replace (length lineage) with k by lia.
  - assert (lineage !! j = Some m) as Hm by (rewrite <-(Nat.add_0_r j), <-lookup_drop, <-Hl; done).
    assert (l = drop (S j) lineage) as Hl' by (rewrite (drop_S _ _ _ Hm) in Hl; by injection Hl).
    cbn [for_each] in H. rewrite action_bind_step in H. pose proof (lookup_lt_Some _ _ _ Hm) as Hlt.
    destruct (apply_unless_recorded m s) as [[u|e] s1] eqn:E;
      pose proof (apply_unless_recorded_stage _ _ _ _ _ _ Hs Hm Hj Hlen E) as Hr; [|by injection H as <- <-].
    apply (IH (S j) (max k (S j))) in H; [|done..|lia|lia]. destruct out as [u'|e]; [done|].
    destruct H as (k'' & ? & ?). exists k''. split; [lia|done].
Qed.

Lemma apply_lineage_stage k s out s' :
  at_stage k s → (k ≤ length lineage)%nat → apply_lineage lineage s = (out, s') → reaches k (length lineage) out s'.
Proof.
  intros Hs Hlen H. unfold apply_lineage in H. rewrite action_bind_step in H.
  destruct lineage_bootstrap as (b & rest & El & _).
  assert (tail lineage = drop 1 lineage) as Htl by (by rewrite El).
  destruct (bootstrap_lineage lineage s) as [out1 s1] eqn:E.
  assert (reaches k (max k 1) out1 s1) as Hr.
  { unfold bootstrap_lineage in E. rewrite action_bind_step in E.
    destruct (read bootstrapped s) as [[ex|e] s2] eqn:Er; apply read_spec in Er; cycle 1.
    { injection E as <- <-. exists k. split; [lia|]. rewrite Er. by apply at_stage_committed. }
    destruct Er as (Hex & -> & _). injection Hex as <-. destruct Hs as (Ht & Hp & Hk).
    assert (at_stage k (next s)) as Hs by done.
    rewrite (stage_names _ _ Hk) in E. destruct k as [|k].
    - simpl in E. rewrite El in E. eapply run_migration_stage; [done| |exact E]. by rewrite El.
    - rewrite bool_decide_true in E by eauto. injection E as <- <-. by rewrite Nat.max_l by lia. }
  destruct out1 as [u|e]; [|by injection H as <- <-].
  eapply (loop_stage _ 1 (max k 1)) in H; [|exact Htl|exact Hr|lia|]; [|rewrite El in *; simpl in *; lia].
  destruct out as [u'|e]; [done|]. destruct H as (k'' & ? & ?). exists k''. split; [lia|done].
Qed.
End lineage.
