(* ===== verification/MigrateTheorems.v ===== *)
(** * The migration runner: its theorems

    Whatever fails, the schema is left at a prefix of the lineage, with exactly that prefix
    recorded; a run that meets no failure completes the lineage; the connection goes back as it
    came; a lock another session holds is a typed timeout; and no migration runs on a server the
    probe refuses. *)

From S2P Require Import Prelude Text Literals Json Errors Driver SyncClients Client DurabilityProbe Migrations Migrate.
From S2P Require Import MigrateSpec.

Local Open Scope Z_scope.

Implicit Types (s : Session) (d : Database) (m : Migration).

(** ** A run, whatever fails *)

Section prefix.
Context (lineage : list Migration) `{!Lineage lineage} (d0 : Database) (Hcold : db_migrations d0 = None).

(** How a part of a run ends that was started at stage [k]. *)
Definition ends (k : nat) (out : result thrown unit) (s' : Session) : Prop :=
  ∃ k', (k ≤ k' ≤ length lineage)%nat ∧ stage lineage d0 k' (committed s') ∧ (out = Ok tt → k' = length lineage).

Lemma ends_finally k (m : act Session unit) fin s out s' :
  (∀ out1 s1, m s = (out1, s1) → ends k out1 s1) →
  (∀ s1 out2 s2, fin s1 = (out2, s2) → committed s2 = committed s1) →
  try_finally m fin s = (out, s') → ends k out s'.
Proof.
  intros Hm Hfin H. unfold try_finally in H. destruct (m s) as [out1 s1] eqn:E.
  destruct (Hm _ _ eq_refl) as (k' & Hle & Hk' & Hall).
  destruct (fin s1) as [[u|e] s2] eqn:Ef; injection H as <- <-; exists k'; rewrite (Hfin _ _ _ Ef);
    (split; [done|]); (split; [exact Hk'|]); [exact Hall|done].
Qed.

Lemma ends_unchanged k e s s' :
  (k ≤ length lineage)%nat → ss_tx s = None → stage lineage d0 k (ss_db s) → committed s' = ss_db s → ends k (Err e) s'.
Proof. intros Hle Ht Hk Hc. exists k. split; [lia|]. by rewrite Hc. Qed.

Lemma locked_migrations_ends opts k s out s' :
  default tier1WalletMigrations (ro_migrations opts) = lineage →
  (k ≤ length lineage)%nat → ss_tx s = None → stage lineage d0 k (ss_db s) →
  locked_migrations opts s = (out, s') → ends k out s'.
Proof.
  intros Hl Hle Ht Hk H. assert (committed s = ss_db s) as Hc by (unfold committed; by rewrite Ht).
  unfold locked_migrations in H. rewrite action_bind_step in H. unfold check at 1 in H.
  destruct (acquireBoundMs opts) as [ms|e]; [|injection H as <- <-; by eapply (ends_unchanged _ _ s)].
  rewrite action_bind_step in H. unfold rethrow in H. destruct (take_migration_lock s) as [[u|e] s1] eqn:E1;
    apply (take_lock_spec _ _ _ Ht) in E1; [|injection H as <- <-; by eapply (ends_unchanged _ _ s)].
  destruct E1 as (Ht1 & Hp1 & Hd1). rewrite action_bind_step in H.
  destruct (set_search_path s1) as [[u'|e] s2] eqn:E2; cycle 1.
  { injection H as <- <-. eapply (ends_unchanged _ _ s); [done..|]. rewrite (set_path_committed _ _ _ E2).
    unfold committed. by rewrite Ht1. }
  apply run_inv in E2 as (_ & [[= <-] _]%server_ok). rewrite Hl in H.
  eapply (ends_finally k); [|by apply reset_committed|exact H]. intros out1 s3 E3.
  assert (at_stage lineage d0 k (set_path (Some [OwnSchema; Public]) (next s1))) as Hs.
  { split; [exact Ht1|]. split; [done|]. simpl. by rewrite Hd1. }
  apply (apply_lineage_stage lineage d0 Hcold k _ _ _ Hs Hle) in E3.
  destruct out1 as [u''|e]; [|destruct E3 as (k'' & ? & ?); by exists k''].
  exists (length lineage). split; [lia|]. split; [by apply at_stage_committed|done].
Qed.

Lemma runMigrationsImpl_ends opts rf k s out s' :
  default tier1WalletMigrations (ro_migrations opts) = lineage →
  (k ≤ length lineage)%nat → ss_tx s = None → stage lineage d0 k (ss_db s) →
  runMigrationsImpl opts rf s = (out, s') → ends k out s'.
Proof.
  intros Hl Hle Ht Hk H. unfold runMigrationsImpl in H. destruct rf as [e|].
  { injection H as <- <-. eapply (ends_unchanged _ _ s); [done..|]. unfold committed. by rewrite Ht. }
  destruct (try_finally _ _ _) as [r s1] eqn:E. injection H as <- <-. change (ends k r s1).
  eapply (ends_finally k); [|by apply unlock_committed|exact E]. intros out1 s2. by apply locked_migrations_ends.
Qed.
End prefix.

(** C7. Migrations are applied in order, each at most once, and recorded exactly. On a schema where
    the first [k] migrations of a lineage have been applied, whatever a run meets - a migration that
    fails, a statement refused, the connection lost before or after any statement, a [COMMIT] whose
    acknowledgement is lost, a failing [ROLLBACK] or clean-up - what is committed is the schema
    after the first [k'] migrations for some [k' >= k], with exactly those names in
    [_migrations]; and a run that resolves has applied them all. *)
Theorem migrations_in_order lineage `{!Lineage lineage} d0 opts at_use probe_server rf p s k :
  db_migrations d0 = None → default tier1WalletMigrations (ro_migrations at_use) = lineage →
  ss_tx s = None → (k ≤ length lineage)%nat → stage lineage d0 k (ss_db s) →
  let out := runMigrations opts at_use probe_server rf (p, s) in
  ∃ k', (k ≤ k' ≤ length lineage)%nat ∧ stage lineage d0 k' (committed out.2.2) ∧
    default [] (db_migrations (committed out.2.2)) = m_name <$> take k' lineage ∧
    (out.1 = Ok tt → k' = length lineage).
Proof.
  intros Hcold Hl Ht Hle Hk out.
  assert (ends lineage d0 k out.1 out.2.2) as (k' & Hk' & Hst & Hall).
  { assert (∀ e, ends lineage d0 k (Err e) s) as Hsame.
    { intros e. eapply (ends_unchanged _ _ _ _ s); [done..|]. unfold committed. by rewrite Ht. }
    subst out. unfold runMigrations. destruct (migrations_guard opts); [|apply Hsame].
    destruct (probeDurability _ _ _) as [[w|e] p1]; [|apply Hsame]. unfold rethrow. cbn [fst snd].
    destruct (runMigrationsImpl at_use rf s) as [[[]|e] s1] eqn:E;
      apply (runMigrationsImpl_ends lineage d0 Hcold _ _ k _ _ _ Hl Hle Ht Hk) in E; [exact E|].
    destruct E as (k' & ? & ? & _). by exists k'. }
  exists k'. split; [done|]. split; [done|]. split; [|done].
  rewrite (stage_names lineage d0 Hcold _ _ Hst). by destruct k'.
Qed.

(** ** The lineage of the wallet schema *)

(** A statement that does not touch [_migrations]. *)
Definition keeps_migrations (f : ddl) : Prop := ∀ path d d', f path d = Ok d' → db_migrations d' = db_migrations d.

Lemma no_effect_keeps : keeps_migrations no_effect.
Proof. by intros path d d' [= <-]. Qed.

Lemma create_keeps name relation d d' : create name relation d = Ok d' → db_migrations d' = db_migrations d.
Proof.
  unfold create. destruct (negb _); [done|]. destruct (db_relations d !! name); [done|]. by intros [= <-].
Qed.

Lemma create_table_keeps name columns constraints references fillfactor :
  keeps_migrations (create_table name columns constraints references fillfactor).
Proof. intros path d d'. unfold create_table. destruct (forallb _ _); [apply create_keeps|done]. Qed.

Lemma create_gist_table_keeps name columns constraints : keeps_migrations (create_gist_table name columns constraints).
Proof.
  intros path d d'. unfold create_gist_table. destruct (db_btree_gist d); [|done].
  case_bool_decide; [apply create_table_keeps|done].
Qed.

Lemma create_index_keeps name on_table definition : keeps_migrations (create_index name on_table definition).
Proof. intros path d d'. unfold create_index. destruct (is_table _ _); [apply create_keeps|done]. Qed.

Lemma create_btree_gist_keeps : keeps_migrations create_btree_gist.
Proof. intros path d d'. unfold create_btree_gist. destruct (db_btree_gist d), path; by intros [= <-]. Qed.

Lemma create_function_keeps name : keeps_migrations (create_or_replace_function name).
Proof. intros path d d'. unfold create_or_replace_function. destruct (negb _); [done|]. by intros [= <-]. Qed.

Lemma create_trigger_keeps name on_table function : keeps_migrations (create_trigger name on_table function).
Proof.
  intros path d d'. unfold create_trigger. destruct (negb (is_table _ _)); [done|]. destruct (negb _); [done|].
  destruct (db_triggers d !! _); [done|]. by intros [= <-].
Qed.

Lemma alter_fillfactor_keeps name n : keeps_migrations (alter_fillfactor name n).
Proof.
  intros path d d'. unfold alter_fillfactor. destruct (db_relations d !! name) as [[]|]; try done. by intros [= <-].
Qed.

Lemma add_column_keeps name column definition : keeps_migrations (add_column name column definition).
Proof.
  intros path d d'. unfold add_column. destruct (db_relations d !! name) as [[]|]; try done.
  case_bool_decide; [done|]. by intros [= <-].
Qed.

Create HintDb keeps.
#[export] Hint Resolve no_effect_keeps create_table_keeps create_gist_table_keeps create_index_keeps
  create_btree_gist_keeps create_function_keeps create_trigger_keeps alter_fillfactor_keeps add_column_keeps : keeps.

Lemma plan_all_keeps ups : Forall keeps_migrations ups → keeps_migrations (plan_all ups).
Proof.
  induction 1 as [|f ups Hf _ IH]; [apply no_effect_keeps|]. intros path d d'. simpl. unfold plan_seq.
  destruct (f path d) as [d1|] eqn:E; [|done]. simpl. intros H. by rewrite (IH _ _ _ H), (Hf _ _ _ E).
Qed.

#[export] Instance tier1WalletMigrations_lineage : Lineage tier1WalletMigrations.
Proof.
  split.
  - apply (bool_decide_eq_true_1 (NoDup (m_name <$> tier1WalletMigrations))). by vm_compute.
  - exists migration000, (tail tier1WalletMigrations). split; [done|]. intros path d d' H Hd.
    unfold plan_all, migration000, plan_seq, create_migrations_table, no_effect in H. simpl in H. rewrite Hd in H.
    simpl in H. by injection H as <-.
  - intros m path d d' Hm. apply plan_all_keeps.
    assert (Forall (λ m, Forall keeps_migrations (m_up m)) (tail tier1WalletMigrations)) as Hall.
    { unfold tier1WalletMigrations. simpl. repeat constructor; auto with keeps. }
    rewrite Forall_forall in Hall. by apply Hall.
Qed.

(** ** A run that nothing disturbs *)

(** A connection at rest, with no failure from outside to come. *)
Definition steady (s : Session) : Prop := calm s ∧ ss_tx s = None ∧ ss_aborted s = false.

(** In a transaction that nothing disturbs, a body does exactly its plan; when the plan fails, all
    that it leaves is for the [ROLLBACK] to undo. *)
Definition body_runs (body : act Session unit) (plan : ddl) : Prop := ∀ s c,
  calm s → ss_tx s = Some c → ss_aborted s = false →
  match plan (current_path s) (ss_db s) with
  | Ok d => body s = (Ok tt, set_db d s)
  | Err e => ∃ s', body s = (Err e, s') ∧ ss_tx s' = Some c ∧ ∀ d tx, set_tx d tx s' = set_tx d tx s
  end.

Lemma on_schema_runs (f : ddl) : body_runs (on_schema f) f.
Proof.
  intros s c Hs Ht Ha. unfold on_schema. rewrite run_calm by done. unfold server. rewrite Ha. simpl.
  destruct (f _ _) as [d|e]; [done|]. by exists (fail s).
Qed.

Lemma set_db_twice d d' s : set_db d (set_db d' s) = set_db d s.
Proof. done. Qed.

Lemma runs_seq body body' p q : body_runs body p → body_runs body' q → body_runs (body ;; body') (plan_seq p q).
Proof.
  intros B1 B2 s c Hs Ht Ha. pose proof (B1 s c Hs Ht Ha) as H1. unfold plan_seq.
  destruct (p (current_path s) (ss_db s)) as [d|e]; simpl.
  - pose proof (B2 (set_db d s) c Hs Ht Ha) as H2. simpl in H2. change (current_path (set_db d s)) with (current_path s) in H2.
    rewrite (action_bind_ok _ _ _ _ _ H1). destruct (q (current_path s) d) as [d'|e]; [by rewrite H2|].
    destruct H2 as (s' & Hb & Ht' & Hx). exists s'. split; [exact Hb|]. split; [exact Ht'|]. intros d' tx. by rewrite Hx.
  - destruct H1 as (s' & Hb & Ht' & Hx). exists s'. by rewrite (action_bind_err _ _ _ _ _ Hb).
Qed.

Lemma set_db_same s : set_db (ss_db s) s = s.
Proof. by destruct s. Qed.

Lemma runs_all ups : body_runs (for_each on_schema ups) (plan_all ups).
Proof.
  induction ups as [|f ups IH]; [|apply runs_seq; [apply on_schema_runs|exact IH]].
  intros s c Hs Ht Ha. simpl. by rewrite set_db_same.
Qed.

Lemma set_tx_rest s : ss_tx s = None → ss_aborted s = false → set_tx (ss_db s) None s = s.
Proof. destruct s; simpl. by intros -> ->. Qed.

Lemma BEGIN_calm s : steady s → BEGIN s = (Ok tt, set_tx (ss_db s) (Some (ss_db s)) s).
Proof. intros (Hs & Ht & Ha). unfold BEGIN. rewrite run_calm by done. unfold server. by rewrite Ha. Qed.

Lemma COMMIT_calm s : calm s → ss_aborted s = false → COMMIT s = (Ok tt, set_tx (ss_db s) None s).
Proof. intros Hs Ha. unfold COMMIT. rewrite run_calm by done. unfold server. by rewrite Ha. Qed.

Lemma ROLLBACK_calm s : calm s → ROLLBACK s = (Ok tt, set_tx (committed s) None s).
Proof. intros Hs. unfold ROLLBACK. rewrite run_calm by done. unfold server. simpl. by rewrite andb_false_r. Qed.

Lemma calm_set_tx s s' d tx : set_tx d tx s' = set_tx d tx s → calm s → calm s'.
Proof. destruct s, s'. unfold calm, set_tx. simpl. by intros [=] [-> ->]; subst. Qed.

(** A transaction that nothing disturbs: its plan, or nothing at all. *)
Lemma transaction_runs body plan s :
  body_runs body plan → steady s →
  withReservedTransaction body s =
    match plan (current_path s) (ss_db s) with Ok d => (Ok tt, set_db d s) | Err e => (Err e, s) end.
Proof.
  intros Hb Hs. unfold withReservedTransaction. rewrite (action_bind_ok _ _ _ _ _ (BEGIN_calm s Hs)).
  destruct Hs as (Hs & Ht & Ha). unfold commit_or_rollback.
  pose proof (Hb (set_tx (ss_db s) (Some (ss_db s)) s) (ss_db s) Hs eq_refl eq_refl) as H.
  change (current_path (set_tx (ss_db s) (Some (ss_db s)) s)) with (current_path s) in H. cbn [ss_db set_tx] in H.
  destruct (plan (current_path s) (ss_db s)) as [d|e].
  - rewrite (action_bind_ok _ _ _ _ _ H). rewrite COMMIT_calm by done.
    f_equal. destruct s; simpl in *. by subst.
  - destruct H as (s' & Hrun & Ht' & Hx). rewrite (action_bind_err _ _ _ _ _ Hrun).
    assert (calm s') as Hs'.
    { apply (calm_set_tx (set_tx (ss_db s) (Some (ss_db s)) s) s' (ss_db s) None); [apply Hx|exact Hs]. }
    rewrite ROLLBACK_calm by done.
    unfold committed. rewrite Ht'. simpl. f_equal. rewrite Hx.
    change (set_tx (ss_db s) None s = s). by apply set_tx_rest.
Qed.

Lemma run_migration_calm m s : steady s →
  run_migration m s =
    match apply_one m (current_path s) (ss_db s) with Ok d => (Ok tt, set_db d s) | Err e => (Err e, s) end.
Proof. apply transaction_runs, runs_seq; [apply runs_all|apply on_schema_runs]. Qed.

Lemma read_calm {A} (f : Database → result thrown A) s : steady s → read f s = (f (ss_db s), s).
Proof.
  intros (Hs & Ht & Ha). unfold read. rewrite run_calm by done. unfold server. rewrite Ha. simpl.
  destruct (f (ss_db s)) as [a|e]; [done|]. f_equal. unfold fail. rewrite Ht, Ha. simpl. destruct s; simpl in *. by subst.
Qed.

Lemma steady_set_db d s : steady s → steady (set_db d s).
Proof. done. Qed.

(** The loop of any lineage changes the schema and nothing else of the session. *)
Definition schema_only (m : act Session unit) : Prop := ∀ s, steady s → ∃ out d, m s = (out, set_db d s).

Lemma schema_only_migration m : schema_only (run_migration m).
Proof.
  intros s Hs. rewrite run_migration_calm by done. destruct (apply_one _ _ _) as [d|e]; [eauto|].
  exists (Err e), (ss_db s). by rewrite set_db_same.
Qed.

Lemma schema_only_seq (m m' : act Session unit) : schema_only m → schema_only m' → schema_only (m ;; m').
Proof.
  intros M M' s Hs. destruct (M s Hs) as ([[]|e] & d & H).
  - rewrite (action_bind_ok _ _ _ _ _ H). destruct (M' _ (steady_set_db d s Hs)) as (out & d' & H').
    exists out, d'. exact H'.
  - exists (Err e), d. by apply action_bind_err.
Qed.

Lemma schema_only_each {A} (f : A → act Session unit) l : (∀ x, schema_only (f x)) → schema_only (for_each f l).
Proof.
  intros Hf. induction l as [|x l IH]; [|by apply schema_only_seq].
  intros s Hs. exists (Ok tt), (ss_db s). by rewrite set_db_same.
Qed.

Lemma schema_only_read {A} (f : Database → result thrown A) (k : A → act Session unit) :
  (∀ a, schema_only (k a)) → schema_only (read f ≫= k).
Proof.
  intros Hk s Hs. rewrite action_bind_step, read_calm by done. destruct (f (ss_db s)) as [a|e]; [by apply Hk|].
  exists (Err e), (ss_db s). by rewrite set_db_same.
Qed.

Lemma schema_only_ret : schema_only (mret tt).
Proof. intros s Hs. exists (Ok tt), (ss_db s). by rewrite set_db_same. Qed.

Lemma apply_lineage_schema_only lineage : schema_only (apply_lineage lineage).
Proof.
  apply schema_only_seq; [|apply schema_only_each; intros m]; apply schema_only_read; intros [];
    try apply schema_only_ret; [|apply schema_only_migration].
  destruct lineage as [|m l]; [|apply schema_only_migration].
  intros s Hs. exists (Err undefined_migration), (ss_db s). rewrite set_db_same.
  rewrite (transaction_runs _ (λ _ _, Err undefined_migration)); [done| |done]. intros s' c _ Ht _. by exists s'.
Qed.

(** ** The lock and the clean-up, undisturbed *)

Lemma take_lock_calm s : steady s →
  take_migration_lock s =
    match ss_contender s with
    | None => (Ok tt, set_lockHeld true (set_locks (S (ss_locks s)) s))
    | Some e => (Err e, s)
    end.
Proof.
  intros Hs. unfold take_migration_lock, withReservedTransaction. rewrite (action_bind_ok _ _ _ _ _ (BEGIN_calm s Hs)).
  destruct Hs as (Hs & Ht & Ha). unfold commit_or_rollback, set_local_lock_timeout, advisory_lock.
  set (s1 := set_tx (ss_db s) (Some (ss_db s)) s).
  assert (run false Ok s1 = (Ok tt, s1)) as H1 by (by rewrite run_calm).
  rewrite !action_bind_step, H1. rewrite action_bind_step, run_calm by done. unfold server. simpl.
  destruct (ss_contender s) as [e|].
  - rewrite ROLLBACK_calm by done. f_equal. destruct s; simpl in *. by subst.
  - unfold note_lock. rewrite COMMIT_calm by done. f_equal. destruct s; simpl in *. by subst.
Qed.

(** The session a run gives back. *)
Definition given_back (d : Database) (s : Session) : Session :=
  set_db d (set_path None (set_reserved false (set_lockHeld true s))).

(** The session the loop runs on. *)
Definition in_run (s : Session) : Session :=
  set_path (Some migration_path) (set_lockHeld true (set_locks (S (ss_locks s)) (set_reserved true s))).

Lemma steady_in_run s : steady s → steady (in_run s).
Proof. done. Qed.

Lemma quiet_calm (f : Session → Session) s : steady s → run false (λ s', Ok (f s')) s = (Ok tt, f s).
Proof. intros (Hs & Ht & Ha). rewrite run_calm by done. unfold server. by rewrite Ha. Qed.

Lemma impl_calm opts s ms :
  steady s → ss_contender s = None → acquireBoundMs opts = Ok ms →
  ∃ out d, apply_lineage (default tier1WalletMigrations (ro_migrations opts)) (in_run s) = (out, set_db d (in_run s)) ∧
    runMigrationsImpl opts None s = (out, given_back d s).
Proof.
  intros Hs Hc Hms.
  destruct (apply_lineage_schema_only (default tier1WalletMigrations (ro_migrations opts)) _ (steady_in_run s Hs))
    as (out & d & Hrun). exists out, d. split; [exact Hrun|].
  unfold runMigrationsImpl, try_finally, locked_migrations. rewrite !action_bind_step. unfold check at 1. rewrite Hms.
  rewrite action_bind_step. unfold rethrow. rewrite take_lock_calm by done.
  change (ss_contender (set_lockHeld false (set_reserved true s))) with (ss_contender s). rewrite Hc.
  rewrite action_bind_step. unfold set_search_path. rewrite (quiet_calm (set_path (Some [OwnSchema; Public]))) by done.
  unfold try_finally. change (set_path (Some [OwnSchema; Public]) _) with (in_run s). rewrite Hrun.
  unfold reset_search_path. rewrite (quiet_calm (set_path None)) by done. unfold unlock_if_held. simpl.
  unfold advisory_unlock. rewrite (quiet_calm (λ s', set_locks (pred (ss_locks s')) s')) by done. by destruct s.
Qed.

Lemma impl_contended opts s ms e :
  steady s → ss_contender s = Some e → acquireBoundMs opts = Ok ms →
  runMigrationsImpl opts None s = (Err (acquire_catch (ro_schema opts) ms e), set_reserved false (set_lockHeld false s)).
Proof.
  intros Hs Hc Hms. unfold runMigrationsImpl, try_finally, locked_migrations. rewrite !action_bind_step.
  unfold check at 1. rewrite Hms, action_bind_step. unfold rethrow. rewrite take_lock_calm by done.
  change (ss_contender (set_lockHeld false (set_reserved true s))) with (ss_contender s). rewrite Hc.
  unfold unlock_if_held. by destruct s.
Qed.

(** ** Completion *)

Section completes.
Context (lineage : list Migration) `{!Lineage lineage} (d0 : Database) (Hcold : db_migrations d0 = None).
Context (dn : Database) (Hall : after lineage d0 = Ok dn).

Lemma next_migration k m d :
  stage lineage d0 k d → lineage !! k = Some m → ∃ d', apply_one m migration_path d = Ok d'.
Proof.
  intros Hk Hm. pose proof Hall as H. rewrite <-(take_drop_middle _ _ _ Hm), after_app in H.
  unfold stage in Hk. rewrite Hk in H. simpl in H. destruct (apply_one m migration_path d); [eauto|done].
Qed.

Lemma apply_unless_recorded_runs j k m s :
  steady s → at_stage lineage d0 k s → lineage !! j = Some m → (1 ≤ j ≤ k)%nat →
  ∃ d, apply_unless_recorded m s = (Ok tt, set_db d s).
Proof.
  intros Hs (Ht & Hp & Hk) Hm Hj. unfold apply_unless_recorded. rewrite action_bind_step, read_calm by done.
  unfold is_applied. rewrite (stage_names lineage d0 Hcold _ _ Hk). destruct k as [|k]; [lia|].
  case_bool_decide as Hin; [exists (ss_db s); by rewrite set_db_same|].
  rewrite (recorded_iff lineage j (S k) m) in Hin by done. assert (j = S k) as -> by lia.
  destruct (next_migration _ _ _ Hk Hm) as [d Hd]. exists d. rewrite run_migration_calm by done.
  unfold current_path. rewrite Hp. simpl. by rewrite Hd.
Qed.

Lemma loop_runs (l : list Migration) j k s :
  l = drop j lineage → steady s → at_stage lineage d0 k s → (1 ≤ j ≤ k)%nat → (k ≤ length lineage)%nat →
  ∃ d, for_each apply_unless_recorded l s = (Ok tt, set_db d s).
Proof.
  revert j k s. induction l as [|m l IH]; intros j k s Hl Hs Hst Hj Hle; [exists (ss_db s); by rewrite set_db_same|].
  assert (lineage !! j = Some m) as Hm by (rewrite <-(Nat.add_0_r j), <-lookup_drop, <-Hl; done).
  pose proof (lookup_lt_Some _ _ _ Hm) as Hlt.
  destruct (apply_unless_recorded_runs j k m s Hs Hst Hm Hj) as [d Hd].
  pose proof (apply_unless_recorded_stage lineage d0 Hcold _ _ _ _ _ _ Hst Hm Hj Hle Hd) as Hst'.
  rewrite (for_each_cons_ok _ _ _ _ _ Hd).
  destruct (IH (S j) (max k (S j)) (set_db d s)) as [d' Hd']; [|done|exact Hst'|lia|lia|by exists d'].
  rewrite (drop_S _ _ _ Hm) in Hl. by injection Hl.
Qed.

Lemma apply_lineage_runs k s :
  steady s → at_stage lineage d0 k s → (k ≤ length lineage)%nat →
  apply_lineage lineage s = (Ok tt, set_db dn s).
Proof.
  intros Hs Hst Hle.
  assert (∃ d, apply_lineage lineage s = (Ok tt, set_db d s)) as [d Hd].
  { destruct (lineage_bootstrap (lineage := lineage)) as (b & rest & El & _).
    assert (∃ d, bootstrap_lineage lineage s = (Ok tt, set_db d s) ∧ at_stage lineage d0 (max k 1) (set_db d s)) as (d & Hb & Hst').
    { unfold bootstrap_lineage. rewrite action_bind_step, read_calm by done. unfold bootstrapped.
      rewrite (stage_names lineage d0 Hcold _ _ (proj2 (proj2 Hst))). destruct k as [|k]; simpl.
      - assert (lineage !! O = Some b) as Hb by (by rewrite El).
        destruct (next_migration _ _ _ (proj2 (proj2 Hst)) Hb) as [d Hd].
        assert (run_migration b s = (Ok tt, set_db d s)) as Hrun.
        { rewrite run_migration_calm by done. unfold current_path. rewrite (proj1 (proj2 Hst)). simpl. by rewrite Hd. }
        exists d. split; [rewrite El; exact Hrun|]. exact (run_migration_stage lineage d0 _ _ _ _ _ Hst Hb Hrun).
      - exists (ss_db s). rewrite set_db_same. by rewrite Nat.max_l by lia. }
    assert (tail lineage = drop 1 lineage) as Htl by (by rewrite El).
    destruct (loop_runs _ 1 _ _ Htl (steady_set_db d s Hs) Hst' ltac:(lia)) as [d' Hd'].
    { rewrite El in *. simpl in *. lia. }
    exists d'. unfold apply_lineage. rewrite (action_bind_ok _ _ _ _ _ Hb). exact Hd'. }
  pose proof (apply_lineage_stage lineage d0 Hcold _ _ _ _ Hst Hle Hd) as (_ & _ & Hend).
  unfold stage in Hend. rewrite take_ge, Hall in Hend by lia. simpl in Hend. injection Hend as ->. exact Hd.
Qed.
End completes.

Lemma run_completes lineage `{!Lineage lineage} d0 dn opts at_use probe_server p s k ms :
  db_migrations d0 = None → after lineage d0 = Ok dn →
  default tier1WalletMigrations (ro_migrations at_use) = lineage →
  migrations_guard opts = Ok tt → acquireBoundMs at_use = Ok ms →
  is_ok (probeDurability probe_server (ro_allowFullPageWritesOff opts) p).1 = true →
  steady s → ss_contender s = None → (k ≤ length lineage)%nat → stage lineage d0 k (ss_db s) →
  let out := runMigrations opts at_use probe_server None (p, s) in
  out.1 = Ok tt ∧ out.2.2 = given_back dn s.
Proof.
  intros Hcold Hall Hl Hg Hms Hp Hs Hc Hle Hk out. subst out. unfold runMigrations. rewrite Hg. cbn [fst snd].
  destruct (probeDurability _ _ p) as [[w|e] p1]; [|done]. unfold rethrow.
  destruct (impl_calm at_use s ms Hs Hc Hms) as (r & d & Hrun & ->). rewrite Hl in Hrun.
  rewrite (apply_lineage_runs lineage d0 Hcold dn Hall k) in Hrun; [|done| |done]; cycle 1.
  { split; [exact (proj1 (proj2 Hs))|done]. }
  injection Hrun as <- Hd. by assert (dn = d) as -> by congruence.
Qed.

(** A run completes. With options that pass validation, a server the probe accepts, the lock free
    and no failure from outside, on a schema where the first [k] migrations have been applied, for
    any [k] up to all of them, [runMigrations] resolves with the schema after the whole lineage; at
    the last stage that is the schema it found, so a repeated run applies nothing. *)
Theorem migrations_complete lineage `{!Lineage lineage} d0 dn opts at_use probe_server p s k ms :
  db_migrations d0 = None → after lineage d0 = Ok dn →
  default tier1WalletMigrations (ro_migrations at_use) = lineage →
  migrations_guard opts = Ok tt → acquireBoundMs at_use = Ok ms →
  is_ok (probeDurability probe_server (ro_allowFullPageWritesOff opts) p).1 = true →
  steady s → ss_contender s = None → (k ≤ length lineage)%nat → stage lineage d0 k (ss_db s) →
  let out := runMigrations opts at_use probe_server None (p, s) in
  out.1 = Ok tt ∧ out.2.2 = given_back dn s ∧ (k = length lineage → dn = ss_db s).
Proof.
  intros Hcold Hall Hl Hg Hms Hp Hs Hc Hle Hk out.
  destruct (run_completes lineage d0 dn opts at_use probe_server p s k ms) as [Hok Hd]; [done..|].
  split; [exact Hok|]. split; [exact Hd|].
  intros ->. unfold stage in Hk. rewrite take_ge, Hall in Hk by lia. by injection Hk.
Qed.

Lemma runMigrationsImpl_released opts rf s :
  ss_reserved s = false → ss_reserved (runMigrationsImpl opts rf s).2 = false.
Proof. intros Hr. unfold runMigrationsImpl. destruct rf; [done|]. by destruct (try_finally _ _ _). Qed.

(** The reserved connection is given back on every path, whatever fails. And when nothing fails
    from outside - whether the migrations themselves apply, fail midway or never start because the
    lock is taken - it goes back to the pool as it came: with no transaction open, no search path
    set and the migration lock no more held than before. *)
Theorem migrations_give_back opts at_use probe_server rf p s :
  ss_reserved s = false →
  let s' := (runMigrations opts at_use probe_server rf (p, s)).2.2 in
  ss_reserved s' = false ∧
  (steady s → ss_path s = None →
    steady s' ∧ ss_path s' = None ∧ ss_locks s' = ss_locks s ∧ ss_contender s' = ss_contender s).
Proof.
  intros Hr s'. subst s'. unfold runMigrations. destruct (migrations_guard opts); [|done].
  destruct (probeDurability _ _ _) as [[w|e] p1]; [|done]. unfold rethrow. cbn [fst snd].
  pose proof (runMigrationsImpl_released at_use rf s Hr) as Hrel.
  destruct (runMigrationsImpl at_use rf s) as [r s1] eqn:E.
  enough (steady s → ss_path s = None →
    steady s1 ∧ ss_path s1 = None ∧ ss_locks s1 = ss_locks s ∧ ss_contender s1 = ss_contender s) by (by destruct r).
  clear Hrel. intros Hs Hp. destruct rf as [e|]; [by injection E as _ <-|].
  destruct (acquireBoundMs at_use) as [ms|e] eqn:Hms; cycle 1.
  { unfold runMigrationsImpl, try_finally, locked_migrations in E. rewrite !action_bind_step in E.
    unfold check at 1 in E. rewrite Hms in E. by injection E as _ <-. }
  destruct (ss_contender s) as [e|] eqn:Hc.
  - rewrite (impl_contended _ _ _ _ Hs Hc Hms) in E. by injection E as _ <-.
  - destruct (impl_calm at_use s ms Hs Hc Hms) as (out & d & _ & Hrun). rewrite Hrun in E. by injection E as _ <-.
Qed.

(** A migration lock that another session holds: the run applies nothing. When the wait ends by
    the lock timeout or the statement timeout the error is a [MigrationLockTimeoutError] with the
    schema, the bound and the driver's error, marked retryable; any other end is translated as
    every driver error is. *)
Theorem migration_lock_contended opts at_use probe_server p s ms e :
  migrations_guard opts = Ok tt → acquireBoundMs at_use = Ok ms →
  is_ok (probeDurability probe_server (ro_allowFullPageWritesOff opts) p).1 = true →
  steady s → ss_contender s = Some e →
  let out := runMigrations opts at_use probe_server None (p, s) in
  ss_db out.2.2 = ss_db s ∧
  out.1 = Err (if isLockTimeout e || isStatementTimeout e then MigrationLockTimeoutError (ro_schema at_use) ms e
               else translatePostgresError e None) ∧
  error_retryable (MigrationLockTimeoutError (ro_schema at_use) ms e) = Some retryable.
Proof.
  intros Hg Hms Hp Hs Hc out. subst out. unfold runMigrations. rewrite Hg. cbn [fst snd].
  destruct (probeDurability _ _ p) as [[w|e'] p1]; [|done]. unfold rethrow.
  rewrite (impl_contended _ _ _ _ Hs Hc Hms). split; [done|]. split; [|done]. unfold acquire_catch.
  by destruct (isLockTimeout e || isStatementTimeout e).
Qed.

(** ** The probe *)

Lemma probe_judges probe_server allow p fsync sync fpw pid acquired visible :
  pv_reserve probe_server = None → pv_setting probe_server "fsync" = Ok fsync →
  pv_setting probe_server "synchronous_commit" = Ok sync → pv_setting probe_server "full_page_writes" = Ok fpw →
  pv_pid probe_server = Ok pid → pv_acquired probe_server = Ok acquired → pv_visible probe_server = Ok visible →
  (probeDurability probe_server allow p).1 =
    let violations := probe_violations fsync fpw (default false allow) in
    if bool_decide (violations = []) then
      if acquired && (visible <? 1) then Err TransactionPoolerDetectedError
      else Ok (option_list (classifySynchronousCommit sync))
    else Err (DurabilityContractError violations).
Proof.
  intros Hr Hf Hsy Hw Hpid Ha Hv. unfold probeDurability, probe_reserved, probeAdvisoryLockVisibility.
  rewrite Hr, Hf, Hsy, Hw, Hpid, Ha, Hv. unfold check, throw, mbind, action_bind, mret, action_ret. cbn zeta.
  case_bool_decide; [|done]. destruct acquired; [|done]. cbn [negb fst snd andb].
  unfold assertNoTransactionPooler. cbn [negb]. by destruct (visible <? 1).
Qed.

(** C35. The probe gates the migrations. On a server that answers it, a run is refused exactly when
    [fsync] is off, or [full_page_writes] is off without the caller's override, or a lock that was
    acquired is not visible to the next query of the same session; the refusal is a typed,
    non-retryable error and no statement was sent on the migration connection. Otherwise the
    migrations run - with a warning, and no more, when [synchronous_commit] is off. *)
Theorem probe_gates_migrations opts at_use probe_server rf p s fsync sync fpw pid acquired visible :
  migrations_guard opts = Ok tt → pv_reserve probe_server = None → pv_setting probe_server "fsync" = Ok fsync →
  pv_setting probe_server "synchronous_commit" = Ok sync → pv_setting probe_server "full_page_writes" = Ok fpw →
  pv_pid probe_server = Ok pid → pv_acquired probe_server = Ok acquired → pv_visible probe_server = Ok visible →
  let out := runMigrations opts at_use probe_server rf (p, s) in
  let unsafe := fsync = "off" ∨ (fpw = "off" ∧ ro_allowFullPageWritesOff opts ≠ Some true) in
  (unsafe → ∃ vs, out.1 = Err (DurabilityContractError vs) ∧ vs ≠ [] ∧ out.2.2 = s) ∧
  (¬ unsafe → acquired = true ∧ visible < 1 → out.1 = Err TransactionPoolerDetectedError ∧ out.2.2 = s) ∧
  (¬ unsafe → ¬ (acquired = true ∧ visible < 1) →
    out.2.2 = (runMigrationsImpl at_use rf s).2 ∧ is_ok out.1 = is_ok (runMigrationsImpl at_use rf s).1).
Proof.
  intros Hg Hr Hf Hsy Hw Hpid Ha Hv out unsafe.
  pose proof (probe_judges _ (ro_allowFullPageWritesOff opts) p _ _ _ _ _ _ Hr Hf Hsy Hw Hpid Ha Hv) as Hj. cbn zeta in Hj.
  assert (probe_violations fsync fpw (default false (ro_allowFullPageWritesOff opts)) = [] ↔ ¬ unsafe) as Hiff.
  { rewrite probe_violations_none. unfold unsafe. destruct (ro_allowFullPageWritesOff opts) as [[]|]; simpl;
      destruct (String.eqb_spec fsync "off"), (String.eqb_spec fpw "off"); naive_solver. }
  subst out. unfold runMigrations. rewrite Hg. cbn [fst snd].
  destruct (probeDurability _ _ p) as [o p1]. cbn [fst] in Hj. subst o. split; [|split].
  - intros Hu. rewrite bool_decide_false by (rewrite Hiff; tauto).
    exists (probe_violations fsync fpw (default false (ro_allowFullPageWritesOff opts))). split; [done|].
    split; [rewrite Hiff; tauto|done].
  - intros Hu [-> Hvis]. rewrite bool_decide_true by (by apply Hiff). rewrite (proj2 (Z.ltb_lt _ _) Hvis). done.
  - intros Hu Hvis. rewrite bool_decide_true by (by apply Hiff).
    assert (acquired && (visible <? 1) = false) as ->.
    { destruct acquired; [|done]. apply Z.ltb_ge. destruct (Z.lt_ge_cases visible 1); [by destruct Hvis|done]. }
    unfold rethrow. by destruct (runMigrationsImpl at_use rf s) as [[]].
Qed.

(** ** A wallet schema, concretely *)

Definition cold : Database := {|
  db_schema := false; db_migrations := None; db_relations := ∅; db_functions := ∅; db_triggers := ∅;
  db_btree_gist := Some Public;
|}.
Definition demo_session (d : Database) (faults : list (option Fault)) (contender : option thrown) : Session := {|
  ss_db := d; ss_tx := None; ss_aborted := false; ss_locks := O; ss_contender := contender; ss_path := None;
  ss_alive := true; ss_reserved := false; ss_faults := faults; lockHeld := false;
|}.
Definition demo_options : RunMigrationsOptions := {|
  ro_schema := js "tier1_wallet"; ro_migrations := None; ro_allowFullPageWritesOff := None;
  ro_migrationLockTimeoutMs := None;
|}.
Definition demo_server (fsync : string) : ProbeServer := {|
  pv_reserve := None; pv_setting := λ name, Ok (if String.eqb name "fsync" then fsync else "on"); pv_pid := Ok 7;
  pv_acquired := Ok true; pv_visible := Ok 1; pv_unlocks := true;
|}.
Definition demo_probe : ProbeSession := {| pb_sentinels := O; pb_reserved := false |}.

(** The connection is lost in the middle of the third migration. *)
Definition demo_faults : list (option Fault) := replicate 28 None ++ [Some (Lost connection_closed)].
Definition demo_run (d : Database) (faults : list (option Fault)) (contender : option thrown) :=
  runMigrations demo_options demo_options (demo_server "on") None (demo_probe, demo_session d faults contender).

Lemma demo_interrupted :
  is_ok (demo_run cold demo_faults None).1 = false ∧
  db_migrations (committed (demo_run cold demo_faults None).2.2) = Some ["000_schema"; "001_temporal_kv"].
Proof. by vm_compute. Qed.

Lemma migrations_in_order_witness :
  ∃ k', (0 ≤ k' ≤ length tier1WalletMigrations)%nat ∧
    stage tier1WalletMigrations cold k' (committed (demo_run cold demo_faults None).2.2).
Proof.
  destruct (migrations_in_order tier1WalletMigrations cold demo_options demo_options (demo_server "on") None demo_probe
    (demo_session cold demo_faults None) 0 eq_refl eq_refl eq_refl ltac:(lia) eq_refl) as (k' & Hle & Hst & _ & _).
  exists k'. split; [exact Hle|exact Hst].
Defined.

(** The schema after the whole lineage. *)
Definition migrated : Database :=
  match after tier1WalletMigrations cold with Ok d => d | Err _ => cold end.
Lemma demo_after : after tier1WalletMigrations cold = Ok migrated.
Proof.
  assert (is_ok (after tier1WalletMigrations cold) = true) as H by (by vm_compute).
  unfold migrated. by destruct (after tier1WalletMigrations cold).
Qed.

Lemma migrations_complete_witness :
  (demo_run cold [] None).1 = Ok tt ∧ ss_db (demo_run cold [] None).2.2 = migrated.
Proof.
  destruct (migrations_complete tier1WalletMigrations cold migrated demo_options demo_options (demo_server "on") demo_probe
    (demo_session cold [] None) 0 30000 eq_refl demo_after eq_refl eq_refl eq_refl eq_refl
    (conj (conj eq_refl eq_refl) (conj eq_refl eq_refl)) eq_refl ltac:(lia) eq_refl) as (H1 & H2 & _).
  split; [exact H1|]. exact (f_equal ss_db H2).
Defined.

Lemma migrations_give_back_witness :
  ss_reserved (demo_run cold demo_faults None).2.2 = false.
Proof.
  exact (proj1 (migrations_give_back demo_options demo_options (demo_server "on") None demo_probe
    (demo_session cold demo_faults None) eq_refl)).
Defined.

Definition lock_wait_expired : thrown := pg_error "55P03" "canceling statement due to lock timeout" None.

Lemma migration_lock_contended_witness :
  (demo_run cold [] (Some lock_wait_expired)).1
    = Err (MigrationLockTimeoutError (js "tier1_wallet") 30000 lock_wait_expired).
Proof.
  exact (proj1 (proj2 (migration_lock_contended demo_options demo_options (demo_server "on") demo_probe
    (demo_session cold [] (Some lock_wait_expired)) 30000 lock_wait_expired eq_refl eq_refl eq_refl
    (conj (conj eq_refl eq_refl) (conj eq_refl eq_refl)) eq_refl))).
Defined.

Lemma probe_gates_migrations_witness :
  ∃ vs, (runMigrations demo_options demo_options (demo_server "off") None (demo_probe, demo_session cold [] None)).1
    = Err (DurabilityContractError vs) ∧ vs ≠ [].
Proof.
  destruct (proj1 (probe_gates_migrations demo_options demo_options (demo_server "off") None demo_probe
    (demo_session cold [] None) "off" "on" "on" 7 true 1 eq_refl eq_refl eq_refl eq_refl eq_refl eq_refl eq_refl eq_refl)
    (or_introl eq_refl)) as (vs & H1 & H2 & _).
  exists vs. split; [exact H1|exact H2].
Defined.

(** A lock granted by a statement that is then seen to fail - a cancellation that comes after the
    grant - is not [lockHeld]: the connection goes back to the pool alive and still holding it. *)
Example late_grant_keeps_lock :
  let s' := (demo_run cold [None; None; Some (Late lock_wait_expired)] None).2.2 in
  ss_alive s' = true ∧ ss_reserved s' = false ∧ ss_locks s' = 1%nat.
Proof. by vm_compute. Qed.
