(* ===== verification/ChainArchiveMigrations.v ===== *)
(** * The chain archive's own lineage, and the loop that fills it

    Models [src/postgres/migrations/chain_archive/001_chain_archive_core.ts] as the statements its
    [up] sends, [migrations/chain_archive/index.ts], [chain-archive-sync/bootstrap.ts], and the loop
    of [chain-archive-sync/sync-cli.ts]. What the tables, constraints and triggers then do is
    modelled in [ChainArchive]; the partitions are those [Rollover] starts from. *)

From S2P Require Import Prelude Text Literals Json Errors Transaction Driver Checkpoint Hex.
From S2P Require Import ChainArchive ChainArchiveStore SyncClients SyncService.
From S2P Require Import Client Rollover DurabilityProbe Migrations Migrate.

Local Open Scope Z_scope.

(** ** Further statements *)

Definition function_exists : thrown := pg_error "42723" "function already exists with same argument types" None.
Definition not_partitioned : thrown := pg_error "42P17" "table is not partitioned" None.
Definition partitions_overlap : thrown := pg_error "42P17" "partition would overlap partition" None.

(** [CREATE FUNCTION]: bodies in [plpgsql] name their tables only when they run. *)
Definition create_function (name : string) : ddl := λ path d,
  if bool_decide (name ∈ db_functions d) then Err function_exists
  else create_or_replace_function name path d.

Definition is_partitioned (d : Database) (name : string) : bool :=
  match db_relations d !! name with
  | Some (Table _ constraints _) => existsb (String.prefix "PARTITION BY RANGE") constraints
  | _ => false
  end.

(** Two partitions of one table that could take the same row. *)
Definition bounds_overlap (b1 b2 : option (Z * Z)) : bool :=
  match b1, b2 with
  | Some (lo1, hi1), Some (lo2, hi2) => (lo1 <? hi2) && (lo2 <? hi1)
  | None, None => true
  | _, _ => false
  end.

Definition sibling_overlaps (parent : string) (bounds : option (Z * Z)) (d : Database) : bool :=
  existsb (λ nr : string * Relation_, match nr.2 with
    | Partition parent' bounds' => String.eqb parent' parent && bounds_overlap bounds bounds'
    | _ => false
    end) (map_to_list (db_relations d)).

(** [CREATE TABLE name PARTITION OF parent ..]: the default partition of a new table is empty, so
    no bound conflicts with its rows. *)
Definition create_partition (name parent : string) (bounds : option (Z * Z)) : ddl := λ _ d,
  if negb (is_table d parent) then Err no_such_table
  else if negb (is_partitioned d parent) then Err not_partitioned
  else if sibling_overlaps parent bounds d then Err partitions_overlap
  else create name (Partition parent bounds) d.

(** ** The migration *)

Definition string_of (s : jsstr) : string := String.string_of_list_ascii (Ascii.ascii_of_N <$> s).

(** The statements of [createHeightPartitions], with the names and bounds of [Rollover]. *)
Definition height_partitions (t : RolloverTable) : list ddl :=
  (λ nb : jsstr * Bound,
     create_partition (string_of nb.1) (string_of (table_name t))
       (match nb.2 with Range lo hi => Some (lo, hi) | Rollover.Default => None end))
  <$> createHeightPartitions t.

Definition hash32 (column : string) : string :=
  "bytea NOT NULL CHECK (octet_length(" +:+ column +:+ ") = 32)".

Definition blob_ref : string := "bytea NOT NULL REFERENCES chain_blobs(hash)".

Definition create_chain_blobs : list ddl := [
  create_table "chain_blobs"
    [("hash", "bytea PRIMARY KEY CHECK (octet_length(hash) = 32)"); ("data", "bytea NOT NULL");
     ("size_bytes", "integer GENERATED ALWAYS AS (octet_length(data)) STORED");
     ("created_at", "timestamptz NOT NULL DEFAULT now()")]
    [] [] None;
  create_table "chain_blob_roles"
    [("blob_hash", blob_ref);
     ("role", "text NOT NULL CHECK (role IN ('block_header', 'block_body', 'tx_raw', 'proof', 'verifier_key', 'bridge_observation'))")]
    ["PRIMARY KEY (blob_hash, role)"] ["chain_blobs"] None;
  create_index "chain_blob_roles_by_role" "chain_blob_roles" "(role)";
  create_function "chain_archive_assert_blob_role"].

Definition create_blocks : list ddl :=
  [create_table "blocks"
    [("net", "text NOT NULL"); ("block_hash", hash32 "block_hash"); ("height", "bigint NOT NULL CHECK (height >= 0)");
     ("parent_hash", hash32 "parent_hash"); ("state_root", hash32 "state_root");
     ("extrinsics_root", hash32 "extrinsics_root"); ("author", "bytea"); ("header_blob_hash", blob_ref);
     ("body_blob_hash", "bytea REFERENCES chain_blobs(hash)"); ("is_canonical", "boolean NOT NULL DEFAULT false");
     ("status", "text NOT NULL DEFAULT 'seen' CHECK (status IN ('seen', 'canonical', 'orphaned', 'pruned'))");
     ("finalized", "boolean NOT NULL DEFAULT false"); ("synced_at", "timestamptz NOT NULL DEFAULT now()")]
    ["CHECK ((status = 'canonical') = is_canonical)"; "CHECK (NOT finalized OR is_canonical)";
     "PRIMARY KEY (net, height, block_hash)"; "PARTITION BY RANGE (height)"]
    ["chain_blobs"] None] ++
  height_partitions T_blocks ++
  [create_index "blocks_one_canonical_per_height" "blocks" "UNIQUE (net, height) WHERE is_canonical";
   create_index "blocks_by_hash" "blocks" "(block_hash)";
   create_index "blocks_by_parent" "blocks" "(parent_hash)";
   create_function "blocks_check_blob_roles";
   create_trigger "blocks_blob_roles_trigger" "blocks" "blocks_check_blob_roles";
   create_function "blocks_enforce_finalized_monotonic";
   create_trigger "blocks_finalized_monotonic_trigger" "blocks" "blocks_enforce_finalized_monotonic"].

Definition blocks_fk : string :=
  "FOREIGN KEY (net, block_height, block_hash) REFERENCES blocks (net, height, block_hash)".

Definition create_transactions : list ddl :=
  [create_table "transactions"
    [("net", "text NOT NULL"); ("tx_hash", hash32 "tx_hash");
     ("block_height", "bigint NOT NULL CHECK (block_height >= 0)"); ("block_hash", hash32 "block_hash");
     ("position", "integer NOT NULL CHECK (position >= 0)");
     ("kind", "text NOT NULL CHECK (kind IN ('regular', 'system'))");
     ("protocol_version", "integer NOT NULL CHECK (protocol_version >= 0)");
     ("result", "text CHECK (result IN ('success', 'partial_success', 'failure') OR result IS NULL)");
     ("raw_blob_hash", blob_ref); ("synced_at", "timestamptz NOT NULL DEFAULT now()")]
    ["PRIMARY KEY (net, block_height, block_hash, tx_hash)"; "UNIQUE (net, block_height, block_hash, position)";
     blocks_fk; "PARTITION BY RANGE (block_height)"]
    ["chain_blobs"; "blocks"] None] ++
  height_partitions T_transactions ++
  [create_index "transactions_by_hash" "transactions" "(tx_hash)";
   create_function "transactions_check_blob_roles";
   create_trigger "transactions_blob_roles_trigger" "transactions" "transactions_check_blob_roles"].

Definition create_bridge_observations : list ddl :=
  [create_table "bridge_observations"
    [("net", "text NOT NULL"); ("block_height", "bigint NOT NULL CHECK (block_height >= 0)");
     ("block_hash", hash32 "block_hash"); ("observation_index", "integer NOT NULL CHECK (observation_index >= 0)");
     ("kind", "text NOT NULL CHECK (kind IN ('cnight_registration', 'system_parameters_d', 'spo_registration', 'other'))");
     ("raw_blob_hash", blob_ref); ("synced_at", "timestamptz NOT NULL DEFAULT now()")]
    ["PRIMARY KEY (net, block_height, block_hash, observation_index)"; blocks_fk;
     "PARTITION BY RANGE (block_height)"]
    ["chain_blobs"; "blocks"] None] ++
  height_partitions T_bridge_observations ++
  [create_index "bridge_observations_by_kind" "bridge_observations" "(kind)";
   create_function "bridge_observations_check_blob_roles";
   create_trigger "bridge_observations_blob_roles_trigger" "bridge_observations"
     "bridge_observations_check_blob_roles"].

Definition create_verifier_key_observations : list ddl := [
  create_table "verifier_key_observations"
    [("id", "bigint GENERATED ALWAYS AS IDENTITY PRIMARY KEY"); ("vk_hash", blob_ref); ("net", "text NOT NULL");
     ("scope", "text NOT NULL CHECK (scope IN ('protocol', 'contract'))"); ("tag", "text NOT NULL");
     ("contract_address", "bytea"); ("first_seen_height", "bigint NOT NULL CHECK (first_seen_height >= 0)");
     ("synced_at", "timestamptz NOT NULL DEFAULT now()")]
    ["CHECK ((scope = 'contract') = (contract_address IS NOT NULL))";
     "UNIQUE NULLS NOT DISTINCT (vk_hash, net, scope, contract_address, tag)"]
    ["chain_blobs"] None;
  create_index "verifier_key_observations_by_contract" "verifier_key_observations"
    "(contract_address) WHERE contract_address IS NOT NULL";
  create_function "verifier_key_observations_check_blob_roles";
  create_trigger "verifier_key_observations_blob_roles_trigger" "verifier_key_observations"
    "verifier_key_observations_check_blob_roles"].

Definition create_role_guard : list ddl := [
  create_function "chain_archive_assert_role_removable";
  create_function "chain_blob_roles_guard_removal";
  create_trigger "chain_blob_roles_guard_removal_trigger" "chain_blob_roles" "chain_blob_roles_guard_removal"].

Definition create_archive_watermarks : list ddl := [
  create_table "watermarks"
    [("kind", "text NOT NULL"); ("key", "text NOT NULL"); ("value", "jsonb NOT NULL");
     ("updated_at", "timestamptz NOT NULL DEFAULT now()")]
    ["PRIMARY KEY (kind, key)"] [] (Some 90)].

(** [assertValidSchemaName(schema)] at its top repeats the runner's own check. *)
Definition chainArchiveCore : Migration :=
  {| m_name := "001_chain_archive_core";
     m_up := create_chain_blobs ++ create_blocks ++ create_transactions ++ create_bridge_observations ++
             create_verifier_key_observations ++ create_role_guard ++ create_archive_watermarks |}.

Definition chainArchiveMigrations : list Migration := [migration000; chainArchiveCore].

(** ** The bootstrap *)

Definition bootstrap_options (schema : option jsstr) : RunMigrationsOptions :=
  {| ro_schema := default (js "chain_archive") schema; ro_migrations := Some chainArchiveMigrations;
     ro_allowFullPageWritesOff := None; ro_migrationLockTimeoutMs := None |}.

Definition bootstrapChainArchiveSchema (schema : option jsstr) (probe_server : ProbeServer)
    (reserve_fault : option thrown) : act (ProbeSession * Session) unit :=
  runMigrations (bootstrap_options schema) (bootstrap_options schema) probe_server reserve_fault.

(** ** The loop of the command line *)

Inductive LogLine :=
  | Synced (height : option Z) (ingested tip : Z)
  | Failed (e : thrown).

Section cli.
Context {S : Type} `{!Part S ArchiveDb} `{!SqlBegin S} `{!TextBinding} `{!JsonBinding} `{!Sha256}.
Context (net : jsstr) (MAX_BLOCKS : Z).

(** One turn of the loop: what it logs, and how long it then waits, in milliseconds. *)
Definition cli_turn (node : Node) (indexer : Indexer) (s : Service S) : LogLine * Z * Service S :=
  match (r ← syncOnce net node indexer (Some MAX_BLOCKS);
         height ← on_store (getSyncedHeight net);
         mret (r, height)) s with
  | (Ok (r, height), s') =>
      (Synced height (ingestedBlocks r) (targetTipHeight r), if ingestedBlocks r =? 0 then 10000 else 0, s')
  | (Err e, s') => (Failed e, 15000, s')
  end.

(** The turns until a signal sets [stop]; what the node and the indexer answer in each. *)
Fixpoint cli_loop (turns : list (Node * Indexer)) (s : Service S) : list (LogLine * Z) * Service S :=
  match turns with
  | [] => ([], s)
  | (node, indexer) :: turns' =>
      let '(line, wait, s1) := cli_turn node indexer s in
      let (lines, s2) := cli_loop turns' s1 in
      ((line, wait) :: lines, s2)
  end.
End cli.
