(* ===== verification/ChainArchiveBootstrap.v ===== *)
(** * The chain archive's lineage and loop: their theorems

    The archive's lineage is one the runner's theorems apply to; bootstrapping a fresh schema
    succeeds and leaves the partitions [Rollover] starts from and every guard trigger in place; and
    the loop of the command line keeps going whatever a turn meets, without a gap. *)

From S2P Require Import Prelude Text Literals Json Errors Transaction Driver Checkpoint Hex.
From S2P Require Import ChainArchive ChainArchiveStore ChainArchiveSpec ChainArchiveDemo SyncClients SyncService.
From S2P Require Import SyncServiceSpec SyncServiceTheorems.
From S2P Require Import Client Rollover DurabilityProbe Migrations Migrate MigrateSpec MigrateTheorems.
From S2P Require Import ChainArchiveMigrations.

Local Open Scope Z_scope.

(** ** The lineage *)

Lemma create_new_function_keeps name : keeps_migrations (create_function name).
Proof.
  intros path d d'. unfold create_function. case_bool_decide; [done|]. apply create_function_keeps.
Qed.

Lemma create_partition_keeps name parent bounds : keeps_migrations (create_partition name parent bounds).
Proof.
  intros path d d'. unfold create_partition. repeat (destruct (_ : bool); [done|]). apply create_keeps.
Qed.

Lemma height_partitions_keep t : Forall keeps_migrations (height_partitions t).
Proof. apply Forall_fmap, Forall_true. intros nb. apply create_partition_keeps. Qed.

#[local] Hint Resolve create_new_function_keeps create_partition_keeps height_partitions_keep : keeps.

#[export] Instance chainArchiveMigrations_lineage : Lineage chainArchiveMigrations.
Proof.
  split.
  - apply (bool_decide_eq_true_1 (NoDup (m_name <$> chainArchiveMigrations))). by vm_compute.
  - exists migration000, [chainArchiveCore]. split; [done|].
    destruct (lineage_bootstrap (lineage := tier1WalletMigrations)) as (m & rest & [= <- _] & H). exact H.
  - intros m path d d' ->%list_elem_of_singleton. apply plan_all_keeps. unfold chainArchiveCore. simpl.
    repeat apply Forall_app_2; repeat constructor; auto with keeps.
Qed.

(** ** The schema it leaves *)

(** A schema nothing has been created in; the schema itself and the extension may be there. *)
Definition fresh (schema : bool) (btree_gist : option SearchEntry) : Database :=
  {| db_schema := schema; db_migrations := None; db_relations := ∅; db_functions := ∅;
     db_triggers := ∅; db_btree_gist := btree_gist |}.

Definition archive_schema (btree_gist : option SearchEntry) : Database :=
  match after chainArchiveMigrations (fresh true btree_gist) with
  | Ok d => d
  | Err _ => fresh true btree_gist
  end.

Lemma after_fresh schema btree_gist :
  after chainArchiveMigrations (fresh schema btree_gist) = Ok (archive_schema btree_gist).
Proof.
  unfold archive_schema.
  assert (after chainArchiveMigrations (fresh schema btree_gist) =
          after chainArchiveMigrations (fresh true btree_gist)) as ->.
  { unfold chainArchiveMigrations. cbn [after].
    assert (apply_one migration000 migration_path (fresh schema btree_gist) =
            apply_one migration000 migration_path (fresh true btree_gist)) as ->; [by destruct schema|done]. }
  assert (is_ok (after chainArchiveMigrations (fresh true btree_gist)) = true) as Hok
    by (vm_compute; reflexivity).
  destruct (after _ _); [reflexivity|discriminate Hok].
Qed.

(** The partitions of a table, with their bounds. *)
Definition partitions_of (t : RolloverTable) (d : Database) : list (string * option (Z * Z)) :=
  omap (λ nr : string * Relation_, match nr.2 with
    | Partition parent bounds =>
        if String.eqb parent (string_of (table_name t)) then Some (nr.1, bounds) else None
    | _ => None
    end) (map_to_list (db_relations d)).

Definition starting_partitions (t : RolloverTable) : list (string * option (Z * Z)) :=
  (λ nb : jsstr * Bound,
     (string_of nb.1, match nb.2 with Range lo hi => Some (lo, hi) | Rollover.Default => None end))
  <$> createHeightPartitions t.

(** Every trigger of the archive: its table, its name, the function it runs. *)
Definition archive_triggers : list (string * string * string) := [
  ("blocks", "blocks_blob_roles_trigger", "blocks_check_blob_roles");
  ("blocks", "blocks_finalized_monotonic_trigger", "blocks_enforce_finalized_monotonic");
  ("transactions", "transactions_blob_roles_trigger", "transactions_check_blob_roles");
  ("bridge_observations", "bridge_observations_blob_roles_trigger", "bridge_observations_check_blob_roles");
  ("verifier_key_observations", "verifier_key_observations_blob_roles_trigger",
   "verifier_key_observations_check_blob_roles");
  ("chain_blob_roles", "chain_blob_roles_guard_removal_trigger", "chain_blob_roles_guard_removal")].

(** Decides [l ≡ₚ k] for lists without repeats. *)
Definition same_rows {A} `{EqDecision A} (l k : list A) : bool :=
  bool_decide (NoDup l) && bool_decide (NoDup k) && forallb (λ x, bool_decide (x ∈ k)) l &&
  forallb (λ x, bool_decide (x ∈ l)) k.

Lemma same_rows_Permutation {A} `{EqDecision A} (l k : list A) : same_rows l k = true → l ≡ₚ k.
Proof.
  unfold same_rows. rewrite !andb_true_iff, !bool_decide_eq_true, !forallb_forall.
  intros [[[Hl Hk] H1] H2]. apply NoDup_Permutation; [done|done|]. intros x.
  split; intros Hx%list_elem_of_In; [apply H1 in Hx|apply H2 in Hx]; by apply bool_decide_eq_true in Hx.
Qed.

Lemma archive_schema_complete g :
  db_migrations (archive_schema g) = Some (m_name <$> chainArchiveMigrations) ∧
  (∀ t, partitions_of t (archive_schema g) ≡ₚ starting_partitions t) ∧
  map_to_list (db_triggers (archive_schema g)) ≡ₚ archive_triggers ∧
  (∀ trigger, trigger ∈ archive_triggers → trigger.2 ∈ db_functions (archive_schema g)).
Proof.
  split; [vm_compute; reflexivity|]. split; [|split].
  - intros t. apply same_rows_Permutation. destruct t; vm_compute; reflexivity.
  - apply same_rows_Permutation. vm_compute. reflexivity.
  - apply Forall_forall, (bool_decide_eq_true_1 (Forall (λ trigger, trigger.2 ∈ db_functions (archive_schema g)) archive_triggers)).
    vm_compute. reflexivity.
Qed.

#[local] Opaque archive_schema.

Lemma bootstrap_guard schema :
  assertValidSchemaName (default (js "chain_archive") schema) = Ok tt →
  migrations_guard (bootstrap_options schema) = Ok tt.
Proof. intros H. unfold migrations_guard. cbn [ro_schema bootstrap_options]. by rewrite H. Qed.

(** C25. Bootstrapping the archive works, and works again. On a schema nothing was created in, with a
    valid name, a server the probe accepts, the lock free and no failure from outside,
    [bootstrapChainArchiveSchema] resolves; both migrations of the archive's own lineage are
    recorded; each of the three tables partitioned by height has exactly the partitions the
    rollover procedure starts from, the default one included; the triggers are exactly the four that
    demand a blob's role, the one that keeps a block finalized and the one that guards the roles'
    removal, each with its function in place. A second bootstrap resolves and changes nothing. *)
Theorem bootstrap_archive schema probe_server p s created :
  assertValidSchemaName (default (js "chain_archive") schema) = Ok tt →
  is_ok (probeDurability probe_server None p).1 = true →
  steady s → ss_contender s = None → ss_db s = fresh created (db_btree_gist (ss_db s)) →
  let out := bootstrapChainArchiveSchema schema probe_server None (p, s) in
  let s' := out.2.2 in
  let d := ss_db s' in
  out.1 = Ok tt ∧
  db_migrations d = Some ["000_schema"; "001_chain_archive_core"] ∧
  (∀ t, partitions_of t d ≡ₚ starting_partitions t) ∧
  map_to_list (db_triggers d) ≡ₚ archive_triggers ∧
  (∀ trigger, trigger ∈ archive_triggers → trigger.2 ∈ db_functions d) ∧
  ∀ p', is_ok (probeDurability probe_server None p').1 = true →
    let again := bootstrapChainArchiveSchema schema probe_server None (p', s') in
    again.1 = Ok tt ∧ ss_db again.2.2 = d.
Proof.
  intros Hname Hp Hs Hc Hdb out s' d. set (g := db_btree_gist (ss_db s)) in *.
  assert (∀ p1 s1 k, is_ok (probeDurability probe_server None p1).1 = true → steady s1 →
    ss_contender s1 = None → (k ≤ 2)%nat → stage chainArchiveMigrations (fresh created g) k (ss_db s1) →
    let o := bootstrapChainArchiveSchema schema probe_server None (p1, s1) in
    o.1 = Ok tt ∧ o.2.2 = given_back (archive_schema g) s1) as Hrun.
  { intros p1 s1 k Hp1 Hs1 Hc1 Hk Hst.
    apply (run_completes chainArchiveMigrations (fresh created g) (archive_schema g) (bootstrap_options schema)
             (bootstrap_options schema) probe_server p1 s1 k DEFAULT_MIGRATION_LOCK_TIMEOUT_MS);
      [reflexivity|apply after_fresh|reflexivity|by apply bootstrap_guard|reflexivity|exact Hp1|exact Hs1|
       exact Hc1|exact Hk|exact Hst]. }
  destruct (Hrun p s 0%nat Hp Hs Hc ltac:(lia)) as [Hok Hs'].
  { unfold stage. cbn [take after]. by rewrite Hdb. }
  destruct (archive_schema_complete g) as (Hm & Hpart & Htr & Hfn).
  assert (d = archive_schema g) as Hd by exact (f_equal ss_db Hs').
  rewrite !Hd. split; [exact Hok|]. split; [exact Hm|]. split; [exact Hpart|]. split; [exact Htr|].
  split; [exact Hfn|]. intros p' Hp' again.
  assert (s' = given_back (archive_schema g) s) as Es by exact Hs'.
  destruct (Hrun p' s' 2%nat Hp') as [Hok2 Hs2]; [rewrite Es; exact Hs|rewrite Es; exact Hc|lia| |].
  { rewrite Es. unfold stage. cbn [take given_back ss_db set_db]. apply after_fresh. }
  split; [exact Hok2|]. exact (f_equal ss_db Hs2).
Qed.

(** ** The loop *)

Section loop.
Context {S : Type} {pt : Part S ArchiveDb} {sb : SqlBegin S} {tb : TextBinding} {jb : JsonBinding}
  {sha : Sha256}.
Context (net : jsstr) (Hnet : hasPostgresUnsafeText net = false) (MAX_BLOCKS : Z).
Implicit Types (s : Service S) (node : Node) (indexer : Indexer).

Abbreviation archive s := (part (w_db (sv_world s)) : ArchiveDb).

(** A log that starts with everything archived up to [lo] and ends with everything up to [hi]: a
    successful turn reports where it got to, which is as far above the last turn as the blocks it
    counts; after a failed one the archive is at least as far as before. *)
Inductive log_ok : Z → list (LogLine * Z) → Z → Prop :=
  | log_end lo : log_ok lo [] lo
  | log_synced lo height n tip lines hi :
      0 ≤ n → synced_to height = lo + n → log_ok (lo + n) lines hi →
      log_ok lo ((Synced height n tip, if n =? 0 then 10000 else 0) :: lines) hi
  | log_failed lo lo' e lines hi :
      lo ≤ lo' → log_ok lo' lines hi → log_ok lo ((Failed e, 15000) :: lines) hi.

Lemma cli_turn_effect node indexer s c :
  sync_inv net (archive s) c →
  let out := cli_turn net MAX_BLOCKS node indexer s in
  ∃ c', sync_inv net (archive out.2) c' ∧ synced_to c ≤ synced_to c' ∧
    match out.1.1 with
    | Synced height n tip =>
        0 ≤ n ∧ height = c' ∧ synced_to c' = synced_to c + n ∧ out.1.2 = if n =? 0 then 10000 else 0
    | Failed _ => out.1.2 = 15000
    end.
Proof.
  intros Hinv out. subst out. unfold cli_turn.
  destruct (syncOnce net node indexer (Some MAX_BLOCKS) s) as [[r|e] s1] eqn:Hrun;
    destruct (syncOnce_effect net Hnet _ _ _ _ _ _ _ Hinv Hrun) as (c' & Hinv' & Hle & Hres).
  - assert (on_store (getSyncedHeight net) s1 = (Ok c', s1)) as Hget.
    { unfold on_store. rewrite (getSyncedHeight_cursor net Hnet (sv_world s1) c') by apply Hinv'.
      by destruct s1. }
    rewrite (action_bind_ok _ _ _ _ _ Hrun), (action_bind_ok _ _ _ _ _ Hget). cbn [mret action_ret fst snd].
    exists c'. split; [done|]. split; [done|]. destruct Hres as [_ Hres].
    destruct (targetTipHeight r <? synced_to c + 1); [destruct Hres as [-> ?]; cbn; split_and!; (done || lia)|].
    destruct Hres as (-> & _ & _ & ?). split_and!; (done || lia).
  - rewrite (action_bind_err _ _ _ _ _ Hrun). by exists c'.
Qed.

(** The loop of the command line never dies and never lies. From an archive without gaps below
    its cursor, whatever the node and the indexer answer turn after turn, every turn ends in one log
    line: a failed one waits fifteen seconds and the loop goes on, a successful one reports the
    height up to which nothing is missing, higher than before by exactly the blocks it counts,
    and waits (ten seconds) only when it had nothing to do. The archive stays without gaps. *)
Theorem sync_loop_survives turns s c :
  sync_inv net (archive s) c →
  let out := cli_loop net MAX_BLOCKS turns s in
  ∃ c', sync_inv net (archive out.2) c' ∧ length out.1 = length turns ∧
    log_ok (synced_to c) out.1 (synced_to c') ∧
    ∀ h, 0 ≤ h ≤ synced_to c' → archived_at net (archive out.2) h.
Proof.
  intros Hinv out.
  enough (∃ c', sync_inv net (archive out.2) c' ∧ length out.1 = length turns ∧
    log_ok (synced_to c) out.1 (synced_to c')) as (c' & Hc' & ? & ?)
    by (exists c'; split_and!; [done..|]; apply Hc').
  subst out. revert s c Hinv. induction turns as [|[node indexer] turns IH]; intros s c Hinv.
  { exists c. split_and!; [done|done|constructor]. }
  cbn [cli_loop]. destruct (cli_turn_effect node indexer s c Hinv) as (c1 & Hinv1 & Hle & Hline).
  destruct (cli_turn net MAX_BLOCKS node indexer s) as [[line wait] s1]. cbn [fst snd] in *.
  destruct (IH s1 c1 Hinv1) as (c2 & Hinv2 & Hlen & Hlog).
  destruct (cli_loop net MAX_BLOCKS turns s1) as [lines s2]. cbn [fst snd] in *.
  exists c2. split; [done|]. split; [cbn; by rewrite Hlen|].
  destruct line as [height n tip|e].
  - destruct Hline as (Hn & -> & Hc1 & ->). apply log_synced; [done|done|]. by rewrite <-Hc1.
  - subst wait. by apply (log_failed _ (synced_to c1)).
Qed.
End loop.

(** ** Witnesses *)

Lemma bootstrap_archive_witness :
  (bootstrapChainArchiveSchema None (demo_server "on") None
     (demo_probe, demo_session (fresh false (Some Public)) [] None)).1 = Ok tt.
Proof.
  exact (proj1 (bootstrap_archive None (demo_server "on") demo_probe
    (demo_session (fresh false (Some Public)) [] None) false eq_refl eq_refl
    (conj (conj eq_refl eq_refl) (conj eq_refl eq_refl)) eq_refl eq_refl)).
Defined.

Lemma sync_loop_survives_witness :
  ∃ c', log_ok (-1) (cli_loop demo_net 10 [(demo_node, demo_indexer 0); (demo_node, demo_indexer 1)] service0).1 c'.
Proof.
  destruct (sync_loop_survives (S := ArchiveDb) (pt := part_self) demo_net eq_refl 10
    [(demo_node, demo_indexer 0); (demo_node, demo_indexer 1)] service0 None sync_inv_empty)
    as (c' & _ & _ & H & _).
  exists (synced_to c'). exact H.
Defined.
