(* ===== verification/SaveAndAdvance.v ===== *)
(** * saveAndAdvance: a checkpoint and its cursor in one transaction

    Models [src/postgres/save-and-advance.ts]. The combinator is written against two interfaces, the
    promises it needs from a checkpoint store and from a cursor store, and its atomicity is proved
    from them; the PostgreSQL adapters are then shown to keep the promises. *)

From S2P Require Import Prelude Text Json Errors Transaction Driver Slices.
From S2P Require Watermarks.
From S2P Require Import Checkpoint CheckpointSave CheckpointSpec CheckpointPrune.
From S2P Require Import CheckpointTheorems.

Local Open Scope Z_scope.

(** ** The interfaces *)

(** What the combinator asks of [deps.checkpoints]. *)
Class CheckpointStore (S : Type) := {
  cp_save : bytes → SaveCheckpointOptions → act (World S) CheckpointSummary;
  cp_saved : bytes → CheckpointSummary → S → S → Prop;
    (** [cp_saved data s db db']: [db'] is [db] with the checkpoint [s] of [data] added *)
  cp_save_saved : ∀ data opts w s w', cp_save data opts w = (Ok s, w') →
    cp_saved data s (w_db w) (w_db w');
}.

(** What it asks of [deps.watermarks]. *)
Class CursorStore (S : Type) := {
  cu_set : jsval → option TransactionHandle → option AbortSignal → act (World S) unit;
  cu_advanced : jsval → S → S → Prop;
  cu_set_advanced : ∀ v tx signal w w', cu_set v tx signal w = (Ok tt, w') →
    cu_advanced v (w_db w) (w_db w');
}.

Definition with_tx (opts : SaveCheckpointOptions) (tx : TransactionHandle) : SaveCheckpointOptions :=
  {| so_chunkSize := so_chunkSize opts; so_label := so_label opts; so_signal := so_signal opts;
     so_tx := Some tx |}.

Section combinator.
Context {S : Type} `{!SqlBegin S} `{!CheckpointStore S} `{!CursorStore S}.

(** The callback handed to [withTransaction]. *)
Definition save_then_set (data : bytes) (cursor : jsval) (opts : SaveCheckpointOptions)
    (tx : TransactionHandle) : act (World S) CheckpointSummary :=
  summary ← cp_save data (with_tx opts tx);
  cu_set cursor (Some tx) (so_signal opts) ;;
  mret summary.

Definition saveAndAdvance (data : bytes) (cursor : jsval) (opts : SaveCheckpointOptions)
    (uuid : jsstr) : act (World S) CheckpointSummary :=
  withTransaction (save_then_set data cursor opts) no_tx_options uuid.

(** Both writes, in order, on the store the transaction began with. *)
Definition both_written (data : bytes) (cursor : jsval) (s : CheckpointSummary) (db db' : S) : Prop :=
  ∃ mid, cp_saved data s db mid ∧ cu_advanced cursor mid db'.

Lemma save_then_set_ok data cursor opts tx w s w' :
  save_then_set data cursor opts tx w = (Ok s, w') → both_written data cursor s (w_db w) (w_db w').
Proof.
  unfold save_then_set. intros (s1 & w1 & H1 & H)%action_bind_inv.
  apply action_bind_inv in H as ([] & w2 & H2 & [= -> ->]).
  exists (w_db w1). split; [by eapply cp_save_saved|by eapply cu_set_advanced].
Qed.

End combinator.

(** ** The PostgreSQL adapters keep the promises *)

Section adapters.
Context {S : Type} `{HCk : !Part S CkDb} `{HWm : !Part S Watermarks.WatermarkTable}.
Context `{HBegin : !SqlBegin S} `{HSha : !Sha256} `{HText : !TextBinding}.
(** The call's fixed arguments and what the server supplies to it. *)
Context (ctx : CkCtx) (walletId networkId kind key : jsstr).

#[export] Program Instance pg_checkpoints : CheckpointStore S := {|
  cp_save := λ data opts, save ctx walletId networkId data opts [];
  cp_saved := λ data s db db', ∃ size bound, 0 < size ∧
    db' = set_part (saved ctx walletId networkId data size bound (part db)) db ∧
    cs_sequence s = next_seq walletId networkId (part db : CkDb);
|}.
Next Obligation.
  intros data opts w s w' (size & db' & Hsz & Hrun & ->)%save_inv.
  apply runOnTx_inv in Hrun as (bound & _ & -> & Hsum). exists size, bound.
  split_and!; [done..|exact (toSummary_sequence _ _ _ _ Hsum)].
Qed.

#[export] Program Instance pg_watermarks : CursorStore S := {|
  cu_set := λ v tx signal, Watermarks.set (ck_now ctx) kind key v tx signal;
  cu_advanced := λ v db db', ∃ k i, bind_text kind = Ok k ∧ bind_text key = Ok i ∧
    db' = set_part (<[(k, i) := {| Watermarks.wm_value := v; Watermarks.wm_updated_at := ck_now ctx |}]>
                      (part db : Watermarks.WatermarkTable)) db;
|}.
Next Obligation.
  intros v tx signal w w' Hset. unfold Watermarks.set in Hset.
  apply action_bind_inv in Hset as ([] & w1 & Hr & Hset).
  apply route_ok_inv in Hr as ->.
  apply check_bind_inv in Hset as ([] & _ & Hset%withAbort_ok).
  unfold on_part, Watermarks.setImpl, Watermarks.upsert_watermark in Hset.
  revert Hset. unfold_action. destruct (bind_text kind) as [k|], (bind_text key) as [i|]; try done.
  intros [= <-]. cbn. eauto.
Qed.

(** On the PostgreSQL adapters: when [saveAndAdvance] resolves, the committed store holds the new
    checkpoint under the pair's next sequence number and the cursor reads back as [cursor.value],
    with every other table untouched. *)
Theorem saveAndAdvance_committed data cursor opts uuid w s w' :
  (∀ (t : Watermarks.WatermarkTable) (db : S), part (set_part t db) = (part db : CkDb)) →
  Watermarks.storable_id kind key →
  saveAndAdvance data cursor opts uuid w = (Ok s, w') →
  ∃ size bound, 0 < size ∧
    tables w' = saved ctx walletId networkId data size bound (tables w) ∧
    cs_sequence s = next_seq walletId networkId (tables w) ∧
    Watermarks.cursor (kind, key) w' = Some cursor.
Proof.
  intros Hdisj [Hk Hi]. unfold saveAndAdvance.
  intros (w1 & Hdb & _ & Hc)%withTransaction_cases. cbv zeta in Hc.
  destruct (save_then_set data cursor opts {| handle_id := uuid |} w1) as [r1 w2] eqn:Hrun.
  cbn [fst snd] in Hc. destruct Hc as (-> & Hw & _).
  apply save_then_set_ok in Hrun as (mid & (size & bound & Hsz & Hmid & Hseq) & (k & i & Hbk & Hbi & Hend)).
  rewrite (bind_text_safe kind Hk) in Hbk. rewrite (bind_text_safe key Hi) in Hbi.
  injection Hbk as <-. injection Hbi as <-.
  rewrite Hdb in *. exists size, bound. unfold tables, Watermarks.cursor.
  rewrite Hw, Hend, Hdisj, Hmid, !part_set, lookup_insert_eq. done.
Qed.
End adapters.

(** ** Witnesses: checkpoint and watermark tables side by side *)

Module AdvanceDemo.
Definition store : Type := CkDb * Watermarks.WatermarkTable.
#[export] Instance connection : SqlBegin store := no_faults.
#[export] Instance checkpoints : CheckpointStore store :=
  @pg_checkpoints store part_fst connection Demo.digest rejecting_binding Demo.ctx1 Demo.wallet Demo.net.
#[export] Instance cursors : CursorStore store :=
  @pg_watermarks store part_snd rejecting_binding Demo.ctx1 (js "sync") (js "net").
Definition world0 : World store := idle_world (ck_empty, ∅).
Definition run := saveAndAdvance Demo.data (JNum (NumInt 42)) Demo.opts (js "u1") world0.

Lemma run_ok : run = (Ok Demo.summary1, run.2).
Proof. vm_compute. reflexivity. Qed.
End AdvanceDemo.
Import (hints) AdvanceDemo.


Lemma saveAndAdvance_committed_witness :
  @Watermarks.cursor AdvanceDemo.store part_snd (js "sync", js "net") AdvanceDemo.run.2 =
    Some (JNum (NumInt 42)).
Proof.
  destruct (@saveAndAdvance_committed AdvanceDemo.store part_fst part_snd AdvanceDemo.connection
    Demo.digest rejecting_binding Demo.ctx1 Demo.wallet Demo.net (js "sync") (js "net") Demo.data
    (JNum (NumInt 42)) Demo.opts (js "u1") AdvanceDemo.world0 Demo.summary1 AdvanceDemo.run.2
    (λ t db, eq_refl) (conj eq_refl eq_refl) AdvanceDemo.run_ok) as (size & bound & _ & _ & _ & H).
  exact H.
Defined.
