(* ===== verification/Envelope.v ===== *)
(** * The wallet-state envelope

    Models [src/interfaces/wallet-state-envelope.ts] (the versioned bundle of the three sub-wallet
    snapshots, its strict schema, [encode] and [decode]) and
    [src/postgres/wallet-state-envelope.ts] ([PgWalletStateEnvelopeStore], which keeps the bundle
    as one checkpoint). The store is written against an interface of the checkpoint store, which
    [PgCheckpointStore] is then shown to implement. *)

From S2P Require Import Prelude Text Literals Json Errors Transaction Driver Slices.
From S2P Require Import Hex Utf8 JsonText JsonTextSpec.
From S2P Require Import Checkpoint CheckpointSave CheckpointSpec CheckpointPrune.
From S2P Require Import CheckpointTheorems.

Local Open Scope Z_scope.

(** ** The envelope *)

Definition ENVELOPE_VERSION : Z := 1.

(** A runtime value of the interface: TypeScript's literal type of [envelopeVersion] does not
    exist at run time. [None] is [null]. *)
Record WalletStateEnvelope := {
  we_envelopeVersion : Z;
  we_walletId : jsstr;
  we_networkId : jsstr;
  we_shielded : option jsstr;
  we_unshielded : option jsstr;
  we_dust : option jsstr;
}.

Definition slot_value (s : option jsstr) : jsval := if s is Some t then JStr t else JNull.

(** The object itself; Zod rebuilds its output in the schema's key order. *)
Definition envelope_value (e : WalletStateEnvelope) : jsval :=
  JObj [(js "envelopeVersion", JNum (NumInt (we_envelopeVersion e)));
        (js "walletId", JStr (we_walletId e));
        (js "networkId", JStr (we_networkId e));
        (js "subWallets", JObj [(js "shielded", slot_value (we_shielded e));
                                (js "unshielded", slot_value (we_unshielded e));
                                (js "dust", slot_value (we_dust e))])].

(** ** The schemas *)

Definition get_field (k : string) (fields : list (jsstr * jsval)) : jsval :=
  match list_find (λ kv : jsstr * jsval, kv.1 = js k) fields with
  | Some (_, (_, v)) => v
  | None => JUndefined
  end.

(** [.strict()]: every own key is one of the schema's. *)
Definition z_strict (keys : list string) (fields : list (jsstr * jsval)) : bool :=
  forallb (λ kv, existsb (λ k, bool_decide (js k = kv.1)) keys) fields.

Definition SubWalletStringSchema (v : jsval) : option jsstr :=
  match v with JStr s => if hasPostgresUnsafeText s then None else Some s | _ => None end.

Definition SubWalletSlotSchema (v : jsval) : option (option jsstr) :=
  match v with JNull => Some None | _ => Some <$> SubWalletStringSchema v end.

(** [z.string().min(1)] with the text refinement. *)
Definition EnvelopeIdSchema (v : jsval) : option jsstr :=
  match v with JStr s => if z_text 1 None s then Some s else None | _ => None end.

(** [z.number().int().positive()]. *)
Definition EnvelopeVersionSchema (v : jsval) : option Z :=
  match v with
  | JNum n => z ← z_int n; if 0 <? z then Some z else None
  | _ => None
  end.

Definition WalletStateEnvelopeShapeSchema (v : jsval) : option WalletStateEnvelope :=
  match v with
  | JObj fields =>
      if z_strict ["envelopeVersion"; "walletId"; "networkId"; "subWallets"]%string fields then
        version ← EnvelopeVersionSchema (get_field "envelopeVersion" fields);
        walletId ← EnvelopeIdSchema (get_field "walletId" fields);
        networkId ← EnvelopeIdSchema (get_field "networkId" fields);
        match get_field "subWallets" fields with
        | JObj subs =>
            if z_strict ["shielded"; "unshielded"; "dust"]%string subs then
              shielded ← SubWalletSlotSchema (get_field "shielded" subs);
              unshielded ← SubWalletSlotSchema (get_field "unshielded" subs);
              dust ← SubWalletSlotSchema (get_field "dust" subs);
              Some {| we_envelopeVersion := version; we_walletId := walletId;
                      we_networkId := networkId; we_shielded := shielded;
                      we_unshielded := unshielded; we_dust := dust |}
            else None
        | _ => None
        end
      else None
  | _ => None
  end.

(** ** The codec *)

Definition encode_error (path message : string) : thrown :=
  ValidationError "WalletStateEnvelope.encode" path message.

(** [encode] on a raw value, since TypeScript's types can be bypassed. *)
Definition encode (envelope : jsval) : result thrown bytes :=
  match WalletStateEnvelopeShapeSchema envelope with
  | None => Err (encode_error "" "invalid envelope")
  | Some data =>
      if we_envelopeVersion data =? ENVELOPE_VERSION
      then Ok (TextEncoder_encode (default (js "undefined") (JSON_stringify (envelope_value data))))
      else Err (encode_error "envelopeVersion" "expected 1")
  end.

Definition type_error : thrown := TError "TypeError" "The encoded data was not valid" None None None.
Definition syntax_error : thrown := TError "SyntaxError" "Unexpected token in JSON" None None None.
Definition zod_error : thrown := TError "ZodError" "invalid envelope" None None None.

Definition with_version (e : WalletStateEnvelope) : WalletStateEnvelope :=
  {| we_envelopeVersion := ENVELOPE_VERSION; we_walletId := we_walletId e;
     we_networkId := we_networkId e; we_shielded := we_shielded e;
     we_unshielded := we_unshielded e; we_dust := we_dust e |}.

(** The version guard, and the schema after it. *)
Definition decode_object (fields : list (jsstr * jsval)) : result thrown WalletStateEnvelope :=
  match get_field "envelopeVersion" fields with
  | JNum (NumInt v) =>
      if v <=? 0 then Err (EnvelopeCorruptError "envelopeVersion is not a positive integer" None)
      else if negb (v =? ENVELOPE_VERSION) then Err (EnvelopeVersionUnsupportedError v)
      else match WalletStateEnvelopeShapeSchema (JObj fields) with
           | Some data => Ok (with_version data)
           | None => Err (EnvelopeCorruptError "payload does not satisfy the envelope schema"
                            (Some zod_error))
           end
  | _ => Err (EnvelopeCorruptError "envelopeVersion is missing or not a positive integer" None)
  end.

Definition decode (bs : bytes) : result thrown WalletStateEnvelope :=
  match TextDecoder_decode bs with
  | None => Err (EnvelopeCorruptError "payload is not valid UTF-8" (Some type_error))
  | Some text =>
      match JSON_parse text with
      | None => Err (EnvelopeCorruptError "payload is not valid JSON" (Some syntax_error))
      | Some (JObj fields) => decode_object fields
      | Some _ => Err (EnvelopeCorruptError "payload is not a JSON object" None)
      end
  end.

(** ** The store, over an interface of the checkpoint store *)

(** The two methods of [CheckpointStore] the wrapper calls. [cp_holds w id q r]: the committed
    store of [w] holds the record [r] as checkpoint [q] of the pair (the latest, for [None]); what
    [load] returns is what the store holds, and what [save] stored it holds, unless the hash
    function the store relies on is broken. *)
Class CheckpointService (W : Type) := {
  cp_save : jsstr → jsstr → bytes → SaveCheckpointOptions → act W CheckpointSummary;
  cp_load : jsstr → jsstr → option Z → option AbortSignal → act W CheckpointRecord;
  cp_consistent : W → Prop;
  cp_hash_broken : Prop;
  cp_holds : W → jsstr → jsstr → option Z → CheckpointRecord → Prop;
  cp_save_holds : ∀ w n data opts wo s wo',
    cp_consistent wo → cp_save w n data opts wo = (Ok s, wo') →
    cp_hash_broken ∨
    ∀ q, q = None ∨ q = Some (cs_sequence s) → cp_holds wo' w n q {| cr_summary := s; cr_data := data |};
  cp_load_held : ∀ w n q signal wo r r' wo',
    cp_holds wo w n q r → cp_load w n q signal wo = (Ok r', wo') → r' = r;
}.

Section store.
Context {W : Type} `{HService : !CheckpointService W}.

Definition ids_match (e : WalletStateEnvelope) (walletId networkId : jsstr) : bool :=
  bool_decide (we_walletId e = walletId) && bool_decide (we_networkId e = networkId).

Definition mismatch_error : thrown :=
  TStorage (CValidation "PgWalletStateEnvelopeStore.save"
              [{| issue_path := "walletId"; issue_message := "does not match the requested key" |};
               {| issue_path := "networkId"; issue_message := "does not match the requested key" |}]) None.

Definition save_envelope (walletId networkId : jsstr) (envelope : WalletStateEnvelope)
    (opts : SaveCheckpointOptions) : act W CheckpointSummary :=
  if negb (ids_match envelope walletId networkId) then throw mismatch_error
  else
    bs ← check (encode (envelope_value envelope));
    cp_save walletId networkId bs opts.

Definition load_envelope (walletId networkId : jsstr) (sequence : option Z)
    (signal : option AbortSignal) : act W WalletStateEnvelope :=
  record ← cp_load walletId networkId sequence signal;
  envelope ← check (decode (cr_data record));
  if negb (ids_match envelope walletId networkId)
  then throw (EnvelopeCorruptError "the envelope's echoed (walletId, networkId) does not match" None)
  else mret envelope.
End store.

(** ** [PgCheckpointStore] implements the interface *)

Section adapter.
Context {S : Type} `{HPart : !Part S CkDb} `{HBegin : !SqlBegin S}.
Context `{HSha : !Sha256} `{HText : !TextBinding}.
(** What the server supplies to the calls. *)
Context (ctx : CkCtx) (uuid : jsstr).

#[export] Program Instance pg_checkpoint_service : CheckpointService (World S) := {|
  cp_save := λ w n data opts, save ctx w n data opts uuid;
  cp_load := λ w n q signal, load w n q signal uuid;
  cp_consistent := λ wo, ck_inv (tables wo);
  cp_hash_broken := ∃ x y : bytes, x ≠ y ∧ sha256 x = sha256 y;
  cp_holds := λ wo w n q r, load_run w n q (tables wo) = (Ok r, tables wo);
|}.
Next Obligation.
  intros w n data opts wo s wo' Hi Hs. destruct (load_saved _ _ _ _ _ _ _ _ _ Hi Hs) as [?|[_ H]]; [by left|].
  right. intros q Hq. by apply H.
Qed.
Next Obligation.
  intros w n q signal wo r r' wo' Hh Hl. apply load_inv in Hl. rewrite Hh in Hl. by injection Hl.
Qed.
End adapter.

(** ** The schema of an envelope *)

(** What the types promise about an envelope, and the text PostgreSQL can store. *)
Record valid_envelope (e : WalletStateEnvelope) : Prop := {
  ve_version : we_envelopeVersion e = ENVELOPE_VERSION;
  ve_wallet : we_walletId e ≠ [] ∧ postgres_storable (we_walletId e);
  ve_network : we_networkId e ≠ [] ∧ postgres_storable (we_networkId e);
  ve_slots : ∀ s, Some s ∈ [we_shielded e; we_unshielded e; we_dust e] → postgres_storable s;
}.

(** Every string of the envelope is made of 16-bit code units, as JavaScript strings are. *)
Definition js_strings (e : WalletStateEnvelope) : bool :=
  is_units (we_walletId e) && is_units (we_networkId e)
  && forallb (λ s, if s is Some t then is_units t else true)
       [we_shielded e; we_unshielded e; we_dust e].

Lemma EnvelopeIdSchema_exact v s :
  EnvelopeIdSchema v = Some s ↔ v = JStr s ∧ s ≠ [] ∧ postgres_storable s.
Proof.
  unfold EnvelopeIdSchema, z_text. destruct v as [| | | | |t| | | |]; try (split; [done|by intros [? _]]).
  rewrite <-safe_text_storable. destruct t as [|c t].
  { split; [done|]. by intros ([= <-] & ? & _). }
  cbn [length Nat.leb andb]. destruct (hasPostgresUnsafeText (c :: t)) eqn:E; cbn [negb].
  - split; [done|]. intros ([= <-] & _ & ?). congruence.
  - split; [by intros [= <-]|by intros ([= <-] & _)].
Qed.

Lemma EnvelopeVersionSchema_exact v z :
  EnvelopeVersionSchema v = Some z ↔ v = JNum (NumInt z) ∧ 0 < z ≤ MAX_SAFE_INTEGER.
Proof.
  unfold EnvelopeVersionSchema. destruct v as [| | |[n| | |]| | | | | |]; cbn [z_int mbind option_bind]; try (split; [done|by intros [[=] _]]).
  destruct (Z.leb_spec (Z.abs n) MAX_SAFE_INTEGER); cbn [mbind option_bind].
  - destruct (Z.ltb_spec 0 n).
    + split; [intros [= <-]; split; [done|lia]|by intros [[= <-] _]].
    + split; [done|]. intros [[= <-] ?]. lia.
  - split; [done|]. intros [[= <-] ?]. lia.
Qed.

Lemma SubWalletSlotSchema_exact v s :
  SubWalletSlotSchema v = Some s ↔ v = slot_value s ∧ (∀ t, s = Some t → postgres_storable t).
Proof.
  unfold SubWalletSlotSchema, SubWalletStringSchema.
  destruct v as [| | | | |t| | | |]; cbn; try (split; [done|by destruct s; intros [? _]]).
  - split; [intros [= <-]; done|]. by destruct s; intros [? _].
  - setoid_rewrite <-safe_text_storable. destruct (hasPostgresUnsafeText t) eqn:E; cbn.
    + split; [done|]. destruct s as [u|]; intros [Hu Hs]; [|done]. injection Hu as ->.
      specialize (Hs _ eq_refl). congruence.
    + split; [intros [= <-]; split; [done|]; by intros ? [= <-]|].
      destruct s as [u|]; intros [Hu _]; [by injection Hu as ->|done].
Qed.

(** Evaluate the lookups of literal keys in an object literal. *)
Ltac strict_fields :=
  match goal with
  | |- context [z_strict ?ks ?fs] => replace (z_strict ks fs) with true by (vm_compute; reflexivity)
  end.
Ltac field_is k v :=
  match goal with
  | |- context [get_field k ?fs] => replace (get_field k fs) with v by (vm_compute; reflexivity)
  end.

Lemma slot_value_inj s t : slot_value s = slot_value t → s = t.
Proof. destruct s, t; cbn; congruence. Qed.

(** On an object shaped like an envelope, the schema's output is its input. *)
Lemma shape_of_value e e' :
  WalletStateEnvelopeShapeSchema (envelope_value e) = Some e' ↔
  e' = e ∧ valid_envelope (with_version e) ∧ 0 < we_envelopeVersion e ≤ MAX_SAFE_INTEGER.
Proof.
  destruct e as [v w n s1 s2 s3], e' as [v' w' n' s1' s2' s3'].
  transitivity (EnvelopeVersionSchema (JNum (NumInt v)) = Some v' ∧ EnvelopeIdSchema (JStr w) = Some w' ∧
    EnvelopeIdSchema (JStr n) = Some n' ∧ SubWalletSlotSchema (slot_value s1) = Some s1' ∧
    SubWalletSlotSchema (slot_value s2) = Some s2' ∧ SubWalletSlotSchema (slot_value s3) = Some s3').
  { unfold envelope_value, WalletStateEnvelopeShapeSchema. cbn [we_envelopeVersion we_walletId we_networkId
      we_shielded we_unshielded we_dust].
    strict_fields. cbv iota. field_is "envelopeVersion" (JNum (NumInt v)).
    field_is "walletId" (JStr w). field_is "networkId" (JStr n).
    field_is "subWallets" (JObj [(js "shielded", slot_value s1); (js "unshielded", slot_value s2);
      (js "dust", slot_value s3)]). cbv iota.
    strict_fields. cbv iota. field_is "shielded" (slot_value s1).
    field_is "unshielded" (slot_value s2). field_is "dust" (slot_value s3).
    split.
    - intros H. repeat (apply bind_Some in H as (? & ? & H)). by simplify_eq.
    - intros (-> & -> & -> & -> & -> & ->). done. }
  rewrite EnvelopeVersionSchema_exact, !EnvelopeIdSchema_exact, !SubWalletSlotSchema_exact.
  split.
  - intros ([[= <-] ?] & ([= <-] & ?) & ([= <-] & ?) & [<-%slot_value_inj S1] & [<-%slot_value_inj S2]
      & [<-%slot_value_inj S3]). split; [done|]. split; [|done]. split; [done..|].
    cbn. intros t. rewrite !elem_of_cons. intros [?|[?|[?|?%not_elem_of_nil]]]; eauto; done.
  - intros ([= -> -> -> -> -> ->] & [_ Hw Hn Hs] & Hv). cbn in Hs.
    assert (∀ s, s ∈ [s1; s2; s3] → ∀ t, s = Some t → postgres_storable t) as Hslot.
    { intros s Hin t ->. by apply Hs. }
    split_and!; try done; try apply Hw; try apply Hn; try apply Hv; apply Hslot; set_solver.
Qed.

(** What the schema accepts, it accepts again, unchanged. *)
Lemma shape_sound v e :
  WalletStateEnvelopeShapeSchema v = Some e →
  valid_envelope (with_version e) ∧ 0 < we_envelopeVersion e ≤ MAX_SAFE_INTEGER.
Proof.
  unfold WalletStateEnvelopeShapeSchema. destruct v as [| | | | | | | | |fields]; try done.
  destruct (z_strict _ fields); [|done].
  intros (version & Hv & (walletId & Hw & (networkId & Hn & H)%bind_Some)%bind_Some)%bind_Some.
  destruct (get_field "subWallets" fields) as [| | | | | | | | |subs]; try done.
  destruct (z_strict _ subs); [|done].
  apply bind_Some in H as (shielded & H1 & (unshielded & H2 & (dust & H3 & [= <-])%bind_Some)%bind_Some).
  apply EnvelopeVersionSchema_exact in Hv as [_ Hv].
  apply EnvelopeIdSchema_exact in Hw as [_ Hw]. apply EnvelopeIdSchema_exact in Hn as [_ Hn].
  apply SubWalletSlotSchema_exact in H1 as [_ H1], H2 as [_ H2], H3 as [_ H3].
  split; [|done]. split; [done..|]. cbn. intros t.
  rewrite !elem_of_cons. intros [?|[?|[?|?%not_elem_of_nil]]]; eauto; done.
Qed.

(** ** The codec *)

Lemma with_version_id e : we_envelopeVersion e = ENVELOPE_VERSION → with_version e = e.
Proof. destruct e. unfold with_version. cbn [we_envelopeVersion]. by intros ->. Qed.

Lemma envelope_plain e :
  js_strings e = true → 0 < we_envelopeVersion e ≤ MAX_SAFE_INTEGER → plain (envelope_value e) = true.
Proof.
  unfold js_strings. intros [[Hw Hn]%andb_true_iff Hs]%andb_true_iff Hv. cbn [forallb] in Hs.
  assert (∀ s, (if s is Some t then is_units t else true) = true → plain (slot_value s) = true) as Hslot.
  { intros [t|]; [|done]. done. }
  rewrite !andb_true_iff in Hs. destruct Hs as (H1 & H2 & H3 & _).
  unfold envelope_value. cbn [plain forallb fst snd].
  rewrite Hw, Hn, !Hslot by done. rewrite (proj2 (Z.leb_le _ _)) by lia.
  repeat (rewrite bool_decide_true; [|by apply (bool_decide_unpack _); vm_compute]). done.
Qed.

Lemma decode_encode e text :
  js_strings e = true → valid_envelope e →
  JSON_stringify (envelope_value e) = Some text → decode (TextEncoder_encode text) = Ok e.
Proof.
  intros Hs Hv Ht. pose proof (ve_version e Hv) as Ev.
  assert (0 < we_envelopeVersion e ≤ MAX_SAFE_INTEGER) as Hr by (by rewrite Ev).
  pose proof (with_version_id e Ev) as Ew.
  destruct (JSON_bytes_round_trip _ (envelope_plain e Hs Hr)) as (text' & Ht' & Hd & Hp).
  assert (text' = text) as -> by congruence.
  unfold decode. rewrite Hd, Hp. unfold envelope_value, decode_object.
  field_is "envelopeVersion" (JNum (NumInt (we_envelopeVersion e))). rewrite Ev. cbn [Z.leb Z.compare].
  pose proof (proj2 (shape_of_value e e)) as Hsh. rewrite Ew in Hsh. unfold envelope_value in Hsh.
  rewrite Ev in Hsh. rewrite Hsh by done. cbn. by rewrite Ew.
Qed.

Lemma encode_ok e bs :
  js_strings e = true → encode (envelope_value e) = Ok bs → valid_envelope e ∧ decode bs = Ok e.
Proof.
  intros Hs. unfold encode. destruct (WalletStateEnvelopeShapeSchema (envelope_value e)) as [e'|] eqn:Hsh; [|done].
  apply shape_of_value in Hsh as (-> & Hv & Hr).
  destruct (Z.eqb_spec (we_envelopeVersion e) ENVELOPE_VERSION) as [Ev|]; [|done].
  rewrite (with_version_id e Ev) in Hv.
  destruct (JSON_round_trip _ (envelope_plain e Hs Hr)) as (text & Ht & _). rewrite Ht. cbn [default].
  intros [= <-]. split; [done|]. by apply decode_encode.
Qed.

(** The envelope codec is a partial inverse pair on exactly the valid envelopes. For every
    object shaped like an envelope, [encode] either produces bytes, and then its version is the
    supported one, both identifiers are non-empty, every string is storable and [decode] gives
    the same envelope back; or it raises [ValidationError], and then one of these fails. *)
Theorem envelope_roundtrip (e : WalletStateEnvelope) :
  js_strings e = true →
  match encode (envelope_value e) with
  | Ok bs => valid_envelope e ∧ decode bs = Ok e
  | Err x => ¬ valid_envelope e ∧ ∃ path message, x = encode_error path message
  end.
Proof.
  intros Hs. destruct (encode (envelope_value e)) as [bs|x] eqn:Henc; [by apply encode_ok|]. unfold encode in Henc.
  destruct (WalletStateEnvelopeShapeSchema (envelope_value e)) as [e'|] eqn:Hsh.
  - apply shape_of_value in Hsh as (-> & Hv & Hr).
    destruct (Z.eqb_spec (we_envelopeVersion e) ENVELOPE_VERSION) as [Ev|Ev]; [done|].
    injection Henc as <-. split; [|by eexists _, _]. by intros [? _ _ _].
  - injection Henc as <-. split; [|by eexists _, _]. intros Hv.
    pose proof (with_version_id e (ve_version _ Hv)) as Ew.
    assert (WalletStateEnvelopeShapeSchema (envelope_value e) = Some e) as Hok.
    { apply shape_of_value. rewrite Ew, (ve_version _ Hv). done. }
    congruence.
Qed.

(** What the payload holds, as far as the version guard reads it. *)
Definition payload_object (bs : bytes) (fields : list (jsstr * jsval)) : Prop :=
  ∃ text, TextDecoder_decode bs = Some text ∧ JSON_parse text = Some (JObj fields).

Lemma decode_object_eq bs fields : payload_object bs fields → decode bs = decode_object fields.
Proof. intros (text & Ht & Hp). unfold decode. by rewrite Ht, Hp. Qed.

Lemma decode_valid bs e : decode bs = Ok e →
  valid_envelope e ∧ ∃ fields, payload_object bs fields ∧
    WalletStateEnvelopeShapeSchema (JObj fields) = Some e.
Proof.
  unfold decode. destruct (TextDecoder_decode bs) as [text|] eqn:Ht; [|done].
  destruct (JSON_parse text) as [[| | | | | | | | |fields]|] eqn:Hp; try done.
  unfold decode_object. destruct (get_field "envelopeVersion" fields) as [| | |[v| | |]| | | | | |] eqn:Hv; try done.
  destruct (Z.leb_spec v 0); [done|]. destruct (Z.eqb_spec v ENVELOPE_VERSION) as [->|]; [|done]. cbn [negb].
  destruct (WalletStateEnvelopeShapeSchema (JObj fields)) as [data|] eqn:Hs; [|done]. intros [= <-].
  destruct (shape_sound _ _ Hs) as [Hval _]. split; [done|].
  exists fields. split; [by exists text|]. rewrite with_version_id; [done|].
  unfold WalletStateEnvelopeShapeSchema in Hs. rewrite Hv in Hs. destruct (z_strict _ fields); [|done].
  apply bind_Some in Hs as (v' & Hv' & Hs). apply EnvelopeVersionSchema_exact in Hv' as [[= <-] _].
  apply bind_Some in Hs as (? & _ & (? & _ & Hs)%bind_Some). destruct (get_field "subWallets" fields); try done.
  destruct (z_strict _ _); [|done]. repeat (apply bind_Some in Hs as (? & _ & Hs)). by injection Hs as <-.
Qed.

(** [decode] never returns a malformed envelope and never lets a foreign error through. What it
    returns is a valid envelope of the supported version that the payload's JSON object spells
    out; a JSON object tagged with another positive integer version is always reported as
    unsupported with that version, however well or badly formed the rest of it is; every other
    payload is [EnvelopeCorruptError]. *)
Theorem decode_outcomes (bs : bytes) :
  match decode bs with
  | Ok e => valid_envelope e ∧ ∃ fields, payload_object bs fields ∧
              WalletStateEnvelopeShapeSchema (JObj fields) = Some e
  | Err x =>
      (∃ v fields, x = EnvelopeVersionUnsupportedError v ∧ payload_object bs fields ∧
         get_field "envelopeVersion" fields = JNum (NumInt v) ∧ 0 < v ∧ v ≠ ENVELOPE_VERSION) ∨
      (∃ m cause, x = EnvelopeCorruptError m cause)
  end ∧
  ∀ fields v, payload_object bs fields → get_field "envelopeVersion" fields = JNum (NumInt v) →
    0 < v → v ≠ ENVELOPE_VERSION → decode bs = Err (EnvelopeVersionUnsupportedError v).
Proof.
  split.
  - destruct (decode bs) as [e|x] eqn:Hd; [by apply decode_valid|]. unfold decode in Hd.
    destruct (TextDecoder_decode bs) as [text|] eqn:Ht; [|injection Hd as <-; eauto].
    destruct (JSON_parse text) as [[| | | | | | | | |fields]|] eqn:Hp; try (injection Hd as <-; eauto; done).
    unfold decode_object in Hd.
    destruct (get_field "envelopeVersion" fields) as [| | |[v| | |]| | | | | |] eqn:Hv; try (injection Hd as <-; eauto; done).
    destruct (Z.leb_spec v 0); [injection Hd as <-; eauto|].
    destruct (Z.eqb_spec v ENVELOPE_VERSION); cbn [negb] in Hd.
    + destruct (WalletStateEnvelopeShapeSchema _); [done|]. injection Hd as <-. eauto.
    + injection Hd as <-. left. exists v, fields. by repeat split; [exists text|..].
  - intros fields v Hf Hv Hpos Hne. rewrite (decode_object_eq _ _ Hf). unfold decode_object. rewrite Hv.
    destruct (Z.leb_spec v 0); [lia|]. by rewrite (proj2 (Z.eqb_neq _ _) Hne).
Qed.

(** ** The store *)

Section store_theorems.
Context {W : Type} `{HService : !CheckpointService W}.

Lemma ids_match_spec e w n : ids_match e w n = true ↔ we_walletId e = w ∧ we_networkId e = n.
Proof. unfold ids_match. by rewrite andb_true_iff, !bool_decide_eq_true. Qed.

(** C38. A saved bundle is loaded whole. When [save] resolves, the envelope belongs to the requested
    pair and is valid, and from then on [load], of the latest checkpoint or of the returned
    sequence, resolves with exactly that envelope whenever the checkpoint store serves the read:
    no envelope error can arise, and any failure is the checkpoint store's own. When the
    identities differ nothing is touched. The one proviso is the checkpoint store's: its hash
    function is not broken. *)
Theorem envelope_load_after_save w n e opts wo r wo' :
  js_strings e = true → cp_consistent wo →
  save_envelope w n e opts wo = (r, wo') →
  match r with
  | Err x => ids_match e w n = false → x = mismatch_error ∧ wo' = wo
  | Ok s =>
      ids_match e w n = true ∧ valid_envelope e ∧
      (cp_hash_broken ∨ ∀ q signal, q = None ∨ q = Some (cs_sequence s) →
         match load_envelope w n q signal wo' with
         | (Ok e', _) => e' = e
         | (Err x, wo'') => cp_load w n q signal wo' = (Err x, wo'')
         end)
  end.
Proof.
  intros Hs Hc. unfold save_envelope.
  destruct (ids_match e w n) eqn:Hid; cbn [negb]; [|by intros [= <- <-]].
  destruct r as [s|x]; [|done]. intros Hsave. split; [done|].
  apply action_bind_inv in Hsave as (bs & wo1 & Henc & Hsave).
  unfold check in Henc. injection Henc as Henc <-.
  destruct (encode_ok e bs Hs Henc) as [Hv Hd].
  split; [done|]. destruct (cp_save_holds _ _ _ _ _ _ _ Hc Hsave) as [?|Hh]; [by left|]. right.
  intros q signal Hq. specialize (Hh q Hq). unfold load_envelope.
  destruct (cp_load w n q signal wo') as [[rec|x] wo''] eqn:Hl.
  - rewrite (action_bind_ok _ _ _ _ _ Hl). rewrite (cp_load_held _ _ _ _ _ _ _ _ Hh Hl). unfold_action.
    by rewrite Hd, Hid.
  - by rewrite (action_bind_err _ _ _ _ _ Hl).
Qed.
End store_theorems.

(** ** Witnesses *)

Definition demo_envelope : WalletStateEnvelope :=
  {| we_envelopeVersion := 1; we_walletId := Demo.wallet; we_networkId := Demo.net;
     we_shielded := None; we_unshielded := Some [34; 0xD83D; 0xDE00; 10]%N; we_dust := Some [] |}.

#[export] Instance demo_service : CheckpointService (World CkDb) :=
  @pg_checkpoint_service CkDb part_self Demo.connection Demo.digest rejecting_binding Demo.ctx1 (js "u1").

Definition demo_save : result thrown CheckpointSummary * World CkDb :=
  save_envelope Demo.wallet Demo.net demo_envelope Demo.opts Demo.world0.

Lemma demo_saved_ok : is_ok demo_save.1 = true.
Proof. vm_compute. reflexivity. Qed.

Definition demo_load : result thrown WalletStateEnvelope :=
  (load_envelope Demo.wallet Demo.net None None demo_save.2).1.

Lemma demo_loaded : demo_load = Ok demo_envelope.
Proof. vm_compute. reflexivity. Qed.

(** An envelope of a version to come, with a field this build does not know. *)
Definition future_fields : list (jsstr * jsval) :=
  [(js "envelopeVersion", JNum (NumInt 2)); (js "anchor", JNull)].
Definition future_bytes : bytes :=
  TextEncoder_encode (default [] (JSON_stringify (JObj future_fields))).

Lemma future_payload : payload_object future_bytes future_fields.
Proof. eexists. split; [vm_compute; reflexivity|vm_compute; reflexivity]. Qed.

Lemma envelope_roundtrip_witness :
  js_strings demo_envelope = true ∧ is_ok (encode (envelope_value demo_envelope)) = true ∧
  match encode (envelope_value demo_envelope) with
  | Ok bs => valid_envelope demo_envelope ∧ decode bs = Ok demo_envelope
  | Err x => ¬ valid_envelope demo_envelope ∧ ∃ path message, x = encode_error path message
  end.
Proof.
  split; [reflexivity|]. split; [vm_compute; reflexivity|]. exact (envelope_roundtrip demo_envelope eq_refl).
Defined.

Lemma decode_outcomes_witness :
  payload_object future_bytes future_fields ∧
  decode future_bytes = Err (EnvelopeVersionUnsupportedError 2).
Proof.
  split; [exact future_payload|].
  destruct (decode_outcomes future_bytes) as [_ H].
  apply (H future_fields 2 future_payload); [vm_compute; reflexivity|lia|discriminate].
Defined.

Lemma envelope_load_after_save_witness :
  js_strings demo_envelope = true ∧ is_ok demo_save.1 = true ∧ demo_load = Ok demo_envelope ∧
  valid_envelope demo_envelope.
Proof.
  split; [reflexivity|]. split; [exact demo_saved_ok|]. split; [exact demo_loaded|].
  pose proof (envelope_load_after_save Demo.wallet Demo.net demo_envelope Demo.opts Demo.world0
    demo_save.1 demo_save.2 eq_refl ck_inv_empty (surjective_pairing _)) as H.
  pose proof demo_saved_ok as Hok. destruct demo_save.1 as [s|x]; [|discriminate Hok].
  exact (proj1 (proj2 H)).
Defined.
