(* ===== verification/Lease.v ===== *)
(** * Leases: advisory locks on reserved connections

    Models the lease half of [src/postgres/transaction-lease.ts]. The server's advisory-lock table,
    the connections checked out of the pool and every layer's [heldLeases] map form one state, so
    that several layers and processes can share it. What the pool, the network, the clock and the abort signal
    do during a call is an explicit record of outcomes; what the code does with them is computed.
    [hashtext] is PostgreSQL's, a parameter. *)

From S2P Require Import Prelude Text Json Errors Transaction Driver.

Local Open Scope Z_scope.

(** ** State *)

Abbreviation SessionId := N.
Abbreviation LayerId := N.

Record HeldLease := { hl_reserved : SessionId; hl_key : jsstr; hl_hadTimeout : bool }.

(** [locks]: the holder of each advisory lock of class 2 and how often it took it. [reserved]: the
    connections checked out. [dead]: the connections the server has dropped. [heldLeases]: every
    layer's own map, told apart by the layer. *)
Record LeaseWorld := {
  locks : gmap Z (SessionId * nat);
  reserved : gset SessionId;
  dead : gset SessionId;
  timeouts : gmap SessionId Z;
  heldLeases : gmap (LayerId * jsstr) HeldLease;
}.

Definition with_locks (l : gmap Z (SessionId * nat)) (w : LeaseWorld) : LeaseWorld :=
  {| locks := l; reserved := reserved w; dead := dead w; timeouts := timeouts w;
     heldLeases := heldLeases w |}.
Definition with_reserved (r : gset SessionId) (w : LeaseWorld) : LeaseWorld :=
  {| locks := locks w; reserved := r; dead := dead w; timeouts := timeouts w;
     heldLeases := heldLeases w |}.
Definition with_timeouts (t : gmap SessionId Z) (w : LeaseWorld) : LeaseWorld :=
  {| locks := locks w; reserved := reserved w; dead := dead w; timeouts := t;
     heldLeases := heldLeases w |}.
Definition with_held (h : gmap (LayerId * jsstr) HeldLease) (w : LeaseWorld) : LeaseWorld :=
  {| locks := locks w; reserved := reserved w; dead := dead w; timeouts := timeouts w;
     heldLeases := h |}.

(** The server loses a connection: its session-level locks go with it. *)
Definition connection_lost (sid : SessionId) (w : LeaseWorld) : LeaseWorld :=
  {| locks := filter (λ e, e.2.1 ≠ sid) (locks w); reserved := reserved w; dead := {[sid]} ∪ dead w;
     timeouts := delete sid (timeouts w); heldLeases := heldLeases w |}.

(** ** The server's lock functions *)

(** What granting the lock to [sid] gives, if it is free or already its own. *)
Definition try_lock (sid : SessionId) (tag : Z) (w : LeaseWorld) : option LeaseWorld :=
  match locks w !! tag with
  | None => Some (with_locks (<[tag := (sid, 1%nat)]> (locks w)) w)
  | Some (owner, n) =>
      if decide (owner = sid) then Some (with_locks (<[tag := (sid, S n)]> (locks w)) w) else None
  end.

(** [pg_advisory_unlock]: nothing happens unless this session holds the lock. *)
Definition advisory_unlock (sid : SessionId) (tag : Z) (w : LeaseWorld) : LeaseWorld :=
  match locks w !! tag with
  | Some (owner, n) =>
      if decide (owner = sid)
      then with_locks (match n with
                       | S (S n') => <[tag := (sid, S n')]> (locks w)
                       | _ => delete tag (locks w)
                       end) w
      else w
  | None => w
  end.

(** ** Outcomes of the external steps of one call *)

(** What settles the race of [reserveBounded]. *)
Inductive ReserveRace := ReserveSettles (outcome : result thrown SessionId) | TimerFires | AbortFires.

(** A lock query: what ends the wait while another session holds the lock ([we_blocked]: a timeout,
    an abort, a lost connection); and, when the lock is available, a failure seen all the same
    ([we_fails]), with whether the server had granted the lock by then ([we_granted]). *)
Record WaitEnv := { we_blocked : thrown; we_fails : option thrown; we_granted : bool }.

(** The race of [raceAgainstAbort]: the signal had aborted when it was entered, the abort came
    first, or the query settled first. *)
Inductive AbortRace := AbortedBefore | AbortWins | QueryWins.

(** An unlock query: done, failed with the connection lost, or failed on a live connection. *)
Inductive UnlockEnv := UnlockDone | UnlockLost (e : thrown) | UnlockFailed (e : thrown).

Record CallEnv := {
  ce_reserve : ReserveRace;
  ce_set_timeout : option thrown;          (** failure of [set statement_timeout] *)
  ce_wait : WaitEnv;
  ce_race : AbortRace;
  ce_abort_after : bool;                   (** the signal has aborted when it is checked again *)
  ce_unlock : UnlockEnv;                   (** the unlock of the cleanup path *)
  ce_reset : bool;                         (** [reset statement_timeout] succeeds *)
  ce_token : jsstr;                        (** what [randomUUID()] returns *)
}.

(** ** Options *)

Record LeaseAcquireOptions := {
  lo_timeoutMs : option jsnum;
  lo_signal : option AbortSignal;
  lo_onReleaseFault : bool;                (** a callback was supplied *)
}.

Definition validateLeaseAcquireOptions (opts : LeaseAcquireOptions) : result thrown (option Z) :=
  match lo_timeoutMs opts with
  | None => Ok None
  | Some n => if z_positive_int POSTGRES_INT4_MAX n is Some ms then Ok (Some ms)
              else Err (ValidationError "PgTransactionLeaseLayer lease-acquire opts" "" "")
  end.

(** ** Steps of the layer *)

(** The private symbol the timer rejects with, and [err === RESERVE_TIMED_OUT]. *)
Definition RESERVE_TIMED_OUT : thrown := TOther "Symbol(reserve-timed-out)".
Definition is_RESERVE_TIMED_OUT (e : thrown) : bool :=
  match e with TOther r => String.eqb r "Symbol(reserve-timed-out)" | _ => false end.

(** A race without the timer or the signal it names never settles that way. *)
Definition no_such_race : thrown := TOther "no such race".

(** The race of [reserve()] against the timer and the signal. A connection that arrives after the
    call gave up is released at once, so giving up leaves the pool as it was. *)
Definition reserveBounded (race : ReserveRace) (timeoutMs : option Z) (signal : option AbortSignal)
    : act LeaseWorld SessionId := λ w,
  if signal_aborted signal
  then (if signal is Some s then Err (abortError s) else Err RESERVE_TIMED_OUT, w)
  else match race, timeoutMs, signal with
       | TimerFires, Some _, _ => (Err RESERVE_TIMED_OUT, w)
       | AbortFires, _, Some s => (Err (abortError s), w)
       | ReserveSettles (Ok sid), _, _ => (Ok sid, with_reserved ({[sid]} ∪ reserved w) w)
       | ReserveSettles (Err e), _, _ => (Err e, w)
       | _, _, _ => (Err no_such_race, w)
       end.

Definition set_statement_timeout (sid : SessionId) (ms : Z) (fails : option thrown)
    : act LeaseWorld unit := λ w,
  match fails with
  | Some e => (Err e, w)
  | None => (Ok tt, with_timeouts (<[sid := ms]> (timeouts w)) w)
  end.

(** Cancelling comes too late or in time: the query's own outcome tells what the server did. *)
Definition raceAgainstAbort (query : act LeaseWorld unit) (race : AbortRace)
    (signal : option AbortSignal) : act LeaseWorld unit := λ w,
  match signal with
  | None => query w
  | Some s =>
      if aborted s then (Err (abortError s), w)
      else match race with
           | AbortedBefore => (Err (abortError s), w)
           | AbortWins => (Err (abortError s), (query w).2)
           | QueryWins => query w
           end
  end.

(** [select pg_advisory_lock(2, hashtext(key))]. *)
Definition lock_query (sid : SessionId) (tag : Z) (env : WaitEnv) : act LeaseWorld unit := λ w,
  match try_lock sid tag w with
  | None => (Err (we_blocked env), w)
  | Some w' =>
      match we_fails env with
      | None => (Ok tt, w')
      | Some e => (Err e, if we_granted env then w' else w)
      end
  end.

(** [select pg_try_advisory_lock(2, hashtext(key)) as locked]. *)
Definition try_lock_query (sid : SessionId) (tag : Z) (env : WaitEnv) : act LeaseWorld bool := λ w,
  match we_fails env with
  | Some e => (Err e, match try_lock sid tag w with
                      | Some w' => if we_granted env then w' else w
                      | None => w
                      end)
  | None => match try_lock sid tag w with
            | Some w' => (Ok true, w')
            | None => (Ok false, w)
            end
  end.

Definition unlock_query (sid : SessionId) (tag : Z) (env : UnlockEnv) : act LeaseWorld unit := λ w,
  match env with
  | UnlockDone => (Ok tt, advisory_unlock sid tag w)
  | UnlockLost e => (Err e, connection_lost sid w)
  | UnlockFailed e => (Err e, w)
  end.

Definition resetStatementTimeout (sid : SessionId) (hadTimeout resets : bool) (w : LeaseWorld)
    : LeaseWorld :=
  if hadTimeout && resets then with_timeouts (delete sid (timeouts w)) w else w.

Definition release_connection (sid : SessionId) (w : LeaseWorld) : LeaseWorld :=
  with_reserved (reserved w ∖ {[sid]}) w.

(** The cleanup both acquisitions run: unlock whether or not the lock was taken, reset, release. *)
Definition give_back (sid : SessionId) (tag : Z) (hadTimeout : bool) (env : CallEnv) (w : LeaseWorld)
    : LeaseWorld :=
  release_connection sid
    (resetStatementTimeout sid hadTimeout (ce_reset env) (unlock_query sid tag (ce_unlock env) w).2).

Record LeaseObj := { l_key : jsstr; l_token : jsstr }.

Definition recheck_signal (signal : option AbortSignal) (env : CallEnv) : act LeaseWorld unit :=
  match signal with
  | Some s => if aborted s || ce_abort_after env then throw (abortError s) else mret tt
  | None => mret tt
  end.

(** [this.heldLeases.set(token, ..); return lease]. *)
Definition record_lease (this : LayerId) (key : jsstr) (sid : SessionId) (hadTimeout : bool) (token : jsstr)
    : act LeaseWorld LeaseObj := λ w,
  (Ok {| l_key := key; l_token := token |},
   with_held (<[(this, token) := {| hl_reserved := sid; hl_key := key; hl_hadTimeout := hadTimeout |}]>
                (heldLeases w)) w).

(** The [catch] after the reservation, for [acquireLease]. *)
Definition reserve_catch (key : jsstr) (timeoutMs : option Z) (e : thrown) : thrown :=
  match timeoutMs with
  | Some ms =>
      if is_RESERVE_TIMED_OUT e then LeaseTimeoutError key ms
      else if is_AbortError e then e
      else LeaseFaultError "failed to reserve a connection" LeaseReserveFailed e
  | None =>
      if is_AbortError e then e
      else LeaseFaultError "failed to reserve a connection" LeaseReserveFailed e
  end.

(** The [catch] around the lock query. *)
Definition acquire_catch (key : jsstr) (timeoutMs : option Z) (e : thrown) : thrown :=
  if is_AbortError e then e
  else match timeoutMs with
       | Some ms => if isStatementTimeout e then LeaseTimeoutError key ms
                    else LeaseFaultError "failed to acquire lease" LeaseConnectionLost e
       | None => LeaseFaultError "failed to acquire lease" LeaseConnectionLost e
       end.

(** The guards both acquisitions start with. *)
Definition acquire_guard (opts : LeaseAcquireOptions) : act LeaseWorld (option Z) :=
  timeoutMs ← check (validateLeaseAcquireOptions opts);
  (if lo_signal opts is Some s then if aborted s then throw (abortError s) else mret tt
   else mret tt) ;;
  mret timeoutMs.

Section layer.
Context `{!HashText}.

(** The guarded body of [acquireLease]. *)
Definition acquire_body (key : jsstr) (timeoutMs : option Z) (signal : option AbortSignal)
    (sid : SessionId) (env : CallEnv) : act LeaseWorld unit :=
  (if timeoutMs is Some ms then set_statement_timeout sid ms (ce_set_timeout env) else mret tt) ;;
  raceAgainstAbort (lock_query sid (hashtext key) (ce_wait env)) (ce_race env) signal ;;
  recheck_signal signal env.

(** From the reserved connection on. *)
Definition acquire_on (this : LayerId) (key : jsstr) (timeoutMs : option Z)
    (signal : option AbortSignal) (sid : SessionId) (env : CallEnv) : act LeaseWorld LeaseObj := λ w,
  let hadTimeout := bool_decide (is_Some timeoutMs) in
  match acquire_body key timeoutMs signal sid env w with
  | (Ok _, w1) => record_lease this key sid hadTimeout (ce_token env) w1
  | (Err e, w1) =>
      (Err (acquire_catch key timeoutMs e), give_back sid (hashtext key) hadTimeout env w1)
  end.

Definition acquireLease (this : LayerId) (key : jsstr) (opts : LeaseAcquireOptions) (env : CallEnv)
    : act LeaseWorld LeaseObj :=
  timeoutMs ← acquire_guard opts;
  sid ← rethrow (reserve_catch key timeoutMs)
          (reserveBounded (ce_reserve env) timeoutMs (lo_signal opts));
  acquire_on this key timeoutMs (lo_signal opts) sid env.

(** The timed wait of [tryAcquireLease]: a statement timeout is not an error. *)
Definition timed_wait (key : jsstr) (signal : option AbortSignal) (sid : SessionId) (env : CallEnv)
    : act LeaseWorld bool := λ w,
  match raceAgainstAbort (lock_query sid (hashtext key) (ce_wait env)) (ce_race env) signal w with
  | (Ok _, w1) => (Ok true, w1)
  | (Err e, w1) => if isStatementTimeout e then (Ok false, w1) else (Err e, w1)
  end.

(** The guarded body of [tryAcquireLease]: [true] when the lock was taken. *)
Definition try_body (key : jsstr) (timeoutMs : option Z) (signal : option AbortSignal)
    (sid : SessionId) (env : CallEnv) : act LeaseWorld bool :=
  locked ← match timeoutMs with
           | None => try_lock_query sid (hashtext key) (ce_wait env)
           | Some ms => set_statement_timeout sid ms (ce_set_timeout env) ;;
                        timed_wait key signal sid env
           end;
  if locked : bool then recheck_signal signal env ;; mret true else mret false.

(** From the reserved connection on; [null] is [None]. A try that finds the lock taken releases the
    connection without unlocking; a timed-out wait runs the whole cleanup. *)
Definition try_on (this : LayerId) (key : jsstr) (timeoutMs : option Z)
    (signal : option AbortSignal) (sid : SessionId) (env : CallEnv)
    : act LeaseWorld (option LeaseObj) := λ w,
  let hadTimeout := bool_decide (is_Some timeoutMs) in
  match try_body key timeoutMs signal sid env w with
  | (Ok true, w1) =>
      (lease ← record_lease this key sid hadTimeout (ce_token env); mret (Some lease)) w1
  | (Ok false, w1) =>
      (Ok None, if hadTimeout then give_back sid (hashtext key) hadTimeout env w1
                else release_connection sid w1)
  | (Err e, w1) =>
      (Err (acquire_catch key None e), give_back sid (hashtext key) hadTimeout env w1)
  end.

(** The [catch] after the reservation, for [tryAcquireLease]: a timeout is [None]. *)
Definition try_reserve (race : ReserveRace) (key : jsstr) (timeoutMs : option Z)
    (signal : option AbortSignal) : act LeaseWorld (option SessionId) := λ w,
  match reserveBounded race timeoutMs signal w with
  | (Ok sid, w1) => (Ok (Some sid), w1)
  | (Err e, w1) => (if is_RESERVE_TIMED_OUT e then Ok None else Err (reserve_catch key None e), w1)
  end.

Definition tryAcquireLease (this : LayerId) (key : jsstr) (opts : LeaseAcquireOptions)
    (env : CallEnv) : act LeaseWorld (option LeaseObj) :=
  timeoutMs ← acquire_guard opts;
  osid ← try_reserve (ce_reserve env) key timeoutMs (lo_signal opts);
  match osid with
  | Some sid => try_on this key timeoutMs (lo_signal opts) sid env
  | None => mret None
  end.

(** [releaseLease]: forget the lease first, then unlock, and release the connection whatever the
    unlock did. *)
Definition releaseLease (this : LayerId) (lease : LeaseObj) (unlock : UnlockEnv) (resets : bool)
    : act LeaseWorld unit := λ w,
  match heldLeases w !! (this, l_token lease) with
  | None => (Err (LeaseNotHeldError (l_key lease)), w)
  | Some held =>
      let w1 := with_held (delete (this, l_token lease) (heldLeases w)) w in
      let '(r, w2) := unlock_query (hl_reserved held) (hashtext (hl_key held)) unlock w1 in
      let w3 := release_connection (hl_reserved held)
                  (resetStatementTimeout (hl_reserved held) (hl_hadTimeout held) resets w2) in
      match r with
      | Ok _ => (Ok tt, w3)
      | Err e => (Err (LeaseFaultError "failed to release lease: connection lost"
                         LeaseConnectionLost e), w3)
      end
  end.

(** ** withLease *)

(** How [withLease] rejects: with an error as it is, with the release fault attached as its
    [cause], or with an [AggregateError] of both. *)
Inductive Rejection :=
  | Rejects (e : thrown)
  | RejectsWithCause (e cause : thrown)
  | RejectsAggregate (e1 e2 : thrown).

(** [error instanceof Error && error.cause === undefined] and the assignment succeeds: [others]
    tells it for errors whose [cause] and extensibility the model does not carry. *)
Definition can_attach_cause (others : thrown → bool) (e : thrown) : bool :=
  match e with
  | TStorage _ cause => bool_decide (cause = None)
  | TRollback _ => true
  | TError _ _ _ _ _ => others e
  | TOther _ => false
  end.

(** The second component of the outcome is the argument [onReleaseFault] was called with. *)
Definition withLease {A} (this : LayerId) (key : jsstr) (fn : LeaseObj → act LeaseWorld A)
    (opts : LeaseAcquireOptions) (env : CallEnv) (unlock : UnlockEnv) (resets : bool)
    (others : thrown → bool) (w : LeaseWorld) : (result Rejection A * option thrown) * LeaseWorld :=
  match acquireLease this key opts env w with
  | (Err e, w1) => (Err (Rejects e), None, w1)
  | (Ok lease, w1) =>
      let '(outcome, w2) := fn lease w1 in
      let '(released, w3) := releaseLease this lease unlock resets w2 in
      match released with
      | Err releaseFault =>
          match outcome with
          | Err error =>
              if lo_onReleaseFault opts then (Err (Rejects error), Some releaseFault, w3)
              else if can_attach_cause others error
              then (Err (RejectsWithCause error releaseFault), None, w3)
              else (Err (RejectsAggregate error releaseFault), None, w3)
          | Ok value =>
              if lo_onReleaseFault opts then (Ok value, Some releaseFault, w3)
              else (Err (Rejects releaseFault), None, w3)
          end
      | Ok _ =>
          match outcome with
          | Err error => (Err (Rejects error), None, w3)
          | Ok value => (Ok value, None, w3)
          end
      end
  end.

(** ** How the calls reject *)

(** What [acquireLease] and [tryAcquireLease] may reject with. *)
Definition acquire_rejection (opts : LeaseAcquireOptions) (e : thrown) : Prop :=
  validateLeaseAcquireOptions opts = Err e ∨ is_AbortError e = true ∨
  ∃ m k cause, e = LeaseFaultError m k cause ∧ (k = LeaseReserveFailed ∨ k = LeaseConnectionLost).

Lemma abortError_is s : is_AbortError (abortError s) = true.
Proof.
  unfold abortError. destruct (reason s); try done. by destruct (String.eqb name "AbortError") eqn:E.
Qed.

Lemma acquire_guard_err opts w e w' :
  acquire_guard opts w = (Err e, w') → acquire_rejection opts e.
Proof.
  unfold acquire_guard, acquire_rejection. unfold_action.
  destruct (validateLeaseAcquireOptions opts); [|intros; simplify_eq; auto].
  destruct (lo_signal opts) as [s|]; [|done]. destruct (aborted s); [|done].
  intros. simplify_eq. right; left. apply abortError_is.
Qed.

Lemma reserve_catch_err key t e :
  (∃ ms, t = Some ms ∧ reserve_catch key t e = LeaseTimeoutError key ms) ∨
  is_AbortError (reserve_catch key t e) = true ∨
  ∃ m k cause, reserve_catch key t e = LeaseFaultError m k cause ∧
    (k = LeaseReserveFailed ∨ k = LeaseConnectionLost).
Proof.
  unfold reserve_catch. destruct t as [ms|]; [destruct (is_RESERVE_TIMED_OUT e); [left; by exists ms|]|].
  all: right; destruct (is_AbortError e) eqn:E; [by left|right].
  all: by eexists _, _, _; auto.
Qed.

Lemma acquire_catch_err key t e :
  (∃ ms, t = Some ms ∧ acquire_catch key t e = LeaseTimeoutError key ms) ∨
  is_AbortError (acquire_catch key t e) = true ∨
  ∃ m k cause, acquire_catch key t e = LeaseFaultError m k cause ∧
    (k = LeaseReserveFailed ∨ k = LeaseConnectionLost).
Proof.
  unfold acquire_catch. destruct (is_AbortError e) eqn:E; [auto|].
  destruct t as [ms|]; [destruct (isStatementTimeout e); [by left; exists ms|]|].
  all: right; right; by eexists _, _, _; auto.
Qed.

Lemma acquire_guard_timeout opts w t w' :
  acquire_guard opts w = (Ok t, w') → validateLeaseAcquireOptions opts = Ok t.
Proof.
  unfold acquire_guard. unfold_action. destruct (validateLeaseAcquireOptions opts); [|done].
  destruct (lo_signal opts) as [s|]; [destruct (aborted s)|]; intros; by simplify_eq.
Qed.

(** How acquisitions reject: [acquireLease] with the validation error of its options, an
    [AbortError], a [LeaseTimeoutError] carrying the key and the timeout the caller gave, or a
    [LeaseFaultError] with the cause attached; [tryAcquireLease] never with a timeout — a timeout
    of the reservation or of the lock wait is its [null] — save one that hits a statement other
    than the wait, which is a [LeaseFaultError]. A raw driver error never escapes either. *)
Theorem acquire_rejections this key opts env w e :
  ((acquireLease this key opts env w).1 = Err e →
    acquire_rejection opts e ∨
    ∃ ms, validateLeaseAcquireOptions opts = Ok (Some ms) ∧ e = LeaseTimeoutError key ms) ∧
  ((tryAcquireLease this key opts env w).1 = Err e → acquire_rejection opts e).
Proof.
  unfold acquireLease, tryAcquireLease, try_reserve, rethrow, mbind, action_bind.
  destruct (acquire_guard opts w) as [[t|e0] w0] eqn:Hg.
  2: { apply acquire_guard_err in Hg. by split; intros [= <-]; auto. }
  apply acquire_guard_timeout in Hg.
  destruct (reserveBounded _ t _ w0) as [[sid|e1] w1].
  - unfold acquire_on, try_on. split.
    + destruct (acquire_body _ _ _ _ _ _) as [[?|e2] w2]; [done|]. intros [= <-].
      unfold acquire_rejection. destruct (acquire_catch_err key t e2) as [(ms & -> & E)|]; eauto.
    + destruct (try_body _ _ _ _ _ _) as [[[]|e2] w2]; try done. intros [= <-].
      unfold acquire_rejection. destruct (acquire_catch_err key None e2) as [(ms & ? & E)|]; eauto. done.
  - split; cbn.
    + intros [= <-]. unfold acquire_rejection. destruct (reserve_catch_err key t e1) as [(ms & -> & E)|]; eauto.
    + destruct (is_RESERVE_TIMED_OUT e1); [done|]. intros [= <-]. unfold acquire_rejection.
      destruct (reserve_catch_err key None e1) as [(ms & ? & E)|]; eauto. done.
Qed.

(** The errors a rejection shows the caller, the primary one first. *)
Definition rejection_errors (r : Rejection) : list thrown :=
  match r with
  | Rejects e => [e]
  | RejectsWithCause e cause => [e; cause]
  | RejectsAggregate e1 e2 => [e1; e2]
  end.

(** C36. [withLease] masks nothing. Once the lease is acquired and the callback has run, the lease
    is released whatever the callback did: it is no longer held. The callback's own rejection is
    always the primary error of the result; a resolved result is the callback's value; a fault of
    the release is never dropped, it reaches [onReleaseFault] or the rejection; and a value is only
    withheld for a release fault nobody was there to be told of. *)
Theorem withLease_masks_nothing {A} this key (fn : LeaseObj → act LeaseWorld A) opts env unlock
    resets others w lease w1 :
  acquireLease this key opts env w = (Ok lease, w1) →
  let '(outcome, w2) := fn lease w1 in
  let '(rel, w3) := releaseLease this lease unlock resets w2 in
  let '(res, notified, w') := withLease this key fn opts env unlock resets others w in
  w' = w3 ∧ heldLeases w' !! (this, l_token lease) = None ∧
  (∀ e, outcome = Err e → ∃ r, res = Err r ∧ head (rejection_errors r) = Some e) ∧
  (∀ v, res = Ok v → outcome = Ok v) ∧
  (∀ f, rel = Err f → notified = Some f ∨ ∃ r, res = Err r ∧ f ∈ rejection_errors r) ∧
  (∀ v, outcome = Ok v → is_ok rel = true ∨ lo_onReleaseFault opts = true → res = Ok v).
Proof.
  intros Ha. destruct (fn lease w1) as [outcome w2] eqn:Ef.
  assert (heldLeases (releaseLease this lease unlock resets w2).2 !! (this, l_token lease) = None) as Hn.
  { unfold releaseLease. destruct (heldLeases w2 !! _) as [h|] eqn:E; [|done].
    unfold resetStatementTimeout. destruct unlock as [|?|?]; cbn.
    2, 3: by destruct (_ && _); cbn; rewrite lookup_delete_eq.
    unfold advisory_unlock. destruct (locks _ !! _) as [[owner n]|]; [destruct (decide _)|].
    all: by destruct (_ && _); cbn; rewrite lookup_delete_eq. }
  destruct (releaseLease this lease unlock resets w2) as [rel w3] eqn:Er. cbn in Hn.
  unfold withLease. rewrite Ha, Ef, Er.
  destruct rel as [[]|f], outcome as [v|e]; [| |destruct (lo_onReleaseFault opts) eqn:Ecb..].
  6: destruct (can_attach_cause others e).
  all: split_and!; try done; intros; simplify_eq/=; eauto.
  all: try (right; eexists; split; [done|]; cbn; set_solver).
  all: naive_solver.
Qed.
End layer.

(** A world where [hashtext] is the length, for the examples. *)
Definition length_hash : HashText := λ s, Z.of_nat (length s).

Definition no_options : LeaseAcquireOptions :=
  {| lo_timeoutMs := None; lo_signal := None; lo_onReleaseFault := false |}.

Definition quiet_env (sid : SessionId) (token : jsstr) : CallEnv :=
  {| ce_reserve := ReserveSettles (Ok sid); ce_set_timeout := None;
     ce_wait := {| we_blocked := TOther "blocked"; we_fails := None; we_granted := false |};
     ce_race := QueryWins; ce_abort_after := false; ce_unlock := UnlockDone; ce_reset := true;
     ce_token := token |}.

Definition idle : LeaseWorld :=
  {| locks := ∅; reserved := ∅; dead := ∅; timeouts := ∅; heldLeases := ∅ |}.

Definition lease_ab : LeaseObj := {| l_key := js "ab"; l_token := js "t1" |}.

Definition one_lease : LeaseWorld :=
  {| locks := {[2 := (1%N, 1%nat)]}; reserved := {[1%N]}; dead := ∅; timeouts := ∅;
     heldLeases := {[(0%N, js "t1") :=
       {| hl_reserved := 1%N; hl_key := js "ab"; hl_hadTimeout := false |}]} |}.

Lemma acquire_one : @acquireLease length_hash 0%N (js "ab") no_options (quiet_env 1 (js "t1")) idle
  = (Ok lease_ab, one_lease).
Proof. vm_compute. reflexivity. Qed.

(** A timeout of the wait and of a statement before it. *)
Definition timeout_error : thrown :=
  TError "PostgresError" "canceling statement due to statement timeout" (Some "57014") (Some "ERROR") None.

Definition timed_options : LeaseAcquireOptions :=
  {| lo_timeoutMs := Some (NumInt 50); lo_signal := None; lo_onReleaseFault := false |}.

Definition blocked_env : CallEnv :=
  {| ce_reserve := ReserveSettles (Ok 2%N); ce_set_timeout := None;
     ce_wait := {| we_blocked := timeout_error; we_fails := None; we_granted := false |};
     ce_race := QueryWins; ce_abort_after := false; ce_unlock := UnlockDone; ce_reset := true;
     ce_token := js "t2" |}.

(** A timed-out wait on a held key: an error for one, [null] for the other. *)
Lemma acquire_rejections_witness :
  (@tryAcquireLease length_hash 0%N (js "cd") timed_options blocked_env one_lease).1 = Ok None ∧
  (@acquireLease length_hash 0%N (js "cd") timed_options blocked_env one_lease).1 =
    Err (LeaseTimeoutError (js "cd") 50) ∧
  (acquire_rejection timed_options (LeaseTimeoutError (js "cd") 50) ∨
   ∃ ms, validateLeaseAcquireOptions timed_options = Ok (Some ms) ∧
     LeaseTimeoutError (js "cd") 50 = LeaseTimeoutError (js "cd") ms).
Proof.
  split; [vm_compute; reflexivity|]. split; [vm_compute; reflexivity|].
  apply (proj1 (@acquire_rejections length_hash 0%N (js "cd") timed_options blocked_env one_lease _)).
  vm_compute. reflexivity.
Defined.

(** The callback rejects and the connection dies before the release. *)
Lemma withLease_masks_nothing_witness :
  (@withLease length_hash nat 0%N (js "ab") (λ _, throw (TOther "mine")) no_options
     (quiet_env 1 (js "t1")) (UnlockLost (TOther "gone")) true (λ _, false) idle).1 =
    (Err (RejectsAggregate (TOther "mine")
       (LeaseFaultError "failed to release lease: connection lost" LeaseConnectionLost (TOther "gone"))),
     None) ∧
  ∃ res notified w', @withLease length_hash nat 0%N (js "ab") (λ _, throw (TOther "mine")) no_options
     (quiet_env 1 (js "t1")) (UnlockLost (TOther "gone")) true (λ _, false) idle = (res, notified, w') ∧
    heldLeases w' !! (0%N, js "t1") = None ∧
    ∃ r, res = Err r ∧ head (rejection_errors r) = Some (TOther "mine").
Proof.
  split; [vm_compute; reflexivity|].
  pose proof (@withLease_masks_nothing length_hash nat 0%N (js "ab") (λ _, throw (TOther "mine"))
    no_options (quiet_env 1 (js "t1")) (UnlockLost (TOther "gone")) true (λ _, false) idle
    lease_ab one_lease acquire_one) as H.
  cbn [throw] in H. destruct (releaseLease _ _ _ _ one_lease) as [rel w3].
  destruct (withLease _ _ _ _ _ _ _ _ _) as [[res notified] w'].
  destruct H as (_ & Hn & He & _). exists res, notified, w'. split_and!; [done|exact Hn|by apply He].
Defined.
