(* ===== verification/LeaseSpec.v ===== *)
(** * Leases: mutual exclusion and what calls leave behind

    The invariant that ties the advisory-lock table, the checked-out connections and the
    [heldLeases] maps together, its preservation by every operation of [Lease] and by the loss of a
    connection, and the theorems it gives: Law L1 (one holder per key), no leaks, what an
    acquisition or a release does on every branch, and the outcome table of [withLease]. *)

From S2P Require Import Prelude Text Json Errors Transaction Driver Lease.

Local Open Scope Z_scope.

(** ** What the calls rely on *)

(** An unlock that fails does so because the connection is gone. *)
Definition unlock_reliable (u : UnlockEnv) : Prop :=
  match u with UnlockFailed _ => False | _ => True end.

Definition reset_reliable (u : UnlockEnv) (resets : bool) : Prop :=
  resets = true ∨ (match u with UnlockLost _ => True | _ => False end).

(** The pool hands out a connection that is alive and not checked out; tokens are never reused. *)
Record call_ok (this : LayerId) (env : CallEnv) (w : LeaseWorld) : Prop := {
  co_session : ∀ sid, ce_reserve env = ReserveSettles (Ok sid) → (sid ∉ reserved w) ∧ (sid ∉ dead w);
  co_token : heldLeases w !! (this, ce_token env) = None;
  co_unlock : unlock_reliable (ce_unlock env);
  co_reset : reset_reliable (ce_unlock env) (ce_reset env);
}.

Section spec.
Context `{!HashText}.

(** ** The invariant *)

(** A live held lease owns its lock, taken once; and every lock, checked-out connection and
    statement timeout is a held lease's. *)
Record Inv (w : LeaseWorld) : Prop := {
  inv_sessions : ∀ id1 id2 h1 h2, heldLeases w !! id1 = Some h1 → heldLeases w !! id2 = Some h2 →
    hl_reserved h1 = hl_reserved h2 → id1 = id2;
  inv_owns : ∀ id h, heldLeases w !! id = Some h → hl_reserved h ∉ dead w →
    locks w !! hashtext (hl_key h) = Some (hl_reserved h, 1%nat);
  inv_locks : ∀ tag sid n, locks w !! tag = Some (sid, n) → (sid ∉ dead w) ∧ ∃ id h,
    heldLeases w !! id = Some h ∧ hl_reserved h = sid ∧ hashtext (hl_key h) = tag;
  inv_reserved : ∀ sid, sid ∈ reserved w ↔ ∃ id h, heldLeases w !! id = Some h ∧ hl_reserved h = sid;
  inv_timeouts : ∀ sid ms, timeouts w !! sid = Some ms → ∃ id h,
    heldLeases w !! id = Some h ∧ hl_reserved h = sid ∧ hl_hadTimeout h = true;
}.

(** One call of one layer, or the loss of a connection. *)
Inductive step : relation LeaseWorld :=
  | step_acquire this key opts env w : call_ok this env w →
      step w (acquireLease this key opts env w).2
  | step_try this key opts env w : call_ok this env w →
      step w (tryAcquireLease this key opts env w).2
  | step_release this lease unlock resets w : unlock_reliable unlock → reset_reliable unlock resets →
      step w (releaseLease this lease unlock resets w).2
  | step_lost sid w : step w (connection_lost sid w).

Definition reachable (w : LeaseWorld) : Prop := rtc step idle w.

(** ** What a call can leave *)

(** Nothing, but for a connection that died and was not a lease's. *)
Record unchanged (w w' : LeaseWorld) : Prop := {
  un_locks : locks w' = locks w;
  un_reserved : reserved w' = reserved w;
  un_timeouts : timeouts w' = timeouts w;
  un_held : heldLeases w' = heldLeases w;
  un_dead : dead w' = dead w ∨ ∃ sid, (sid ∉ reserved w) ∧ dead w' = {[sid]} ∪ dead w;
}.

(** The connection's session with what a call did on it so far: the lock taken or not, the timeout
    set or not. *)
Record on_session (w : LeaseWorld) (sid : SessionId) (tag : Z) (hadTimeout locked : bool)
    (w' : LeaseWorld) : Prop := {
  os_reserved : reserved w' = {[sid]} ∪ reserved w;
  os_dead : dead w' = dead w;
  os_held : heldLeases w' = heldLeases w;
  os_timeouts : timeouts w' = timeouts w ∨
    hadTimeout = true ∧ ∃ ms, timeouts w' = <[sid := ms]> (timeouts w);
  os_locks : if locked then locks w !! tag = None ∧ locks w' = <[tag := (sid, 1%nat)]> (locks w)
             else locks w' = locks w;
}.

(** The lease recorded, its lock taken on a connection of its own. *)
Definition granted (this : LayerId) (key : jsstr) (hadTimeout : bool) (lease : LeaseObj)
    (w w' : LeaseWorld) : Prop :=
  ∃ sid w1, (sid ∉ reserved w) ∧ (sid ∉ dead w) ∧ on_session w sid (hashtext key) hadTimeout true w1 ∧
    l_key lease = key ∧ heldLeases w !! (this, l_token lease) = None ∧
    w' = with_held (<[(this, l_token lease) :=
      {| hl_reserved := sid; hl_key := key; hl_hadTimeout := hadTimeout |}]> (heldLeases w1)) w1.

(** A fresh session: the pool's promise, with what the invariant adds. *)
Record fresh (w : LeaseWorld) (sid : SessionId) : Prop := {
  fr_reserved : sid ∉ reserved w;
  fr_dead : sid ∉ dead w;
  fr_locks : ∀ tag owner n, locks w !! tag = Some (owner, n) → owner ≠ sid;
  fr_timeouts : timeouts w !! sid = None;
  fr_held : ∀ id h, heldLeases w !! id = Some h → hl_reserved h ≠ sid;
}.

Lemma Inv_fresh w sid : Inv w → sid ∉ reserved w → sid ∉ dead w → fresh w sid.
Proof.
  intros HI Hr Hd.
  assert (∀ id h, heldLeases w !! id = Some h → hl_reserved h ≠ sid) as Hh.
  { intros id h Hh <-. apply Hr, (inv_reserved _ HI). eauto. }
  constructor; [done|done| | |done].
  - intros tag owner n Hl ->. apply (inv_locks _ HI) in Hl as (_ & id & h & ? & ? & ?). by eapply Hh.
  - destruct (timeouts w !! sid) as [ms|] eqn:Ht; [|done].
    apply (inv_timeouts _ HI) in Ht as (id & h & ? & ? & ?). by destruct (Hh id h).
Qed.

Lemma try_lock_fresh w sid tag w1 b :
  fresh w sid → on_session w sid tag b false w1 →
  match try_lock sid tag w1 with
  | Some w2 => on_session w sid tag b true w2
  | None => ∃ owner n, locks w !! tag = Some (owner, n)
  end.
Proof.
  intros Hf [Hr Hd Hh Ht Hl]. unfold try_lock. rewrite Hl.
  destruct (locks w !! tag) as [[owner n]|] eqn:E.
  - rewrite decide_False by (by eapply fr_locks). eauto.
  - constructor; cbn; auto.
Qed.
(** ** The steps of an acquisition on a fresh session *)

Definition some_progress (w : LeaseWorld) (sid : SessionId) (tag : Z) (b : bool) (w' : LeaseWorld)
    : Prop := ∃ locked, on_session w sid tag b locked w'.

Lemma lock_query_fresh w sid tag b env w1 :
  fresh w sid → on_session w sid tag b false w1 →
  match lock_query sid tag env w1 with
  | (Ok _, w2) => on_session w sid tag b true w2
  | (Err _, w2) => some_progress w sid tag b w2
  end.
Proof.
  intros Hf Hs. pose proof (try_lock_fresh w sid tag w1 b Hf Hs) as Ht. unfold lock_query.
  destruct (try_lock sid tag w1) as [w2|]; [|by exists false].
  destruct (we_fails env); [|done]. destruct (we_granted env); [by exists true|by exists false].
Qed.

Lemma race_fresh w sid tag b env race signal w1 :
  fresh w sid → on_session w sid tag b false w1 →
  match raceAgainstAbort (lock_query sid tag env) race signal w1 with
  | (Ok _, w2) => on_session w sid tag b true w2
  | (Err _, w2) => some_progress w sid tag b w2
  end.
Proof.
  intros Hf Hs. pose proof (lock_query_fresh w sid tag b env w1 Hf Hs) as Hq.
  unfold raceAgainstAbort. destruct signal as [s|]; [|done].
  destruct (aborted s); [by exists false|]. destruct race; [by exists false| |done].
  destruct (lock_query sid tag env w1) as [[?|?] w2]; [by exists true|done].
Qed.

Lemma try_lock_query_fresh w sid tag b env w1 :
  fresh w sid → on_session w sid tag b false w1 →
  match try_lock_query sid tag env w1 with
  | (Ok locked, w2) => on_session w sid tag b locked w2
  | (Err _, w2) => some_progress w sid tag b w2
  end.
Proof.
  intros Hf Hs. pose proof (try_lock_fresh w sid tag w1 b Hf Hs) as Ht. unfold try_lock_query.
  destruct (try_lock sid tag w1) as [w2|], (we_fails env); try done; [|by exists false].
  destruct (we_granted env); [by exists true|by exists false].
Qed.

Lemma set_timeout_fresh w sid tag ms fails w1 :
  on_session w sid tag true false w1 → timeouts w1 = timeouts w →
  on_session w sid tag true false (set_statement_timeout sid ms fails w1).2.
Proof.
  intros [] Ht. unfold set_statement_timeout. destruct fails; cbn; [by constructor; auto|].
  constructor; cbn; eauto. right. split; [done|]. exists ms. by rewrite Ht.
Qed.

Lemma recheck_signal_same signal env w : (recheck_signal signal env w).2 = w.
Proof. unfold recheck_signal. destruct signal; [|done]. by destruct (_ || _). Qed.

Lemma reserved_on_session w sid tag b :
  on_session w sid tag b false (with_reserved ({[sid]} ∪ reserved w) w).
Proof. constructor; cbn; auto. Qed.

Lemma acquire_body_fresh w sid key timeoutMs signal env :
  fresh w sid →
  let b := bool_decide (is_Some timeoutMs) in
  match acquire_body key timeoutMs signal sid env (with_reserved ({[sid]} ∪ reserved w) w) with
  | (Ok _, w2) => on_session w sid (hashtext key) b true w2
  | (Err _, w2) => some_progress w sid (hashtext key) b w2
  end.
Proof.
  intros Hf b. unfold acquire_body, mbind, action_bind.
  pose proof (reserved_on_session w sid (hashtext key) b) as Hs.
  set (w0 := with_reserved _ w) in *.
  set (first := match timeoutMs with Some ms => _ | None => _ end).
  assert (on_session w sid (hashtext key) b false (first w0).2) as Hs1.
  { subst first b. destruct timeoutMs as [ms|]; [|done]. by apply set_timeout_fresh. }
  destruct (first w0) as [[?|?] w1]; cbn in Hs1; [|by exists false].
  pose proof (race_fresh w sid _ b (ce_wait env) (ce_race env) signal w1 Hf Hs1) as Hr.
  destruct (raceAgainstAbort _ _ _ w1) as [[?|?] w2]; [|done].
  pose proof (recheck_signal_same signal env w2) as Hrec.
  destruct (recheck_signal signal env w2) as [[?|?] w3]; cbn in Hrec; subst w3; [done|by exists true].
Qed.

Lemma timed_wait_fresh w sid key signal env w1 :
  fresh w sid → on_session w sid (hashtext key) true false w1 →
  match timed_wait key signal sid env w1 with
  | (Ok true, w2) => on_session w sid (hashtext key) true true w2
  | (_, w2) => some_progress w sid (hashtext key) true w2
  end.
Proof.
  intros Hf Hs. unfold timed_wait.
  pose proof (race_fresh w sid _ true (ce_wait env) (ce_race env) signal w1 Hf Hs) as Hr.
  destruct (raceAgainstAbort _ _ _ w1) as [[?|?] w2]; [done|]. by destruct (isStatementTimeout _).
Qed.

Lemma try_body_fresh w sid key timeoutMs signal env :
  fresh w sid →
  let b := bool_decide (is_Some timeoutMs) in
  match try_body key timeoutMs signal sid env (with_reserved ({[sid]} ∪ reserved w) w) with
  | (Ok true, w2) => on_session w sid (hashtext key) b true w2
  | (Ok false, w2) => some_progress w sid (hashtext key) b w2 ∧
      (b = false → on_session w sid (hashtext key) b false w2)
  | (Err _, w2) => some_progress w sid (hashtext key) b w2
  end.
Proof.
  intros Hf b. unfold try_body, mbind, action_bind.
  pose proof (reserved_on_session w sid (hashtext key) b) as Hs.
  set (w0 := with_reserved _ w) in *.
  set (first := match timeoutMs with Some ms => _ | None => _ end).
  assert (match first w0 with
          | (Ok true, w2) => on_session w sid (hashtext key) b true w2
          | (Ok false, w2) => some_progress w sid (hashtext key) b w2 ∧
              (b = false → on_session w sid (hashtext key) b false w2)
          | (Err _, w2) => some_progress w sid (hashtext key) b w2
          end) as H1.
  { subst first b. destruct timeoutMs as [ms|].
    - pose proof (set_timeout_fresh w sid (hashtext key) ms (ce_set_timeout env) w0 Hs eq_refl) as Hs1.
      unfold mbind, action_bind.
      destruct (set_statement_timeout _ _ _ w0) as [[?|?] w1]; cbn in Hs1; [|by exists false].
      pose proof (timed_wait_fresh w sid key signal env w1 Hf Hs1) as Ht.
      by destruct (timed_wait _ _ _ _ w1) as [[[]|?] w2].
    - pose proof (try_lock_query_fresh w sid _ _ (ce_wait env) w0 Hf Hs) as Ht.
      destruct (try_lock_query _ _ _ w0) as [[[]|?] w2]; [done| |done]. split; [by exists false|done]. }
  destruct (first w0) as [[[]|?] w2]; [|done..].
  pose proof (recheck_signal_same signal env w2) as Hrec. unfold mbind, action_bind.
  destruct (recheck_signal signal env w2) as [[?|?] w3]; cbn in Hrec; subst w3; [done|by exists true].
Qed.

(** ** Giving the connection back *)

Lemma map_filter_all {V} (P : Z * V → Prop) `{∀ x, Decision (P x)} (m : gmap Z V) :
  (∀ k v, m !! k = Some v → P (k, v)) → filter P m = m.
Proof.
  intros Hm. apply map_eq. intros k. destruct (m !! k) as [v|] eqn:E.
  - apply map_lookup_filter_Some. auto.
  - apply map_lookup_filter_None. by left.
Qed.

(** The unlock and the loss of the connection both undo what the session did. *)
Lemma unlock_on_session w sid tag b locked u w1 :
  fresh w sid → on_session w sid tag b locked w1 → unlock_reliable u →
  locks (unlock_query sid tag u w1).2 = locks w.
Proof.
  intros Hf [_ _ _ _ Hl] Hu. destruct u as [|e|e]; cbn; [| |done].
  - unfold advisory_unlock. destruct locked as [|].
    + destruct Hl as [Hn ->]. rewrite lookup_insert_eq, decide_True by done. cbn.
      by rewrite delete_insert_id.
    + rewrite Hl. destruct (locks w !! tag) as [[owner n]|] eqn:E; [|done].
      by rewrite decide_False by (by eapply fr_locks).
  - assert (filter (λ e0 : Z * (SessionId * nat), e0.2.1 ≠ sid) (locks w) = locks w) as Hw.
    { apply map_filter_all. intros tag' [owner n] Ho. by eapply fr_locks. }
    destruct locked as [|]; [|by rewrite Hl].
    destruct Hl as [Hn ->]. rewrite map_filter_insert_False by (cbn; tauto).
    by rewrite delete_id.
Qed.

Lemma delete_timeout w sid ms : fresh w sid → delete sid (<[sid := ms]> (timeouts w)) = timeouts w.
Proof. intros Hf. by rewrite delete_insert_id by apply Hf. Qed.

Lemma unlock_query_frame sid tag u (w : LeaseWorld) :
  let w' := (unlock_query sid tag u w).2 in
  reserved w' = reserved w ∧ heldLeases w' = heldLeases w ∧
  match u with
  | UnlockLost _ => dead w' = {[sid]} ∪ dead w ∧ timeouts w' = delete sid (timeouts w)
  | _ => dead w' = dead w ∧ timeouts w' = timeouts w
  end.
Proof.
  destruct u; cbn; auto. unfold advisory_unlock.
  destruct (locks w !! tag) as [[owner n]|]; [|done]. by destruct (decide (owner = sid)).
Qed.

(** What is left of the session's timeout once the unlock and the reset have run. *)
Lemma reset_timeouts w sid b locked tag env w1 w2 :
  fresh w sid → on_session w sid tag b locked w1 → reset_reliable (ce_unlock env) (ce_reset env) →
  timeouts w2 = match ce_unlock env with
                | UnlockLost _ => delete sid (timeouts w1)
                | _ => timeouts w1
                end →
  timeouts (resetStatementTimeout sid b (ce_reset env) w2) = timeouts w.
Proof.
  intros Hf [_ _ _ Ht1 _] Hr H2. unfold resetStatementTimeout.
  assert (delete sid (timeouts w1) = timeouts w) as Hdel.
  { destruct Ht1 as [->|(_ & ms & ->)]; [|by apply delete_timeout]. apply delete_id, Hf. }
  assert (timeouts w2 = timeouts w1 ∨ timeouts w2 = timeouts w) as H2'.
  { destruct (ce_unlock env); rewrite H2; auto. }
  assert (delete sid (timeouts w2) = timeouts w) as Hdel2.
  { destruct H2' as [->| ->]; [done|]. apply delete_id, Hf. }
  destruct (b && ce_reset env) eqn:Hb; cbn; [done|].
  destruct Ht1 as [Ht1|[-> _]]; [by destruct H2' as [->| ->]|].
  cbn in Hb. destruct Hr as [?|Hr]; [congruence|].
  destruct (ce_unlock env); try done. by rewrite H2.
Qed.

Lemma give_back_unchanged w sid tag b locked env w1 :
  fresh w sid → on_session w sid tag b locked w1 →
  unlock_reliable (ce_unlock env) → reset_reliable (ce_unlock env) (ce_reset env) →
  unchanged w (give_back sid tag b env w1).
Proof.
  intros Hf Hs Hu Hr. pose proof (unlock_on_session w sid tag b locked _ w1 Hf Hs Hu) as Hl.
  pose proof (unlock_query_frame sid tag (ce_unlock env) w1) as (Hr2 & Hh2 & Hd2).
  unfold give_back. destruct (unlock_query sid tag (ce_unlock env) w1) as [r w2]; cbn in *.
  assert (timeouts (resetStatementTimeout sid b (ce_reset env) w2) = timeouts w) as Htim.
  { eapply reset_timeouts; eauto. by destruct (ce_unlock env); destruct Hd2. }
  assert (reserved w2 ∖ {[sid]} = reserved w) as Hres.
  { rewrite Hr2, (os_reserved _ _ _ _ _ _ Hs). pose proof (fr_reserved _ _ Hf). set_solver. }
  assert (dead w2 = dead w ∨ ∃ sid', (sid' ∉ reserved w) ∧ dead w2 = {[sid']} ∪ dead w) as Hdead.
  { rewrite <-(os_dead _ _ _ _ _ _ Hs). destruct (ce_unlock env); destruct Hd2 as [-> _]; auto.
    right. exists sid. split; [apply Hf|done]. }
  unfold resetStatementTimeout in *. pose proof (os_held _ _ _ _ _ _ Hs).
  destruct (b && ce_reset env); constructor; cbn in *; auto; congruence.
Qed.

Lemma release_connection_unchanged w sid tag w1 :
  fresh w sid → on_session w sid tag false false w1 → unchanged w (release_connection sid w1).
Proof.
  intros Hf [Hr Hd Hh Ht Hl]. destruct Ht as [Ht|[? _]]; [|done].
  constructor; cbn; auto. rewrite Hr. pose proof (fr_reserved _ _ Hf). set_solver.
Qed.

Lemma unchanged_refl w : unchanged w w.
Proof. constructor; auto. Qed.

(** ** Whole calls *)

Lemma acquire_guard_same opts w : (acquire_guard opts w).2 = w.
Proof.
  unfold acquire_guard. unfold_action. destruct (validateLeaseAcquireOptions opts); [|done].
  destruct (lo_signal opts) as [s|]; [|done]. by destruct (aborted s).
Qed.

Lemma reserveBounded_cases race timeoutMs signal w :
  match reserveBounded race timeoutMs signal w with
  | (Ok sid, w1) => race = ReserveSettles (Ok sid) ∧ w1 = with_reserved ({[sid]} ∪ reserved w) w
  | (Err _, w1) => w1 = w
  end.
Proof.
  unfold reserveBounded. destruct (signal_aborted signal); [by destruct signal|].
  destruct race as [[?|?]| |]; [done|done|by destruct timeoutMs|by destruct signal].
Qed.

Lemma acquire_guard_ok opts w t w' :
  acquire_guard opts w = (Ok t, w') → bool_decide (is_Some t) = bool_decide (is_Some (lo_timeoutMs opts)).
Proof.
  unfold acquire_guard, validateLeaseAcquireOptions. unfold_action.
  destruct (lo_timeoutMs opts) as [n|]; [destruct (z_positive_int _ _)|]; try done.
  all: destruct (lo_signal opts) as [s|]; [destruct (aborted s)|]; intros; by simplify_eq.
Qed.

Lemma granted_record this key b sid token w w1 :
  fresh w sid → on_session w sid (hashtext key) b true w1 → heldLeases w !! (this, token) = None →
  let '(r, w2) := record_lease this key sid b token w1 in
  ∃ lease, r = Ok lease ∧ l_token lease = token ∧ granted this key b lease w w2.
Proof.
  intros Hf Hs Ht. cbn. eexists. split; [done|]. split; [done|].
  exists sid, w1. split_and!; try done; apply Hf.
Qed.

Lemma acquire_cases this key opts env w :
  Inv w → call_ok this env w →
  match acquireLease this key opts env w with
  | (Ok lease, w') => l_token lease = ce_token env ∧
      granted this key (bool_decide (is_Some (lo_timeoutMs opts))) lease w w'
  | (Err _, w') => unchanged w w'
  end.
Proof.
  intros HI [Hsess Htok Hu Hr]. unfold acquireLease, mbind, action_bind, rethrow.
  destruct (acquire_guard opts w) as [[timeoutMs|e] w0] eqn:Hg.
  all: pose proof (acquire_guard_same opts w) as Hsame; rewrite Hg in Hsame; cbn in Hsame; subst w0.
  2: apply unchanged_refl.
  rewrite <-(acquire_guard_ok _ _ _ _ Hg).
  pose proof (reserveBounded_cases (ce_reserve env) timeoutMs (lo_signal opts) w) as Hrb.
  destruct (reserveBounded _ _ _ w) as [[sid|e] w1]; [|subst; apply unchanged_refl].
  destruct Hrb as [Hrb ->]. apply Hsess in Hrb as [Hres Hdead].
  pose proof (Inv_fresh w sid HI Hres Hdead) as Hf. unfold acquire_on.
  pose proof (acquire_body_fresh w sid key timeoutMs (lo_signal opts) env Hf) as Hb.
  destruct (acquire_body _ _ _ _ _ _) as [[?|?] w2]; cbn in Hb.
  - pose proof (granted_record this key _ sid (ce_token env) w w2 Hf Hb Htok) as Hgr.
    destruct (record_lease _ _ _ _ _ w2) as [r w3]. by destruct Hgr as (lease & -> & ? & ?).
  - destruct Hb as [locked Hs]. by eapply give_back_unchanged.
Qed.

Lemma try_cases this key opts env w :
  Inv w → call_ok this env w →
  match tryAcquireLease this key opts env w with
  | (Ok (Some lease), w') => l_token lease = ce_token env ∧
      granted this key (bool_decide (is_Some (lo_timeoutMs opts))) lease w w'
  | (_, w') => unchanged w w'
  end.
Proof.
  intros HI [Hsess Htok Hu Hr]. unfold tryAcquireLease, mbind, action_bind, try_reserve.
  destruct (acquire_guard opts w) as [[timeoutMs|e] w0] eqn:Hg.
  all: pose proof (acquire_guard_same opts w) as Hsame; rewrite Hg in Hsame; cbn in Hsame; subst w0.
  2: apply unchanged_refl.
  rewrite <-(acquire_guard_ok _ _ _ _ Hg).
  pose proof (reserveBounded_cases (ce_reserve env) timeoutMs (lo_signal opts) w) as Hrb.
  destruct (reserveBounded _ _ _ w) as [[sid|e] w1].
  2: { subst. destruct (is_RESERVE_TIMED_OUT e); apply unchanged_refl. }
  destruct Hrb as [Hrb ->]. apply Hsess in Hrb as [Hres Hdead].
  pose proof (Inv_fresh w sid HI Hres Hdead) as Hf. unfold try_on.
  pose proof (try_body_fresh w sid key timeoutMs (lo_signal opts) env Hf) as Hb.
  destruct (try_body _ _ _ _ _ _) as [[[]|?] w2]; cbn in Hb.
  - pose proof (granted_record this key _ sid (ce_token env) w w2 Hf Hb Htok) as Hgr.
    unfold mbind, action_bind.
    destruct (record_lease _ _ _ _ _ w2) as [r w3]. by destruct Hgr as (lease & -> & ? & ?).
  - destruct Hb as [[locked Hs] Hrel]. destruct (bool_decide _); [by eapply give_back_unchanged|].
    eapply release_connection_unchanged; eauto.
  - destruct Hb as [locked Hs]. by eapply give_back_unchanged.
Qed.

(** ** Preservation *)

Lemma Inv_empty : Inv idle.
Proof. constructor; cbn; [set_solver..|]. set_solver. Qed.

Lemma Inv_unchanged w w' : Inv w → unchanged w w' → Inv w'.
Proof.
  intros HI [Hl Hr Ht Hh Hd]. constructor; rewrite ?Hl, ?Hr, ?Ht, ?Hh; try apply HI.
  - intros id h Hid Hdead. eapply inv_owns; [done..|].
    destruct Hd as [<-|(sid & _ & Hd)]; [done|]. rewrite Hd in Hdead. set_solver.
  - intros tag sid n Ho. destruct (inv_locks _ HI _ _ _ Ho) as (Hnd & id & h & Hid & <- & Htag).
    split; [|eauto]. destruct Hd as [->|(sid' & Hs & ->)]; [done|].
    assert (hl_reserved h ∈ reserved w) by (apply (inv_reserved _ HI); eauto). set_solver.
Qed.

Lemma Inv_granted this key b lease w w' : Inv w → granted this key b lease w w' → Inv w'.
Proof.
  intros HI (sid & w1 & Hres & Hdead & [Hr Hd Hh Ht [Hfree Hl]] & Hk & Htok & ->).
  pose proof (Inv_fresh w sid HI Hres Hdead) as [_ _ Hlocks Hnot Hheld].
  constructor; cbn; rewrite ?Hl, ?Hr, ?Hd, ?Hh.
  - intros id1 id2 h1 h2 [[<- <-]|[? H1]]%lookup_insert_Some [[<- <-]|[? H2]]%lookup_insert_Some E;
      cbn in *; [done| | |].
    + by destruct (Hheld _ _ H2).
    + by destruct (Hheld _ _ H1).
    + by eapply inv_sessions.
  - intros id h [[<- <-]|[? Hid]]%lookup_insert_Some Hnd; cbn; [by rewrite lookup_insert_eq|].
    pose proof (inv_owns _ HI _ _ Hid Hnd) as Ho. rewrite lookup_insert_ne; [done|]. congruence.
  - intros tag owner n [[<- E]|[? Ho]]%lookup_insert_Some.
    + simplify_eq. split; [done|]. eexists _, _. rewrite lookup_insert_eq. done.
    + destruct (inv_locks _ HI _ _ _ Ho) as (? & id & h & Hid & ? & ?). split; [done|].
      exists id, h. rewrite lookup_insert_ne; [done|]. congruence.
  - intros s. rewrite elem_of_union, elem_of_singleton, (inv_reserved _ HI). split.
    + intros [->|(id & h & Hid & ?)]; [eexists _, _; by rewrite lookup_insert_eq|].
      exists id, h. rewrite lookup_insert_ne; [done|]. congruence.
    + intros (id & h & [[<- <-]|[? Hid]]%lookup_insert_Some & <-); eauto.
  - intros s ms Hs.
    assert (s = sid ∧ b = true ∨ timeouts w !! s = Some ms) as [[-> ->]|Hs'].
    { destruct Ht as [Ht|(-> & ms' & Ht)]; rewrite Ht in Hs; [auto|].
      apply lookup_insert_Some in Hs as [[-> ?]|[? ?]]; auto. }
    + eexists _, _. by rewrite lookup_insert_eq.
    + destruct (inv_timeouts _ HI _ _ Hs') as (id & h & Hid & ? & ?).
      exists id, h. rewrite lookup_insert_ne; [done|]. congruence.
Qed.

Lemma Inv_lost sid w : Inv w → Inv (connection_lost sid w).
Proof.
  intros HI. constructor; cbn; try apply HI.
  - intros id h Hid Hnd. apply not_elem_of_union in Hnd as [Hne Hnd].
    apply map_lookup_filter_Some. split; [by eapply inv_owns|]. cbn. set_solver.
  - intros tag owner n [Ho Hne]%map_lookup_filter_Some. cbn in Hne.
    destruct (inv_locks _ HI _ _ _ Ho) as (? & ?). set_solver.
  - intros s ms [? Hs]%lookup_delete_Some. by eapply inv_timeouts.
Qed.

(** ** Releasing *)

(** The lease forgotten, its connection back in the pool, nothing of its session left. *)
Record released (id : LayerId * jsstr) (sid : SessionId) (w w' : LeaseWorld) : Prop := {
  rl_held : heldLeases w' = delete id (heldLeases w);
  rl_reserved : reserved w' = reserved w ∖ {[sid]};
  rl_locks : locks w' = filter (λ e, e.2.1 ≠ sid) (locks w);
  rl_timeouts : timeouts w' = delete sid (timeouts w);
  rl_dead : dead w' = dead w ∨ dead w' = {[sid]} ∪ dead w;
}.

Lemma advisory_unlock_filter id h w :
  Inv w → heldLeases w !! id = Some h →
  locks (advisory_unlock (hl_reserved h) (hashtext (hl_key h)) w) =
    filter (λ e, e.2.1 ≠ hl_reserved h) (locks w).
Proof.
  intros HI Hid.
  assert (∀ tag n, locks w !! tag = Some (hl_reserved h, n) →
    (hl_reserved h ∉ dead w) ∧ tag = hashtext (hl_key h)) as Honly.
  { intros tag n (? & id' & h' & Hid' & E & <-)%(inv_locks _ HI). split; [done|].
    assert (id' = id) as -> by (by eapply inv_sessions). congruence. }
  unfold advisory_unlock. destruct (decide (hl_reserved h ∈ dead w)) as [Hd|Hnd].
  - rewrite map_filter_all.
    2: { intros tag [owner n] Ho. cbn. intros ->. by apply Honly in Ho as [? _]. }
    destruct (locks w !! _) as [[owner n]|] eqn:E; [|done]. rewrite decide_False; [done|].
    intros ->. by apply Honly in E as [? _].
  - rewrite (inv_owns _ HI _ _ Hid Hnd), decide_True by done. cbn. apply map_eq. intros tag.
    apply option_eq. intros [owner n]. rewrite map_lookup_filter_Some, lookup_delete_Some. cbn. split.
    + intros [Hne Ho]. split; [done|]. intros ->. apply Honly in Ho as [_ ?]. done.
    + intros [Ho Hne]. split; [|done]. intros <-. rewrite (inv_owns _ HI _ _ Hid Hnd) in Ho. congruence.
Qed.

Lemma release_cases this lease unlock resets h w :
  Inv w → unlock_reliable unlock → reset_reliable unlock resets →
  heldLeases w !! (this, l_token lease) = Some h →
  let '(r, w') := releaseLease this lease unlock resets w in
  released (this, l_token lease) (hl_reserved h) w w' ∧
  r = match unlock with
      | UnlockDone => Ok tt
      | UnlockLost e | UnlockFailed e =>
          Err (LeaseFaultError "failed to release lease: connection lost" LeaseConnectionLost e)
      end.
Proof.
  intros HI Hu Hr Hid. unfold releaseLease. rewrite Hid.
  assert (hl_hadTimeout h = false → timeouts w !! hl_reserved h = None) as Hno.
  { intros Hf. destruct (timeouts w !! _) as [ms|] eqn:E; [|done].
    apply (inv_timeouts _ HI) in E as (id' & h' & Hid' & E & Ht).
    assert (id' = (this, l_token lease)) as -> by (by eapply inv_sessions). congruence. }
  assert (∀ m : gmap SessionId Z, m = timeouts w →
    (if hl_hadTimeout h then delete (hl_reserved h) m else m) = delete (hl_reserved h) (timeouts w)) as Hdel.
  { intros m ->. destruct (hl_hadTimeout h); [done|]. by rewrite delete_id by auto. }
  pose proof (advisory_unlock_filter _ _ _ HI Hid) as Hl.
  destruct unlock as [|e|e]; cbn; [| |done].
  - destruct Hr as [->|[]]. unfold resetStatementTimeout. rewrite andb_true_r.
    pose proof (unlock_query_frame (hl_reserved h) (hashtext (hl_key h)) UnlockDone
      (with_held (delete (this, l_token lease) (heldLeases w)) w)) as (Hr2 & Hh2 & Hd2 & Ht2).
    assert (locks (advisory_unlock (hl_reserved h) (hashtext (hl_key h))
       (with_held (delete (this, l_token lease) (heldLeases w)) w)) =
       locks (advisory_unlock (hl_reserved h) (hashtext (hl_key h)) w)) as Hl2.
    { unfold advisory_unlock. cbn. destruct (locks w !! _) as [[owner n]|]; [|done].
      by destruct (decide (owner = hl_reserved h)). }
    cbn in Hr2, Hh2, Hd2, Ht2. specialize (Hdel _ Ht2). split; [|done].
    destruct (hl_hadTimeout h); constructor; cbn; rewrite ?Hl2, ?Hr2, ?Hd2; auto.
  - split; [|done]. unfold resetStatementTimeout.
    destruct (hl_hadTimeout h && resets); constructor; cbn; rewrite ?delete_delete_eq; auto.
Qed.

Lemma Inv_released id h w w' :
  Inv w → heldLeases w !! id = Some h → released id (hl_reserved h) w w' → Inv w'.
Proof.
  intros HI Hid [Hh Hr Hl Ht Hd].
  assert (∀ id' h', heldLeases w' !! id' = Some h' →
    heldLeases w !! id' = Some h' ∧ hl_reserved h' ≠ hl_reserved h) as Hothers.
  { intros id' h' Hid'. rewrite Hh in Hid'. apply lookup_delete_Some in Hid' as [Hne Hid'].
    split; [done|]. intros E. apply Hne. symmetry. by eapply inv_sessions. }
  assert (∀ id' h', heldLeases w !! id' = Some h' → hl_reserved h' ≠ hl_reserved h →
    heldLeases w' !! id' = Some h') as Hkept.
  { intros id' h' Hid' Hne. rewrite Hh. apply lookup_delete_Some. split; [congruence|done]. }
  constructor.
  - intros id1 id2 h1 h2 [H1 _]%Hothers [H2 _]%Hothers. by eapply inv_sessions.
  - intros id' h' [Hid' Hne]%Hothers Hnd. rewrite Hl. apply map_lookup_filter_Some.
    split; [|done]. eapply inv_owns; [done..|]. destruct Hd as [<-|Hd]; [done|]. set_solver.
  - intros tag s n. rewrite Hl, map_lookup_filter_Some. cbn. intros [Ho Hne].
    destruct (inv_locks _ HI _ _ _ Ho) as (Hnd & id' & h' & Hid' & <- & ?).
    split; [destruct Hd as [->| ->]; set_solver|eauto 6].
  - intros s. rewrite Hr, elem_of_difference, elem_of_singleton, (inv_reserved _ HI). split.
    + intros [(id' & h' & Hid' & <-) Hne]. eauto.
    + intros (id' & h' & [Hid' Hne]%Hothers & <-). eauto.
  - intros s ms. rewrite Ht. intros [Hne Hs]%lookup_delete_Some.
    destruct (inv_timeouts _ HI _ _ Hs) as (id' & h' & Hid' & <- & ?). eauto 6.
Qed.

Lemma step_Inv w w' : Inv w → step w w' → Inv w'.
Proof.
  intros HI Hs. revert HI.
  destruct Hs as [this key opts env w0 Ho|this key opts env w0 Ho|this lease unlock resets w0 Hu Hr|];
    intros HI; cbn.
  - pose proof (acquire_cases this key opts env w0 HI Ho) as Hc.
    destruct (acquireLease _ _ _ _ w0) as [[lease|e] w1]; cbn.
    + eapply Inv_granted; [done|apply Hc].
    + by eapply Inv_unchanged.
  - pose proof (try_cases this key opts env w0 HI Ho) as Hc.
    destruct (tryAcquireLease _ _ _ _ w0) as [[[lease|]|e] w1]; cbn.
    + eapply Inv_granted; [done|apply Hc].
    + by eapply Inv_unchanged.
    + by eapply Inv_unchanged.
  - destruct (heldLeases w0 !! (this, l_token lease)) as [h|] eqn:E.
    + pose proof (release_cases this lease unlock resets h w0 HI Hu Hr E) as Hc.
      destruct (releaseLease _ _ _ _ w0) as [r w1]. destruct Hc. by eapply Inv_released.
    + unfold releaseLease. by rewrite E.
  - by apply Inv_lost.
Qed.

Lemma reachable_Inv w : reachable w → Inv w.
Proof.
  intros Hr. assert (∀ w0, Inv w0 → rtc step w0 w → Inv w) as Hgen.
  { intros w0 H0 Hs. induction Hs; eauto using step_Inv. }
  eapply Hgen; [apply Inv_empty|done].
Qed.

(** ** Theorems *)

(** C10. Mutual exclusion (Law L1), whatever sequence of acquisitions, tries, releases and lost
    connections of any number of layers led to the state: two held leases whose connections live
    and whose keys have the same [hashtext] are one lease, and while such a lease is held no
    acquisition and no try of the key, by any layer, gets one. *)
Theorem lease_mutual_exclusion w : reachable w →
  (∀ id1 id2 h1 h2, heldLeases w !! id1 = Some h1 → heldLeases w !! id2 = Some h2 →
    hl_reserved h1 ∉ dead w → hl_reserved h2 ∉ dead w →
    hashtext (hl_key h1) = hashtext (hl_key h2) → id1 = id2) ∧
  (∀ this key opts env id h lease, call_ok this env w → heldLeases w !! id = Some h →
    hl_reserved h ∉ dead w → hashtext (hl_key h) = hashtext key →
    (acquireLease this key opts env w).1 ≠ Ok lease ∧
    (tryAcquireLease this key opts env w).1 ≠ Ok (Some lease)).
Proof.
  intros HI%reachable_Inv. split.
  - intros id1 id2 h1 h2 H1 H2 L1 L2 E. eapply inv_sessions; [done..|].
    pose proof (inv_owns _ HI _ _ H1 L1). pose proof (inv_owns _ HI _ _ H2 L2). congruence.
  - intros this key opts env id h lease Hc Hid Hnd E.
    pose proof (inv_owns _ HI _ _ Hid Hnd) as Ho. rewrite E in Ho.
    assert (∀ b l w', ¬ granted this key b l w w') as Hno.
    { intros b l w' (sid & w1 & _ & _ & Hs & _). apply os_locks in Hs as [? _]. congruence. }
    split; intros Hl.
    + pose proof (acquire_cases this key opts env w HI Hc) as Ha.
      destruct (acquireLease _ _ _ _ w) as [r w']. cbn in Hl. subst r. by eapply Hno, Ha.
    + pose proof (try_cases this key opts env w HI Hc) as Ha.
      destruct (tryAcquireLease _ _ _ _ w) as [r w']. cbn in Hl. subst r. by eapply Hno, Ha.
Qed.


(** An acquisition or a try grants the lease or leaves nothing: when it resolves with a lease,
    the lock was free and is now taken on a connection of the lease's own; when it rejects, or the
    try resolves with [null], locks, pool, timeouts and leases are as before — whichever of the
    reservation, the timeout statement, the lock wait, the abort or the re-check ended the call,
    and whether or not the server had granted the lock by then. *)
Theorem acquire_grants_or_nothing this key opts env w : reachable w → call_ok this env w →
  match acquireLease this key opts env w with
  | (Ok lease, w') => l_token lease = ce_token env ∧
      granted this key (bool_decide (is_Some (lo_timeoutMs opts))) lease w w'
  | (Err _, w') => unchanged w w'
  end ∧
  match tryAcquireLease this key opts env w with
  | (Ok (Some lease), w') => l_token lease = ce_token env ∧
      granted this key (bool_decide (is_Some (lo_timeoutMs opts))) lease w w'
  | (_, w') => unchanged w w'
  end.
Proof. intros HI%reachable_Inv Hc. split; [by apply acquire_cases|by apply try_cases]. Qed.

(** Releasing a held lease forgets it, returns its connection and leaves no lock and no timeout
    of its session, whether the unlock succeeds or the connection is found dead — which is then
    reported; the key is free for others if the lease was still the lock's owner; and a second
    release of the same lease, or one of a lease never held, is a [LeaseNotHeldError] that changes
    nothing. *)
Theorem release_exactly_once this lease unlock resets h w :
  reachable w → unlock_reliable unlock → reset_reliable unlock resets →
  heldLeases w !! (this, l_token lease) = Some h →
  let '(r, w') := releaseLease this lease unlock resets w in
  released (this, l_token lease) (hl_reserved h) w w' ∧
  r = match unlock with
      | UnlockDone => Ok tt
      | UnlockLost e | UnlockFailed e =>
          Err (LeaseFaultError "failed to release lease: connection lost" LeaseConnectionLost e)
      end ∧
  (hl_reserved h ∉ dead w → locks w' !! hashtext (hl_key h) = None) ∧
  ∀ unlock' resets', releaseLease this lease unlock' resets' w' =
    (Err (LeaseNotHeldError (l_key lease)), w').
Proof.
  intros HI%reachable_Inv Hu Hr Hid.
  pose proof (release_cases this lease unlock resets h w HI Hu Hr Hid) as Hc.
  destruct (releaseLease _ _ _ _ w) as [r w']. destruct Hc as [Hrel ->]. split_and!; try done.
  - intros Hnd. rewrite (rl_locks _ _ _ _ Hrel). apply map_lookup_filter_None. right.
    rewrite (inv_owns _ HI _ _ Hid Hnd). intros ? [= <-]. cbn. tauto.
  - intros unlock' resets'. unfold releaseLease.
    by rewrite (rl_held _ _ _ _ Hrel), lookup_delete_eq.
Qed.

(** Nothing goes wrong during the call. *)
Record smooth (opts : LeaseAcquireOptions) (env : CallEnv) : Prop := {
  sm_valid : is_ok (validateLeaseAcquireOptions opts) = true;
  sm_reserve : ∃ sid, ce_reserve env = ReserveSettles (Ok sid);
  sm_set : ce_set_timeout env = None;
  sm_wait : we_fails (ce_wait env) = None;
  sm_race : ce_race env = QueryWins;
  sm_signal : signal_aborted (lo_signal opts) = false;
  sm_after : ce_abort_after env = false;
}.

Lemma smooth_guard opts env w : smooth opts env →
  ∃ t, acquire_guard opts w = (Ok t, w).
Proof.
  intros [Hv _ _ _ _ Hsig _]. unfold acquire_guard. unfold_action.
  destruct (validateLeaseAcquireOptions opts) as [t|]; [|done]. exists t.
  destruct (lo_signal opts) as [s|]; [|done]. cbn in Hsig. by rewrite Hsig.
Qed.

Lemma smooth_reserve opts env t w : smooth opts env →
  ∃ sid, ce_reserve env = ReserveSettles (Ok sid) ∧
    reserveBounded (ce_reserve env) t (lo_signal opts) w =
    (Ok sid, with_reserved ({[sid]} ∪ reserved w) w).
Proof.
  intros [_ [sid Hsid] _ _ _ Hsig _]. exists sid. split; [done|].
  unfold reserveBounded. by rewrite Hsig, Hsid.
Qed.

Lemma smooth_recheck opts env w : smooth opts env →
  recheck_signal (lo_signal opts) env w = (Ok tt, w).
Proof.
  intros [_ _ _ _ _ Hsig Haf]. unfold recheck_signal. rewrite Haf.
  destruct (lo_signal opts) as [s|]; [|done]. cbn in Hsig. by rewrite Hsig.
Qed.

Lemma smooth_race opts env q w : smooth opts env →
  raceAgainstAbort q (ce_race env) (lo_signal opts) w = q w.
Proof.
  intros [_ _ _ _ Hr Hsig _]. unfold raceAgainstAbort. rewrite Hr.
  destruct (lo_signal opts) as [s|]; [|done]. cbn in Hsig. by rewrite Hsig.
Qed.

Lemma smooth_lock opts env sid key b w w1 : smooth opts env → fresh w sid →
  on_session w sid (hashtext key) b false w1 → locks w !! hashtext key = None →
  ∃ w2, try_lock sid (hashtext key) w1 = Some w2.
Proof.
  intros _ Hf Hs Hn. pose proof (try_lock_fresh w sid _ w1 b Hf Hs) as Ht.
  destruct (try_lock sid (hashtext key) w1) as [w2|]; [eauto|].
  destruct Ht as (? & ? & ?). congruence.
Qed.

(** The timeout statement of a smooth call, and the lock query after it. *)
Lemma smooth_set opts env sid key ms w : smooth opts env → fresh w sid →
  let w0 := with_reserved ({[sid]} ∪ reserved w) w in
  ∃ w1, set_statement_timeout sid ms (ce_set_timeout env) w0 = (Ok tt, w1) ∧
    on_session w sid (hashtext key) true false w1.
Proof.
  intros Hsm Hf. cbn.
  pose proof (set_timeout_fresh w sid (hashtext key) ms (ce_set_timeout env) _
    (reserved_on_session w sid (hashtext key) true) eq_refl) as Hs.
  unfold set_statement_timeout in *. rewrite (sm_set _ _ Hsm) in *. eauto.
Qed.

Lemma smooth_lock_query opts env sid key b w w1 : smooth opts env → fresh w sid →
  on_session w sid (hashtext key) b false w1 → locks w !! hashtext key = None →
  (lock_query sid (hashtext key) (ce_wait env) w1).1 = Ok tt ∧
  (try_lock_query sid (hashtext key) (ce_wait env) w1).1 = Ok true.
Proof.
  intros Hsm Hf Hs Hn. destruct (smooth_lock _ _ _ _ _ _ _ Hsm Hf Hs Hn) as [w2 E].
  unfold lock_query, try_lock_query. by rewrite E, (sm_wait _ _ Hsm).
Qed.

Lemma smooth_bodies opts env sid key t w : smooth opts env → fresh w sid →
  locks w !! hashtext key = None →
  let w0 := with_reserved ({[sid]} ∪ reserved w) w in
  (acquire_body key t (lo_signal opts) sid env w0).1 = Ok tt ∧
  (try_body key t (lo_signal opts) sid env w0).1 = Ok true.
Proof.
  intros Hsm Hf Hn w0. unfold acquire_body, try_body, mbind, action_bind.
  destruct t as [ms|].
  - destruct (smooth_set opts env sid key ms w Hsm Hf) as (w1 & Hset & Hs). fold w0 in Hset.
    rewrite Hset. unfold timed_wait. rewrite (smooth_race opts env _ w1 Hsm).
    destruct (smooth_lock_query _ _ _ _ _ _ _ Hsm Hf Hs Hn) as [Hq _].
    destruct (lock_query _ _ _ w1) as [r w2]. cbn in Hq. subst r.
    by rewrite (smooth_recheck opts env w2 Hsm).
  - cbn. rewrite (smooth_race opts env _ w0 Hsm).
    destruct (smooth_lock_query _ _ _ _ _ _ _ Hsm Hf (reserved_on_session w sid _ false) Hn) as [Hq Ht].
    fold w0 in Hq, Ht.
    destruct (lock_query _ _ _ w0) as [r w2]. cbn in Hq. subst r.
    destruct (try_lock_query _ _ _ w0) as [r w3]. cbn in Ht. subst r.
    by rewrite (smooth_recheck opts env w2 Hsm), (smooth_recheck opts env w3 Hsm).
Qed.

(** Progress: when the key's lock is free and nothing goes wrong during the call, both
    [acquireLease] and [tryAcquireLease] resolve with a lease of the key — so a lease that was
    released can be taken again; and a try without a timeout on a key whose lock a live lease holds
    resolves with [null] instead of waiting. *)
Theorem lease_progress this key opts env w : reachable w → call_ok this env w → smooth opts env →
  (locks w !! hashtext key = None →
    let lease := {| l_key := key; l_token := ce_token env |} in
    (acquireLease this key opts env w).1 = Ok lease ∧
    (tryAcquireLease this key opts env w).1 = Ok (Some lease)) ∧
  (is_Some (locks w !! hashtext key) → lo_timeoutMs opts = None →
    (tryAcquireLease this key opts env w).1 = Ok None).
Proof.
  intros HI%reachable_Inv Hc Hsm.
  destruct (smooth_guard opts env w Hsm) as [t Hg].
  destruct (smooth_reserve opts env t w Hsm) as (sid & Hsid & Hres).
  destruct (co_session _ _ _ Hc _ Hsid) as [Hnr Hnd].
  pose proof (Inv_fresh w sid HI Hnr Hnd) as Hf.
  unfold acquireLease, tryAcquireLease, try_reserve, rethrow, mbind, action_bind.
  rewrite Hg, Hres. unfold acquire_on, try_on. set (w0 := with_reserved _ w). split.
  - intros Hn. destruct (smooth_bodies opts env sid key t w Hsm Hf Hn) as [Ha Ht]. fold w0 in Ha, Ht.
    destruct (acquire_body _ _ _ _ _ _) as [? w1], (try_body _ _ _ _ _ _) as [? w2].
    cbn in Ha, Ht. by subst.
  - intros [[owner n] Ho] Hto.
    assert (t = None) as ->.
    { pose proof (acquire_guard_ok _ _ _ _ Hg) as E. rewrite Hto in E. by destruct t. }
    pose proof (try_lock_fresh w sid (hashtext key) w0 false Hf (reserved_on_session w sid _ false)) as Ht.
    unfold try_body, try_lock_query, mbind, action_bind. rewrite (sm_wait _ _ Hsm).
    destruct (try_lock sid (hashtext key) w0) as [w2|]; [|done].
    apply os_locks in Ht as [? _]. congruence.
Qed.
End spec.

(** ** Witnesses *)

Lemma quiet_call_ok this sid token w :
  sid ∉ reserved w → sid ∉ dead w → heldLeases w !! (this, token) = None →
  call_ok this (quiet_env sid token) w.
Proof. intros. constructor; cbn; [|done|done|by left]. intros ? [= <-]. done. Qed.

Lemma one_lease_reachable : @reachable length_hash one_lease.
Proof.
  eapply rtc_l; [|reflexivity].
  replace one_lease with
    (@acquireLease length_hash 0%N (js "ab") no_options (quiet_env 1 (js "t1")) idle).2
    by (by rewrite acquire_one).
  apply step_acquire. by apply quiet_call_ok.
Qed.

(** Layer 1 asks for another key with the same hash. *)
Lemma one_lease_call : call_ok 1%N (quiet_env 2 (js "t2")) one_lease.
Proof. apply quiet_call_ok; [cbn; set_solver|cbn; set_solver|by vm_compute]. Qed.

Lemma lease_mutual_exclusion_witness :
  (@tryAcquireLease length_hash 1%N (js "cd") no_options (quiet_env 2 (js "t2")) one_lease).1 ≠
    Ok (Some {| l_key := js "cd"; l_token := js "t2" |}).
Proof.
  apply (proj2 (@lease_mutual_exclusion length_hash one_lease one_lease_reachable)
    1%N (js "cd") no_options (quiet_env 2 (js "t2")) (0%N, js "t1")
    {| hl_reserved := 1%N; hl_key := js "ab"; hl_hadTimeout := false |}).
  - apply one_lease_call.
  - vm_compute. reflexivity.
  - cbn. set_solver.
  - reflexivity.
Defined.


(** The lock is granted, the abort wins all the same, and nothing stays behind. *)
Definition late_abort : CallEnv :=
  {| ce_reserve := ReserveSettles (Ok 2%N); ce_set_timeout := None;
     ce_wait := {| we_blocked := timeout_error; we_fails := None; we_granted := true |};
     ce_race := AbortWins; ce_abort_after := true; ce_unlock := UnlockDone; ce_reset := true;
     ce_token := js "t2" |}.

Definition abortable : LeaseAcquireOptions :=
  {| lo_timeoutMs := None; lo_signal := Some {| aborted := false; reason := TOther "stop" |};
     lo_onReleaseFault := false |}.

Lemma acquire_grants_or_nothing_witness :
  (@acquireLease length_hash 1%N (js "xyz") abortable late_abort one_lease).1 = Err AbortError ∧
  unchanged one_lease (@acquireLease length_hash 1%N (js "xyz") abortable late_abort one_lease).2.
Proof.
  assert (call_ok 1%N late_abort one_lease) as Hc.
  { constructor; cbn; [|by vm_compute|done|by left]. intros ? [= <-]. set_solver. }
  assert ((@acquireLease length_hash 1%N (js "xyz") abortable late_abort one_lease).1 =
    Err AbortError) as E by (vm_compute; reflexivity).
  split; [exact E|].
  destruct (@acquire_grants_or_nothing length_hash 1%N (js "xyz") abortable late_abort
    one_lease one_lease_reachable Hc) as [H _].
  revert E H. generalize (@acquireLease length_hash 1%N (js "xyz") abortable late_abort one_lease).
  intros [r w'] E H. cbn in E. subst r. exact H.
Defined.

Lemma release_exactly_once_witness :
  let '(r, w') := @releaseLease length_hash 0%N lease_ab UnlockDone true one_lease in
  r = Ok tt ∧ locks w' !! 2 = None ∧
  @releaseLease length_hash 0%N lease_ab UnlockDone true w' = (Err (LeaseNotHeldError (js "ab")), w').
Proof.
  assert (@reset_reliable UnlockDone true) as Hr by (by left).
  pose proof (@release_exactly_once length_hash 0%N lease_ab UnlockDone true
    {| hl_reserved := 1%N; hl_key := js "ab"; hl_hadTimeout := false |} one_lease
    one_lease_reachable I Hr ltac:(vm_compute; reflexivity)) as H.
  destruct (releaseLease _ _ _ _ one_lease) as [r w']. destruct H as (_ & -> & Hl & Hn).
  split; [done|]. split; [|apply Hn]. apply Hl. cbn. set_solver.
Defined.

Lemma lease_progress_witness :
  (@acquireLease length_hash 1%N (js "xyz") no_options (quiet_env 2 (js "t2")) one_lease).1 =
    Ok {| l_key := js "xyz"; l_token := js "t2" |}.
Proof.
  apply (@lease_progress length_hash 1%N (js "xyz") no_options (quiet_env 2 (js "t2")) one_lease
    one_lease_reachable one_lease_call).
  - constructor; try reflexivity. by exists 2%N.
  - vm_compute. reflexivity.
Defined.
