(* ===== verification/BenchStats.v ===== *)
(** * Latency statistics of the benchmarks

    [bench/stats.ts] and the block of [bench/types.ts] it fills: [summarize] turns the samples of one
    workload, doubles in milliseconds, into a count, extremes, mean, deviation and nearest-rank
    percentiles; [measureManual] takes the samples. What the language leaves to the implementation,
    [x ** 2] and [Math.sqrt], is a parameter, and so are the readings of [performance.now()].

    What is proved: which sample each percentile is, and that a summary does not depend on the order
    the samples came in. *)

From S2P Require Import Prelude Text Json Errors JsonText JsonTextSpec Doubles.

Local Open Scope Z_scope.

Record LatencyStats := {
  st_samples : Z;
  st_min : option jsnum;     (** an element of an array; [None] is [undefined] *)
  st_max : option jsnum;
  st_mean : jsnum;
  st_sd : jsnum;
  st_cv : jsnum;
  st_p50 : option jsnum;
  st_p95 : option jsnum;
  st_p99 : option jsnum;
}.

Class MathLibrary := {
  js_square : jsnum → jsnum;   (** [x ** 2] *)
  js_sqrt : jsnum → jsnum;     (** [Math.sqrt] *)
}.

(** [xs[i]]. *)
Definition js_at {A} (xs : list A) (i : jsnum) : option A :=
  match i with NumInt z => if 0 <=? z then xs !! Z.to_nat z else None | _ => None end.

Definition js_length {A} (xs : list A) : jsnum := NumInt (Z.of_nat (length xs)).

(** The index of the nearest-rank percentile in [n] sorted samples. *)
Definition pct_index (n : jsnum) (p : Z) : jsnum :=
  math_min (num_sub n (NumInt 1))
    (math_max (NumInt 0)
       (num_sub (math_ceil (num_mul (num_div (NumInt p) (NumInt 100)) n)) (NumInt 1))).

Section summarize.
Context `{!MathLibrary}.

Definition sum_of (f : jsnum → jsnum) (xs : list jsnum) : jsnum :=
  foldl (λ s x, num_add s (f x)) (NumInt 0) xs.

Definition summarize (samplesMs : list jsnum) : result thrown LatencyStats :=
  if bool_decide (length samplesMs = 0%nat) then Err (TError "Error" "summarize: no samples" None None None)
  else
    let sorted := num_sort samplesMs in
    let n := js_length sorted in
    let mean := num_div (sum_of id sorted) n in
    let variance :=
      if num_ltb (NumInt 1) n
      then num_div (sum_of (λ x, js_square (num_sub x mean)) sorted) (num_sub n (NumInt 1))
      else NumInt 0 in
    let sd := js_sqrt variance in
    let pct p := js_at sorted (pct_index n p) in
    Ok {| st_samples := Z.of_nat (length sorted);
          st_min := js_at sorted (NumInt 0); st_max := js_at sorted (num_sub n (NumInt 1));
          st_mean := mean; st_sd := sd;
          st_cv := if num_ltb (NumInt 0) mean then num_div sd mean else NumInt 0;
          st_p50 := pct 50; st_p95 := pct 95; st_p99 := pct 99 |}.
End summarize.

(** ** Taking the samples *)

Section measure.
Context {S A : Type}.

(** [prepare(i)] and then [fn()]; [prepare] may be absent. *)
Definition measured (fn : act S A) (prepare : option (Z → act S unit)) (i : Z) : act S unit :=
  match prepare with Some f => f i | None => mret tt end ;; fn ;; mret tt.

(** The warm-up runs and then the timed ones; [clock i] is what the clock shows before and after the
    call of the [i]-th. *)
Definition measureManual (fn : act S A) (warmup iterations : nat) (prepare : option (Z → act S unit))
    (clock : nat → jsnum * jsnum) : act S (list jsnum) :=
  for_each (λ i, measured fn prepare (-1 - Z.of_nat i)) (seq 0 warmup) ;;
  for_each (λ i, measured fn prepare (Z.of_nat i)) (seq 0 iterations) ;;
  mret ((λ i, num_sub (clock i).2 (clock i).1) <$> seq 0 iterations).
End measure.

(** ** Positions in a sorted list *)

Section rank.
Context (l : list jsnum) (Hs : StronglySorted num_le l).

Lemma num_le_refl (x : jsnum) : num_le x x.
Proof. by destruct (num_le_total x x). Qed.

Lemma sorted_lookup_le i j x y : l !! i = Some x → l !! j = Some y → (i ≤ j)%nat → num_le x y.
Proof.
  intros Hi Hj [Hlt| ->]%Nat.lt_eq_cases; [by eapply StronglySorted_lookup_lt|].
  simplify_eq. apply num_le_refl.
Qed.

Lemma rank_le i v : l !! i = Some v → (i < length (filter (λ x, num_le x v) l))%nat.
Proof.
  intros Hv. rewrite <-(take_drop (S i) l), filter_app, length_app.
  rewrite (list_filter_every _ (take (S i) l)).
  - rewrite length_take. apply lookup_lt_Some in Hv. lia.
  - intros x (j & Hj)%list_elem_of_lookup. apply lookup_take_Some in Hj as [Hj Hlt].
    eapply sorted_lookup_le; [exact Hj|exact Hv|lia].
Qed.

Lemma rank_lt i v : l !! i = Some v → (length (filter (λ x, num_le x v ∧ ¬ num_le v x) l) ≤ i)%nat.
Proof.
  intros Hv. rewrite <-(take_drop i l), filter_app, length_app.
  rewrite (list_filter_none _ (drop i l)).
  - pose proof (length_filter (λ x, num_le x v ∧ ¬ num_le v x) (take i l)) as Hf.
    rewrite length_take in Hf. cbn. lia.
  - intros x (j & Hj)%list_elem_of_lookup [_ Hn]. rewrite lookup_drop in Hj. apply Hn.
    eapply sorted_lookup_le; [exact Hv|exact Hj|lia].
Qed.
End rank.

Lemma pct_index_exact n p :
  p ∈ [50; 95; 99] → 1 ≤ n < 2 ^ 32 → pct_index (NumInt n) p = NumInt ((p * n + 99) / 100 - 1).
Proof.
  intros Hp Hn. unfold pct_index. rewrite ceil_percentage by done.
  assert (0 < p ≤ 100) as Hb by (rewrite !elem_of_cons in Hp; destruct Hp as [->|[->|[->|Hp%not_elem_of_nil]]]; lia || done).
  assert (0 < p * n ≤ 100 * n) by (split; [apply Z.mul_pos_pos|apply Z.mul_le_mono_nonneg_r]; lia).
  assert (1 ≤ (p * n + 99) / 100) by (apply Z.div_le_lower_bound; lia).
  assert ((p * n + 99) / 100 < n + 1) by (apply Z.div_lt_upper_bound; lia).
  rewrite !num_sub_int by (unfold MAX_SAFE_INTEGER; lia). rewrite math_max_int, math_min_int. f_equal. lia.
Qed.

(** ** What a summary says of its samples *)

(** [v] is the nearest-rank [p]-th percentile: at least [p] percent of the samples are at most [v], and
    less than [p] percent are below it. *)
Definition nearest_rank (p : Z) (samples : list jsnum) (v : jsnum) : Prop :=
  v ∈ samples ∧
  p * Z.of_nat (length samples) ≤ 100 * Z.of_nat (length (filter (λ x, num_le x v) samples)) ∧
  100 * Z.of_nat (length (filter (λ x, num_le x v ∧ ¬ num_le v x) samples)) < p * Z.of_nat (length samples).

Lemma num_sort_Permutation xs : num_sort xs ≡ₚ xs.
Proof. apply merge_sort_Permutation. Qed.

Lemma num_sort_sorted xs : StronglySorted num_le (num_sort xs).
Proof. apply (StronglySorted_merge_sort _). Qed.

Lemma num_sort_unique xs ys : Forall reduced xs → xs ≡ₚ ys → num_sort xs = num_sort ys.
Proof.
  intros Hx Hp. rewrite Forall_forall in Hx. unfold num_sort. apply (merge_sort_unique num_le).
  - intros x y H1 H2. by apply num_le_antisymm; apply Hx.
  - apply num_sort_sorted.
  - by rewrite num_sort_Permutation.
Qed.

Section claims.
Context (samples : list jsnum) (some : samples ≠ []) (bounded : Z.of_nat (length samples) < 2 ^ 32).

Lemma samples_length : 1 ≤ Z.of_nat (length (num_sort samples)) < 2 ^ 32.
Proof.
  rewrite (Permutation_length (num_sort_Permutation samples)). destruct samples; [done|]. cbn in *. lia.
Qed.

(** The sample a percentile picks. *)
Lemma pct_lookup p :
  p ∈ [50; 95; 99] →
  ∃ i v, num_sort samples !! i = Some v ∧ Z.of_nat i = (p * Z.of_nat (length samples) + 99) / 100 - 1 ∧
    js_at (num_sort samples) (pct_index (js_length (num_sort samples)) p) = Some v ∧ nearest_rank p samples v.
Proof.
  intros Hp. pose proof samples_length as Hn. pose proof (num_sort_Permutation samples) as Hperm.
  unfold js_length. rewrite (Permutation_length Hperm) in *. rewrite pct_index_exact by done.
  set (n := Z.of_nat (length samples)) in *.
  assert (0 < p ≤ 100) as Hb by (rewrite !elem_of_cons in Hp; destruct Hp as [->|[->|[->|Hp%not_elem_of_nil]]]; lia || done).
  assert (0 < p * n ≤ 100 * n) by (split; [apply Z.mul_pos_pos|apply Z.mul_le_mono_nonneg_r]; lia).
  pose proof (Z.div_mod (p * n + 99) 100 ltac:(lia)) as Hd.
  pose proof (Z.mod_pos_bound (p * n + 99) 100 ltac:(lia)) as Hr.
  set (k := (p * n + 99) / 100) in *.
  destruct (lookup_lt_is_Some_2 (num_sort samples) (Z.to_nat (k - 1))) as [v Hv].
  { rewrite (Permutation_length Hperm). lia. }
  exists (Z.to_nat (k - 1)), v. split; [done|]. split; [lia|]. split.
  { cbn. rewrite (proj2 (Z.leb_le _ _)) by lia. done. }
  pose proof (rank_le _ (num_sort_sorted samples) _ _ Hv) as H1.
  pose proof (rank_lt _ (num_sort_sorted samples) _ _ Hv) as H2.
  split; [rewrite <-Hperm; by eapply list_elem_of_lookup_2|].
  rewrite !Hperm in *. fold n. lia.
Qed.

(** A summary is exact about the samples, although its indices are computed with doubles. For any
    nonempty array of samples its count, minimum and maximum are those of the samples; [p50], [p95] and
    [p99] are their nearest-rank percentiles: each is one of the samples, at least that share of the
    samples is no larger, and less than that share is smaller; they are in order. The whole summary,
    mean and deviation included, is the same in whatever order the samples came. *)
Theorem summarize_exact `{!MathLibrary} :
  Forall reduced samples →
  ∃ st lo hi v50 v95 v99, summarize samples = Ok st ∧
    st_samples st = Z.of_nat (length samples) ∧
    st_min st = Some lo ∧ st_max st = Some hi ∧ lo ∈ samples ∧ hi ∈ samples ∧
    (∀ x, x ∈ samples → num_le lo x ∧ num_le x hi) ∧
    st_p50 st = Some v50 ∧ nearest_rank 50 samples v50 ∧
    st_p95 st = Some v95 ∧ nearest_rank 95 samples v95 ∧
    st_p99 st = Some v99 ∧ nearest_rank 99 samples v99 ∧
    num_le v50 v95 ∧ num_le v95 v99 ∧
    ∀ samples', samples' ≡ₚ samples → summarize samples' = Ok st.
Proof.
  intros Hred. pose proof (num_sort_Permutation samples) as Hperm. pose proof samples_length as Hn.
  destruct (pct_lookup 50) as (i50 & v50 & L50 & I50 & P50 & R50); [set_solver|].
  destruct (pct_lookup 95) as (i95 & v95 & L95 & I95 & P95 & R95); [set_solver|].
  destruct (pct_lookup 99) as (i99 & v99 & L99 & I99 & P99 & R99); [set_solver|].
  destruct (lookup_lt_is_Some_2 (num_sort samples) 0) as [lo Hlo]; [lia|].
  destruct (lookup_lt_is_Some_2 (num_sort samples) (length (num_sort samples) - 1)) as [hi Hhi]; [lia|].
  assert (∃ st, summarize samples = Ok st) as [st Hst].
  { unfold summarize. rewrite bool_decide_false; [by eexists|]. by destruct samples. }
  exists st, lo, hi, v50, v95, v99.
  assert (∀ x, x ∈ samples → num_le lo x ∧ num_le x hi) as Hext.
  { intros x Hx. rewrite <-Hperm in Hx. apply list_elem_of_lookup in Hx as [j Hj].
    pose proof (lookup_lt_Some _ _ _ Hj). split.
    - eapply sorted_lookup_le; [apply num_sort_sorted|exact Hlo|exact Hj|lia].
    - eapply sorted_lookup_le; [apply num_sort_sorted|exact Hj|exact Hhi|lia]. }
  assert (∀ samples', samples' ≡ₚ samples → summarize samples' = Ok st) as Hany.
  { intros samples' Hp. rewrite <-Hst. unfold summarize.
    rewrite (Permutation_length Hp), (num_sort_unique samples samples'); done. }
  assert (Hst' := Hst). unfold summarize in Hst'. rewrite bool_decide_false in Hst' by (by destruct samples).
  split; [exact Hst|]. injection Hst' as <-. cbn [st_samples st_min st_max st_p50 st_p95 st_p99].
  assert (∀ i j x y, num_sort samples !! i = Some x → num_sort samples !! j = Some y →
    (i ≤ j)%nat → num_le x y) as Hle by (intros *; apply sorted_lookup_le, num_sort_sorted).
  assert (∀ p q, 0 < q - p → (p * Z.of_nat (length samples) + 99) / 100 ≤ (q * Z.of_nat (length samples) + 99) / 100)
    as Hdiv by (intros p q Hpq; apply Z.div_le_mono; nia).
  specialize (Hdiv 50 95 ltac:(lia)) as H5095. specialize (Hdiv 95 99 ltac:(lia)) as H9599.
  split; [by rewrite (Permutation_length Hperm)|]. split; [exact Hlo|].
  split. { unfold js_length. rewrite num_sub_int by (unfold MAX_SAFE_INTEGER; lia). cbn.
    rewrite (proj2 (Z.leb_le _ _)) by lia. rewrite <-Hhi. f_equal. lia. }
  split; [rewrite <-Hperm; by eapply list_elem_of_lookup_2|].
  split; [rewrite <-Hperm; by eapply list_elem_of_lookup_2|].
  split; [exact Hext|]. split; [exact P50|]. split; [exact R50|]. split; [exact P95|]. split; [exact R95|].
  split; [exact P99|]. split; [exact R99|]. split; [apply (Hle i50 i95); done || lia|].
  split; [apply (Hle i95 i99); done || lia|]. exact Hany.
Qed.
End claims.

(** A measurement calls [fn] once per warm-up and once per timed run, each after its [prepare], in
    order, and returns one sample per timed run. *)
Lemma measureManual_runs {S A} (fn : act S A) warmup iterations prepare clock s samples s' :
  measureManual fn warmup iterations prepare clock s = (Ok samples, s') →
  length samples = iterations ∧
  ∃ s1, for_each (λ i, measured fn prepare (-1 - Z.of_nat i)) (seq 0 warmup) s = (Ok tt, s1) ∧
        for_each (λ i, measured fn prepare (Z.of_nat i)) (seq 0 iterations) s1 = (Ok tt, s').
Proof.
  unfold measureManual. intros ([] & s1 & H1 & ([] & s2 & H2 & H)%action_bind_inv)%action_bind_inv.
  injection H as <- <-. rewrite length_fmap, length_seq. split; [done|]. by exists s1.
Qed.

(** ** A concrete summary *)

Module StatsDemo.
#[export] Instance library : MathLibrary := {| js_square x := num_mul x x; js_sqrt x := x |}.
Definition demo_samples : list jsnum := [NumInt 3; NumFrac 1 2; NumInt 1; NumInt 20].

Example demo_summary :
  summarize demo_samples =
    Ok {| st_samples := 4; st_min := Some (NumFrac 1 2); st_max := Some (NumInt 20);
          st_mean := NumFrac 49 8; st_sd := NumFrac 6103022541908651 70368744177664;
          st_cv := NumFrac 7971294748615381 562949953421312;
          st_p50 := Some (NumInt 1); st_p95 := Some (NumInt 20); st_p99 := Some (NumInt 20) |}.
Proof. vm_compute. reflexivity. Qed.

Lemma summarize_exact_witness :
  ∃ st, summarize demo_samples = Ok st ∧ st_p50 st = Some (NumInt 1) ∧ nearest_rank 50 demo_samples (NumInt 1) ∧
    summarize (reverse demo_samples) = Ok st.
Proof.
  assert (Forall reduced demo_samples) as Hred by (repeat constructor).
  destruct (summarize_exact demo_samples ltac:(discriminate) eq_refl Hred)
    as (st & lo & hi & v50 & v95 & v99 & H & _ & _ & _ & _ & _ & _ & H50 & R50 & _ & _ & _ & _ & _ & _ & Hany).
  exists st. split; [exact H|]. assert (st_p50 st = Some (NumInt 1)) as E.
  { rewrite demo_summary in H. injection H as <-. reflexivity. }
  split; [exact E|]. rewrite E in H50. injection H50 as <-. split; [exact R50|].
  apply Hany. apply reverse_Permutation.
Defined.
End StatsDemo.
