(* ===== verification/BenchGc.v ===== *)
(** * The garbage-collection curve of the benchmarks

    [bench/workloads/gc.ts]: how long [prune] takes over more and more live chunks, and the rule by
    which the curve is declared to have a cliff or not. The fixture is written by statements of its own
    into the checkpoint tables; what is timed is the [prune] of [Checkpoint]. The readings of
    [performance.now()], the server's [now()] and the transaction identifiers are data. The notes, which
    only say in words what the other fields say, are left out. *)

From S2P Require Import Prelude Text Literals Json Errors Transaction Driver Checkpoint Utf8.
From S2P Require Import JsonText JsonTextSpec Doubles BenchStats ChainArchive.

Local Open Scope Z_scope.

(** ** The cliff rule *)

Definition K : jsnum := NumInt 2.
Definition D_MS : jsnum := NumInt 5000.

Definition ENVELOPE_MIN_CHUNKS : jsnum := NumInt 100000.
Definition ENVELOPE_MAX_CHUNKS : jsnum := NumInt 1000000.
Definition GC_DECLARED_ENVELOPE : jsnum * jsnum := (ENVELOPE_MIN_CHUNKS, ENVELOPE_MAX_CHUNKS).

Record GcPoint := { liveChunks : jsnum; passMs : jsnum }.

Inductive CliffReason := no_cliff | K_superlinear | D_absolute.

Record CliffDetermination := {
  cd_met : bool;
  cd_reason : CliffReason;
  cd_firstMetLiveChunks : option jsnum;
}.

Section adjudicate.
Context (envMin envMax k d : jsnum).

Definition inEnvelope (p : GcPoint) : bool :=
  num_lteb envMin (liveChunks p) && num_lteb (liveChunks p) envMax.

Definition chunkGrowth (prev cur : GcPoint) : jsnum :=
  num_div (liveChunks cur) (math_max (liveChunks prev) (NumInt 1)).
Definition durGrowth (prev cur : GcPoint) : jsnum :=
  num_div (passMs cur) (math_max (passMs prev) (round_double 1 1000)).

(** The loop from a point on; [prev] is the point before it. *)
Fixpoint adjudicate_from (prev : option GcPoint) (points : list GcPoint) : CliffDetermination :=
  match points with
  | [] => {| cd_met := false; cd_reason := no_cliff; cd_firstMetLiveChunks := None |}
  | cur :: rest =>
      if negb (inEnvelope cur) then adjudicate_from (Some cur) rest
      else if num_ltb d (passMs cur) then
        {| cd_met := true; cd_reason := D_absolute; cd_firstMetLiveChunks := Some (liveChunks cur) |}
      else
        match prev with
        | Some prev =>
            if num_ltb (NumInt 1) (chunkGrowth prev cur) &&
               num_ltb (num_mul k (chunkGrowth prev cur)) (durGrowth prev cur)
            then {| cd_met := true; cd_reason := K_superlinear;
                    cd_firstMetLiveChunks := Some (liveChunks cur) |}
            else adjudicate_from (Some cur) rest
        | None => adjudicate_from (Some cur) rest
        end
  end.

Definition adjudicate (allPoints : list GcPoint) : CliffDetermination := adjudicate_from None allPoints.
End adjudicate.

(** ** The fixture *)

(** [decode(lpad(to_hex(g), 8, '0'), 'hex')] of a positive [integer]. *)
Definition int_bytes (g : Z) : bytes :=
  (λ shift, default Byte.x00 (Byte.of_N (Z.to_N (Z.shiftr g shift mod 256)))) <$> [24; 16; 8; 0].

(** [interval '25 minutes'], in the clock's microseconds. *)
Definition BACKDATE : Z := 25 * 60 * 1000000.

(** [const BATCH] of [populateChunks]. *)
Definition POPULATE_BATCH : jsnum := NumInt 50000.

Definition truncate_checkpoints : act CkDb unit :=
  statement (λ _, Ok (tt, {| ckpt_chunks := ∅; ckpt_manifests := []; ckpt_manifest_chunks := [];
                             ckpt_sequence_counters := ∅ |})).

Section fixture.
Context `{!Sha256}.

(** [sha256(g::text::bytea)]. *)
Definition gc_hash (g : Z) : bytes := sha256 (TextEncoder_encode (decimal g)).

(** [INSERT INTO ckpt_chunks SELECT .. FROM generate_series(lo, hi) ON CONFLICT (hash) DO NOTHING]. *)
Definition insert_gc_chunk (now : Z) (t : gmap bytes ChunkRow) (g : Z) : gmap bytes ChunkRow :=
  match t !! gc_hash g with
  | Some _ => t
  | None => <[gc_hash g := {| ck_data := int_bytes g; ck_created_at := now - BACKDATE |}]> t
  end.

Definition generate_series (lo hi : Z) : list Z := seqZ lo (hi + 1 - lo).

Definition insert_gc_chunks (now : Z) (s e : jsnum) : act CkDb unit :=
  statement (λ db,
    lo ← bind_integer s; hi ← bind_integer e;
    Ok (tt, with_chunks (foldl (insert_gc_chunk now) (ckpt_chunks db) (generate_series lo hi)) db)).

(** [INSERT INTO ckpt_manifest_chunks SELECT .. ON CONFLICT (manifest_id, position) DO NOTHING]. *)
Definition insert_gc_junction (manifestId : Z) (db : CkDb) (g : Z) : result thrown CkDb :=
  if existsb (λ r, (j_manifest_id r =? manifestId) && (j_position r =? g)) (ckpt_manifest_chunks db)
  then Ok db
  else insert_junction_row db {| j_manifest_id := manifestId; j_position := g; j_chunk_hash := gc_hash g |}.

Definition insert_gc_junctions (manifestId : Z) (s e : jsnum) : act CkDb unit :=
  statement (λ db,
    lo ← bind_integer s; hi ← bind_integer e;
    db' ← foldl (λ acc g, db ← acc; insert_gc_junction manifestId db g) (Ok db) (generate_series lo hi);
    Ok (tt, db')).

(** The loop of [populateChunks]; [now i] is the server's clock in the [i]-th batch. The casts to [int]
    fail past the largest [integer], so that many batches are enough fuel. *)
Fixpoint populate_from (fuel i : nat) (manifestId : Z) (s to : jsnum) (now : nat → Z) : act CkDb unit :=
  match fuel with
  | O => mret tt
  | S fuel' =>
      if num_ltb s to then
        let e := math_min (num_add s POPULATE_BATCH) to in
        insert_gc_chunks (now i) (num_add s (NumInt 1)) e ;;
        insert_gc_junctions manifestId (num_add s (NumInt 1)) e ;;
        populate_from fuel' (S i) manifestId (num_add s POPULATE_BATCH) to now
      else mret tt
  end.

Definition populate_fuel : nat := Z.to_nat (POSTGRES_INTEGER_MAX / 50000 + 2).

Definition populateChunks (manifestId : Z) (from to : jsnum) (now : nat → Z) : act CkDb unit :=
  populate_from populate_fuel 0 manifestId from to now.
End fixture.

(** ** The curve *)

Record GcScaleOpts := {
  gs_points : list jsnum;
  gs_targetEnvelope : jsnum * jsnum;
  gs_budgetMs : jsnum;
}.

Record GcCurve := {
  gc_targetMinChunks : jsnum;
  gc_targetMaxChunks : jsnum;
  gc_actualMinChunks : jsnum;
  gc_actualMaxChunks : jsnum;
  gc_cappedBelowTarget : bool;
  gc_K : jsnum;
  gc_D_ms : jsnum;
  gc_points : list GcPoint;
  gc_cliffDetermination : CliffDetermination;
}.

(** What one turn of the loop takes from outside: the clock when the budget is checked and around the
    pass, the server's clock in each batch and in the pass, the pass's transaction identifier. *)
Record GcTurn := {
  gt_checked : jsnum;
  gt_before : jsnum;
  gt_after : jsnum;
  gt_now : nat → Z;
  gt_ctx : CkCtx;
  gt_uuid : jsstr;
}.

Section curve.
Context {S : Type} `{!Part S CkDb} `{!SqlBegin S} `{!Sha256} `{!TextBinding}.

(** The [prune] is awaited for its time; its result is dropped. *)
Definition measureGcPass (turn : GcTurn) : act (World S) jsnum :=
  prune (gt_ctx turn) (js "gc") (js "bench") (NumInt 1000000) None (gt_uuid turn) ;;
  mret (num_sub (gt_after turn) (gt_before turn)).

Section loop.
Context (manifestId : Z) (start budgetMs : jsnum) (turn : nat → GcTurn).

Definition over_budget (i : nat) : bool := num_ltb budgetMs (num_sub (gt_checked (turn i)) start).

(** From the [i]-th turn on: the points it adds. *)
Fixpoint gc_loop (i : nat) (populated : jsnum) (targets : list jsnum) : act (World S) (list GcPoint) :=
  match targets with
  | [] => mret []
  | target :: rest =>
      if over_budget i then mret []
      else
        populated ← (if num_ltb populated target
                     then on_part (populateChunks manifestId populated target (gt_now (turn i))) ;; mret target
                     else mret populated);
        passMs ← measureGcPass (turn i);
        points ← gc_loop (Datatypes.S i) populated rest;
        mret ({| liveChunks := populated; passMs := passMs |} :: points)
  end.
End loop.

(** [ctx] is the clock and the serial of the manifest's insert. *)
Definition runGcScale (opts : GcScaleOpts) (ctx : CkCtx) (start : jsnum) (turn : nat → GcTurn)
    : act (World S) GcCurve :=
  on_part truncate_checkpoints ;;
  manifest ← on_part (insert_manifest ctx (js "gc") (js "bench") 1
                        (sha256 (TextEncoder_encode (js "gc-manifest"))) None);
  points ← gc_loop (m_id manifest) start (gs_budgetMs opts) turn 0 (NumInt 0) (num_sort (gs_points opts));
  let '(envMin, envMax) := gs_targetEnvelope opts in
  let actualMax := default (NumInt 0) (liveChunks <$> last points) in
  mret {| gc_targetMinChunks := envMin; gc_targetMaxChunks := envMax;
          gc_actualMinChunks := default (NumInt 0) (liveChunks <$> head points);
          gc_actualMaxChunks := actualMax; gc_cappedBelowTarget := num_ltb actualMax envMax;
          gc_K := K; gc_D_ms := D_MS; gc_points := points;
          gc_cliffDetermination := adjudicate envMin envMax K D_MS points |}.
End curve.
