(* ===== verification/BenchGcSpec.v ===== *)
(** * What the garbage-collection curve measures

    The theorems about [BenchGc]: the cliff rule finds the first breach in the envelope, and the curve's
    points are about the store they claim to be about. *)

From S2P Require Import Prelude Text Literals Json Errors Transaction Driver Checkpoint Utf8.
From S2P Require Import CheckpointSave CheckpointSpec CheckpointPrune CheckpointTheorems.
From S2P Require Import JsonText JsonTextSpec Doubles BenchStats ChainArchive BenchGc.

Local Open Scope Z_scope.

(** ** The cliff rule *)

Section cliff.
Context (envMin envMax k d : jsnum).

(** Whether [cur], measured after [prev], breaches the rule, and which half of it. *)
Definition breach (prev : option GcPoint) (cur : GcPoint) : option CliffReason :=
  if negb (inEnvelope envMin envMax cur) then None
  else if num_ltb d (passMs cur) then Some D_absolute
  else
    prev ← prev;
    if num_ltb (NumInt 1) (chunkGrowth prev cur) &&
       num_ltb (num_mul k (chunkGrowth prev cur)) (durGrowth prev cur)
    then Some K_superlinear else None.

Definition breach_at (points : list GcPoint) (i : nat) : option CliffReason :=
  cur ← points !! i; breach (if i is S j then points !! j else None) cur.

Lemma adjudicate_from_spec prev points :
  let r := adjudicate_from envMin envMax k d prev points in
  let at_ i := cur ← points !! i; breach (if i is S j then points !! j else prev) cur in
  (r = {| cd_met := false; cd_reason := no_cliff; cd_firstMetLiveChunks := None |} ∧ ∀ i, at_ i = None) ∨
  ∃ i p reason, points !! i = Some p ∧ at_ i = Some reason ∧ (∀ j, (j < i)%nat → at_ j = None) ∧
    r = {| cd_met := true; cd_reason := reason; cd_firstMetLiveChunks := Some (liveChunks p) |}.
Proof.
  revert prev. induction points as [|cur rest IH]; intros prev r at_; [by left|].
  assert (at_ 0%nat = breach prev cur) as H0 by done.
  assert (∀ i, at_ (S i) = cur' ← rest !! i; breach (if i is S j then rest !! j else Some cur) cur') as HS
    by (by intros [|i]).
  assert (breach prev cur = None → r = adjudicate_from envMin envMax k d (Some cur) rest) as Hnone.
  { unfold r, breach. cbn [adjudicate_from]. destruct (negb _); [done|]. destruct (num_ltb d _); [done|].
    destruct prev; [|done]. cbn. by destruct (_ && _). }
  destruct (breach prev cur) as [reason|] eqn:Hb.
  - right. exists 0%nat, cur, reason. split_and!; [done|done|lia|].
    unfold r, breach in *. cbn [adjudicate_from]. destruct (negb _); [done|].
    destruct (num_ltb d _); [by injection Hb as <-|]. destruct prev as [prev|]; [|done]. cbn in Hb.
    destruct (_ && _); [by injection Hb as <-|done].
  - rewrite (Hnone eq_refl). destruct (IH (Some cur)) as [[-> Hall]|(i & p & reason & Hp & Hr & Hj & ->)].
    + left. split; [done|]. intros [|i]; [done|]. by rewrite HS.
    + right. exists (S i), p, reason. split_and!; [done|by rewrite HS| |done].
      intros [|j] Hlt; [done|]. rewrite HS. apply Hj. lia.
Qed.

(** The verdict on a curve is the rule's, applied to the first breach. A cliff is reported exactly
    when some measured point inside the envelope breaches the rule: its pass took longer than [D], or, if
    not, its duration grew by more than [K] times the growth in chunks since the point measured just
    before it, whether or not that one is inside. The reason and the chunk count reported are those of
    the first such point in the order measured; a point outside the envelope is never reported. *)
Theorem adjudicate_first points :
  let r := adjudicate envMin envMax k d points in
  (r = {| cd_met := false; cd_reason := no_cliff; cd_firstMetLiveChunks := None |} ∧
   ∀ i, breach_at points i = None) ∨
  ∃ i p reason, points !! i = Some p ∧ inEnvelope envMin envMax p = true ∧ breach_at points i = Some reason ∧
    (∀ j, (j < i)%nat → breach_at points j = None) ∧
    r = {| cd_met := true; cd_reason := reason; cd_firstMetLiveChunks := Some (liveChunks p) |}.
Proof.
  destruct (adjudicate_from_spec None points) as [H|(i & p & reason & Hp & Hr & Hj & H)]; [by left|].
  right. exists i, p, reason. split_and!; try done.
  rewrite Hp in Hr. cbn in Hr. unfold breach in Hr. by destruct (inEnvelope envMin envMax p).
Qed.
End cliff.

(** ** The fixture *)

Lemma NoDup_or_collision {A B} `{EqDecision B} (f : A → B) (l : list A) :
  NoDup l → NoDup (f <$> l) ∨ ∃ x y, x ∈ l ∧ y ∈ l ∧ x ≠ y ∧ f x = f y.
Proof.
  induction 1 as [|x l Hx Hl IH]; [left; constructor|]. cbn.
  destruct IH as [IH|(y & z & ? & ? & ? & ?)]; [|right; exists y, z; set_solver].
  destruct (decide (f x ∈ f <$> l)) as [(y & Hf & Hy)%list_elem_of_fmap|Hn].
  - right. exists x, y. split_and!; [by left|by right| |done]. by intros ->.
  - left. by constructor.
Qed.

Lemma decimal_text_inj a b :
  0 ≤ a → 0 ≤ b → TextEncoder_encode (decimal a) = TextEncoder_encode (decimal b) → a = b.
Proof.
  assert (∀ n, 0 ≤ n → TextDecoder_decode (TextEncoder_encode (decimal n)) = Some (decimal n)) as Hdec.
  { intros n Hn. destruct (bigint_ascii n) as [Ha Hne]. unfold bigint_toString in Ha, Hne.
    destruct (Z.ltb_spec n 0); [lia|]. destruct (ascii_head _ Ha Hne) as (c & r & E & Hc).
    rewrite E in *. apply TextDecoder_encode; [done|]. by apply closed_well_formed, closed_ascii. }
  intros Ha Hb E. apply (f_equal TextDecoder_decode) in E. rewrite !Hdec in E by done.
  injection E as E. by rewrite <-(decimal_value_decimal a), E, decimal_value_decimal.
Qed.

Section fixture.
Context `{HSha : !Sha256}.

Definition gc_row (manifestId g : Z) : JunctionRow :=
  {| j_manifest_id := manifestId; j_position := g; j_chunk_hash := gc_hash g |}.

(** The store in which the fixture's manifest refers to the chunks of [1 .. n], and nothing else is. *)
Record fixture (manifestId n : Z) (db : CkDb) : Prop := {
  fx_manifest : ∃ m, ckpt_manifests db = [m] ∧ m_id m = manifestId;
  fx_junction : ckpt_manifest_chunks db = gc_row manifestId <$> seqZ 1 n;
  fx_chunks : ∀ h, is_Some (ckpt_chunks db !! h) ↔ h ∈ gc_hash <$> seqZ 1 n;
}.

(** The number of chunks is the number the curve gives, but for a collision. *)
Lemma fixture_size manifestId n db :
  0 ≤ n → fixture manifestId n db →
  Z.of_nat (size (ckpt_chunks db)) = n ∨ ∃ x y : bytes, x ≠ y ∧ sha256 x = sha256 y.
Proof.
  intros Hn [_ _ Hc]. destruct (NoDup_or_collision gc_hash (seqZ 1 n)) as [Hnd|(a & b & Ha & Hb & Hne & Heq)];
    [apply NoDup_seqZ| |].
  - left. rewrite <-size_dom. assert (dom (ckpt_chunks db) = list_to_set (gc_hash <$> seqZ 1 n)) as ->.
    { apply set_eq. intros h. by rewrite elem_of_dom, elem_of_list_to_set, Hc. }
    rewrite size_list_to_set, length_fmap, length_seqZ by done. lia.
  - right. rewrite elem_of_seqZ in Ha, Hb. eexists _, _. split; [|exact Heq].
    intros E. apply Hne. apply decimal_text_inj; [lia..|exact E].
Qed.

Lemma insert_gc_chunks_lookup now t gs h :
  is_Some (foldl (insert_gc_chunk now) t gs !! h) ↔ is_Some (t !! h) ∨ h ∈ gc_hash <$> gs.
Proof.
  revert t. induction gs as [|g gs IH]; intros t; cbn [foldl fmap list_fmap].
  - rewrite elem_of_nil. naive_solver.
  - rewrite IH, elem_of_cons. unfold insert_gc_chunk. destruct (t !! gc_hash g) as [c|] eqn:Ht.
    + split; [naive_solver|]. intros [?|[->|?]]; [by left|left; by rewrite Ht|by right].
    + destruct (decide (h = gc_hash g)) as [->|Hne]; [rewrite lookup_insert_eq; naive_solver|].
      rewrite lookup_insert_ne by done. naive_solver.
Qed.

Lemma insert_gc_junctions_run manifestId gs db :
  NoDup gs → Forall (insertable db) (gc_row manifestId <$> gs) →
  foldl (λ acc g, db ← acc; insert_gc_junction manifestId db g) (Ok db) gs =
    Ok (with_junction (ckpt_manifest_chunks db ++ (gc_row manifestId <$> gs)) db).
Proof.
  revert db. induction gs as [|g gs IH]; intros db Hnd Hall; [cbn; by rewrite app_nil_r, with_junction_id|].
  apply NoDup_cons in Hnd as [Hn Hnd]. cbn [fmap list_fmap] in Hall.
  assert (insert_gc_junction manifestId db g =
    Ok (with_junction (ckpt_manifest_chunks db ++ [gc_row manifestId g]) db)) as Hg.
  { apply Forall_cons in Hall as [Hi _]. unfold insert_gc_junction.
    destruct (existsb _ _) eqn:He; [|by apply insert_junction_row_total].
    apply existsb_exists in He as (r & Hr%list_elem_of_In & Hb). bool_to_prop.
    destruct Hi as (_ & _ & _ & Hk). by destruct (Hk r Hr); cbn; lia. }
  cbn [foldl]. change (Ok db ≫= λ db, insert_gc_junction manifestId db g) with (insert_gc_junction manifestId db g).
  rewrite Hg, IH; [cbn; by rewrite <-(assoc_L (++))|done|]. apply insertable_after; [|done].
  change (junction_key <$> gc_row manifestId g :: (gc_row manifestId <$> gs))
    with (junction_key <$> (gc_row manifestId <$> g :: gs)).
  rewrite <-list_fmap_compose. apply NoDup_fmap_2_strong; [intros a b _ _ E; by injection E|by constructor].
Qed.

Lemma bind_integer_int z : 0 ≤ z ≤ POSTGRES_INTEGER_MAX → bind_integer (NumInt z) = Ok z.
Proof.
  intros Hz. unfold bind_integer, bind_int. unfold POSTGRES_INTEGER_MAX in *.
  by rewrite !(proj2 (Z.leb_le _ _)) by lia.
Qed.

(** One batch of the population. *)
Lemma populate_batch manifestId n e now db :
  0 ≤ n ≤ e → e ≤ POSTGRES_INTEGER_MAX → fixture manifestId n db → n < POSTGRES_INTEGER_MAX →
  ∃ db', (insert_gc_chunks now (NumInt (n + 1)) (NumInt e) ;;
          insert_gc_junctions manifestId (NumInt (n + 1)) (NumInt e)) db = (Ok tt, db') ∧ fixture manifestId e db'.
Proof.
  intros Hn He [(m & Hm & Hid) Hj Hc] Hlt. unfold POSTGRES_INTEGER_MAX in *.
  set (gs := generate_series (n + 1) e).
  assert (seqZ 1 e = seqZ 1 n ++ gs) as Hseq.
  { unfold gs, generate_series. replace e with (n + (e - n)) at 1 by lia. rewrite seqZ_app by lia. do 2 f_equal; lia. }
  set (db1 := with_chunks (foldl (insert_gc_chunk now) (ckpt_chunks db) gs) db).
  assert (insert_gc_chunks now (NumInt (n + 1)) (NumInt e) db = (Ok tt, db1)) as H1.
  { unfold insert_gc_chunks, statement. rewrite !bind_integer_int by (unfold POSTGRES_INTEGER_MAX; lia). done. }
  assert (∀ h, is_Some (ckpt_chunks db1 !! h) ↔ h ∈ gc_hash <$> seqZ 1 e) as Hc1.
  { intros h. cbn. rewrite insert_gc_chunks_lookup, Hc, Hseq, fmap_app, elem_of_app. done. }
  assert (insert_gc_junctions manifestId (NumInt (n + 1)) (NumInt e) db1 =
    (Ok tt, with_junction (ckpt_manifest_chunks db1 ++ (gc_row manifestId <$> gs)) db1)) as H2.
  { unfold insert_gc_junctions, statement. rewrite !bind_integer_int by (unfold POSTGRES_INTEGER_MAX; lia).
    cbn [mbind result_bind]. rewrite insert_gc_junctions_run; [done|apply NoDup_seqZ|].
    apply Forall_fmap, Forall_forall. intros g Hg. assert (n + 1 ≤ g ≤ e) as Hb by (apply elem_of_seqZ in Hg; lia).
    split_and!; cbn.
    - lia.
    - rewrite Hm. cbn. rewrite Hid. by left.
    - apply Hc1. apply list_elem_of_fmap. exists g. rewrite elem_of_seqZ. split; [done|lia].
    - rewrite Hj. intros r (g' & -> & Hg'%elem_of_seqZ)%list_elem_of_fmap _. cbn. lia. }
  eexists. rewrite (action_bind_ok _ _ _ _ _ H1). split; [exact H2|]. constructor; cbn.
  - by exists m.
  - by rewrite Hj, Hseq, fmap_app.
  - exact Hc1.
Qed.

Lemma populate_from_fixture fuel i manifestId n e now db :
  0 ≤ n → e - n ≤ Z.of_nat fuel * 50000 → e ≤ POSTGRES_INTEGER_MAX → fixture manifestId (Z.min n e) db →
  ∃ db', populate_from fuel i manifestId (NumInt n) (NumInt e) now db = (Ok tt, db') ∧ 
         fixture manifestId (Z.max (Z.min n e) e) db'.
Proof.
  revert i n db. induction fuel as [|fuel IH]; intros i n db Hn Hf He Hfx; cbn [populate_from].
  { exists db. split; [done|]. by replace (Z.max (Z.min n e) e) with (Z.min n e) by lia. }
  unfold num_ltb. cbn [is_nan negb andb num_leb].
  destruct (Z.leb_spec e n); cbn [negb].
  { exists db. split; [done|]. by replace (Z.max (Z.min n e) e) with (Z.min n e) by lia. }
  unfold POSTGRES_INTEGER_MAX in *. unfold POPULATE_BATCH.
  rewrite !num_add_int by (unfold MAX_SAFE_INTEGER; lia). rewrite math_min_int.
  rewrite Z.min_l in Hfx by lia.
  destruct (populate_batch manifestId n (Z.min (n + 50000) e) (now i) db) as (db1 & H1 & Hfx1);
    [lia|unfold POSTGRES_INTEGER_MAX; lia|done|unfold POSTGRES_INTEGER_MAX; lia|].
  destruct (IH (S i) (n + 50000) db1) as (db' & H2 & Hfx2); [lia|lia|lia|exact Hfx1|].
  exists db'. split.
  - apply action_bind_inv in H1 as ([] & db0 & H0 & H1).
    by rewrite (action_bind_ok _ _ _ _ _ H0), (action_bind_ok _ _ _ _ _ H1).
  - by replace (Z.max (Z.min n e) e) with (Z.max (Z.min (n + 50000) e) e) by lia.
Qed.

Lemma populateChunks_fixture manifestId n e now db :
  0 ≤ n ≤ e → e ≤ POSTGRES_INTEGER_MAX → fixture manifestId n db →
  ∃ db', populateChunks manifestId (NumInt n) (NumInt e) now db = (Ok tt, db') ∧ fixture manifestId e db'.
Proof.
  intros Hn He Hfx. unfold populateChunks.
  destruct (populate_from_fixture populate_fuel 0 manifestId n e now db) as (db' & H & Hfx').
  - lia.
  - unfold populate_fuel, POSTGRES_INTEGER_MAX in *. change (2147483647 / 50000 + 2) with 42951. lia.
  - done.
  - by rewrite Z.min_l by lia.
  - exists db'. split; [exact H|]. by replace e with (Z.max (Z.min n e) e) at 1 by lia.
Qed.
End fixture.

(** ** The curve *)

Section curve.
Context {S : Type} `{HPart : !Part S CkDb} `{HBegin : !SqlBegin S}.
Context `{HSha : !Sha256} `{HText : !TextBinding}.

(** A [prune] of the fixture's pair deletes nothing, whatever the age of the chunks. *)
Lemma fixture_prune manifestId n ctx w net retain db :
  fixture manifestId n db → 2 ≤ retain →
  prune_run ctx w net retain db = (Ok {| prunedSequences := []; reclaimedChunks := 0; reclaimedBytes := 0 |}, db).
Proof.
  intros [(m & Hm & _) Hj Hc] Hr. unfold prune_run.
  assert (prune_manifests w net retain db = (Ok [], db)) as H1.
  { unfold prune_manifests, statement. rewrite lookup_ge_None_2; [done|].
    unfold select_manifests. rewrite merge_sort_Permutation, Hm.
    etransitivity; [apply length_filter|]. cbn. lia. }
  assert (∀ h c, ckpt_chunks db !! h = Some c → ¬ reclaimable (ck_now ctx) db (h, c)) as Hlive.
  { intros h c Hh [_ Hn]. apply Hn. cbn. rewrite Hj, <-list_fmap_compose.
    apply (proj1 (Hc h)). by eexists. }
  assert (reclaim_chunks ctx db = (Ok [], db)) as H2.
  { unfold reclaim_chunks, statement.
    assert (filter (reclaimable (ck_now ctx) db) (ckpt_chunks db) = ∅) as ->
      by (apply map_empty_filter_2; intros h c Hh; by apply Hlive).
    assert (filter (λ row, ¬ reclaimable (ck_now ctx) db row) (ckpt_chunks db) = ckpt_chunks db) as ->
      by (apply map_filter_id; intros h c Hh; by apply Hlive).
    rewrite map_to_list_empty. by destruct db. }
  rewrite (action_bind_ok _ _ _ _ _ H1), (action_bind_ok _ _ _ _ _ H2). done.
Qed.

Lemma measureGcPass_fixture manifestId n turn wo ms wo' :
  fixture manifestId n (tables wo) → measureGcPass turn wo = (Ok ms, wo') →
  ms = num_sub (gt_after turn) (gt_before turn) ∧ tables wo' = tables wo.
Proof.
  intros Hfx (res & wo1 & (k & db' & Hk & _ & Hrun & Hdb)%prune_inv & H)%action_bind_inv.
  injection H as <- <-. split; [done|]. assert (k = 1000000) as -> by (vm_compute in Hk; congruence).
  rewrite (fixture_prune _ _ _ _ _ _ _ Hfx) in Hrun by lia. injection Hrun as <- <-.
  unfold tables in *. by rewrite Hdb, part_set.
Qed.

Section loop.
Context (manifestId : Z) (start budgetMs : jsnum) (turn : nat → GcTurn).

Lemma gc_loop_points i n ts wo points wo' :
  0 ≤ n → StronglySorted Z.le (n :: ts) → Forall (λ t, t ≤ POSTGRES_INTEGER_MAX) ts →
  fixture manifestId n (tables wo) →
  gc_loop manifestId start budgetMs turn i (NumInt n) (NumInt <$> ts) wo = (Ok points, wo') →
  ∃ k, (k ≤ length ts)%nat ∧ liveChunks <$> points = NumInt <$> take k ts ∧
    passMs <$> points = (λ j, num_sub (gt_after (turn j)) (gt_before (turn j))) <$> seq i k ∧
    (∀ j, (j < k)%nat → over_budget start budgetMs turn (i + j) = false) ∧
    ((k < length ts)%nat → over_budget start budgetMs turn (i + k) = true) ∧
    fixture manifestId (default n (last (take k ts))) (tables wo').
Proof.
  revert i n wo points. induction ts as [|t ts IH]; intros i n wo points Hn Hs Hmax Hfx; cbn [gc_loop fmap list_fmap].
  { intros [= <- <-]. exists 0%nat. split_and!; first [done|intros; cbn in *; lia]. }
  destruct (over_budget start budgetMs turn i) eqn:Hb.
  { intros [= <- <-]. exists 0%nat. rewrite Nat.add_0_r. split_and!; first [done|intros; cbn in *; lia]. }
  apply StronglySorted_inv in Hs as [Hs Hall]. apply Forall_cons in Hall as [Hnt Hall].
  apply Forall_cons in Hmax as [Ht Hmax].
  intros (p & wo1 & Hpop & (ms & wo2 & Hpass & (rest & wo3 & Hrest & H)%action_bind_inv)%action_bind_inv)%action_bind_inv.
  injection H as <- <-.
  assert (p = NumInt t ∧ fixture manifestId t (tables wo1)) as [-> Hfx1].
  { unfold num_ltb in Hpop. cbn [is_nan negb andb num_leb] in Hpop.
    destruct (Z.leb_spec t n); cbn [negb] in Hpop.
    - injection Hpop as <- <-. by assert (t = n) as -> by lia.
    - apply action_bind_inv in Hpop as ([] & wo0 & Hpop & Hret). injection Hret as <- <-.
      destruct (populateChunks_fixture manifestId n t (gt_now (turn i)) (tables wo)) as (db' & Hrun & Hfx');
        [lia|done|done|].
      rewrite (on_part_run _ _ _ _ Hrun) in Hpop. injection Hpop as <-. split; [done|].
      unfold tables. cbn. by rewrite part_set. }
  destruct (measureGcPass_fixture _ _ _ _ _ _ Hfx1 Hpass) as [-> Hsame].
  destruct (IH (Datatypes.S i) t wo2 rest) as (k & Hk & Hl & Hp & Hin & Hout & Hfx3); [lia|done|done|by rewrite Hsame|done|].
  exists (Datatypes.S k). cbn [take fmap list_fmap seq length]. split_and!.
  - lia.
  - cbn. f_equal. exact Hl.
  - cbn. f_equal. exact Hp.
  - intros [|j] Hj; [by rewrite Nat.add_0_r|]. rewrite <-Nat.add_succ_comm. apply Hin. lia.
  - intros Hlt. rewrite <-Nat.add_succ_comm. apply Hout. lia.
  - rewrite last_cons. destruct (last (take k ts)) eqn:E; cbn in *; exact Hfx3.
Qed.
End loop.

(** The store the loop starts from. *)
Lemma fixture_created ctx wo wo1 m wo2 :
  on_part truncate_checkpoints wo = (Ok tt, wo1) →
  on_part (insert_manifest ctx (js "gc") (js "bench") 1
             (sha256 (TextEncoder_encode (js "gc-manifest"))) None) wo1 = (Ok m, wo2) →
  m_id m = ck_nextval ctx ∧ fixture (ck_nextval ctx) 0 (tables wo2).
Proof.
  intros Htr. assert (ckpt_manifests (tables wo1) = [] ∧ ckpt_manifest_chunks (tables wo1) = [] ∧
    ckpt_chunks (tables wo1) = ∅) as (Hm & Hj & Hc).
  { unfold on_part, truncate_checkpoints, statement in Htr. injection Htr as <-.
    unfold tables. cbn. by rewrite part_set. }
  generalize (js "gc") (js "bench") (sha256 (TextEncoder_encode (js "gc-manifest"))). intros w net h Hins.
  assert (∃ row, m_id row = ck_nextval ctx ∧
    insert_manifest ctx w net 1 h None (tables wo1) = (Ok row, with_manifests [row] (tables wo1))) as (row & Hid & E).
  { unfold insert_manifest, statement. cbn. rewrite Hm. cbn. eexists; split; [|reflexivity]; reflexivity. }
  rewrite (on_part_run _ _ _ _ E) in Hins. injection Hins as <- <-. split; [done|].
  unfold tables in *. cbn. rewrite part_set. constructor; cbn.
  - by exists row.
  - by rewrite Hj.
  - intros h'. rewrite Hc, lookup_empty, elem_of_nil. split; [intros []|]; done.
Qed.

Lemma num_sort_int ts : num_sort (NumInt <$> ts) = NumInt <$> merge_sort Z.le ts.
Proof.
  apply (merge_sort_unique num_le).
  - intros x y (a & -> & _)%list_elem_of_fmap (b & -> & _)%list_elem_of_fmap. by apply num_le_antisymm.
  - pose proof (StronglySorted_merge_sort Z.le ts) as Hs. induction Hs as [|a l Hs IH Ha]; [constructor|].
    constructor; [done|]. apply Forall_fmap. eapply Forall_impl; [exact Ha|]. intros b Hb. by apply Z.leb_le.
  - by rewrite merge_sort_Permutation.
Qed.

Lemma sorted_from_0 ts :
  Forall (λ t, 0 < t ≤ POSTGRES_INTEGER_MAX) (merge_sort Z.le ts) → StronglySorted Z.le (0 :: merge_sort Z.le ts).
Proof.
  intros H. constructor; [apply (StronglySorted_merge_sort _)|].
  eapply Forall_impl; [exact H|]. cbn. lia.
Qed.

(** The curve is about the store it says it is about. Whatever the checkpoint tables held before, if
    a run over positive chunk counts resolves, then its points are the counts in increasing order, up to
    where the time budget was used up at the start of a turn; each pass was timed by the two readings
    around it; and no pass removed anything it was meant to scan: when the run ends the tables hold exactly
    the chunks of the last point, every one of them referenced by the one manifest (but for a SHA-256
    collision, as many as the point says). The largest count reported is the last point's, and the verdict
    is the rule's on these points. *)
Theorem gc_curve_truthful opts ctx start turn ts wo curve wo' :
  gs_points opts = NumInt <$> ts → Forall (λ t, 0 < t ≤ POSTGRES_INTEGER_MAX) ts →
  runGcScale opts ctx start turn wo = (Ok curve, wo') →
  let sorted := merge_sort Z.le ts in
  ∃ k n, (k ≤ length ts)%nat ∧ n = default 0 (last (take k sorted)) ∧
    liveChunks <$> gc_points curve = NumInt <$> take k sorted ∧
    passMs <$> gc_points curve = (λ j, num_sub (gt_after (turn j)) (gt_before (turn j))) <$> seq 0 k ∧
    (∀ j, (j < k)%nat → over_budget start (gs_budgetMs opts) turn j = false) ∧
    ((k < length ts)%nat → over_budget start (gs_budgetMs opts) turn k = true) ∧
    fixture (ck_nextval ctx) n (tables wo') ∧
    (Z.of_nat (size (ckpt_chunks (tables wo'))) = n ∨ ∃ x y : bytes, x ≠ y ∧ sha256 x = sha256 y) ∧
    gc_actualMaxChunks curve = NumInt n ∧
    gc_cappedBelowTarget curve = num_ltb (NumInt n) (gs_targetEnvelope opts).2 ∧
    gc_cliffDetermination curve =
      adjudicate (gs_targetEnvelope opts).1 (gs_targetEnvelope opts).2 K D_MS (gc_points curve).
Proof.
  intros Hpts Hts Hrun sorted. unfold runGcScale in Hrun.
  apply action_bind_inv in Hrun as ([] & wo1 & Htr & Hrun).
  apply action_bind_inv in Hrun as (m & wo2 & Hins & Hrun).
  destruct (fixture_created _ _ _ _ _ Htr Hins) as [Hid Hfx]. rewrite Hid in Hrun.
  apply action_bind_inv in Hrun as (points & wo3 & Hloop & Hrun).
  rewrite Hpts, num_sort_int in Hloop. fold sorted in Hloop.
  assert (sorted ≡ₚ ts) as Hperm by apply merge_sort_Permutation.
  assert (Forall (λ t, 0 < t ≤ POSTGRES_INTEGER_MAX) sorted) as Hsorted by (by rewrite Hperm).
  destruct (gc_loop_points _ _ _ _ _ _ _ _ _ _ (Z.le_refl 0) (sorted_from_0 _ Hsorted)
    (Forall_impl _ _ _ Hsorted (λ t Ht, proj2 Ht)) Hfx Hloop) as (k & Hk & Hl & Hp & Hin & Hout & Hfx').
  fold sorted in Hk, Hl, Hout, Hfx'.
  assert (gc_points curve = points ∧ wo' = wo3 ∧
    gc_actualMaxChunks curve = default (NumInt 0) (liveChunks <$> last points) ∧
    gc_cappedBelowTarget curve = num_ltb (gc_actualMaxChunks curve) (gs_targetEnvelope opts).2 ∧
    gc_cliffDetermination curve =
      adjudicate (gs_targetEnvelope opts).1 (gs_targetEnvelope opts).2 K D_MS points) as (-> & -> & Hmax & Hcap & Hcd).
  { destruct (gs_targetEnvelope opts) as [envMin envMax]. injection Hrun as <- <-. done. }
  assert (gc_actualMaxChunks curve = NumInt (default 0 (last (take k sorted)))) as Hmax'.
  { rewrite Hmax, <-fmap_last, Hl, fmap_last. generalize (last (take k sorted)). intros []; reflexivity. }
  exists k, (default 0 (last (take k sorted))). rewrite (Permutation_length Hperm) in *.
  split_and!; [done|done|done|done|done|done|done| |done|by rewrite Hcap, Hmax'|done].
  eapply fixture_size; [|exact Hfx']. destruct (last (take k sorted)) as [t|] eqn:Hlast; [|done]. cbn.
  apply last_Some_elem_of, elem_of_take in Hlast as (j & Hj%list_elem_of_lookup_2 & _).
  rewrite Forall_forall in Hsorted. specialize (Hsorted t Hj). lia.
Qed.
End curve.

(** ** A concrete curve *)

Module GcDemo.
Import Demo.

Definition demo_gc_opts : GcScaleOpts :=
  {| gs_points := [NumInt 3; NumInt 1; NumInt 2; NumInt 5];
     gs_targetEnvelope := (NumInt 2, NumInt 5); gs_budgetMs := NumInt 1000 |}.

(** Passes of 1, 1.5, and 20 milliseconds; then the budget is used up. *)
Definition demo_turn (i : nat) : GcTurn :=
  {| gt_checked := NumInt (if (i <? 3)%nat then 100 else 2000);
     gt_before := NumInt 0; gt_after := nth i [NumInt 1; NumFrac 3 2; NumInt 20] (NumInt 0);
     gt_now := λ _, 10 ^ 12; gt_ctx := {| ck_now := 10 ^ 12; ck_nextval := 9 |}; gt_uuid := js "gc" |}.

Definition demo_curve_run := runGcScale (S := CkDb) demo_gc_opts ctx1 (NumInt 0) demo_turn world1.

Lemma demo_curve_resolves :
  (c ← demo_curve_run.1; Ok (gc_points c, gc_cliffDetermination c, gc_cappedBelowTarget c)) =
  Ok ([{| liveChunks := NumInt 1; passMs := NumInt 1 |}; {| liveChunks := NumInt 2; passMs := NumFrac 3 2 |};
       {| liveChunks := NumInt 3; passMs := NumInt 20 |}],
      {| cd_met := true; cd_reason := K_superlinear; cd_firstMetLiveChunks := Some (NumInt 3) |}, true).
Proof. vm_compute. reflexivity. Qed.

Lemma demo_points_positive : Forall (λ t, 0 < t ≤ POSTGRES_INTEGER_MAX) [3; 1; 2; 5].
Proof. unfold POSTGRES_INTEGER_MAX. repeat constructor; lia. Qed.

Lemma gc_curve_truthful_witness :
  ∃ curve wo', demo_curve_run = (Ok curve, wo') ∧ fixture 7 3 (tables wo').
Proof.
  pose proof demo_curve_resolves as H.
  destruct demo_curve_run as [[curve|e] wo'] eqn:E; [|discriminate].
  exists curve, wo'. split; [reflexivity|].
  destruct (gc_curve_truthful demo_gc_opts ctx1 (NumInt 0) demo_turn [3; 1; 2; 5] world1 curve wo' eq_refl
    demo_points_positive E) as (k & n & _ & -> & Hl & _ & _ & _ & Hfx & _).
  apply (f_equal (λ r, if r is Ok (points, _, _) then liveChunks <$> points else [])) in H.
  change (liveChunks <$> gc_points curve = [NumInt 1; NumInt 2; NumInt 3]) in H. rewrite H in Hl.
  change (merge_sort Z.le [3; 1; 2; 5]) with [1; 2; 3; 5] in *.
  destruct k as [|[|[|[|k]]]]; cbn in Hl; try discriminate Hl. exact Hfx.
Defined.
End GcDemo.
