(* ===== verification/BenchKv.v ===== *)
(** * The benchmarks of TemporalKV and the watermarks

    [bench/workloads/temporal-kv.ts], [bench/workloads/watermarks.ts] and [tinybenchSamples] of
    [bench/stats.ts], over the adapters of [TemporalKV] and [Watermarks]. tinybench decides how often
    it calls a workload and what it measures: both are parameters, and so are the clock and the
    transaction id of each statement and the rows of the server's statistics views. Resetting and
    flushing those statistics touches no table and is left out. The loop that rewrites one key resolves
    exactly when no two of its writes fall in the same millisecond of the server's clock; everything
    else in the two workloads resolves. *)

From S2P Require Import Prelude Text Literals Json Errors Transaction Driver TemporalKV TemporalKVLog.
From S2P Require Import Watermarks JsonText JsonTextSpec Doubles BenchStats.

Local Open Scope Z_scope.

(** ** tinybench *)

Record TinybenchOpts := {
  tb_time : option Z;
  tb_iterations : option Z;
  tb_warmupTime : option Z;
  tb_warmupIterations : option Z;
}.

(** The options [new Bench] is given. *)
Record BenchOptions := {
  bo_time : Z;
  bo_iterations : Z;
  bo_warmupTime : Z;
  bo_warmupIterations : Z;
}.

(** tinybench: how often a task is called, warm-up included, and the samples of its timed calls. With
    [throws: true] a call that rejects ends the run with its error, so that a run which ends otherwise
    has a result without one. *)
Class Tinybench := {
  tb_calls : jsstr → BenchOptions → nat;
  tb_result : jsstr → BenchOptions → list jsnum;
}.

Definition bench_options (opts : option TinybenchOpts) : BenchOptions :=
  {| bo_time := default 250 (opts ≫= tb_time);
     bo_iterations := default 10 (opts ≫= tb_iterations);
     bo_warmupTime := default 100 (opts ≫= tb_warmupTime);
     bo_warmupIterations := default 5 (opts ≫= tb_warmupIterations) |}.

(** The argument of [fn] is the number of its call. *)
Definition tinybenchSamples `{!Tinybench} {S} (name : jsstr) (fn : nat → act S unit)
    (opts : option TinybenchOpts) : act S (list jsnum) :=
  for_each fn (seq 0 (tb_calls name (bench_options opts))) ;;
  mret (tb_result name (bench_options opts)).

Definition tb_for (ms : Z) : option TinybenchOpts :=
  Some {| tb_time := Some ms; tb_iterations := None; tb_warmupTime := None;
          tb_warmupIterations := None |}.

(** ** HOT updates *)

(** Without the table's name and the fixed note. *)
Record HotRatio := { n_tup_upd : Z; n_tup_hot_upd : Z; hotRatio : option jsnum }.

(** [row]: the statistics of the table, if the view has a row for it. *)
Definition readHotRatio (row : option (Z * Z)) : HotRatio :=
  let '(upd, hot) := default (0, 0) row in
  {| n_tup_upd := upd; n_tup_hot_upd := hot;
     hotRatio := if 0 <? upd then Some (num_div (NumInt hot) (NumInt upd)) else None |}.

(** ** TemporalKV *)

Record KvResults := { kr_workloads : list (jsstr * LatencyStats); kr_hotRatio : HotRatio }.

Definition bench_key (key : jsstr) : KvKey := (js "bench", js "scope", key).
Definition hot_key : KvKey := bench_key (js "hot-key").
Definition fresh_key (n : Z) : KvKey := bench_key (js "fresh-" ++ decimal n).

(** [{ v: n }]. *)
Definition v_object (n : Z) : jsval := JObj [(js "v", JNum (NumInt n))].

Section kv_workloads.
Context `{HTiny : !Tinybench} `{HMath : !MathLibrary}.

(** [ctx i]: the clock and the transaction of the [i]-th write, counted over the whole workload. *)
Variable ctx : nat → KvCtx.

Definition put_fresh (i : nat) : act (World KvDb) unit :=
  put (ctx i) (fresh_key (Z.of_nat i + 1)) (v_object (Z.of_nat i + 1)) None None None ;; mret tt.

Definition put_hot (i : nat) (n : Z) : act (World KvDb) unit :=
  put (ctx i) hot_key (v_object n) None None None ;; mret tt.

Definition read_hot : act (World KvDb) unit := TemporalKV.get hot_key None None ;; mret tt.
Definition read_hot_at (asOf : AsOf) : act (World KvDb) unit := getAt hot_key asOf None None ;; mret tt.

Definition fresh_calls : nat := tb_calls (js "kv.put.fresh") (bench_options (tb_for 300)).
Definition existing_calls : nat := tb_calls (js "kv.put.existing") (bench_options (tb_for 500)).

(** [at]: the [new Date()] of the last workload; [row]: the statistics of [kv_current]. *)
Definition runTemporalKvWorkloads (at_ : Z) (row : option (Z * Z)) : act (World KvDb) KvResults :=
  fresh ← tinybenchSamples (js "kv.put.fresh") put_fresh (tb_for 300);
  fresh ← check (summarize fresh);
  put_hot fresh_calls 0 ;;
  existing ← tinybenchSamples (js "kv.put.existing")
               (λ i, put_hot (fresh_calls + 1 + i) (Z.of_nat i + 1)) (tb_for 500);
  existing ← check (summarize existing);
  get ← tinybenchSamples (js "kv.get") (λ _, read_hot) (tb_for 300);
  get ← check (summarize get);
  byVersion ← tinybenchSamples (js "kv.getAt.version") (λ _, read_hot_at (AsOfVersion 1)) (tb_for 300);
  byVersion ← check (summarize byVersion);
  byTime ← tinybenchSamples (js "kv.getAt.at") (λ _, read_hot_at (AsOfAt (Some at_))) (tb_for 300);
  byTime ← check (summarize byTime);
  mret {| kr_workloads :=
            [(js "temporalKV.put.fresh", fresh); (js "temporalKV.put.existing", existing);
             (js "temporalKV.get", get); (js "temporalKV.getAt.version", byVersion);
             (js "temporalKV.getAt.at", byTime)];
          kr_hotRatio := readHotRatio row |}.
End kv_workloads.

(** ** Watermarks *)

Definition BLOAT_SAME_KEY_UPDATES : nat := 5000.

(** Without the table's name and the fixed note. *)
Record BloatStability := { bs_relationSizeBytes : Z; bs_deadTuples : Z; bs_updates : Z }.

Definition readBloatStability (row : option (Z * Z)) (updates : Z) : BloatStability :=
  let '(size, dead) := default (0, 0) row in
  {| bs_relationSizeBytes := size; bs_deadTuples := dead; bs_updates := updates |}.

Record WatermarkResults := {
  wr_workloads : list (jsstr * LatencyStats);
  wr_hotRatio : HotRatio;
  wr_bloatStability : BloatStability;
}.

(** [{ h: n }]. *)
Definition h_object (n : Z) : jsval := JObj [(js "h", JNum (NumInt n))].

Definition wm_keys : list jsstr :=
  [js "sync-tip"; js "indexer-cursor"; js "dust-cursor"; js "block-height"].

(** [keys[n % keys.length]!]. *)
Definition wm_key (n : nat) : jsstr := nth (n mod 4) wm_keys [].

Section wm_workloads.
Context {S : Type} `{HPart : !Part S WatermarkTable} `{HText : !TextBinding}.
Context `{HTiny : !Tinybench} `{HMath : !MathLibrary}.

(** [now i]: the [now()] of the [i]-th write of the workload. *)
Variable now : nat → Z.

Definition set_turn (i : nat) : act (World S) unit :=
  Watermarks.set (now i) (js "cursor") (wm_key i) (h_object (Z.of_nat i + 1)) None None.

Definition wm_calls : nat := tb_calls (js "wm.set") (bench_options (tb_for 500)).

Definition set_tip (i : nat) : act (World S) unit :=
  Watermarks.set (now (wm_calls + i)) (js "cursor") (js "sync-tip") (h_object (Z.of_nat i)) None None.

Definition runWatermarkWorkloads (hot size : option (Z * Z)) : act (World S) WatermarkResults :=
  samples ← tinybenchSamples (js "wm.set") set_turn (tb_for 500);
  stats ← check (summarize samples);
  for_each set_tip (seq 0 BLOAT_SAME_KEY_UPDATES) ;;
  let totalUpdates := Z.of_nat wm_calls + Z.of_nat BLOAT_SAME_KEY_UPDATES in
  mret {| wr_workloads := [(js "watermarks.set.highFrequency", stats)];
          wr_hotRatio := readHotRatio hot;
          wr_bloatStability := readBloatStability size totalUpdates |}.
End wm_workloads.

(** ** Loops *)

(** A loop whose turns keep an invariant of the number of turns done. *)
Lemma for_each_invariant {E T} (f : nat → action E T unit) (P : nat → T → Prop) n :
  ∀ i s, P i s →
  (∀ j s, (i ≤ j < i + n)%nat → P j s → ∃ s', f j s = (Ok tt, s') ∧ P (j + 1)%nat s') →
  ∃ s', for_each f (seq i n) s = (Ok tt, s') ∧ P (i + n)%nat s'.
Proof.
  induction n as [|n IH]; intros i s Hs Hstep.
  - exists s. split; [done|]. by rewrite Nat.add_0_r.
  - destruct (Hstep i s ltac:(lia) Hs) as (s1 & H1 & HP1). rewrite Nat.add_1_r in HP1.
    destruct (IH (S i) s1 HP1) as (s' & H' & HP'); [intros j s2 Hj; apply Hstep; lia|].
    exists s'. cbn [seq]. rewrite (for_each_cons_ok _ _ _ _ _ H1). split; [done|].
    by replace (i + S n)%nat with (S i + n)%nat by lia.
Qed.

Lemma for_each_same {E S A} (f : A → action E S unit) xs s :
  (∀ x, f x s = (Ok tt, s)) → for_each f xs s = (Ok tt, s).
Proof. intros Hf. induction xs as [|x xs IH]; [done|]. by rewrite (for_each_cons_ok _ _ _ _ _ (Hf x)). Qed.

(** ** The keys *)

Lemma ascii_safe s : Forall (λ c, 0 < c ∧ c < 128)%N s → hasPostgresUnsafeText s = false.
Proof.
  intros Hs. unfold hasPostgresUnsafeText, LONE_SURROGATE_PATTERN. apply orb_false_iff. split.
  - induction Hs as [|c s Hc _ IH]; [done|]. cbn [existsb]. rewrite IH, orb_false_r. apply N.eqb_neq. lia.
  - enough (∀ b, lone_surrogate_from b s = false) by done.
    induction Hs as [|c s Hc _ IH]; intros b; [done|]. cbn [lone_surrogate_from].
    rewrite IH. assert (is_high_surrogate c = false) as -> by (unfold is_high_surrogate; lia).
    assert (is_low_surrogate c = false) as -> by (unfold is_low_surrogate; lia). done.
Qed.

Lemma fresh_key_valid n : 0 ≤ n → validateKey (fresh_key n) = Ok tt.
Proof.
  intros Hn. cbv beta iota delta [validateKey fresh_key bench_key].
  assert (KeySchema (js "fresh-" ++ decimal n) = true) as Hk.
  { unfold KeySchema, z_text. rewrite ascii_safe; [by cbn|]. apply Forall_app. split.
    - repeat constructor.
    - apply Forall_forall. intros c Hc. pose proof (decimal_digits n Hn) as Hd.
      rewrite forallb_forall in Hd. apply list_elem_of_In, Hd in Hc. unfold is_digit in Hc. lia. }
  rewrite Hk. reflexivity.
Qed.

Lemma hot_key_valid : validateKey hot_key = Ok tt.
Proof. vm_compute. reflexivity. Qed.

Lemma fresh_key_inj m n : 0 ≤ m → 0 ≤ n → fresh_key m = fresh_key n → m = n.
Proof.
  unfold fresh_key, bench_key. intros Hm Hn [= H].
  by rewrite <-(decimal_value_decimal m Hm), <-(decimal_value_decimal n Hn), H.
Qed.

Lemma fresh_not_hot n : fresh_key n ≠ hot_key.
Proof. done. Qed.

Lemma v_object_valid n : JsonValueSchema (v_object n) = true.
Proof. reflexivity. Qed.

(** ** One unconditional put *)

Definition with_db {S} (db : S) (w : World S) : World S :=
  Build_World db (activeTransactions w) (w_statement_timeout w).

Lemma put_unconditional ctx k v (w : World KvDb) L :
  kv_rep (w_db w) L → validateKey k = Ok tt → JsonValueSchema v = true →
  match log_put ctx k v None (L k) with
  | Err e => put ctx k v None None None w = (Err e, w)
  | Ok l' => ∃ entry db', put ctx k v None None None w = (Ok entry, with_db db' w) ∧
      kv_rep db' (log_update k l' L) ∧ l' = L k ++ [ctx_event ctx v]
  end.
Proof.
  intros Hrep Hk Hv.
  assert (put ctx k v None None None w = on_db (putImpl ctx k v None) w) as ->.
  { unfold put, put_validate. unfold_action. by rewrite Hk, Hv. }
  pose proof (putImpl_refines ctx k v (w_db w) L Hrep Hk Hv None) as Hp.
  unfold put_refines, on_db in *. destruct (log_put _ _ _ _ _) as [l'|e] eqn:Hl.
  - destruct Hp as (db' & -> & Hrep' & _). destruct (Hrep k) as [_ Hwf].
    destruct (log_put_wf _ _ _ _ _ _ Hwf Hv Hl) as [_ Hl']. by eexists _, _.
  - rewrite Hp. by destruct w.
Qed.

Lemma log_put_first ctx k v : log_put ctx k v None [] = Ok [ctx_event ctx v].
Proof. done. Qed.

(** ** The TemporalKV workload *)

Section kv.
Context `{HTiny : !Tinybench} `{HMath : !MathLibrary}.
Variable ctx : nat → KvCtx.

(** The millisecond the server's clock showed at the [i]-th write. *)
Let ms (i : nat) : Z := date_trunc_milliseconds (clock_timestamp (ctx i)).
Let n := existing_calls.
Let b := fresh_calls.

Lemma put_fresh_turn L0 i (w : World KvDb) :
  (∀ m, L0 (fresh_key m) = []) →
  (∃ L, kv_rep (w_db w) L ∧ L hot_key = L0 hot_key ∧
        ∀ m, 0 ≤ m → L (fresh_key m) = [] ∨ m ≤ Z.of_nat i) →
  ∃ w', put_fresh ctx i w = (Ok tt, w') ∧
    ∃ L, kv_rep (w_db w') L ∧ L hot_key = L0 hot_key ∧
         ∀ m, 0 ≤ m → L (fresh_key m) = [] ∨ m ≤ Z.of_nat (i + 1).
Proof.
  intros H0 (L & Hrep & Hhot & Hfresh). set (k := fresh_key (Z.of_nat i + 1)).
  assert (L k = []) as Hnil by (destruct (Hfresh (Z.of_nat i + 1) ltac:(lia)) as [Hnil|Hle]; [done|lia]).
  pose proof (put_unconditional (ctx i) k (v_object (Z.of_nat i + 1)) w L Hrep
    (fresh_key_valid (Z.of_nat i + 1) ltac:(lia)) (v_object_valid _)) as Hp.
  rewrite Hnil, log_put_first in Hp. destruct Hp as (entry & db' & Hput & Hrep' & _).
  exists (with_db db' w). split.
  { unfold put_fresh. fold k. rewrite action_bind_step, Hput. done. }
  eexists. split; [exact Hrep'|]. split.
  - rewrite log_update_ne; [done|]. apply not_eq_sym, fresh_not_hot.
  - intros m Hm. destruct (decide (m ≤ Z.of_nat (i + 1))) as [|Hgt]; [by right|left].
    rewrite log_update_ne; [|intros Heq%fresh_key_inj; lia].
    destruct (Hfresh m Hm) as [|]; [done|lia].
Qed.

(** The store after [i] rewrites of the hot key. *)
Definition hot_state (i : nat) (w : World KvDb) : Prop :=
  ∃ L p, kv_rep (w_db w) L ∧ last (L hot_key) = Some p ∧ length (L hot_key) = S i ∧
         ev_at p = ms (b + i) ∧ ev_xact p = txid_current (ctx (b + i)).

Lemma put_hot_first (w : World KvDb) L :
  kv_rep (w_db w) L → L hot_key = [] →
  ∃ w', put_hot ctx b 0 w = (Ok tt, w') ∧ hot_state 0 w'.
Proof.
  intros Hrep Hnil.
  pose proof (put_unconditional (ctx b) hot_key (v_object 0) w L Hrep hot_key_valid (v_object_valid _)) as Hp.
  rewrite Hnil, log_put_first in Hp. destruct Hp as (entry & db' & Hput & Hrep' & _).
  exists (with_db db' w). split; [unfold put_hot; by rewrite action_bind_step, Hput|].
  eexists _, _. split; [exact Hrep'|]. rewrite log_update_eq. cbn. unfold ms.
  rewrite Nat.add_0_r. by split_and!.
Qed.

Section clock.
(** The clock does not run backwards and every statement is a transaction of its own. *)
Hypothesis Hclock : ∀ i, ms i ≤ ms (i + 1).
Hypothesis Hxact : ∀ i, txid_current (ctx i) ≠ txid_current (ctx (i + 1)).
Hypothesis Hcalls : Z.of_nat n < POSTGRES_BIGINT_MAX.

Lemma put_hot_turn i (w : World KvDb) :
  (i < n)%nat → hot_state i w →
  if ms (b + i) =? ms (b + i + 1)
  then ∃ msg pg, put_hot ctx (b + 1 + i) (Z.of_nat i + 1) w = (Err (ClockRegressionError msg pg), w)
  else ∃ w', put_hot ctx (b + 1 + i) (Z.of_nat i + 1) w = (Ok tt, w') ∧ hot_state (i + 1) w'.
Proof.
  intros Hi (L & p & Hrep & Hlast & Hlen & Hat & Hx).
  replace (b + 1 + i)%nat with (b + i + 1)%nat by lia. set (c := ctx (b + i + 1)).
  pose proof (put_unconditional c hot_key (v_object (Z.of_nat i + 1)) w L Hrep hot_key_valid
    (v_object_valid _)) as Hp.
  unfold log_put in Hp. cbn [log_guard negb] in Hp. rewrite Hlast in Hp.
  unfold log_refusal in Hp. rewrite Hlen, Hx, Hat in Hp.
  destruct (Z.leb_spec POSTGRES_BIGINT_MAX (Z.of_nat (S i))); [lia|].
  destruct (Z.eqb_spec (txid_current (ctx (b + i))) (txid_current c)) as [He|_]; [by destruct (Hxact (b + i))|].
  change (date_trunc_milliseconds (clock_timestamp c)) with (ms (b + i + 1)) in Hp. pose proof (Hclock (b + i)).
  destruct (Z.ltb_spec (ms (b + i + 1)) (ms (b + i))); [lia|].
  destruct (Z.eqb_spec (ms (b + i + 1)) (ms (b + i))) as [He|Hne],
    (Z.eqb_spec (ms (b + i)) (ms (b + i + 1))); try lia; cbv beta iota in Hp.
  - eexists _, _. unfold put_hot. fold c. rewrite action_bind_step, Hp. reflexivity.
  - destruct Hp as (entry & db' & Hput & Hrep' & _). exists (with_db db' w).
    split; [unfold put_hot; fold c; by rewrite action_bind_step, Hput|].
    eexists _, _. split; [exact Hrep'|]. rewrite log_update_eq, last_snoc. split; [done|].
    rewrite length_app, Hlen. cbn. rewrite Nat.add_assoc. by split_and!; [lia|..].
Qed.

(** All the rewrites: through when the milliseconds differ, a [ClockRegressionError] otherwise. *)
Lemma put_hot_loop m i (w : World KvDb) :
  (i + m ≤ n)%nat → hot_state i w →
  let loop := for_each (λ i, put_hot ctx (b + 1 + i) (Z.of_nat i + 1)) (seq i m) w in
  ((∀ j, (i ≤ j < i + m)%nat → ms (b + j) < ms (b + j + 1)) →
    ∃ w', loop = (Ok tt, w') ∧ hot_state (i + m) w') ∧
  ((∃ j, (i ≤ j < i + m)%nat ∧ ms (b + j) = ms (b + j + 1)) →
    ∃ msg pg w', loop = (Err (ClockRegressionError msg pg), w')).
Proof.
  revert i w. induction m as [|m IH]; intros i w Hle Hst; cbv zeta.
  { split; [intros _; exists w; by rewrite Nat.add_0_r|intros (j & Hj & _); lia]. }
  pose proof (put_hot_turn i w ltac:(lia) Hst) as Hturn. cbn [seq].
  destruct (Z.eqb_spec (ms (b + i)) (ms (b + i + 1))) as [He|Hne].
  - destruct Hturn as (msg & pg & Hput). split.
    + intros Hall. pose proof (Hall i ltac:(lia)). lia.
    + intros _. exists msg, pg, w. cbn [for_each]. by rewrite action_bind_step, Hput.
  - destruct Hturn as (w1 & Hput & Hst1). rewrite Nat.add_1_r in Hst1.
    destruct (IH (S i) w1 ltac:(lia) Hst1) as [H1 H2].
    rewrite (for_each_cons_ok (λ i, put_hot ctx (b + 1 + i) (Z.of_nat i + 1)) i _ w w1 Hput). split.
    + intros Hall. replace (i + S m)%nat with (S i + m)%nat by lia. apply H1. intros j Hj. apply Hall. lia.
    + intros (j & Hj & Hej). apply H2. exists j. split; [|done].
      destruct (decide (j = i)) as [->|]; [done|lia].
Qed.
End clock.

(** The reads change nothing and always resolve. *)
Lemma read_hot_at_resolves asOf (w : World KvDb) L :
  kv_rep (w_db w) L → validateAsOf asOf = Ok tt → read_hot_at asOf w = (Ok tt, w).
Proof.
  intros Hrep Ha. unfold read_hot_at, getAt. unfold_action. rewrite Ha. unfold withAbort, on_db. cbn -[hot_key getAtImpl].
  change (validateKey hot_key) with (Ok (E := thrown) tt).
  rewrite (getAtImpl_spec hot_key asOf _ L Hrep hot_key_valid Ha). by destruct w.
Qed.

Lemma getImpl_resolves k db L :
  kv_rep db L → validateKey k = Ok tt → ∃ e, TemporalKV.getImpl k db = (Ok e, db).
Proof.
  intros Hrep Hk. destruct (Hrep k) as [Hr Hwf].
  unfold TemporalKV.getImpl, select_current. unfold_action.
  destruct (live_row_cases _ _ _ Hr) as [[_ ->]|(l & p & Hl & ->)]; [by eexists|].
  cbn [entry_or_null]. rewrite Hl in Hwf. pose proof (wf_length _ Hwf) as Hlen.
  rewrite length_app in Hlen. cbn [length] in Hlen.
  pose proof (wf_values _ Hwf) as Hv. apply Forall_app in Hv as [_ Hv]. apply Forall_inv in Hv.
  unfold_action. rewrite toEntry_ok; [by eexists|exact Hk|exact Hv|cbn; lia].
Qed.

Lemma read_hot_resolves (w : World KvDb) L : kv_rep (w_db w) L → read_hot w = (Ok tt, w).
Proof.
  intros Hrep. destruct (getImpl_resolves hot_key _ L Hrep hot_key_valid) as [e He].
  unfold read_hot, TemporalKV.get. rewrite hot_key_valid. unfold_action. unfold on_db. rewrite He.
  by destruct w.
Qed.

Lemma tinybenchSamples_ok {T} name (fn : nat → act T unit) opts s s' :
  for_each fn (seq 0 (tb_calls name (bench_options opts))) s = (Ok tt, s') →
  tinybenchSamples name fn opts s = (Ok (tb_result name (bench_options opts)), s').
Proof. intros H. unfold tinybenchSamples. by rewrite (action_bind_ok _ _ _ _ _ H). Qed.

Lemma tinybenchSamples_err {T} name (fn : nat → act T unit) opts s s' e :
  for_each fn (seq 0 (tb_calls name (bench_options opts))) s = (Err e, s') →
  tinybenchSamples name fn opts s = (Err e, s').
Proof. intros H. unfold tinybenchSamples. by rewrite (action_bind_err _ _ _ _ _ H). Qed.

Lemma summarize_resolves samples : samples ≠ [] → ∃ st, summarize samples = Ok st.
Proof. intros H. destruct samples; [done|]. by eexists. Qed.

(** tinybench took at least one sample of each workload. *)
Definition kv_sampled : Prop :=
  tb_result (js "kv.put.fresh") (bench_options (tb_for 300)) ≠ [] ∧
  tb_result (js "kv.put.existing") (bench_options (tb_for 500)) ≠ [] ∧
  tb_result (js "kv.get") (bench_options (tb_for 300)) ≠ [] ∧
  tb_result (js "kv.getAt.version") (bench_options (tb_for 300)) ≠ [] ∧
  tb_result (js "kv.getAt.at") (bench_options (tb_for 300)) ≠ [].

(** The first two workloads: the fresh keys and the first write of the hot key. *)
Lemma kv_bench_prefix (w : World KvDb) :
  kv_sampled → w_db w = kv_empty →
  ∃ w', hot_state 0 w' ∧ ∀ B (rest : LatencyStats → act (World KvDb) B),
    ∃ st, (fresh ← tinybenchSamples (js "kv.put.fresh") (put_fresh ctx) (tb_for 300);
           fresh ← check (summarize fresh);
           put_hot ctx b 0 ;; rest fresh) w = rest st w'.
Proof.
  intros (H1 & _) Hw.
  destruct (for_each_invariant (put_fresh ctx) (λ i w, ∃ L, kv_rep (w_db w) L ∧ L hot_key = [] ∧
    ∀ m, 0 ≤ m → L (fresh_key m) = [] ∨ m ≤ Z.of_nat i) b 0 w) as (w1 & Hloop & L & Hrep & Hnil & _).
  - exists (λ _, []). rewrite Hw. split_and!; [apply kv_rep_empty|done|by left].
  - intros j s _ HP. by apply (put_fresh_turn (λ _, [])).
  - destruct (put_hot_first w1 L Hrep Hnil) as (w2 & Hput & Hst). exists w2. split; [done|].
    intros B rest. destruct (summarize_resolves _ H1) as [st Hsum]. exists st.
    rewrite (action_bind_ok _ _ _ _ _ (tinybenchSamples_ok _ _ _ _ _ Hloop)).
    rewrite Hsum. rewrite (action_bind_ok (check (Ok st)) _ _ st w1) by done.
    by rewrite (action_bind_ok _ _ _ _ _ Hput).
Qed.

(** The reads that follow. *)
Definition kv_reads (at_ : Z) (row : option (Z * Z)) (fresh existing : LatencyStats)
    : act (World KvDb) KvResults :=
  get ← tinybenchSamples (js "kv.get") (λ _, read_hot) (tb_for 300);
  get ← check (summarize get);
  byVersion ← tinybenchSamples (js "kv.getAt.version") (λ _, read_hot_at (AsOfVersion 1)) (tb_for 300);
  byVersion ← check (summarize byVersion);
  byTime ← tinybenchSamples (js "kv.getAt.at") (λ _, read_hot_at (AsOfAt (Some at_))) (tb_for 300);
  byTime ← check (summarize byTime);
  mret {| kr_workloads :=
            [(js "temporalKV.put.fresh", fresh); (js "temporalKV.put.existing", existing);
             (js "temporalKV.get", get); (js "temporalKV.getAt.version", byVersion);
             (js "temporalKV.getAt.at", byTime)];
          kr_hotRatio := readHotRatio row |}.

Definition kv_rewrites (at_ : Z) (row : option (Z * Z)) (fresh : LatencyStats)
    : act (World KvDb) KvResults :=
  existing ← tinybenchSamples (js "kv.put.existing")
               (λ i, put_hot ctx (b + 1 + i) (Z.of_nat i + 1)) (tb_for 500);
  existing ← check (summarize existing);
  kv_reads at_ row fresh existing.

Lemma kv_reads_resolve existing at_ row fresh (w : World KvDb) L :
  kv_sampled → kv_rep (w_db w) L → ∃ res, kv_reads at_ row fresh existing w = (Ok res, w).
Proof.
  intros (_ & _ & H3 & H4 & H5) Hrep.
  pose proof (for_each_same (λ _ : nat, read_hot) (seq 0 (tb_calls (js "kv.get") (bench_options (tb_for 300)))) w
    (λ _, read_hot_resolves w L Hrep)) as G3.
  pose proof (for_each_same (λ _ : nat, read_hot_at (AsOfVersion 1))
    (seq 0 (tb_calls (js "kv.getAt.version") (bench_options (tb_for 300)))) w
    (λ _, read_hot_at_resolves (AsOfVersion 1) w L Hrep eq_refl)) as G4.
  pose proof (for_each_same (λ _ : nat, read_hot_at (AsOfAt (Some at_)))
    (seq 0 (tb_calls (js "kv.getAt.at") (bench_options (tb_for 300)))) w
    (λ _, read_hot_at_resolves (AsOfAt (Some at_)) w L Hrep eq_refl)) as G5.
  destruct (summarize_resolves _ H3) as [st3 S3], (summarize_resolves _ H4) as [st4 S4],
    (summarize_resolves _ H5) as [st5 S5].
  unfold kv_reads.
  rewrite (action_bind_ok _ _ _ _ _ (tinybenchSamples_ok _ _ _ _ _ G3)), S3.
  rewrite (action_bind_ok (check (Ok st3)) _ _ st3 w) by done.
  rewrite (action_bind_ok _ _ _ _ _ (tinybenchSamples_ok _ _ _ _ _ G4)), S4.
  rewrite (action_bind_ok (check (Ok st4)) _ _ st4 w) by done.
  rewrite (action_bind_ok _ _ _ _ _ (tinybenchSamples_ok _ _ _ _ _ G5)), S5.
  rewrite (action_bind_ok (check (Ok st5)) _ _ st5 w) by done. by eexists.
Qed.

(** When the TemporalKV benchmark resolves. On the fresh schema it runs on, with a clock that does
    not run backwards and every write a transaction of its own, it depends only on the writes of the
    hot key: if the clock shows a later millisecond at each of them than at the one before, the
    benchmark resolves, and the key is left at one version per write; if it shows the same
    millisecond at two consecutive ones, the second is refused and the whole benchmark rejects with
    [ClockRegressionError]. *)
Theorem kv_bench_outcome at_ row (w : World KvDb) :
  kv_sampled → w_db w = kv_empty →
  (∀ i, ms i ≤ ms (i + 1)) → (∀ i, txid_current (ctx i) ≠ txid_current (ctx (i + 1))) →
  Z.of_nat n < POSTGRES_BIGINT_MAX →
  ((∀ i, (i < n)%nat → ms (b + i) < ms (b + i + 1)) →
    ∃ res w' r, runTemporalKvWorkloads ctx at_ row w = (Ok res, w') ∧
      kv_current (w_db w') !! hot_key = Some r ∧ c_version r = Z.of_nat n + 1) ∧
  ((∃ i, (i < n)%nat ∧ ms (b + i) = ms (b + i + 1)) →
    ∃ msg pg w', runTemporalKvWorkloads ctx at_ row w = (Err (ClockRegressionError msg pg), w')).
Proof.
  intros Hs Hw Hclock Hxact Hcalls.
  destruct (kv_bench_prefix w Hs Hw) as (w1 & Hst & Hpre).
  destruct (put_hot_loop Hclock Hxact Hcalls n 0 w1 (le_n _) Hst) as [Hok Herr].
  assert (∃ st, runTemporalKvWorkloads ctx at_ row w = kv_rewrites at_ row st w1) as (st & ->)
    by exact (Hpre KvResults (kv_rewrites at_ row)).
  unfold kv_rewrites. split.
  - intros Hall. destruct Hok as (w2 & Hloop & L & p & Hrep & Hlast & Hlen & _ & _).
    { intros j Hj. apply Hall. lia. }
    rewrite (action_bind_ok _ _ _ _ _ (tinybenchSamples_ok _ _ (tb_for 500) _ _ Hloop)).
    destruct (summarize_resolves _ (proj1 (proj2 Hs))) as [st2 S2]. rewrite S2.
    rewrite (action_bind_ok (check (Ok st2)) _ _ st2 w2) by done.
    destruct (kv_reads_resolve st2 at_ row st w2 L Hs Hrep) as [res ->].
    destruct (Hrep hot_key) as [[_ Hcur] _]. unfold live_row in Hcur. rewrite Hlast, Hlen in Hcur.
    eexists _, _, _. split_and!; [reflexivity|exact Hcur|]. cbn [c_version]. lia.
  - intros (i & Hi & He). destruct Herr as (msg & pg & w2 & Hloop).
    { exists i. split; [lia|done]. }
    exists msg, pg, w2.
    by rewrite (action_bind_err _ _ _ _ _ (tinybenchSamples_err _ _ (tb_for 500) _ _ _ Hloop)).
Qed.
End kv.

(** ** The watermark workload *)

Section wm.
Context {T : Type} `{HPart : !Part T WatermarkTable} `{HText : !TextBinding}.
Context `{HTiny : !Tinybench} `{HMath : !MathLibrary}.
Variable now : nat → Z.

Definition bench_cursors : list WatermarkId := (λ key, (js "cursor", key)) <$> wm_keys.
Definition wm_frame (w0 w : World T) : Prop :=
  ∀ id, id ∉ bench_cursors → cursor id w = cursor id w0.

Lemma wm_key_elem i : (js "cursor", wm_key i) ∈ bench_cursors.
Proof.
  unfold wm_key. pose proof (Nat.mod_upper_bound i 4 ltac:(done)) as Hi.
  destruct (i mod 4)%nat as [|[|[|[|]]]]; [..|lia]; cbn; set_solver.
Qed.

Lemma wm_key_storable i : storable_id (js "cursor") (wm_key i).
Proof.
  unfold wm_key. pose proof (Nat.mod_upper_bound i 4 ltac:(done)) as Hi.
  destruct (i mod 4)%nat as [|[|[|[|]]]]; [..|lia]; by split.
Qed.

(** One write of a bench cursor. *)
Lemma bench_set at_ key n (w0 w : World T) :
  storable_id (js "cursor") key → (js "cursor", key) ∈ bench_cursors → wm_frame w0 w →
  ∃ w', Watermarks.set at_ (js "cursor") key (h_object n) None None w = (Ok tt, w') ∧
        wm_frame w0 w' ∧ cursor (js "cursor", key) w' = Some (h_object n).
Proof.
  intros Hid Hin Hf. eexists. split; [by apply set_ok|]. split.
  - intros id Hid'. rewrite <-(Hf id Hid'). unfold cursor. cbn [w_db]. rewrite part_set.
    rewrite lookup_insert_ne; [done|]. intros <-. done.
  - unfold cursor. cbn [w_db]. by rewrite part_set, lookup_insert_eq.
Qed.

(** The watermark benchmark always resolves, whatever the clock, and it rewrites rows instead of
    adding them: besides its four cursors nothing changes, and the cursor of the burst is left at the
    burst's last value. *)
Theorem wm_bench_resolves hot size (w : World T) :
  tb_result (js "wm.set") (bench_options (tb_for 500)) ≠ [] →
  ∃ res w', runWatermarkWorkloads now hot size w = (Ok res, w') ∧
    bs_updates (wr_bloatStability res) = Z.of_nat wm_calls + 5000 ∧
    cursor (js "cursor", js "sync-tip") w' = Some (h_object 4999) ∧ wm_frame w w'.
Proof.
  intros Hs. destruct (summarize_resolves _ Hs) as [st Hst].
  destruct (for_each_invariant (set_turn now) (λ _, wm_frame w) wm_calls 0 w) as (w1 & H1 & Hf1).
  { by intros id _. }
  { intros j s _ Hf. destruct (bench_set (now j) (wm_key j) (Z.of_nat j + 1) w s
      (wm_key_storable j) (wm_key_elem j) Hf) as (s' & Hset & Hf' & _). by exists s'. }
  destruct (for_each_invariant (set_tip now)
    (λ i w', wm_frame w w' ∧ (0 < i → cursor (js "cursor", js "sync-tip") w' = Some (h_object (Z.of_nat i - 1)))%nat)
    BLOAT_SAME_KEY_UPDATES 0 w1) as (w2 & H2 & Hf2 & Htip).
  { split; [done|lia]. }
  { intros j s _ [Hf _].
    destruct (bench_set (now (wm_calls + j)) (js "sync-tip") (Z.of_nat j) w s
      (wm_key_storable 0) (wm_key_elem 0) Hf) as (s' & Hset & Hf' & Hc).
    exists s'. split; [exact Hset|]. split; [done|]. intros _. rewrite Hc. do 2 f_equal. lia. }
  unfold runWatermarkWorkloads.
  rewrite (action_bind_ok _ _ _ _ _ (tinybenchSamples_ok _ _ (tb_for 500) _ _ H1)), Hst.
  rewrite (action_bind_ok (check (Ok st)) _ _ st w1) by done.
  rewrite (action_bind_ok _ _ _ _ _ H2). eexists _, _. split; [reflexivity|].
  split; [by unfold readBloatStability; cbn; destruct (default _ size)|]. split; [|exact Hf2]. rewrite Htip by (unfold BLOAT_SAME_KEY_UPDATES; lia). reflexivity.
Qed.
End wm.

(** ** Concrete runs *)

Module KvBenchDemo.
#[export] Instance library : MathLibrary := {| js_square x := num_mul x x; js_sqrt x := x |}.
#[export] Instance five_calls : Tinybench := {| tb_calls _ _ := 5%nat; tb_result _ _ := [NumInt 2; NumInt 3] |}.

(** Three milliseconds between two writes. *)
Definition steady (i : nat) : KvCtx :=
  {| clock_timestamp := 1000000 + 3000 * Z.of_nat i; txid_current := 100 + Z.of_nat i |}.
(** 0.4 milliseconds. *)
Definition fast (i : nat) : KvCtx :=
  {| clock_timestamp := 1000000 + 400 * Z.of_nat i; txid_current := 100 + Z.of_nat i |}.

Lemma advancing step i : 0 ≤ step →
  date_trunc_milliseconds (1000000 + step * Z.of_nat i) ≤
  date_trunc_milliseconds (1000000 + step * Z.of_nat (i + 1)).
Proof.
  intros Hs. unfold date_trunc_milliseconds. apply Z.mul_le_mono_nonneg_r; [lia|].
  apply Z.div_le_mono; [lia|]. rewrite Nat2Z.inj_add. lia.
Qed.

Lemma kv_bench_outcome_witness :
  (∃ res w' r, runTemporalKvWorkloads steady 5000 (Some (6, 6)) (idle_world kv_empty) = (Ok res, w') ∧
     kv_current (w_db w') !! hot_key = Some r ∧ c_version r = 6) ∧
  (∃ msg pg w', runTemporalKvWorkloads fast 5000 None (idle_world kv_empty) =
     (Err (ClockRegressionError msg pg), w')).
Proof.
  split.
  - refine (proj1 (kv_bench_outcome steady 5000 (Some (6, 6)) (idle_world kv_empty) _ eq_refl _ _ _) _).
    + by repeat split.
    + intros i. apply (advancing 3000 i). lia.
    + intros i. cbn. lia.
    + done.
    + intros i Hi. change existing_calls with 5%nat in Hi. change fresh_calls with 5%nat.
      do 5 (destruct i as [|i]; [vm_compute; reflexivity|]). lia.
  - refine (proj2 (kv_bench_outcome fast 5000 None (idle_world kv_empty) _ eq_refl _ _ _) _).
    + by repeat split.
    + intros i. apply (advancing 400 i). lia.
    + intros i. cbn. lia.
    + done.
    + exists 0%nat. split; [change existing_calls with 5%nat; lia|]. vm_compute. reflexivity.
Defined.
End KvBenchDemo.
