(* ===== verification/BenchWorkloads.v ===== *)
(** * The deduplication measurement and the smoke guard of the benchmarks

    [measureDedup] of [bench/workloads/checkpoint-store.ts], which saves a payload and a copy with one
    byte changed and counts the rows that were added, and [bench/smoke.ts], which compares measured
    latencies with the committed baseline and exits. The random payload, the outcome of the measurements
    and of reading the baseline's file are data. What is printed is left out, but not the calls of
    [toFixed] that printing makes, which throw on anything but a number. *)

From S2P Require Import Prelude Text Json Errors Transaction Driver Slices Checkpoint.
From S2P Require Import CheckpointSave CheckpointSpec CheckpointTheorems.
From S2P Require Import JsonText JsonTextSpec Doubles BenchStats.

Local Open Scope Z_scope.

(** ** Deduplication *)

(** [SELECT count(-)::int FROM ckpt_chunks]. *)
Definition countChunks : act CkDb Z :=
  statement (λ db,
    let n := Z.of_nat (size (ckpt_chunks db)) in
    if 2147483647 <? n then Err (pg_error "22003" "integer out of range" None) else Ok (n, db)).

(** [near[0] = near[0]! ^ 0xff] on a copy; on an empty buffer it has no effect. *)
Definition flip_first (base : bytes) : bytes :=
  match base with
  | [] => []
  | b :: rest => default Byte.x00 (Byte.of_N (N.lxor (Byte.to_N b) 255)) :: rest
  end.

Record DedupRatio := { dd_referenced : Z; dd_written : Z; dd_ratio : jsnum }.

Definition DEDUP_CHUNK : Z := 64 * 1024.
Definition DEDUP_CHUNKS : Z := 64.

Definition dedup_options : SaveCheckpointOptions :=
  {| so_chunkSize := Some (NumInt DEDUP_CHUNK); so_label := None; so_signal := None; so_tx := None |}.

Section dedup.
Context {S : Type} `{!Part S CkDb} `{!SqlBegin S} `{!Sha256} `{!TextBinding}.

(** [base] is [randomBytes(nChunks * chunkSize)]; the clock, serial and identifier of the two saves. *)
Definition measureDedup (base : bytes) (ctx1 ctx2 : CkCtx) (uuid1 uuid2 : jsstr) : act (World S) DedupRatio :=
  save ctx1 (js "w-dedup") (js "bench") base dedup_options uuid1 ;;
  let near := flip_first base in
  before ← on_part countChunks;
  summary ← save ctx2 (js "w-dedup2") (js "bench") near dedup_options uuid2;
  after ← on_part countChunks;
  let written := after - before in
  let referenced := cs_chunkCount summary in
  mret {| dd_referenced := referenced; dd_written := written;
          dd_ratio := if 0 <? referenced
                      then num_sub (NumInt 1) (num_div (NumInt written) (NumInt referenced))
                      else NumInt 0 |}.
End dedup.

(** ** The smoke guard *)

Definition REGRESSION_FACTOR : jsnum := NumInt 10.

Definition type_error : thrown := TError "TypeError" "" None None None.

(** [v[key]] on a value [JSON.parse] returned: only an object has properties of these names. *)
Definition js_get (v : jsval) (key : jsstr) : result thrown jsval :=
  match v with
  | JUndefined | JNull => Err type_error
  | JObj fields => Ok (default JUndefined (list_to_map (M := gmap jsstr jsval) (reverse fields) !! key))
  | _ => Ok JUndefined
  end.

(** [v.toFixed(digits)] with its text ignored. *)
Definition js_toFixed (v : jsval) : result thrown unit :=
  match v with JNum _ => Ok tt | _ => Err type_error end.

(** [!v]. *)
Definition js_falsy (v : jsval) : bool :=
  match v with
  | JUndefined | JNull => true
  | JBool b => negb b
  | JNum n => bool_decide (n = NumInt 0) || is_nan n
  | JBigInt z => z =? 0
  | JStr s => bool_decide (s = [])
  | _ => false
  end.

Inductive BaselineLoad :=
  | Loaded (baseline : jsval)
  | Missing
  | Corrupt.

(** What reading the baseline's file gives: an error, or its text. *)
Definition loadBaseline (raw : option jsstr) : BaselineLoad :=
  match raw with
  | None => Missing
  | Some text => if JSON_parse text is Some v then Loaded v else Corrupt
  end.

Definition p99_of (m : LatencyStats) : jsval := if st_p99 m is Some n then JNum n else JUndefined.

(** One line of the comparison: whether the workload is flagged, or [None] if it is skipped. *)
Definition smoke_line (baseline : jsval) (name : jsstr) (m : LatencyStats) : result thrown (option bool) :=
  workloads ← js_get baseline (js "workloads");
  base ← js_get workloads name;
  if js_falsy base then js_toFixed (p99_of m) ;; Ok None
  else
    p99 ← js_get base (js "p99");
    let suspect :=
      match p99, p99_of m with
      | JNum b, JNum a =>
          num_ltb REGRESSION_FACTOR (if num_ltb (NumInt 0) b then num_div a b else NumInt 1)
      | _, _ => false   (** [toFixed] throws below *)
      end in
    js_toFixed (p99_of m) ;; js_toFixed p99 ;; Ok (Some suspect).

Fixpoint smoke_flags (baseline : jsval) (measured : list (jsstr * LatencyStats)) : result thrown Z :=
  match measured with
  | [] => Ok 0
  | (name, m) :: rest =>
      line ← smoke_line baseline name m;
      flags ← smoke_flags baseline rest;
      Ok (if line is Some true then flags + 1 else flags)
  end.

(** [main] and the [catch] behind it: the exit status, and the number of workloads flagged when the
    comparison was made. *)
Definition smoke_main (measurements : result thrown (list (jsstr * LatencyStats))) (raw : option jsstr)
    : Z * option Z :=
  match
    (measured ← measurements;
     match loadBaseline raw with
     | Loaded baseline => flags ← smoke_flags baseline measured; Ok (Some flags)
     | _ => _ ← map_result (λ m, js_toFixed (p99_of m.2)) measured; Ok None
     end)
  with
  | Ok flags => (0, flags)
  | Err _ => (1, None)
  end.
