(* ===== verification/BenchWorkloadsSpec.v ===== *)
(** * What the deduplication measurement measures and when the smoke guard fails

    The theorems about [BenchWorkloads]. *)

From S2P Require Import Prelude Text Json Errors Transaction Driver Slices Checkpoint.
From S2P Require Import CheckpointSave CheckpointSpec CheckpointTheorems.
From S2P Require Import JsonText JsonTextSpec Doubles BenchStats BenchWorkloads.

Local Open Scope Z_scope.

(** ** Deduplication *)

Section dedup.
Context {S : Type} `{HPart : !Part S CkDb} `{HBegin : !SqlBegin S}.
Context `{HSha : !Sha256} `{HText : !TextBinding}.

(** The pool after a [save]: the chunks before and the payload's. *)
Lemma saved_dom ctx w net data size bound db h :
  is_Some (ckpt_chunks (saved ctx w net data size bound db) !! h) ↔
  is_Some (ckpt_chunks db !! h) ∨ h ∈ sha256 <$> splitChunks data size.
Proof.
  fold (chunk_hashes data size). split.
  - rewrite saved_chunks_lookup. destruct (list_to_map _ !! h) as [d|] eqn:He; [|auto]. intros _. right.
    rewrite <-chunk_rows_hashes. apply list_elem_of_fmap. exists (h, d).
    split; [done|by apply elem_of_list_to_map_2].
  - intros [[c Hc]|Hin]; [|by apply saved_chunk_stored].
    destruct (saved_chunk_kept ctx w net data size bound db h c Hc) as (c' & -> & _). done.
Qed.

Lemma countChunks_inv wo n wo' :
  on_part countChunks wo = (Ok n, wo') → n = Z.of_nat (size (ckpt_chunks (tables wo))) ∧ wo' = wo.
Proof.
  intros H. assert (countChunks (tables wo) = (Ok n, tables wo) ∨ ∃ e, (countChunks (tables wo)).1 = Err e) as [E|[e E]].
  { unfold on_part, countChunks, statement, tables in *. destruct (2147483647 <? _); [right; by eexists|left].
    by injection H as <- _. }
  - rewrite (on_part_unchanged _ _ _ E) in H. injection H as <-. split; [|done].
    unfold countChunks, statement in E. destruct (2147483647 <? _); [done|]. by injection E as <-.
  - unfold on_part, tables in *. destruct (countChunks _) as [r db]. cbn in E. subst r. done.
Qed.

(** A resolved [save] with [measureDedup]'s options. *)
Lemma dedup_save ctx w net data uuid wo s wo' :
  save ctx w net data dedup_options uuid wo = (Ok s, wo') →
  cs_chunkCount s = (Z.of_nat (length data) + DEDUP_CHUNK - 1) / DEDUP_CHUNK ∧
  ∀ h, is_Some (ckpt_chunks (tables wo') !! h) ↔
       is_Some (ckpt_chunks (tables wo) !! h) ∨ h ∈ sha256 <$> splitChunks data DEDUP_CHUNK.
Proof.
  intros (size & db' & Hv & Hrun & Hdb)%save_inv_size.
  assert (size = Some DEDUP_CHUNK) as -> by (vm_compute in Hv; injection Hv as <-; reflexivity).
  cbn [default] in Hrun. apply runOnTx_inv in Hrun as (bound & _ & -> & Hsum).
  split.
  - unfold toSummary in Hsum. destruct (coerceToSafeNumber _ _); [|discriminate Hsum].
    cbn [mbind result_bind] in Hsum. injection Hsum as <-. cbn [cs_chunkCount].
    by apply for_slices_length.
  - intros h. unfold tables at 1. rewrite Hdb, part_set. apply saved_dom.
Qed.

Lemma flip_first_slices base :
  base ≠ [] →
  splitChunks base DEDUP_CHUNK = take (Z.to_nat DEDUP_CHUNK) base :: splitChunks (drop (Z.to_nat DEDUP_CHUNK) base) DEDUP_CHUNK ∧
  splitChunks (flip_first base) DEDUP_CHUNK =
    take (Z.to_nat DEDUP_CHUNK) (flip_first base) :: splitChunks (drop (Z.to_nat DEDUP_CHUNK) base) DEDUP_CHUNK.
Proof.
  intros Hne. assert (flip_first base ≠ []) as Hne' by (by destruct base).
  unfold splitChunks. split; [by apply for_slices_cons|].
  rewrite for_slices_cons by done. f_equal. destruct base as [|b rest]; [done|]. cbn [flip_first].
  destruct (Z.to_nat DEDUP_CHUNK) as [|n] eqn:E; [unfold DEDUP_CHUNK in E; lia|]. by cbn [drop].
Qed.

(** Adding a payload that shares all chunks but its first with one just added. *)
Lemma added_once (m0 m1 m2 : gmap bytes ChunkRow) h c hs :
  (∀ x, is_Some (m1 !! x) ↔ is_Some (m0 !! x) ∨ x ∈ c :: hs) →
  (∀ x, is_Some (m2 !! x) ↔ is_Some (m1 !! x) ∨ x ∈ h :: hs) →
  let known := is_Some (m0 !! h) ∨ h ∈ c :: hs in
  let written := Z.of_nat (size m2) - Z.of_nat (size m1) in
  (¬ known ∧ written = 1) ∨ (known ∧ written = 0).
Proof.
  intros H1 H2 known written.
  assert (dom m2 = {[h]} ∪ dom m1) as Hdom.
  { apply set_eq. intros x. rewrite elem_of_union, elem_of_singleton, !elem_of_dom, H2, elem_of_cons, !H1, elem_of_cons.
    tauto. }
  assert (known ↔ h ∈ dom m1) as Hknown by (by rewrite elem_of_dom, H1).
  unfold written. rewrite <-!size_dom, Hdom. destruct (decide (h ∈ dom m1)) as [Hin|Hn].
  - right. split; [by apply Hknown|]. replace ({[h]} ∪ dom m1) with (dom m1) by (apply set_eq; set_solver). lia.
  - left. split; [by rewrite Hknown|]. rewrite size_union, size_singleton by set_solver. lia.
Qed.

(** The deduplication ratio is a fact about the store. If the measurement resolves on a payload of
    the stated size, the second save refers to 64 chunks and adds a row for the changed chunk alone: the
    other 63 are found by their digest. The ratio is then 63/64, or 1 if a chunk with the changed
    chunk's digest was there already. *)
Theorem dedup_ratio_exact base ctx1 ctx2 uuid1 uuid2 wo r wo' :
  Z.of_nat (length base) = DEDUP_CHUNKS * DEDUP_CHUNK →
  measureDedup base ctx1 ctx2 uuid1 uuid2 wo = (Ok r, wo') →
  let h := sha256 (take (Z.to_nat DEDUP_CHUNK) (flip_first base)) in
  let known := is_Some (ckpt_chunks (tables wo) !! h) ∨ h ∈ sha256 <$> splitChunks base DEDUP_CHUNK in
  dd_referenced r = 64 ∧
  ((¬ known ∧ dd_written r = 1 ∧ dd_ratio r = NumFrac 63 64) ∨
   (known ∧ dd_written r = 0 ∧ dd_ratio r = NumInt 1)).
Proof.
  intros Hlen Hrun h known. unfold measureDedup in Hrun.
  apply action_bind_inv in Hrun as (s1 & wo1 & [_ H1]%dedup_save & Hrun).
  apply action_bind_inv in Hrun as (before & wo1' & [-> ->]%countChunks_inv & Hrun).
  apply action_bind_inv in Hrun as (s2 & wo2 & [Hcount H2]%dedup_save & Hrun).
  apply action_bind_inv in Hrun as (after & wo2' & [-> ->]%countChunks_inv & Hrun).
  injection Hrun as <- <-. cbn [dd_referenced dd_written dd_ratio].
  assert (base ≠ []) as Hne by (intros ->; cbn in Hlen; discriminate Hlen).
  assert (length (flip_first base) = length base) as Hfl by (by destruct base).
  assert (cs_chunkCount s2 = 64) as -> by (rewrite Hcount, Hfl, Hlen; reflexivity).
  destruct (flip_first_slices base Hne) as [Hs1 Hs2]. unfold known, h. clear known h.
  rewrite Hs1 in H1 |- *. rewrite Hs2 in H2. clear Hs1 Hs2 Hcount Hfl Hlen. split; [reflexivity|].
  revert H1 H2. generalize (Z.to_nat DEDUP_CHUNK). intros n H1 H2.
  destruct (added_once _ _ _ _ _ _ H1 H2) as [[Hn ->]|[Hk ->]]; [left|right];
    (split; [assumption|split; [reflexivity|vm_compute; reflexivity]]).
Qed.
End dedup.

(** ** The smoke guard *)

(** What the comparison needs of the baseline. *)
Definition entry_ok (workloads : jsval) (name : jsstr) : Prop :=
  ∃ base, js_get workloads name = Ok base ∧
    (js_falsy base = true ∨ ∃ p, js_get base (js "p99") = Ok (JNum p)).

(** The workloads whose 99th percentile is more than ten times a positive one of the baseline. *)
Definition regressed (workloads : jsval) (entry : jsstr * LatencyStats) : bool :=
  match js_get workloads entry.1 with
  | Ok base =>
      match js_get base (js "p99"), st_p99 entry.2 with
      | Ok (JNum b), Some a => negb (js_falsy base) && num_ltb (NumInt 0) b && num_ltb REGRESSION_FACTOR (num_div a b)
      | _, _ => false
      end
  | Err _ => false
  end.

Lemma smoke_line_ok baseline workloads entry :
  js_get baseline (js "workloads") = Ok workloads → is_Some (st_p99 entry.2) →
  entry_ok workloads entry.1 →
  ∃ line, smoke_line baseline entry.1 entry.2 = Ok line ∧
    (if line is Some true then 1 else 0) = if regressed workloads entry then 1 else 0.
Proof.
  intros Hw [a Ha] (base & Hb & Hor). destruct entry as [name m]. cbn [fst snd] in *.
  unfold smoke_line, regressed. cbn [fst snd]. rewrite Hw. cbn [mbind result_bind]. rewrite Hb. cbn [mbind result_bind].
  unfold p99_of. rewrite Ha. destruct (js_falsy base) eqn:Hf.
  { exists None. split; [done|]. by destruct (js_get base (js "p99")) as [[]|]. }
  destruct Hor as [?|[b Hp]]; [done|]. rewrite Hp. cbn. eexists. split; [reflexivity|].
  destruct (num_ltb (NumInt 0) b); cbn; [by destruct (num_ltb REGRESSION_FACTOR _)|done].
Qed.

Lemma smoke_line_err baseline entry :
  (∀ workloads, js_get baseline (js "workloads") = Ok workloads → ¬ entry_ok workloads entry.1) →
  ∃ e, smoke_line baseline entry.1 entry.2 = Err e.
Proof.
  intros H. destruct entry as [name m]. cbn [fst snd] in *. unfold smoke_line.
  destruct (js_get baseline (js "workloads")) as [workloads|e] eqn:Hw; [|by exists e].
  cbn [mbind result_bind]. specialize (H workloads eq_refl).
  destruct (js_get workloads name) as [base|e] eqn:Hb; [|by exists e]. cbn [mbind result_bind].
  destruct (js_falsy base) eqn:Hf; [destruct H; exists base; auto|].
  destruct (js_get base (js "p99")) as [p|e] eqn:Hp; [|by exists e]. cbn [mbind result_bind].
  destruct p as [| | |b| | | | | |]; try (destruct (js_toFixed (p99_of m)); cbn; eauto; done).
  destruct H. exists base. split; [done|]. right. by exists b.
Qed.

#[export] Instance entry_ok_dec workloads name : Decision (entry_ok workloads name).
Proof.
  destruct (js_get workloads name) as [base|e] eqn:Hb; [|right; intros (base & H & _); congruence].
  destruct (js_falsy base) eqn:Hf; [left; exists base; auto|].
  destruct (js_get base (js "p99")) as [p|e] eqn:Hp;
    [|right; intros (base' & H & [?|[n ?]]); simplify_eq; congruence].
  assert ({∃ n, p = JNum n} + {¬ ∃ n, p = JNum n}) as [Hn|Hn]
    by (destruct p; first [left; by eexists|right; by intros [? ?]]).
  - left. exists base. split; [done|]. right. destruct Hn as [n ->]. by exists n.
  - right. intros (base' & H & Hor). rewrite Hb in H. injection H as <-.
    destruct Hor as [?|[n ?]]; [congruence|]. apply Hn. exists n. congruence.
Defined.

Lemma smoke_flags_ok baseline workloads measured :
  js_get baseline (js "workloads") = Ok workloads →
  Forall (λ entry, is_Some (st_p99 entry.2)) measured → Forall (λ entry, entry_ok workloads entry.1) measured →
  smoke_flags baseline measured =
    Ok (Z.of_nat (length (filter (λ entry, Is_true (regressed workloads entry)) measured))).
Proof.
  intros Hw. induction measured as [|[name m] measured IH]; intros Hp Ho; [done|].
  apply Forall_cons in Hp as [Hp1 Hp], Ho as [Ho1 Ho].
  destruct (smoke_line_ok baseline workloads (name, m) Hw Hp1 Ho1) as (line & Hl & Hr).
  cbn [smoke_flags fst snd] in *. rewrite Hl, (IH Hp Ho). cbn [mbind result_bind]. f_equal.
  rewrite filter_cons. destruct (decide (Is_true (regressed workloads (name, m)))) as [Ht|Hn].
  - apply Is_true_eq_true in Ht. rewrite Ht in Hr. destruct line as [[]|]; [cbn [length]; lia|lia..].
  - destruct (regressed workloads (name, m)); [by destruct Hn|]. destruct line as [[]|]; [lia|done..].
Qed.

Lemma smoke_flags_err baseline measured entry :
  entry ∈ measured →
  (∀ workloads, js_get baseline (js "workloads") = Ok workloads → ¬ entry_ok workloads entry.1) →
  ∃ e, smoke_flags baseline measured = Err e.
Proof.
  intros Hin Hbad. induction measured as [|[name m] measured IH]; [by apply not_elem_of_nil in Hin|].
  apply elem_of_cons in Hin as [->|Hin].
  - destruct (smoke_line_err baseline (name, m) Hbad) as [e He].
    cbn [smoke_flags fst snd] in *. rewrite He. by exists e.
  - cbn [smoke_flags]. destruct (smoke_line baseline name m) as [line|e]; [|by exists e].
    destruct (IH Hin) as [e ->]. by exists e.
Qed.

Lemma printed_p99s (measured : list (jsstr * LatencyStats)) :
  Forall (λ entry, is_Some (st_p99 entry.2)) measured →
  is_ok (map_result (λ m : jsstr * LatencyStats, js_toFixed (p99_of m.2)) measured) = true.
Proof.
  induction 1 as [|[name m] measured [a Ha] _ IH]; [done|]. cbn [map_result fst snd] in *.
  assert (p99_of m = JNum a) as -> by (unfold p99_of; by rewrite Ha). cbn.
  destruct (map_result _ measured); [done|discriminate IH].
Qed.

(** When the guard fails. It exits 0 whatever the latencies, and counts as suspect exactly the
    workloads whose 99th percentile is more than ten times that of the baseline; a baseline that is
    missing or not JSON is no failure either. It exits 1 when the measurements could not be made, and
    also when the baseline is JSON of another shape: no object under [workloads], or an entry there
    without a number [p99]. *)
Theorem smoke_exit_status measured raw :
  Forall (λ entry, is_Some (st_p99 entry.2)) measured → measured ≠ [] →
  (∀ e, smoke_main (Err e) raw = (1, None)) ∧
  match loadBaseline raw with
  | Loaded baseline =>
      ((∃ workloads, js_get baseline (js "workloads") = Ok workloads ∧
          Forall (λ entry, entry_ok workloads entry.1) measured ∧
          smoke_main (Ok measured) raw =
            (0, Some (Z.of_nat (length (filter (λ entry, Is_true (regressed workloads entry)) measured))))) ∨
       (smoke_main (Ok measured) raw = (1, None) ∧
        ∀ workloads, js_get baseline (js "workloads") = Ok workloads →
          ∃ entry, entry ∈ measured ∧ ¬ entry_ok workloads entry.1))
  | _ => smoke_main (Ok measured) raw = (0, None)
  end.
Proof.
  intros Hp Hne. split; [done|]. unfold smoke_main. cbn [mbind result_bind].
  pose proof (printed_p99s measured Hp) as Hprint.
  destruct (loadBaseline raw) as [baseline| |];
    [|destruct (map_result _ measured); [done|discriminate Hprint]..].
  assert (∀ entry, entry ∈ measured →
    (∀ workloads, js_get baseline (js "workloads") = Ok workloads → ¬ entry_ok workloads entry.1) →
    match smoke_flags baseline measured ≫= (λ flags, Ok (Some flags)) with
    | Ok flags => (0, flags) | Err _ => (1, None) end = (1, None)) as Hbad.
  { intros entry Hin Hb. by destruct (smoke_flags_err _ _ _ Hin Hb) as [e ->]. }
  destruct (js_get baseline (js "workloads")) as [workloads|e] eqn:Hw.
  - destruct (decide (Forall (λ entry, entry_ok workloads entry.1) measured)) as [Ho|Hn].
    + left. exists workloads. split; [done|]. split; [done|]. by rewrite (smoke_flags_ok _ _ _ Hw Hp Ho).
    + right. apply not_Forall_Exists, Exists_exists in Hn as (entry & Hin & Hno); [|apply _]. split.
      * apply (Hbad entry Hin). by intros w [= <-].
      * intros w [= <-]. by exists entry.
  - right. destruct measured as [|entry measured]; [done|]. split; [|done].
    apply (Hbad entry); [by left|done].
Qed.

(** ** The measurement resolves on a connection without faults *)

Section resolves.
Context {S : Type} `{HPart : !Part S CkDb} `{HSha : !Sha256} `{HText : !TextBinding}.
#[local] Existing Instance no_faults.

Lemma saved_size ctx w net data size_ bound db :
  (size (ckpt_chunks (saved ctx w net data size_ bound db)) ≤
   size (ckpt_chunks db) + length (splitChunks data size_))%nat.
Proof.
  rewrite <-!size_dom.
  assert (dom (ckpt_chunks (saved ctx w net data size_ bound db)) =
    dom (ckpt_chunks db) ∪ list_to_set (sha256 <$> splitChunks data size_)) as ->.
  { apply set_eq. intros h. by rewrite elem_of_union, !elem_of_dom, elem_of_list_to_set, saved_dom. }
  rewrite <-(length_fmap sha256 (splitChunks data size_)).
  generalize (sha256 <$> splitChunks data size_) (dom (ckpt_chunks db)). clear. intros l X.
  induction l as [|a l IH]; cbn; [rewrite (right_id_L ∅ (∪)); lia|].
  replace (X ∪ ({[a]} ∪ list_to_set l)) with ({[a]} ∪ (X ∪ list_to_set l)) by set_solver.
  rewrite size_union_alt, size_singleton.
  pose proof (subseteq_size ((X ∪ list_to_set l) ∖ {[a]}) (X ∪ list_to_set l) ltac:(set_solver)). lia.
Qed.

Lemma saved_next_seq_other ctx w net data size_ bound db w' net' :
  (w', net') ≠ (w, net) → next_seq w' net' (saved ctx w net data size_ bound db) = next_seq w' net' db.
Proof. intros Hne. unfold next_seq. cbn. by rewrite lookup_insert_ne. Qed.

Lemma countChunks_ok wo :
  Z.of_nat (size (ckpt_chunks (tables wo))) ≤ 2147483647 →
  on_part countChunks wo = (Ok (Z.of_nat (size (ckpt_chunks (tables wo)))), wo).
Proof.
  intros Hn. apply on_part_unchanged. unfold countChunks, statement. fold (tables wo).
  by rewrite (proj2 (Z.ltb_ge _ _)).
Qed.

Lemma dedup_resolves base ctx1 ctx2 uuid1 uuid2 wo :
  Z.of_nat (length base) = DEDUP_CHUNKS * DEDUP_CHUNK → ck_inv (tables wo) →
  ck_nextval ctx1 ∉ m_id <$> ckpt_manifests (tables wo) → ck_nextval ctx2 ∉ m_id <$> ckpt_manifests (tables wo) →
  ck_nextval ctx1 ≠ ck_nextval ctx2 →
  next_seq (js "w-dedup") (js "bench") (tables wo) ≤ MAX_SAFE_INTEGER →
  next_seq (js "w-dedup2") (js "bench") (tables wo) ≤ MAX_SAFE_INTEGER →
  Z.of_nat (size (ckpt_chunks (tables wo))) + 128 ≤ 2147483647 →
  ∃ r wo', measureDedup base ctx1 ctx2 uuid1 uuid2 wo = (Ok r, wo').
Proof.
  intros Hlen Hi Hn1 Hn2 Hne Hs1 Hs2 Hsize.
  assert (∀ data, Z.of_nat (length data) = DEDUP_CHUNKS * DEDUP_CHUNK →
    Z.of_nat (length (splitChunks data DEDUP_CHUNK)) = 64) as Hchunks.
  { intros data Hd. unfold splitChunks. rewrite for_slices_length, Hd by done. reflexivity. }
  assert (length (flip_first base) = length base) as Hfl by (by destruct base).
  assert (∀ w ctx db, next_seq (js w) (js "bench") db ≤ MAX_SAFE_INTEGER →
    ck_nextval ctx ∉ m_id <$> ckpt_manifests db → savable ctx (js w) (js "bench") None None db) as Hsv.
  { intros w ctx db Hs Hn. split; [|done]. unfold claimable, MAX_SAFE_INTEGER, POSTGRES_BIGINT_MAX in *. lia. }
  assert (validateSaveOptions dedup_options = Ok (Some DEDUP_CHUNK)) as Hopts by (vm_compute; reflexivity).
  destruct (save_resolves ctx1 (js "w-dedup") (js "bench") base dedup_options _ None uuid1 wo eq_refl Hopts eq_refl
    eq_refl Hi (Hsv _ _ _ Hs1 Hn1)) as (s1 & wo1 & E1 & T1); [change (default DEFAULT_CHUNK_SIZE (Some DEDUP_CHUNK)) with DEDUP_CHUNK; rewrite Hchunks by done; lia|done|].
  change (default DEFAULT_CHUNK_SIZE (Some DEDUP_CHUNK)) with DEDUP_CHUNK in T1. pose proof (saved_size ctx1 (js "w-dedup") (js "bench") base DEDUP_CHUNK None (tables wo)) as Z1.
  pose proof (saved_inv _ _ _ base DEDUP_CHUNK _ _ _ Hi (Hsv _ _ _ Hs1 Hn1)) as Hi1. rewrite <-T1 in Z1, Hi1.
  assert (ck_nextval ctx2 ∉ m_id <$> ckpt_manifests (tables wo1)) as Hn2'.
  { rewrite T1. cbn. rewrite fmap_app, elem_of_app. intros [?|H]; [done|]. cbn in H. set_solver. }
  assert (next_seq (js "w-dedup2") (js "bench") (tables wo1) ≤ MAX_SAFE_INTEGER) as Hs2'.
  { rewrite T1, saved_next_seq_other; [done|]. intros E. vm_compute in E. discriminate E. }
  destruct (save_resolves ctx2 (js "w-dedup2") (js "bench") (flip_first base) dedup_options _ None uuid2 wo1 eq_refl
    Hopts eq_refl eq_refl Hi1 (Hsv _ _ _ Hs2' Hn2')) as (s2 & wo2 & E2 & T2);
    [change (default DEFAULT_CHUNK_SIZE (Some DEDUP_CHUNK)) with DEDUP_CHUNK; rewrite Hchunks by (by rewrite Hfl); lia|done|].
  change (default DEFAULT_CHUNK_SIZE (Some DEDUP_CHUNK)) with DEDUP_CHUNK in T2.
  pose proof (saved_size ctx2 (js "w-dedup2") (js "bench") (flip_first base) DEDUP_CHUNK None (tables wo1)) as Z2.
  rewrite <-T2 in Z2. specialize (Hchunks base Hlen) as C1.
  specialize (Hchunks (flip_first base) ltac:(by rewrite Hfl)) as C2.
  unfold measureDedup. rewrite (action_bind_ok _ _ _ _ _ E1). cbv zeta.
  rewrite (action_bind_ok _ _ _ _ _ (countChunks_ok wo1 ltac:(lia))), (action_bind_ok _ _ _ _ _ E2).
  rewrite (action_bind_ok _ _ _ _ _ (countChunks_ok wo2 ltac:(lia))). by eexists _, _.
Qed.
End resolves.

(** ** Concrete runs *)

Module BenchDemo.
Import Demo.

Definition zeros : bytes := replicate (Z.to_nat (DEDUP_CHUNKS * DEDUP_CHUNK)) Byte.x00.

Lemma zeros_length : Z.of_nat (length zeros) = DEDUP_CHUNKS * DEDUP_CHUNK.
Proof. unfold zeros. rewrite length_replicate, Z2Nat.id; [reflexivity|discriminate]. Qed.

Lemma dedup_ratio_exact_witness :
  ∃ r wo', @measureDedup CkDb part_self no_faults digest rejecting_binding zeros ctx1 ctx2 (js "u1") (js "u2") world0 = (Ok r, wo') ∧ dd_referenced r = 64.
Proof.
  destruct (@dedup_resolves CkDb part_self digest rejecting_binding zeros ctx1 ctx2 (js "u1") (js "u2") world0 zeros_length ck_inv_empty)
    as (r & wo' & H); [by apply not_elem_of_nil|by apply not_elem_of_nil|discriminate|vm_compute; discriminate..|].
  exists r, wo'. split; [exact H|].
  exact (proj1 (@dedup_ratio_exact CkDb part_self no_faults digest rejecting_binding zeros ctx1 ctx2 (js "u1") (js "u2") world0 r wo' zeros_length H)).
Defined.

Definition json_field (key : string) (value : jsstr) : jsstr := js "{" ++ quote (js key) ++ js ": " ++ value ++ js "}".
Definition demo_baseline : jsstr :=
  json_field "workloads" (json_field "temporalKV.get" (json_field "p99" (js "0.5"))).
Definition demo_measured : list (jsstr * LatencyStats) :=
  [(js "temporalKV.get", {| st_samples := 1; st_min := Some (NumInt 6); st_max := Some (NumInt 6);
     st_mean := NumInt 6; st_sd := NumInt 0; st_cv := NumInt 0; st_p50 := Some (NumInt 6);
     st_p95 := Some (NumInt 6); st_p99 := Some (NumInt 6) |})].

(** A baseline that is JSON but not a baseline makes the guard fail. *)
Example smoke_runs :
  smoke_main (Ok demo_measured) (Some demo_baseline) = (0, Some 1) ∧
  smoke_main (Ok demo_measured) (Some (js "{")) = (0, None) ∧
  smoke_main (Ok demo_measured) (Some (js "{}")) = (1, None).
Proof. vm_compute. repeat split. Qed.

Lemma smoke_exit_status_witness :
  ∃ workloads, js_get (default JNull (JSON_parse demo_baseline)) (js "workloads") = Ok workloads ∧
    smoke_main (Ok demo_measured) (Some demo_baseline) = (0, Some (Z.of_nat (length
      (filter (λ entry, Is_true (regressed workloads entry)) demo_measured)))).
Proof.
  destruct (smoke_exit_status demo_measured (Some demo_baseline)) as [_ H];
    [constructor; [by eexists|constructor]|discriminate|].
  unfold loadBaseline in H. destruct (JSON_parse demo_baseline) as [v|] eqn:E; [|vm_compute in E; discriminate E].
  destruct H as [(w & Hw & _ & H)|[H _]]; [exists w; exact (conj Hw H)|].
  exfalso. exact (eq_ind (0, Some 1) (λ r, if r.2 is Some _ then True else False) I (1, None)
    (eq_trans (eq_sym (proj1 smoke_runs)) H)).
Defined.
End BenchDemo.
