(* ===== verification/MutationGate.v ===== *)
(** * The mutation-evidence gate and the conformance gate

    [scripts/mutation-evidence.mjs], the pure tally and gate; [scripts/mutation-per-adapter.mjs], which
    runs Stryker once per adapter and exits with the gate's verdict; and the exit status of
    [scripts/conformance-gate.mjs]. Stryker, vitest and the checker are child processes: what each run
    gives (an exit status, or none when a signal ended it, and the report file it leaves) is data. The
    report on disk is state: a run finds there what is left from before. What is printed is left out. *)

From S2P Require Import Prelude Text Json Errors JsonText JsonTextSpec Doubles.
From S2P Require Import SyncClients BenchStats BenchWorkloads.

Local Open Scope Z_scope.

(** ** mutation-evidence.mjs *)

Record Tally := {
  killed : Z;
  timeout : Z;
  survived : Z;
  noCoverage : Z;
  excluded : Z;
}.

(** The field [valid] of a tally: everything but the excluded. *)
Definition valid (t : Tally) : Z := killed t + timeout t + survived t + noCoverage t.

Definition no_mutants : Tally :=
  {| killed := 0; timeout := 0; survived := 0; noCoverage := 0; excluded := 0 |}.

Definition tally_add (a b : Tally) : Tally :=
  {| killed := killed a + killed b; timeout := timeout a + timeout b;
     survived := survived a + survived b; noCoverage := noCoverage a + noCoverage b;
     excluded := excluded a + excluded b |}.

(** The [switch] on one mutant's status. *)
Definition tally_status (status : jsval) : Tally :=
  match status with
  | JStr s =>
      if bool_decide (s = js "Killed") then
        {| killed := 1; timeout := 0; survived := 0; noCoverage := 0; excluded := 0 |}
      else if bool_decide (s = js "Timeout") then
        {| killed := 0; timeout := 1; survived := 0; noCoverage := 0; excluded := 0 |}
      else if bool_decide (s = js "Survived") then
        {| killed := 0; timeout := 0; survived := 1; noCoverage := 0; excluded := 0 |}
      else if bool_decide (s = js "NoCoverage") then
        {| killed := 0; timeout := 0; survived := 0; noCoverage := 1; excluded := 0 |}
      else {| killed := 0; timeout := 0; survived := 0; noCoverage := 0; excluded := 1 |}
  | _ => {| killed := 0; timeout := 0; survived := 0; noCoverage := 0; excluded := 1 |}
  end.

(** [a && a.key], and [v || fallback]. *)
Definition and_get (v : jsval) (key : jsstr) : result thrown jsval :=
  if js_falsy v then Ok v else js_get v key.
Definition or_else (v fallback : jsval) : jsval := if js_falsy v then fallback else v.

(** [Object.values] of a value [JSON.parse] returned that is not null; a string's values are its
    characters. *)
Definition object_values (v : jsval) : list jsval :=
  match v with
  | JObj fields => fields.*2
  | JArr items => items
  | JStr s => (λ c, JStr [c]) <$> s
  | _ => []
  end.

(** The code points of a string. *)
Fixpoint code_points (s : jsstr) : list jsstr :=
  match s with
  | c :: ((d :: s') as r) =>
      if ((0xD800 <=? c) && (c <=? 0xDBFF) && (0xDC00 <=? d) && (d <=? 0xDFFF))%N
      then [c; d] :: code_points s' else [c] :: code_points r
  | [c] => [[c]]
  | [] => []
  end.

(** [for (const m of v)]. *)
Definition iterate (v : jsval) : result thrown (list jsval) :=
  match v with
  | JArr items => Ok items
  | JStr s => Ok (JStr <$> code_points s)
  | _ => Err type_error
  end.

Fixpoint tally_list (ms : list jsval) : result thrown Tally :=
  match ms with
  | [] => Ok no_mutants
  | m :: ms' =>
      status ← js_get m (js "status");
      rest ← tally_list ms';
      Ok (tally_add (tally_status status) rest)
  end.

Definition tally_file (f : jsval) : result thrown Tally :=
  mutants ← and_get f (js "mutants");
  ms ← iterate (or_else mutants (JArr []));
  tally_list ms.

Fixpoint tally_files (fs : list jsval) : result thrown Tally :=
  match fs with
  | [] => Ok no_mutants
  | f :: fs' => t ← tally_file f; rest ← tally_files fs'; Ok (tally_add t rest)
  end.

Definition tallyMutants (report : jsval) : result thrown Tally :=
  files ← and_get report (js "files");
  tally_files (object_values (or_else files (JObj []))).

Record AdapterResult := {
  ar_file : jsstr;
  ar_strykerExit : Z;
  ar_reportPresent : bool;
  ar_tally : option Tally;
}.

(** The messages of a failed gate, without their wording. *)
Inductive GateFailure :=
  | StrykerExited (file : jsstr) (status : Z)
  | MissingReport (file : jsstr)
  | ZeroValid (file : jsstr)
  | NoAdapters
  | BelowBreak.

Record Gate := { gate_ok : bool; gate_failures : list GateFailure; gate_aggregate : option jsnum }.

(** What one adapter adds: its failures, and the tally that counts. *)
Definition gate_adapter (r : AdapterResult) : list GateFailure * Tally :=
  let exited := if ar_strykerExit r =? 0 then [] else [StrykerExited (ar_file r) (ar_strykerExit r)] in
  if negb (ar_reportPresent r) then (exited ++ [MissingReport (ar_file r)], no_mutants)
  else match ar_tally r with
       | Some t => if valid t =? 0 then (exited ++ [ZeroValid (ar_file r)], no_mutants) else (exited, t)
       | None => (exited ++ [ZeroValid (ar_file r)], no_mutants)
       end.

Fixpoint gate_adapters (rs : list AdapterResult) : list GateFailure * Tally :=
  match rs with
  | [] => ([], no_mutants)
  | r :: rs' =>
      let '(f, t) := gate_adapter r in
      let '(fs, ts) := gate_adapters rs' in
      (f ++ fs, tally_add t ts)
  end.

(** [((killed + timeout) / valid) * 100]. *)
Definition aggregate_of (t : Tally) : jsnum :=
  num_mul (num_div (NumInt (killed t + timeout t)) (NumInt (valid t))) (NumInt 100).

Definition gateAdapters (results : list AdapterResult) (breakThreshold : jsnum) : Gate :=
  let '(failures, total) := gate_adapters results in
  match failures with
  | _ :: _ => {| gate_ok := false; gate_failures := failures; gate_aggregate := None |}
  | [] =>
      if valid total =? 0
      then {| gate_ok := false; gate_failures := [NoAdapters]; gate_aggregate := None |}
      else
        let aggregate := aggregate_of total in
        let ok := num_lteb breakThreshold aggregate in
        {| gate_ok := ok; gate_failures := if ok then [] else [BelowBreak];
           gate_aggregate := Some aggregate |}
  end.

(** ** mutation-per-adapter.mjs *)

(** The fields of [stryker.conf.json] the runner reads. *)
Record StrykerConf := { conf_mutate : list jsstr; conf_break : jsnum }.

(** [MUTATION_ADAPTERS] and [CI] of the environment. *)
Record GateEnv := { env_MUTATION_ADAPTERS : option jsstr; env_CI : option jsstr }.

(** A run of Stryker: the number of the run, the adapter's file and the report found on disk give an
    exit status, none when a signal ended the process, and the report left on disk. *)
Class Stryker := {
  stryker_run : nat → jsstr → option jsstr → option Z * option jsstr;
}.

Definition js_trim (s : jsstr) : jsstr := reverse (trim_start (reverse (trim_start s))).

(** [s.split(",")]. *)
Fixpoint split_comma (s : jsstr) : list jsstr :=
  match s with
  | [] => [[]]
  | c :: s' =>
      if (c =? 44)%N then [] :: split_comma s'
      else match split_comma s' with
           | part :: parts => (c :: part) :: parts
           | [] => [[c]]
           end
  end.

Fixpoint join_comma (parts : list jsstr) : jsstr :=
  match parts with
  | [] => []
  | [part] => part
  | part :: parts' => part ++ 44%N :: join_comma parts'
  end.

(** [.map((x) => x.trim()).filter(Boolean)]. *)
Definition trimmed (parts : list jsstr) : list jsstr := filter (λ x, x ≠ []) (js_trim <$> parts).

Definition selected_adapters (env : GateEnv) (conf : StrykerConf) : list jsstr :=
  trimmed (split_comma (default (join_comma (conf_mutate conf)) (env_MUTATION_ADAPTERS env))).

Definition is_ci (env : GateEnv) : bool :=
  match env_CI env with
  | Some s => negb (bool_decide (s = [])) && negb (bool_decide (s = js "false"))
              && negb (bool_decide (s = js "0"))
  | None => false
  end.

(** The committed and the selected adapters as sets. *)
Definition same_set (committed selected : list jsstr) : bool :=
  let c : gset jsstr := list_to_set committed in
  let s : gset jsstr := list_to_set selected in
  (size c =? size s)%nat && forallb (λ a, bool_decide (a ∈ s)) (elements c).

(** Whether the override is refused: in CI it has to select exactly the committed adapters. *)
Definition override_refused (env : GateEnv) (conf : StrykerConf) : bool :=
  is_ci env && bool_decide (is_Some (env_MUTATION_ADAPTERS env))
  && negb (same_set (trimmed (conf_mutate conf)) (selected_adapters env conf)).

(** [tallyMutants(JSON.parse(text))] under its [catch]. *)
Definition read_report (text : jsstr) : option Tally :=
  match JSON_parse text with
  | Some report => match tallyMutants report with Ok t => Some t | Err _ => None end
  | None => None
  end.

Section runner.
Context `{HStryker : !Stryker}.

(** One turn of the loop: the report left on disk is removed first. *)
Definition run_adapter (n : nat) (file : jsstr) (report : option jsstr)
    : AdapterResult * option jsstr :=
  let report := None in
  let '(status, report) := stryker_run n file report in
  let tally := report ≫= read_report in
  ({| ar_file := file; ar_strykerExit := default 1 status;
      ar_reportPresent := bool_decide (is_Some report) && bool_decide (is_Some tally);
      ar_tally := tally |}, report).

Fixpoint run_adapters (n : nat) (files : list jsstr) (report : option jsstr)
    : list AdapterResult * option jsstr :=
  match files with
  | [] => ([], report)
  | file :: files' =>
      let '(r, report) := run_adapter n file report in
      let '(rs, report) := run_adapters (S n) files' report in
      (r :: rs, report)
  end.

(** The script's exit status. *)
Definition mutation_main (env : GateEnv) (conf : StrykerConf) (report : option jsstr) : Z :=
  if override_refused env conf then 2
  else
    let results := (run_adapters 0 (selected_adapters env conf) report).1 in
    let gate := gateAdapters results (conf_break conf) in
    if gate_ok gate then 0
    else if gate_aggregate gate is None then 2 else 1.
End runner.

(** ** conformance-gate.mjs *)

(** [a || b] on exit statuses. *)
Definition status_or (a b : Z) : Z := if a =? 0 then b else a.

(** vitest's status, whether it left a report, and the checker's status, which runs only then. *)
Definition conformance_exit (vitest : option Z) (report_exists : bool) (check : option Z) : Z :=
  let vitestExit := default 1 vitest in
  if negb report_exists then status_or vitestExit 1
  else status_or vitestExit (default 1 check).
