(* ===== verification/MutationGateSpec.v ===== *)
(** * The mutation-evidence gate: what a green gate means

    The percentage is computed with doubles; for the committed threshold the comparison is exact
    nevertheless. A gate that passes has evidence from every adapter, from that adapter's own run. *)

From S2P Require Import Prelude Text Json Errors JsonText JsonTextSpec Doubles.
From S2P Require Import SyncClients BenchStats BenchWorkloads MutationGate.

Local Open Scope Z_scope.

(** ** A rounded percentage against 65 *)

(** Above the middle of two neighbours the upper one is taken. *)
Lemma round_half_even_half p q z : 0 < q → (2 * z - 1) * q < 2 * p → z ≤ round_half_even p q.
Proof.
  intros Hq Hz. pose proof (Z.div_mod p q ltac:(lia)) as Hd. pose proof (Z.mod_pos_bound p q Hq) as Hm.
  unfold round_half_even. destruct (Z.compare_spec (2 * (p mod q)) q); [destruct (Z.even _)|..]; nia.
Qed.

(** [p / q < 2 ^ (e + 1)] for the binary exponent [e], when it is below a given one. *)
Lemma binary_exponent_lower p q e :
  0 < p → 0 < q → q * 2 ^ Z.max 0 e ≤ p * 2 ^ Z.max 0 (- e) → e ≤ binary_exponent p q.
Proof.
  intros Hp Hq He. destruct (Z.log2_spec p Hp) as [_ Hp2], (Z.log2_spec q Hq) as [Hq1 _].
  pose proof (Z.log2_nonneg p) as Hlp. pose proof (Z.log2_nonneg q) as Hlq.
  unfold binary_exponent. set (k := Z.log2 p - Z.log2 q) in *.
  assert (∀ a, 0 < 2 ^ Z.max 0 a) as Hpos by (intros a; apply Z.pow_pos_nonneg; lia).
  assert (e ≤ k) as Hek.
  { apply Z.nlt_ge. intros Hlt.
    assert (2 ^ Z.max 0 (- e) * 2 ^ Z.succ (Z.log2 p) ≤ 2 ^ Z.max 0 e * 2 ^ Z.log2 q) as Hpow.
    { rewrite <-!Z.pow_add_r by lia. apply Z.pow_le_mono_r; lia. }
    pose proof (Hpos e). pose proof (Hpos (- e)). nia. }
  destruct (Z.eq_dec e k) as [->|Hne]; [|destruct (if 0 <=? k then _ else _); lia].
  destruct (Z.leb_spec 0 k).
  - rewrite Z.max_r, Z.max_l, Z.pow_0_r in He by lia. destruct (Z.ltb_spec p (q * 2 ^ k)); lia.
  - rewrite Z.max_l, Z.max_r, Z.pow_0_r in He by lia. destruct (Z.ltb_spec (p * 2 ^ (- k)) q); lia.
Qed.

Lemma binary_exponent_upper p q e :
  0 < p → 0 < q → p * 2 ^ Z.max 0 (- e) < q * 2 ^ Z.max 0 e → binary_exponent p q < e.
Proof.
  intros Hp Hq He. pose proof (binary_exponent_le p q Hp Hq) as Hle.
  apply Z.nle_gt. intros Hge. set (b := binary_exponent p q) in *.
  assert (∀ a, 0 < 2 ^ Z.max 0 a) as Hpos by (intros a; apply Z.pow_pos_nonneg; lia).
  assert (2 ^ Z.max 0 (- b) * 2 ^ Z.max 0 e ≤ 2 ^ Z.max 0 (- e) * 2 ^ Z.max 0 b) as Hpow.
  { rewrite <-!Z.pow_add_r by lia. apply Z.pow_le_mono_r; lia. }
  pose proof (Hpos e). pose proof (Hpos (- e)). pose proof (Hpos b). pose proof (Hpos (- b)). nia.
Qed.

(** A quotient below [2 ^ 52] is rounded to a multiple of the power of two [2 ^ - j]. *)
Definition grid (p q : Z) : Z := - Z.max (binary_exponent p q - 52) (-1074).

Lemma double_pos_dyadic p q :
  binary_exponent p q < 52 → double_pos p q = dyadic (round_half_even (p * 2 ^ grid p q) q) (grid p q).
Proof.
  intros He. unfold double_pos, grid, scaled.
  by destruct (Z.leb_spec 0 (Z.max (binary_exponent p q - 52) (-1074))); [lia|].
Qed.

(** Order against a multiple of a power of two. *)
Lemma fraction_dyadic n j :
  0 ≤ j → ∃ a b, fraction (dyadic n j) = Some (a, b) ∧ a * 2 ^ j = n * Z.pos b.
Proof.
  intros Hj. assert (0 < 2 ^ j) as H2 by (apply Z.pow_pos_nonneg; lia). unfold dyadic.
  assert (0 < Z.gcd n (2 ^ j)) as Hg
    by (pose proof (Z.gcd_nonneg n (2 ^ j)); pose proof (Z.gcd_eq_0_r n (2 ^ j)); lia).
  destruct (Z.gcd_divide_r n (2 ^ j)) as [c Hc], (Z.gcd_divide_l n (2 ^ j)) as [d Hd].
  assert (n / Z.gcd n (2 ^ j) = d) as Hn by (symmetry; apply Z.div_unique_exact; lia).
  assert (2 ^ j / Z.gcd n (2 ^ j) = c) as Hq by (symmetry; apply Z.div_unique_exact; lia).
  assert (0 < c) by nia. destruct (Z.eqb_spec (2 ^ j) (Z.gcd n (2 ^ j))).
  - eexists _, _. split; [reflexivity|]. rewrite Hn. nia.
  - eexists _, _. split; [reflexivity|]. rewrite Hn, Hq, Z2Pos.id by lia. nia.
Qed.

Lemma int_le_dyadic z n j : 0 ≤ j → num_lteb (NumInt z) (dyadic n j) = (z * 2 ^ j <=? n).
Proof.
  intros Hj. destruct (fraction_dyadic n j Hj) as (a & b & Hf & Hab).
  assert (0 < 2 ^ j) as H2 by (apply Z.pow_pos_nonneg; lia).
  assert (num_lteb (NumInt z) (dyadic n j) = (z * Z.pos b <=? a)) as ->.
  { destruct (dyadic n j) as [x|x y| |]; cbn in Hf; try done; injection Hf as <- <-; cbn; [|done].
    by rewrite Z.mul_1_r. }
  destruct (Z.leb_spec (z * Z.pos b) a), (Z.leb_spec (z * 2 ^ j) n); try done; exfalso; nia.
Qed.

Lemma round_double_pos p q : 0 < p → round_double p q = double_pos p (Z.pos q).
Proof. by destruct p. Qed.

Section percentage.
Context (k v : Z) (Hk : 0 < k ≤ v) (Hv : v ≤ 2 ^ 32).

(** The rounded quotient as [n / 2 ^ j]. *)
Let j := grid k v.
Let n := round_half_even (k * 2 ^ j) v.

Lemma quotient_exponent : binary_exponent k v < 1.
Proof using Hk Hv. apply binary_exponent_upper; [lia..|]. change (k * 1 < v * 2). lia. Qed.

Lemma quotient_grid : 52 ≤ j ∧ (k < v → 53 ≤ j).
Proof using Hk Hv.
  unfold j, grid. pose proof quotient_exponent. split; [lia|]. intros Hlt.
  assert (binary_exponent k v < 0) by (apply binary_exponent_upper; [lia..|]; change (k * 1 < v * 1); lia). lia.
Qed.

Lemma quotient_double : num_div (NumInt k) (NumInt v) = dyadic n j.
Proof using Hk Hv.
  unfold num_div. cbn [fraction]. destruct (Z.eqb_spec v 0) as [|_]; [lia|].
  rewrite Z.sgn_pos, Z.abs_eq, Z.mul_1_l, Z.mul_1_r, Pos.mul_1_l by lia.
  rewrite round_double_pos, Z2Pos.id by lia. rewrite double_pos_dyadic; [done|]. pose proof quotient_exponent. lia.
Qed.

Lemma quotient_bound : n ≤ 2 ^ j.
Proof using Hk Hv.
  apply round_half_even_le; [lia|]. assert (0 < 2 ^ j) by (apply Z.pow_pos_nonneg; pose proof quotient_grid; lia).
  nia.
Qed.

(** 0.65 lies above the middle of the two doubles around it. *)
Lemma quotient_ge : 65 * v ≤ 100 * k → (2 * 5854679515581645 - 1) * 2 ^ j ≤ n * 2 ^ 54.
Proof using Hk Hv.
  intros H. pose proof quotient_grid as [Hj1 Hj2].
  destruct (Z.lt_ge_cases j 54) as [Hlt|Hge].
  - assert (j = 52 ∧ k = v ∨ j = 53) as [[Hj Heq]|Hj] by lia.
    + assert (2 ^ 52 ≤ n) by (apply round_half_even_ge; [lia|rewrite Hj; lia]). rewrite Hj. lia.
    + assert (5854679515581645 ≤ n) by (apply round_half_even_half; [lia|rewrite Hj; lia]).
      rewrite Hj. lia.
  - assert (2 ^ j = 2 ^ (j - 54) * 2 ^ 54) as Hp by (rewrite <-Z.pow_add_r by lia; f_equal; lia).
    assert (0 < 2 ^ (j - 54)) by (apply Z.pow_pos_nonneg; lia).
    assert ((2 * 5854679515581645 - 1) * 2 ^ (j - 54) ≤ n) by (apply round_half_even_ge; [lia|nia]).
    rewrite Hp. nia.
Qed.

(** With at most [2 ^ 32] mutants a share below 65 % is well below it. *)
Lemma quotient_le : 100 * k < 65 * v → n * 2 ^ 53 ≤ 5854679515560674 * 2 ^ j.
Proof using Hk Hv.
  intros H. pose proof quotient_grid as [Hj1 Hj2].
  assert (2 ^ j = 2 ^ (j - 53) * 2 ^ 53) as Hp by (rewrite <-Z.pow_add_r by lia; f_equal; lia).
  assert (0 < 2 ^ (j - 53)) by (apply Z.pow_pos_nonneg; lia).
  assert (n ≤ 5854679515560674 * 2 ^ (j - 53)) by (apply round_half_even_le; [lia|nia]).
  rewrite Hp. nia.
Qed.

(** [(k / v) * 100 >= 65] in doubles is [k / v >= 65 / 100]. *)
Lemma percentage_exact_pos :
  num_lteb (NumInt 65) (num_mul (num_div (NumInt k) (NumInt v)) (NumInt 100)) = (65 * v <=? 100 * k).
Proof using Hk Hv.
  rewrite quotient_double. pose proof quotient_grid as [Hj _].
  destruct (fraction_dyadic n j ltac:(lia)) as (a & b & Hf & Hab).
  assert (0 < 2 ^ j) as H2 by (apply Z.pow_pos_nonneg; lia). pose proof quotient_bound as Hb.
  assert (0 < n) as Hn.
  { assert (1 ≤ n); [|lia]. apply round_half_even_ge; [lia|].
    pose proof (Z.pow_le_mono_r 2 52 j ltac:(lia) Hj). nia. }
  assert (0 < a) as Ha by nia.
  unfold num_mul. rewrite Hf. cbn [fraction]. rewrite Pos.mul_1_r.
  rewrite round_double_pos by lia.
  assert (binary_exponent (a * 100) (Z.pos b) < 7) as He.
  { apply binary_exponent_upper; [lia..|]. change (a * 100 * 1 < Z.pos b * 128). nia. }
  rewrite double_pos_dyadic by lia. set (j2 := grid (a * 100) (Z.pos b)).
  assert (46 ≤ j2) as Hj2 by (unfold j2, grid; lia).
  rewrite int_le_dyadic by lia.
  assert (2 ^ j2 = 2 ^ (j2 - 46) * 2 ^ 46) as Hp by (rewrite <-Z.pow_add_r by lia; f_equal; lia).
  assert (0 < 2 ^ (j2 - 46)) by (apply Z.pow_pos_nonneg; lia).
  destruct (Z.leb_spec (65 * v) (100 * k)) as [Hge|Hlt].
  - apply Z.leb_le. pose proof (quotient_ge Hge) as Hq.
    assert (6 ≤ binary_exponent (a * 100) (Z.pos b)) as H6.
    { apply binary_exponent_lower; [lia..|]. change (Z.pos b * 64 ≤ a * 100 * 1). nia. }
    assert (j2 = 46) as Ej by (unfold j2, grid; lia). rewrite Ej.
    apply round_half_even_half; [lia|]. nia.
  - apply Z.leb_gt. pose proof (quotient_le Hlt) as Hq.
    enough (round_half_even (a * 100 * 2 ^ j2) (Z.pos b) ≤ 65 * 2 ^ j2 - 1) by lia.
    apply round_half_even_le; [lia|]. rewrite Hp. nia.
Qed.
End percentage.

(** The percentage of [k] out of [v] reaches 65 exactly when it does in exact arithmetic. *)
Lemma percentage_exact k v :
  0 ≤ k ≤ v → 0 < v ≤ 2 ^ 32 →
  num_lteb (NumInt 65) (num_mul (num_div (NumInt k) (NumInt v)) (NumInt 100)) = (65 * v <=? 100 * k).
Proof.
  intros Hk Hv. destruct (Z.eq_dec k 0) as [->|Hne]; [|apply percentage_exact_pos; lia].
  unfold num_div. cbn [fraction]. destruct (Z.eqb_spec v 0) as [|_]; [lia|]. rewrite Z.mul_0_r.
  destruct (Z.leb_spec (65 * v) (100 * 0)); [lia|]. reflexivity.
Qed.

(** ** Tallies *)

Definition tally_nonneg (t : Tally) : Prop :=
  0 ≤ killed t ∧ 0 ≤ timeout t ∧ 0 ≤ survived t ∧ 0 ≤ noCoverage t.

Lemma tally_add_nonneg a b : tally_nonneg a → tally_nonneg b → tally_nonneg (tally_add a b).
Proof. unfold tally_nonneg. cbn. lia. Qed.

Lemma tally_status_nonneg v : tally_nonneg (tally_status v).
Proof. unfold tally_status, tally_nonneg. destruct v; cbn; try lia. repeat case_bool_decide; cbn; lia. Qed.

Lemma no_mutants_nonneg : tally_nonneg no_mutants.
Proof. by repeat split. Qed.

#[local] Hint Resolve tally_add_nonneg tally_status_nonneg no_mutants_nonneg : umbra.

Lemma result_bind_ok {E A B} (m : result E A) (f : A → result E B) b :
  m ≫= f = Ok b → ∃ a, m = Ok a ∧ f a = Ok b.
Proof. destruct m as [a|]; [|done]. intros H. by exists a. Qed.

Lemma tally_list_nonneg ms t : tally_list ms = Ok t → tally_nonneg t.
Proof.
  revert t. induction ms as [|m ms IH]; intros t; cbn; [intros [= <-]; auto with umbra|].
  intros (s & _ & (r & Hr & [= <-])%result_bind_ok)%result_bind_ok. auto with umbra.
Qed.

Lemma tally_files_nonneg fs t : tally_files fs = Ok t → tally_nonneg t.
Proof.
  revert t. induction fs as [|f fs IH]; intros t; cbn; [intros [= <-]; auto with umbra|].
  intros (t1 & H1 & (t2 & H2 & [= <-])%result_bind_ok)%result_bind_ok.
  apply tally_add_nonneg; [|by apply IH]. unfold tally_file in H1.
  apply result_bind_ok in H1 as (v & _ & (ms & _ & H1)%result_bind_ok). by eapply tally_list_nonneg.
Qed.

Lemma read_report_nonneg text t : read_report text = Some t → tally_nonneg t.
Proof.
  unfold read_report. destruct (JSON_parse text) as [v|]; [|done].
  destruct (tallyMutants v) as [t'|] eqn:H; [|done]. intros [= <-].
  unfold tallyMutants in H. apply result_bind_ok in H as (fs & _ & H). by eapply tally_files_nonneg.
Qed.

Definition sum_tallies (ts : list Tally) : Tally := foldr tally_add no_mutants ts.

Lemma sum_tallies_cons t ts : sum_tallies (t :: ts) = tally_add t (sum_tallies ts).
Proof. done. Qed.

Lemma valid_add a b : valid (tally_add a b) = valid a + valid b.
Proof. unfold valid. cbn. lia. Qed.

Lemma sum_tallies_nonneg ts : Forall tally_nonneg ts → tally_nonneg (sum_tallies ts).
Proof. induction 1; cbn; auto with umbra. Qed.

Lemma sum_tallies_positive ts :
  Forall (λ t, 0 < valid t) ts → ts ≠ [] → 0 < valid (sum_tallies ts).
Proof.
  intros Hts Hne. destruct Hts as [|t ts Ht Hts]; [done|]. rewrite sum_tallies_cons, valid_add.
  enough (0 ≤ valid (sum_tallies ts)) by lia. clear Hne.
  induction Hts as [|t' ts Ht' _ IH]; [done|]. rewrite sum_tallies_cons, valid_add. lia.
Qed.

(** A report as Stryker writes it: files with their mutants, each with a status. *)
Definition mutant_of (status : jsstr) : jsval := JObj [(js "status", JStr status)].
Definition file_of (statuses : list jsstr) : jsval :=
  JObj [(js "mutants", JArr (mutant_of <$> statuses))].
Definition report_of (files : list (jsstr * list jsstr)) : jsval :=
  JObj [(js "files", JObj (prod_map id file_of <$> files))].

Definition counted (name : string) (statuses : list jsstr) : Z :=
  Z.of_nat (length (filter (λ s, s = js name) statuses)).

Lemma counted_app name l1 l2 : counted name (l1 ++ l2) = counted name l1 + counted name l2.
Proof. unfold counted. rewrite filter_app, length_app. lia. Qed.

(** The tally counts the mutants of each status over all files, and everything else as excluded. *)
Definition tally_of (statuses : list jsstr) : Tally :=
  {| killed := counted "Killed" statuses; timeout := counted "Timeout" statuses;
     survived := counted "Survived" statuses; noCoverage := counted "NoCoverage" statuses;
     excluded := Z.of_nat (length statuses) - counted "Killed" statuses - counted "Timeout" statuses
                 - counted "Survived" statuses - counted "NoCoverage" statuses |}.

Lemma tally_of_app l1 l2 : tally_of (l1 ++ l2) = tally_add (tally_of l1) (tally_of l2).
Proof.
  unfold tally_of, tally_add. cbn [killed timeout survived noCoverage excluded].
  rewrite !counted_app, length_app, Nat2Z.inj_add. f_equal; ring.
Qed.

Lemma tally_of_one s : tally_of [s] = tally_status (JStr s).
Proof.
  unfold tally_of, tally_status, counted. repeat case_bool_decide; subst; try reflexivity.
  rewrite !filter_cons_False by done. reflexivity.
Qed.

Lemma tally_list_mutant status ms :
  tally_list (mutant_of status :: ms) =
    rest ← tally_list ms; Ok (tally_add (tally_status (JStr status)) rest).
Proof. reflexivity. Qed.

Lemma tally_file_of statuses : tally_file (file_of statuses) = Ok (tally_of statuses).
Proof.
  change (tally_file (file_of statuses)) with (tally_list (mutant_of <$> statuses)).
  induction statuses as [|s statuses IH]; [reflexivity|].
  rewrite fmap_cons, tally_list_mutant, IH. cbn [mbind result_bind].
  by rewrite <-tally_of_one, <-tally_of_app.
Qed.

Lemma tallyMutants_report files :
  tallyMutants (report_of files) = Ok (tally_of (concat files.*2)).
Proof.
  change (tallyMutants (report_of files)) with (tally_files ((prod_map id file_of <$> files).*2)).
  induction files as [|[name statuses] files IH]; [reflexivity|].
  rewrite !fmap_cons. cbn [tally_files prod_map id fst snd concat].
  rewrite tally_file_of, IH. cbn [mbind result_bind]. by rewrite tally_of_app.
Qed.

(** ** The gate *)

Section gate.
Context `{HStryker : !Stryker}.

(** Evidence from every adapter, in order: its own run, which finds no earlier report, exits with 0
    and leaves a report with at least one valid mutant. *)
Fixpoint evidence (n : nat) (files : list jsstr) (ts : list Tally) : Prop :=
  match files, ts with
  | [], [] => True
  | file :: files', t :: ts' =>
      (∃ text, stryker_run n file None = (Some 0, Some text) ∧ read_report text = Some t ∧ 0 < valid t)
      ∧ evidence (S n) files' ts'
  | _, _ => False
  end.

Lemma evidence_facts n files ts :
  evidence n files ts →
  Forall tally_nonneg ts ∧ Forall (λ t, 0 < valid t) ts ∧ (ts = [] ↔ files = []).
Proof.
  revert n ts. induction files as [|f files IH]; intros n [|t ts]; cbn; try done.
  intros [(text & _ & Hr & Hv) He]. destruct (IH _ _ He) as (? & ? & _).
  split_and!; [constructor; [by eapply read_report_nonneg|done]|by constructor|done].
Qed.

Definition adapter_evidence (n : nat) (file : jsstr) (t : Tally) : Prop :=
  ∃ text, stryker_run n file None = (Some 0, Some text) ∧ read_report text = Some t ∧ 0 < valid t.

Lemma gate_adapter_ok n file report t :
  adapter_evidence n file t → gate_adapter (run_adapter n file report).1 = ([], t).
Proof.
  intros (text & Hrun & Hread & Hv). unfold run_adapter. rewrite Hrun. cbn. rewrite Hread.
  unfold gate_adapter. cbn. by destruct (Z.eqb_spec (valid t) 0); [lia|].
Qed.

Lemma gate_adapter_evidence n file report :
  (gate_adapter (run_adapter n file report).1).1 = [] → ∃ t, adapter_evidence n file t.
Proof.
  unfold run_adapter, adapter_evidence, gate_adapter.
  destruct (stryker_run n file None) as [status [text|]]; cbn; [|by destruct (_ =? 0)].
  destruct (read_report text) as [t|] eqn:Hr; cbn; [|by destruct (_ =? 0)].
  destruct (read_report_nonneg _ _ Hr) as (Hk & Ht & Hs0 & Hn).
  destruct (Z.eqb_spec (valid t) 0) as [_|Hne]; cbn; [by destruct (_ =? 0)|].
  destruct (Z.eqb_spec (default 1 status) 0) as [Hs|Hs]; cbn; [|done].
  intros _. exists t, text. unfold valid in *. split_and!; [|done|lia].
  destruct status; cbn in Hs; by simplify_eq.
Qed.

Lemma gate_adapters_evidence n files report :
  let gated := gate_adapters (run_adapters n files report).1 in
  (gated.1 = [] → ∃ ts, evidence n files ts) ∧
  (∀ ts, evidence n files ts → gated = ([], sum_tallies ts)).
Proof.
  revert n report. induction files as [|f files IH]; intros n report; cbn.
  { split; [by exists []|]. by intros [|??]. }
  pose proof (gate_adapter_evidence n f report) as Hone.
  pose proof (gate_adapter_ok n f report) as Hok.
  destruct (run_adapter n f report) as [r report1]. cbn in Hone, Hok.
  specialize (IH (S n) report1). cbn in IH.
  destruct (run_adapters (S n) files report1) as [rs report2]. cbn in *.
  destruct (gate_adapter r) as [f1 t1], (gate_adapters rs) as [f2 t2]. cbn in *.
  destruct IH as [IH1 IH2]. split.
  - intros [-> ->]%app_nil. destruct (Hone eq_refl) as [t Ht], (IH1 eq_refl) as [ts Hts].
    by exists (t :: ts).
  - intros [|t ts]; [done|]. intros [Ht Hts]. pose proof (Hok t Ht) as [= -> ->].
    by pose proof (IH2 ts Hts) as [= -> ->].
Qed.

(** The tallies of the adapters' own runs. *)
Definition accepted (env : GateEnv) (conf : StrykerConf) : Prop := override_refused env conf = false.

Lemma mutation_main_outcome env conf report ts :
  conf_break conf = NumInt 65 → accepted env conf →
  evidence 0 (selected_adapters env conf) ts → ts ≠ [] → valid (sum_tallies ts) ≤ 2 ^ 32 →
  mutation_main env conf report =
    if 65 * valid (sum_tallies ts) <=? 100 * (killed (sum_tallies ts) + timeout (sum_tallies ts))
    then 0 else 1.
Proof.
  intros Hbreak Hacc Hev Hne Hmax. unfold mutation_main. rewrite Hacc, Hbreak. unfold gateAdapters.
  destruct (gate_adapters_evidence 0 (selected_adapters env conf) report) as [_ H].
  rewrite (H ts Hev). destruct (evidence_facts _ _ _ Hev) as (Hnn & Hpos & _).
  pose proof (sum_tallies_positive ts Hpos Hne). pose proof (sum_tallies_nonneg ts Hnn) as (? & ? & ? & ?).
  destruct (Z.eqb_spec (valid (sum_tallies ts)) 0); [lia|]. cbn. unfold aggregate_of.
  rewrite percentage_exact; [by destruct (_ <=? _)|unfold valid in *; lia|lia].
Qed.

Lemma mutation_main_no_evidence env conf report :
  (∀ ts, evidence 0 (selected_adapters env conf) ts → ts = []) → mutation_main env conf report = 2.
Proof.
  intros Hno. unfold mutation_main. destruct (override_refused env conf); [done|]. unfold gateAdapters.
  destruct (gate_adapters_evidence 0 (selected_adapters env conf) report) as [H1 H2].
  destruct (gate_adapters _) as [[|f fs] total]; [|done]. cbn in *.
  destruct (H1 eq_refl) as [ts Hts]. pose proof (Hno ts Hts) as ->.
  pose proof (H2 [] Hts) as [= ->]. done.
Qed.
(** Either the run is refused, or some adapter has no evidence, or all have. *)
Lemma evidence_unique n files ts ts' : evidence n files ts → evidence n files ts' → ts = ts'.
Proof.
  revert n ts ts'. induction files as [|f files IH]; intros n [|t ts] [|t' ts']; cbn; try done.
  intros [(text & Hrun & Hread & _) He] [(text' & Hrun' & Hread' & _) He'].
  f_equal; [congruence|by eapply IH].
Qed.

Lemma evidence_dec n files : (∃ ts, evidence n files ts) ∨ (∀ ts, ¬ evidence n files ts).
Proof.
  destruct (gate_adapters_evidence n files None) as [H1 H2].
  destruct (gate_adapters _).1 as [|f fs] eqn:E; [left; by apply H1|right].
  intros ts Hts. by rewrite (H2 ts Hts) in E.
Qed.

Lemma mutation_main_refused env conf report : ¬ accepted env conf → mutation_main env conf report = 2.
Proof.
  unfold accepted, mutation_main. by destruct (override_refused env conf).
Qed.
End gate.

(** ** The override in CI *)

Lemma same_set_spec committed selected :
  same_set committed selected = true ↔ ∀ a, a ∈ committed ↔ a ∈ selected.
Proof.
  unfold same_set. set (c := list_to_set committed : gset jsstr). set (s := list_to_set selected : gset jsstr).
  assert (c = s ↔ ∀ a, a ∈ committed ↔ a ∈ selected) as <-
    by (rewrite set_eq; unfold c, s; by setoid_rewrite elem_of_list_to_set).
  rewrite andb_true_iff, forallb_forall, Nat.eqb_eq. split; [|intros ->; split; [done|]].
  - intros [Hsize Hsub]. apply set_subseteq_size_eq; [|lia]. intros a Ha.
    apply elem_of_elements, list_elem_of_In, Hsub in Ha. by apply bool_decide_eq_true in Ha.
  - intros a Ha%list_elem_of_In. apply bool_decide_eq_true. by apply elem_of_elements.
Qed.

Lemma accepted_spec env conf :
  accepted env conf ↔
    (is_ci env = true → is_Some (env_MUTATION_ADAPTERS env) →
     ∀ a, a ∈ trimmed (conf_mutate conf) ↔ a ∈ selected_adapters env conf).
Proof.
  unfold accepted, override_refused. rewrite <-same_set_spec.
  destruct (is_ci env), (env_MUTATION_ADAPTERS env) as [x|], (same_set _ _); cbn; try (naive_solver done).
Qed.

(** ** The theorem *)

Section claims.
Context `{HStryker : !Stryker}.

(** Whether the set of adapters is the one to run: in CI an override names exactly the committed
    ones. *)
Definition full_scope (env : GateEnv) (conf : StrykerConf) : Prop :=
  is_ci env = true → is_Some (env_MUTATION_ADAPTERS env) →
  ∀ a, a ∈ trimmed (conf_mutate conf) ↔ a ∈ selected_adapters env conf.

(** C39. What the exit status of the mutation gate says, at the committed threshold of 65 and with up
    to [2 ^ 32] mutants. It is 0 exactly when the set of adapters is the one to run, there is one,
    every adapter's own run of Stryker exited with 0 and left a parseable report with at least one
    valid mutant, and killed and timed-out mutants are at least 65 percent of the valid ones in exact
    arithmetic, although the percentage is computed with doubles; it is 1 exactly when only the
    percentage is short, and 2 in every other case. A report left from before a run, absent evidence
    and an empty set of adapters never count. *)
Theorem mutation_gate_exit env conf report :
  conf_break conf = NumInt 65 →
  (∀ ts, evidence 0 (selected_adapters env conf) ts → valid (sum_tallies ts) ≤ 2 ^ 32) →
  let score ts := 100 * (killed (sum_tallies ts) + timeout (sum_tallies ts)) in
  (mutation_main env conf report = 0 ↔ full_scope env conf ∧ ∃ ts,
     evidence 0 (selected_adapters env conf) ts ∧ ts ≠ [] ∧ 65 * valid (sum_tallies ts) ≤ score ts) ∧
  (mutation_main env conf report = 1 ↔ full_scope env conf ∧ ∃ ts,
     evidence 0 (selected_adapters env conf) ts ∧ ts ≠ [] ∧ score ts < 65 * valid (sum_tallies ts)) ∧
  (mutation_main env conf report = 2 ↔ ¬ full_scope env conf ∨
     ∀ ts, evidence 0 (selected_adapters env conf) ts → ts = []).
Proof.
  intros Hbreak Hmax score. unfold full_scope. rewrite <-(accepted_spec env conf).
  destruct (decide (override_refused env conf = false)) as [Hacc|Hacc]; cycle 1.
  { rewrite (mutation_main_refused env conf report Hacc). unfold accepted. naive_solver. }
  destruct (evidence_dec 0 (selected_adapters env conf)) as [[ts Hev]|Hno]; cycle 1.
  { rewrite (mutation_main_no_evidence env conf report) by (intros ts Hts; by destruct (Hno ts)).
    naive_solver. }
  assert (∀ ts', evidence 0 (selected_adapters env conf) ts' → ts' = ts) as Huniq
    by (intros ts' Hts'; by eapply evidence_unique).
  destruct (decide (ts = [])) as [Hnil|Hne].
  { rewrite (mutation_main_no_evidence env conf report) by (intros ts' Hts'; by rewrite (Huniq ts')).
    split_and!; (split; [done || (intros _; right; naive_solver)|naive_solver]). }
  rewrite (mutation_main_outcome env conf report ts Hbreak Hacc Hev Hne (Hmax ts Hev)). unfold score.
  destruct (Z.leb_spec (65 * valid (sum_tallies ts))
              (100 * (killed (sum_tallies ts) + timeout (sum_tallies ts)))) as [Hle|Hlt];
    split_and!; split; try done.
  - intros _. split; [done|]. by exists ts.
  - intros (_ & ts' & Hts' & _ & Hlt). rewrite (Huniq ts' Hts') in Hlt. lia.
  - intros [Hn|Hn]; [done|]. by destruct Hne; apply Hn.
  - intros (_ & ts' & Hts' & _ & Hle). rewrite (Huniq ts' Hts') in Hle. lia.
  - intros _. split; [done|]. by exists ts.
  - intros [Hn|Hn]; [done|]. by destruct Hne; apply Hn.
Qed.
End claims.

Module GateDemo.

(** Two adapters with 13 of 20 and 2 of 2 mutants killed; a report is left on disk from before. *)
Definition demo_report (statuses : list jsstr) : jsstr :=
  js "{" ++ quote (js "files") ++ js ": {" ++ quote (js "a.ts") ++ js ": {" ++ quote (js "mutants")
  ++ js ": [" ++ join_comma ((λ s, js "{" ++ quote (js "status") ++ js ": " ++ quote s ++ js "}") <$> statuses)
  ++ js "]}}}".

#[export] Instance demo_stryker : Stryker := {|
  stryker_run n _ _ :=
    (Some 0, Some (demo_report (if (n =? 0)%nat
       then replicate 13 (js "Killed") ++ replicate 7 (js "Survived") ++ [js "CompileError"]
       else [js "Killed"; js "Timeout"]))) |}.

Definition demo_conf : StrykerConf := {| conf_mutate := [js "a.ts"; js "b.ts"]; conf_break := NumInt 65 |}.
Definition demo_env : GateEnv := {| env_MUTATION_ADAPTERS := None; env_CI := Some (js "true") |}.
Definition demo_tallies : list Tally :=
  [{| killed := 13; timeout := 0; survived := 7; noCoverage := 0; excluded := 1 |};
   {| killed := 1; timeout := 1; survived := 0; noCoverage := 0; excluded := 0 |}].

Lemma demo_evidence : evidence 0 (selected_adapters demo_env demo_conf) demo_tallies.
Proof.
  assert (selected_adapters demo_env demo_conf = [js "a.ts"; js "b.ts"]) as -> by (vm_compute; reflexivity).
  split; [|split; [|exact I]];
    (eexists; split; [reflexivity|split; [vm_compute; reflexivity|vm_compute; reflexivity]]).
Qed.

Lemma mutation_gate_exit_witness :
  mutation_main demo_env demo_conf (Some (js "stale")) = 0 ∧
  ∃ ts, evidence 0 (selected_adapters demo_env demo_conf) ts ∧ ts ≠ [] ∧
    65 * valid (sum_tallies ts) ≤ 100 * (killed (sum_tallies ts) + timeout (sum_tallies ts)).
Proof.
  assert (mutation_main demo_env demo_conf (Some (js "stale")) = 0) as H0 by (vm_compute; reflexivity).
  split; [exact H0|].
  refine (proj2 (proj1 (proj1 (mutation_gate_exit demo_env demo_conf (Some (js "stale")) eq_refl _)) H0)).
  intros ts Hts. rewrite (evidence_unique _ _ _ _ Hts demo_evidence). vm_compute. discriminate.
Defined.

End GateDemo.

(** ** The conformance gate *)

(** The gate exits with 0 exactly when vitest exited with 0, left a report, and the checker exited
    with 0. *)
Theorem conformance_exit_zero vitest report_exists check :
  conformance_exit vitest report_exists check = 0 ↔
    vitest = Some 0 ∧ report_exists = true ∧ check = Some 0.
Proof.
  unfold conformance_exit, status_or.
  destruct vitest as [v|], report_exists, check as [c|]; cbn;
    try destruct (Z.eqb_spec v 0) as [->|Hv];
    split; intros H; try destruct H as (H1 & H2 & H3); try discriminate; simplify_eq; done.
Qed.
